(* ===== verification/_CoqProject ===== *)
-Q . S2P
Prelude.v
TopN.v
Wire.v
Text.v
Float.v
Ids.v
Runtime.v
Config.v
Metrics.v
Mailbox.v
Registry.v
Events.v
Connection.v
Rooms.v
Limits.v
Addr.v
Identity.v
Broadcast.v
BroadcastLinear.v
Frame.v
Handshake.v
PeerQueue.v
Link.v
Swim.v
Secrets.v
MeshWire.v
MembershipSync.v
ProtoSwim.v
ProtoRelay.v
ProtoNode.v
Interact.v
ProtoCoordinator.v
Interest.v
Probe.v
MeshNode.v
MeshRun.v
Cluster.v
Engine.v
EndToEnd.v
Transport.v
Telemetry.v
Bridge.v
ProtoBridge.v
ProtoAttach.v
Binding.v
