(* ===== verification/Prelude.v ===== *)
(** * BeamSocket: a verification development of the Rust data plane

    BeamSocket is a WebSocket server for Node.js whose data plane is written in
    Rust.  This library models that data plane (crates/core, crates/mesh and
    crates/node under src/) as executable definitions and proves the properties
    that make it correct; it also models the prototypes the data plane grew out of
    (src/spike) and relates them to it.

    ** The program

    - crates/node: the napi surface ([BeamEngine], binding.rs) and the bridge that
      batches engine events into flushes for JS (bridge.rs).
    - crates/core: the engine (engine.rs) over the shared tables: connections in a
      sharded slab registry, rooms, users, metrics.  An upgrade passes the
      admission gate (limits.rs) inside the WebSocket handshake
      (transport/websocket.rs) or in [attach], then the authorizer (identity.rs),
      then runs as one task per connection (connection/mod.rs) with a bounded send
      queue (connection/backpressure.rs).  Broadcasts fan out over the tables
      (broadcast.rs); cluster.rs relays them to other nodes.
    - crates/mesh: authenticated links between nodes (frame.rs, hello.rs,
      handshake.rs, link.rs, queue.rs), SWIM membership (swim.rs, probe.rs,
      membership_sync.rs), interest routing (interest.rs) and the node that ties
      them together (node.rs).
    - spike: the experiments behind the design documents.  spike/mesh is a SWIM
      membership with relay links and an admin port, spike/bridge-core and
      spike/bridge-node compare three ways of carrying events to JS, spike/attach
      tries the hand-over of a socket descriptor.

    ** The library

    Foundations.  [Prelude]: notations, tactics, the hint database, machine-width
    arithmetic and lemmas on lists.  [TopN]: the bounded heap of the top-N reports,
    over a ranking class.  [Wire]: byte-order codecs, range reads, UTF-8.  [Text]:
    decimal printing with its reader, lossy UTF-8.  [Float]: binary64 on the
    Standard Library's SpecFloat, with the saturating casts, the exact conversion
    below 2^53 and the interchange bits.  [Addr]: the parser and printer of socket
    addresses.  [Runtime]: classes
    for what the program uses of its crates, the bounded channel ([Mpsc]) and the
    slab ([Slab]), with the instances the witnesses run on.  [Interact]: programs as
    interaction trees, with the runs a world allows, Hoare rules for them and a
    bound on their interactions.

    Core.  [Ids] (ids.rs), [Config] (config.rs), [Metrics] (metrics.rs), [Mailbox]
    (connection/backpressure.rs), [Registry] (connection/registry.rs), [Events]
    (events.rs), [Connection] (connection/mod.rs: [run_connection] as a step
    relation of reader, writer and commands), [Rooms] (rooms.rs, presence.rs, whole
    operations and their halves interleaved), [Limits] (limits.rs and
    [Config::validate]), [Identity] (identity.rs), [Broadcast] (broadcast.rs),
    [BroadcastLinear] (the frozen reference of the benchmarks), [Cluster]
    (cluster.rs, over the class [Mesh] that [MeshNode] implements), [Engine]
    (engine.rs: its commands and [run_admitted], both as whole operations and one
    access to the shared tables at a time, the drain sweeps, the reports, and the
    step relation [eng_step] that interleaves those accesses), [Transport]
    (transport/ and the listener and set-up tasks of engine.rs), [Telemetry]
    (sampler.rs, the gauges and [metrics_text]).  [EndToEnd] wires two nodes
    together: [Cluster::start] with its relay handler, the hooks of a link, and a
    broadcast followed from a verb on one node to the connections of another.

    Mesh.  [Frame] (frame.rs, hello.rs), [Handshake] (handshake.rs, config.rs,
    crypto.rs), [PeerQueue] (queue.rs, counters.rs), [Link] (link.rs), [Swim]
    (swim.rs), [Secrets] (the nonces of crypto.rs, the seed of swim.rs's generator and
    the redacted text of a configuration), [MeshWire] (shared field codecs), [MembershipSync]
    (membership_sync.rs), [Interest] (interest.rs), [Probe] (probe.rs), [MeshNode]
    (node.rs), [MeshRun] (the bind loop, the tasks of node.rs and of its links, and
    its callers, as the steps of one relation).

    Node.  [Bridge] (bridge.rs, buffers.rs, the id conversions), [Binding]
    (binding.rs: configuration, every method of [BeamEngine], the close task and
    the descriptor hand-over).

    Prototypes.  [ProtoSwim] (spike/mesh: swim.rs and the parameters, ports and
    reservoir of lib.rs), [ProtoRelay] (relay.rs), [ProtoNode] (bin/node.rs),
    [ProtoCoordinator] (bin/coordinator.rs, an interaction tree whose world holds
    the nodes of [ProtoNode]), [ProtoBridge] (bridge-core and bridge-node), [ProtoAttach] (attach).

    A component's state is a record, its operations are functions from state to
    result and state, and what other threads, timers, sockets and the network do
    is an input or a constructor of a step relation.  A shared counter or table is
    one value that every step reads and writes; an operation that takes a lock
    twice is split where another thread can run in between, when a theorem is
    about that interleaving.  Unsigned integers are [Z] with [wrap] at their
    width; strings are their UTF-8 bytes; durations are milliseconds.

    ** What the theorems show

    - The engine ([Engine], [Transport], [Binding]): over every interleaving of
      admissions, the accesses of the connection tasks, the two halves of join and
      leave, commands and relays, the tables agree with the running tasks, and
      nothing is left behind at the end.  A room or user is advertised exactly when
      it is hosted, once no task or command is between its table update and its
      interest update, unless two such updates of that same room or user ever
      overlapped or an administrator closed the room; the lemmas of the findings
      show that neither exception can be dropped.  Every failure of the handshake
      leaves no slot charged.  Each JS call is the engine operation of its name with
      that operation's answer, or its fixed answer when the engine is gone; close
      and shutdown take the engine, and it never comes back.  A configuration from
      JS is within its Rust types whatever numbers JS passed.
    - Queues ([Mailbox], [Events], [PeerQueue], [Bridge]): bounds, order, exact
      drop counts, no lost wake-up, control events never dropped while the receiver
      lives, messages dropped only when the queue is full or the receiver is gone,
      every accepted event flushed to JS once and in order, with the flush timer
      armed once per batch and due one interval after the greedy drain.
    - Connections ([Connection]): one Opened and one Closed event around the
      messages, the close frame is last, the first close wins, the writer ends, a
      silent peer is detected within two ping intervals and the pong timeout.
    - Tables ([Registry], [Rooms], [Identity], [Limits]): the registry refines a
      map and a stale id never resolves; membership stays two-sided and converges
      after interleaved joins and leaves; the per-address cap and the authorizer's
      table hold under concurrency, and a call of the authorizer returns the answer
      JS gave to that call's own request; forwarded addresses cannot be spoofed
      past a proxy that is trusted (the mode that trusts every hop takes the
      client's word, as documented).
    - Fan-out ([Broadcast], [BroadcastLinear], [Cluster], [EndToEnd]): exactly the
      audience less the exclusions, equal to the linear reference; a sequence of
      relays is the same sequence of fan-outs on the receiving node, from the verbs
      over the links' bytes to the other node's connections.
    - Mesh: frames and payloads read back as they were written ([Frame],
      [Cluster.mesh_payloads_roundtrip]; strings and counts below 65536), the
      handshake authenticates the initiator and its HELLO, up to bytes appended on
      the way, and completes, links carry frames faithfully, the membership merge leaves the
      greatest fact told, in any order, and heals through push-pull, interest
      digests heal a view that is behind its origin, a forged probe packet changes
      a counter only, and so does a replayed PING or PING-REQ, and a second ACK of a
      number changes nothing within one run of the node, a probe cycle
      suspects its target exactly when no ACK with its number arrived in time, a
      relay takes one hop; over every interleaving of the node's tasks the link
      table is sound, nothing is routed back to the node, and the links still up
      after a shutdown are those whose registration was in flight and those that
      left the table while open ([MeshRun]); the
      fallback nonce does not repeat short of a SHA-256 collision, the probe
      generator never reaches its fixed point, and a printed configuration depends
      on the secret through its length only ([Secrets]).
    - Telemetry: the Prometheus text reads back to the exact counters.
    - Prototypes: the prototype's member table is the production table after the
      corresponding operations, for every sequence of datagrams and probe steps,
      and two islands that evicted each other re-merge through two joins
      ([ProtoSwim]); the byte cap holds between a pusher and the writer, a link
      ends closed or leaves the peer registered exactly when a short frame panics
      its reader ([ProtoRelay]); a publish goes to the peers that advertised the
      room ([ProtoNode]); a passing verdict of the partition scenario means that
      the islands formed and healed, whatever the nodes did between the driver's
      requests, and its polling ends ([ProtoCoordinator]); all three bridge designs deliver the accepted events in
      order and once, and the reported pressure is exact and bounded
      ([ProtoBridge]); the replaying stream is the production one ([ProtoAttach]).

    Lemmas named in the manifest's findings exhibit behaviour that differs from
    what the code or its comments say.

    ** Fuel and bounds

    Recursion is structural where the code's loop is over data.  Where it is not,
    the fuel is a bound proved or evident to suffice: the length of the text for
    [Limits.trim_start], the length of the list for [Broadcast.search] (the
    interval shrinks each round), the bits of the number for [Text.digits], the
    number of frames of a handshake for [Link.handshake_loop] (the theorem gives
    enough), the rounds of [Connection.silent] (the theorem gives their number),
    the bytes left for [ProtoRelay.reader_loop] (a turn consumes at least four).
    A polling loop of [ProtoCoordinator] is an [ITree.iter] without fuel;
    [wait_converged_ends] bounds its interactions by the nodes and the timeout.
    Counters wrap at 64 bits, the limiter at 32, as in a release build; theorems
    that need a bound state it ([Registry.has_room], request ids below 2^64).

    ** Parameters

    Code outside the repository is a parameter with the documented laws used of it:
    the slab and channel ([Runtime]), CIDR networks (ipnet), HMAC, SHA-256 and
    random bytes, tungstenite's codec, close codes and accept key, [f64::exp] and the
    text of a float, napi and the operating system's answers, serde_json (a datagram
    or request is the value it decodes to) and rand (a draw or a shuffle is an
    argument).  The hasher of the
    registry's shards and maps is irrelevant to the statements.

    ** Not modelled

    The Tokio runtime and thread scheduling (any interleaving is allowed instead),
    the cancellation of the accept future by the runtime's end, the status napi
    returns from the call that hands a batch to JS (a delivered batch is delivered),
    the interleaving inside one JS call (a call is one step of [Binding]; the
    engine's own interleavings are [Engine]'s, those inside a membership change
    [Rooms]'), TCP and UDP sockets beyond the bytes they carry, memory allocation, logging,
    the TypeScript SDK, [Display] texts of errors that no code reads back,
    src/benchmarks and the timing loops of crates/core/benches, whose exclusion
    strategies and fan-out reference are modelled.  The theorems that compare the
    prototype's table with the production one take IPv4 addresses, the only ones
    its nodes bind. *)

From stdpp Require Export base decidable option list gmap gmultiset sorting strings.
From Stdlib Require Export ZArith Lia.

#[export] Set Default Goal Selector "!".

Open Scope Z_scope.

(** ** Notations *)

(** A Rust [u8] is a [Z]; a [Vec<u8>], [&[u8]], [Bytes] or the bytes of a
    [String] is a list of them.  [byte_ok] states that a value is in range. *)
Abbreviation bytes := (list Z).
(** A Rust [String] is its UTF-8 bytes (see [Wire.utf8_valid]). *)
Abbreviation rstring := (list Z).

Declare Scope beam_scope.
Delimit Scope beam_scope with beam.

(** ** Tactics *)

(** Case analysis on the innermost [match] or [if] of a hypothesis or goal. *)
Ltac break_match :=
  match goal with
  | |- context [match ?e with _ => _ end] =>
      lazymatch e with context [match _ with _ => _ end] => fail | _ => destruct e eqn:? end
  end.

Ltac break_match_hyp H :=
  match type of H with
  | context [match ?e with _ => _ end] =>
      lazymatch e with context [match _ with _ => _ end] => fail | _ => destruct e eqn:? end
  end.

(** Turn the boolean comparisons in the context into arithmetic facts. *)
Ltac bool_facts :=
  repeat match goal with
  | H : (_ <? _) = true |- _ => apply Z.ltb_lt in H
  | H : (_ <? _) = false |- _ => apply Z.ltb_ge in H
  | H : (_ <=? _) = true |- _ => apply Z.leb_le in H
  | H : (_ <=? _) = false |- _ => apply Z.leb_gt in H
  | H : (_ =? _) = true |- _ => apply Z.eqb_eq in H
  | H : (_ =? _) = false |- _ => apply Z.eqb_neq in H
  | H : (_ && _) = true |- _ => apply andb_prop in H; destruct H
  | H : bool_decide _ = true |- _ => apply bool_decide_eq_true in H
  | H : bool_decide _ = false |- _ => apply bool_decide_eq_false in H
  | H : negb _ = true |- _ => apply negb_true_iff in H
  | H : negb _ = false |- _ => apply negb_false_iff in H
  end.

(** Arithmetic after the boolean tests have been turned into facts. *)
Ltac blia := bool_facts; lia.

(** ** Hint databases *)

(** [beam] holds the invariant-preservation lemmas of the components. *)
Create HintDb beam discriminated.

(** ** Machine-width arithmetic *)

(** [wrap w z] is [z] reduced to [w] bits, the value a release build stores. *)
Definition wrap (w z : Z) : Z := z mod 2 ^ w.

#[global] Arguments wrap : simpl never.

Definition u16_max : Z := 65535.
Definition u32_max : Z := 4294967295.
Definition u64_max : Z := 18446744073709551615.

Definition byte_ok (b : Z) : Prop := 0 <= b < 256.
Definition u16_ok (z : Z) : Prop := 0 <= z < 2 ^ 16.
Definition u32_ok (z : Z) : Prop := 0 <= z < 2 ^ 32.
Definition u64_ok (z : Z) : Prop := 0 <= z < 2 ^ 64.

Lemma wrap_small w z : 0 <= z < 2 ^ w -> wrap w z = z.
Proof. apply Z.mod_small. Qed.

Lemma wrap_range w z : 0 <= w -> 0 <= wrap w z < 2 ^ w.
Proof. intros. apply Z.mod_pos_bound. lia. Qed.

(** The bytes of a Coq string literal, for readable concrete inputs. *)
Definition str (s : string) : rstring :=
  map (fun a => Z.of_nat (Ascii.nat_of_ascii a)) (String.list_ascii_of_string s).

(** ** Sums over lists *)

Definition zsum {A} (f : A -> Z) (l : list A) : Z := foldr (fun x acc => f x + acc) 0 l.

#[global] Arguments zsum : simpl never.

Lemma zsum_nil {A} (f : A -> Z) : zsum f [] = 0.
Proof. reflexivity. Qed.

Lemma zsum_cons {A} (f : A -> Z) x l : zsum f (x :: l) = f x + zsum f l.
Proof. reflexivity. Qed.

Lemma zsum_app {A} (f : A -> Z) l1 l2 : zsum f (l1 ++ l2) = zsum f l1 + zsum f l2.
Proof. induction l1 as [|x l1 IH]; [reflexivity|]. simpl app. rewrite !zsum_cons, IH. lia. Qed.

Lemma zsum_nonneg {A} (f : A -> Z) l : (forall x, 0 <= f x) -> 0 <= zsum f l.
Proof. intros Hf. induction l as [|x l IH]; [reflexivity|]. rewrite zsum_cons. pose proof (Hf x). lia. Qed.

Lemma zsum_ge_length {A} (f : A -> Z) l :
  (forall x, 1 <= f x) -> Z.of_nat (length l) <= zsum f l.
Proof.
  intros Hf. induction l as [|x l IH]; [reflexivity|].
  rewrite zsum_cons. pose proof (Hf x). simpl length. lia.
Qed.

Lemma zsum_perm {A} (f : A -> Z) l1 l2 : l1 ≡ₚ l2 -> zsum f l1 = zsum f l2.
Proof. induction 1; rewrite ?zsum_cons; lia. Qed.

(** ** Bit fields *)

(** A field below bit [n] and a multiple of [2 ^ n] do not overlap. *)
Lemma lor_disjoint_add a b n : 0 <= n -> 0 <= b < 2 ^ n -> Z.lor (a * 2 ^ n) b = a * 2 ^ n + b.
Proof.
  intros Hn Hb. symmetry. apply Z.add_nocarry_lor.
  rewrite <-(Z.mod_small b (2 ^ n)), <-Z.land_ones by lia.
  apply Z.bits_inj'. intros i Hi.
  rewrite !Z.land_spec, Z.bits_0, Z.mul_pow2_bits by lia.
  destruct (decide (i < n)).
  - by rewrite Z.testbit_neg_r by lia.
  - rewrite Z.ones_spec_high by lia. by rewrite !andb_false_r.
Qed.

(** A [u64] is determined by its two [u32] halves. *)
Lemma halves_sum z : z = (z / 2 ^ 32) * 2 ^ 32 + z mod 2 ^ 32.
Proof. pose proof (Z.div_mod z (2 ^ 32)). lia. Qed.

(** ** Concatenated lists *)

Lemma list_elem_of_concat {A} (x : A) (ls : list (list A)) :
  x ∈ concat ls <-> exists l, x ∈ l /\ l ∈ ls.
Proof.
  induction ls as [|l ls IH]; simpl; [split; [intros []%not_elem_of_nil|intros (? & _ & []%not_elem_of_nil)]|].
  rewrite elem_of_app, IH. setoid_rewrite elem_of_cons. split.
  - intros [Hx|(l' & Hx & Hl)]; [by exists l; auto|by exists l'; auto].
  - intros (l' & Hx & [->|Hl]); [by left|right; by exists l'].
Qed.

Lemma concat_NoDup {A} (ls : list (list A)) :
  (forall i l, ls !! i = Some l -> NoDup l) ->
  (forall i j l l' x, ls !! i = Some l -> ls !! j = Some l' -> x ∈ l -> x ∈ l' -> i = j) ->
  NoDup (concat ls).
Proof.
  induction ls as [|l ls IH]; intros Hnd Hdj; simpl; [constructor|].
  apply NoDup_app. split_and!.
  - by apply (Hnd O).
  - intros x Hx (l' & Hx' & [j Hj]%list_elem_of_lookup)%list_elem_of_concat.
    by pose proof (Hdj O (S j) l l' x eq_refl Hj Hx Hx').
  - apply IH; [intros i; apply (Hnd (S i))|]. intros i j l1 l2 x H1 H2 Hx1 Hx2.
    by pose proof (Hdj (S i) (S j) l1 l2 x H1 H2 Hx1 Hx2) as [= ->].
Qed.

Lemma concat_fmap {A B} (f : A -> B) (ls : list (list A)) :
  fmap (M := list) f (concat ls) = concat (fmap (M := list) (fmap (M := list) f) ls).
Proof. induction ls as [|l ls IH]; [done|]. csimpl. by rewrite fmap_app, IH. Qed.

(** ** Counting the values of a map *)

(** How many values of [m] satisfy [P]. *)
Definition mcount {A} (P : A -> bool) (m : gmap Z A) : Z :=
  Z.of_nat (size (filter (fun kv => P kv.2 = true) m)).

Lemma mcount_insert {A} (P : A -> bool) (m : gmap Z A) k x :
  mcount P (<[k := x]> m) = (if P x then 1 else 0) + mcount P (delete k m).
Proof.
  unfold mcount. rewrite <-insert_delete_eq. destruct (P x) eqn:E.
  - rewrite map_filter_insert_True by done. rewrite map_size_insert_None; [lia|].
    apply map_lookup_filter_None. left. apply lookup_delete_eq.
  - rewrite map_filter_insert_False by (simpl; congruence). by rewrite delete_delete_eq.
Qed.

Lemma mcount_delete {A} (P : A -> bool) (m : gmap Z A) k x :
  m !! k = Some x -> mcount P m = (if P x then 1 else 0) + mcount P (delete k m).
Proof. intros E. rewrite <-(insert_id m k x E) at 1. apply mcount_insert. Qed.

Lemma mcount_nonneg {A} (P : A -> bool) (m : gmap Z A) : 0 <= mcount P m.
Proof. unfold mcount. lia. Qed.

Lemma mcount_zero {A} (P : A -> bool) (m : gmap Z A) :
  mcount P m = 0 -> forall k x, m !! k = Some x -> P x = false.
Proof.
  intros Hz k x Hk. destruct (P x) eqn:E; [|done]. rewrite (mcount_delete P m k x Hk), E in Hz.
  pose proof (mcount_nonneg P (delete k m)). lia.
Qed.

Lemma mcount_empty {A} (P : A -> bool) : mcount P (∅ : gmap Z A) = 0.
Proof. unfold mcount. by rewrite map_filter_empty, map_size_empty. Qed.
