(* ===== verification/TopN.v ===== *)
(** * The [n] highest of a list

    [BinaryHeap<Reverse<T>>] with eviction of the lowest, then a sort: how
    [RoomRegistry::top_rooms] (core/src/rooms.rs) and
    [Engine::backpressure_report] (core/src/engine.rs) select, over any order. *)

From S2P Require Import Prelude.

Section TopN.
Context {A : Type} (cmp : A -> A -> comparison).

(** The lowest-ranked element of a non-empty heap and the rest:
    [BinaryHeap<Reverse<T>>::pop]. *)
Fixpoint pop_lowest (x : A) (l : list A) : A * list A :=
  match l with
  | [] => (x, [])
  | y :: l =>
      let '(low, rest) := pop_lowest y l in
      match cmp x low with
      | Lt | Eq => (x, low :: rest)
      | Gt => (low, x :: rest)
      end
  end.

(** One round of the loop: push, then evict the lowest once over capacity. *)
Definition heap_offer (n : nat) (heap : list A) (stat : A) : list A :=
  if decide (n < length (stat :: heap))%nat then (pop_lowest stat heap).2 else stat :: heap.

(** [sort_by(|a, b| b.cmp(a))]: a stable sort, highest first. *)
Fixpoint insert_desc (x : A) (l : list A) : list A :=
  match l with
  | [] => [x]
  | y :: l => match cmp y x with Lt | Eq => x :: y :: l | Gt => y :: insert_desc x l end
  end.
Definition sort_desc (l : list A) : list A := foldr insert_desc [] l.

Definition top_n (n : nat) (l : list A) : list A :=
  if (n =? 0)%nat then [] else sort_desc (foldl (heap_offer n) [] l).

End TopN.

(** What a Rust [Ord] promises: a total order, here up to ties. *)
Class Ranking {A} (cmp : A -> A -> comparison) := {
  rank_opp : forall a b, cmp b a = CompOpp (cmp a b);
  rank_trans : forall a b c, cmp a b <> Lt -> cmp b c <> Lt -> cmp a c <> Lt;
}.

Section TopNFacts.
Context {A : Type} (cmp : A -> A -> comparison) `{!Ranking cmp}.

(** [a] ranks at least as high as [b]. *)
Definition ranks_ge (a b : A) : Prop := cmp a b <> Lt.

#[global] Instance ranks_ge_trans : Transitive ranks_ge.
Proof. intros a b c. apply rank_trans. Qed.

Lemma ranks_ge_refl a : ranks_ge a a.
Proof. unfold ranks_ge. pose proof (rank_opp (cmp := cmp) a a) as E. by destruct (cmp a a). Qed.

Lemma ranks_ge_total a b : cmp a b <> Gt -> ranks_ge b a.
Proof. unfold ranks_ge. rewrite (rank_opp (cmp := cmp) a b). by destruct (cmp a b). Qed.

Lemma ranks_ge_tie a b : ranks_ge a b -> ranks_ge b a -> cmp a b = Eq.
Proof. unfold ranks_ge. rewrite (rank_opp (cmp := cmp) a b). by destruct (cmp a b). Qed.

Lemma insert_desc_perm x l : insert_desc cmp x l ≡ₚ x :: l.
Proof. induction l as [|y l IH]; simpl; [done|]. destruct (cmp y x); try done. rewrite IH. apply Permutation_swap. Qed.

Lemma sort_desc_perm l : sort_desc cmp l ≡ₚ l.
Proof. induction l as [|x l IH]; simpl; [done|]. by rewrite insert_desc_perm, IH. Qed.

Lemma insert_desc_sorted x l : StronglySorted ranks_ge l -> StronglySorted ranks_ge (insert_desc cmp x l).
Proof.
  induction 1 as [|y l Hs IH Hy]; simpl; [repeat constructor|].
  assert (Hcons : cmp y x <> Gt -> StronglySorted ranks_ge (x :: y :: l)).
  { intros Hc. apply ranks_ge_total in Hc. constructor; [by constructor|]. constructor; [done|].
    eapply Forall_impl; [exact Hy|]. intros z Hz. by etrans. }
  destruct (cmp y x) eqn:E; [by apply Hcons..|]. constructor; [done|]. rewrite insert_desc_perm. constructor; [|done].
  unfold ranks_ge. by rewrite E.
Qed.

Lemma sort_desc_sorted l : StronglySorted ranks_ge (sort_desc cmp l).
Proof. induction l; simpl; [constructor|]. by apply insert_desc_sorted. Qed.

Lemma pop_lowest_spec x l low rest :
  pop_lowest cmp x l = (low, rest) -> low :: rest ≡ₚ x :: l /\ Forall (fun y => ranks_ge y low) rest.
Proof.
  revert x low rest. induction l as [|y l IH]; intros x low rest; simpl; [by intros [= <- <-]|].
  destruct (pop_lowest cmp y l) as [low' rest'] eqn:E. apply IH in E as [Hp Hf].
  destruct (decide (cmp x low' = Gt)) as [Ec|Ec].
  - rewrite Ec. intros [= <- <-]. split; [rewrite Permutation_swap; by rewrite Hp|]. constructor; [|done]. unfold ranks_ge. by rewrite Ec.
  - assert (Hx : ranks_ge low' x) by (by apply ranks_ge_total). intros Eq.
    assert (low = x /\ rest = low' :: rest') as [-> ->] by (clear Hx; revert Ec Eq; destruct (cmp x low'); intros; by simplify_eq).
    split; [by rewrite Hp|]. constructor; [done|]. eapply Forall_impl; [exact Hf|]. intros z Hz. etrans; [exact Hz|exact Hx].
Qed.

(** The heap keeps the [n] best of what was offered. *)
Definition kept (n : nat) (all heap : list A) : Prop :=
  length heap = Nat.min n (length all) /\
  exists gone, heap ++ gone ≡ₚ all /\ forall d h, d ∈ gone -> h ∈ heap -> ranks_ge h d.

Lemma heap_offer_kept n all heap x : kept n all heap -> kept n (all ++ [x]) (heap_offer cmp n heap x).
Proof.
  intros (Hl & gone & Hp & Hg). unfold heap_offer, kept. rewrite length_app. cbn [length].
  case_decide as Hn; cbn [length] in Hn.
  - destruct (pop_lowest cmp x heap) as [low rest] eqn:E. apply pop_lowest_spec in E as [Hpl Hf]. cbn [snd].
    assert (Hlen : length rest = length heap) by (apply Permutation_length in Hpl; simpl in Hpl; lia).
    split; [lia|]. exists (low :: gone). split.
    + rewrite <-Permutation_middle, app_comm_cons, Hpl. simpl. rewrite Hp. apply Permutation_cons_append.
    + intros d h [->|Hd]%elem_of_cons Hh; [by eapply Forall_forall in Hf|].
      assert (Hr : ranks_ge h low) by (by eapply Forall_forall in Hf).
      assert (Hin : low ∈ x :: heap) by (rewrite <-Hpl; set_solver). assert (Hhin : h ∈ x :: heap) by (rewrite <-Hpl; set_solver).
      apply elem_of_cons in Hin as [->|Hlow]; [|etrans; [exact Hr|by apply Hg]].
      apply Permutation_cons_inv in Hpl. apply (Hg d h Hd). by rewrite <-Hpl.
  - split; [cbn; lia|]. exists gone. split; [simpl; rewrite Hp; apply Permutation_cons_append|].
    assert (gone = []) as ->; [|set_solver]. apply Permutation_length in Hp. rewrite length_app in Hp.
    destruct gone; [done|simpl in Hp; lia].
Qed.

Lemma heap_kept n l : kept n l (foldl (heap_offer cmp n) [] l).
Proof.
  assert (H : forall l all heap, kept n all heap -> kept n (all ++ l) (foldl (heap_offer cmp n) heap l)).
  { clear l. induction l as [|x l IH]; intros all heap Hk; simpl; [by rewrite app_nil_r|].
    replace (all ++ x :: l) with ((all ++ [x]) ++ l) by (by rewrite <-app_assoc). by apply IH, heap_offer_kept. }
  apply (H l [] []). split; [simpl; lia|]. exists []. split; [done|set_solver].
Qed.

(** Without ties, the selection is a prefix of the full ranking. *)
Lemma top_n_prefix n l :
  (forall a b, a ∈ l -> b ∈ l -> cmp a b = Eq -> a = b) -> top_n cmp n l = take n (sort_desc cmp l).
Proof.
  intros Htie. unfold top_n. destruct (Nat.eqb_spec n 0) as [->|Hn]; [by rewrite take_0|].
  destruct (heap_kept n l) as (Hl & gone & Hp & Hg). set (heap := foldl _ _ _) in *. clearbody heap.
  assert (E : sort_desc cmp heap ++ sort_desc cmp gone = sort_desc cmp l).
  { apply (StronglySorted_unique_strong ranks_ge).
    - intros a b Ha Hb H1 H2. apply Htie; [by rewrite <-Hp, <-(sort_desc_perm heap), <-(sort_desc_perm gone)|by rewrite <-(sort_desc_perm l)|by apply ranks_ge_tie].
    - apply StronglySorted_app. split_and!; [|apply sort_desc_sorted..].
      intros h d Hh Hd. apply Hg; [by rewrite <-(sort_desc_perm gone)|by rewrite <-(sort_desc_perm heap)].
    - apply sort_desc_sorted.
    - by rewrite !sort_desc_perm. }
  rewrite <-E. assert (Hlen : length (sort_desc cmp heap) = Nat.min n (length l)) by (rewrite (sort_desc_perm heap); done).
  destruct (decide (n <= length l)%nat) as [Hle|Hgt].
  - by rewrite take_app_length' by lia.
  - apply Permutation_length in Hp. rewrite length_app in Hp.
    destruct gone; [|simpl in Hp; lia]. simpl. rewrite app_nil_r, take_ge by lia. done.
Qed.

End TopNFacts.
