(* ===== verification/Wire.v ===== *)
(** * Wire primitives shared by every codec of the program

    Little-endian integers ([to_le_bytes]/[from_le_bytes]), checked slicing
    ([buf.get(a..b)]), UTF-8 validation ([std::str::from_utf8]) and the
    [WireCodec] interface: what a pair of functions that append to a buffer
    and read it back at a moving offset promises to the codecs built on it. *)

From S2P Require Import Prelude.

(** ** Little-endian integers *)

(** [z.to_le_bytes()] for an [n]-byte integer. *)
Fixpoint to_le_bytes (n : nat) (z : Z) : bytes :=
  match n with
  | O => []
  | S n => z mod 256 :: to_le_bytes n (z / 256)
  end.

(** [uN::from_le_bytes]. *)
Fixpoint from_le_bytes (bs : bytes) : Z :=
  match bs with
  | [] => 0
  | b :: bs => b + 256 * from_le_bytes bs
  end.

Lemma length_to_le_bytes n z : length (to_le_bytes n z) = n.
Proof. revert z. induction n as [|n IH]; intros z; simpl; [done|]. by rewrite IH. Qed.

Lemma to_le_bytes_ok n z : Forall byte_ok (to_le_bytes n z).
Proof.
  revert z. induction n as [|n IH]; intros z; simpl; constructor; [|apply IH].
  apply Z.mod_pos_bound. lia.
Qed.

Lemma from_to_le_bytes n z : 0 <= z < 2 ^ (8 * Z.of_nat n) -> from_le_bytes (to_le_bytes n z) = z.
Proof.
  revert z. induction n as [|n IH]; intros z Hz.
  - simpl in *. lia.
  - cbn [to_le_bytes from_le_bytes].
    replace (8 * Z.of_nat (S n)) with (8 + 8 * Z.of_nat n) in Hz by lia.
    rewrite Z.pow_add_r in Hz by lia.
    rewrite IH by (split; [apply Z.div_pos; lia | apply Z.div_lt_upper_bound; lia]).
    pose proof (Z.div_mod z 256). lia.
Qed.

Lemma from_le_bytes_bound bs :
  Forall byte_ok bs -> 0 <= from_le_bytes bs < 2 ^ (8 * Z.of_nat (length bs)).
Proof.
  induction 1 as [|b bs Hb _ IH]; [simpl; lia|].
  cbn [from_le_bytes length]. unfold byte_ok in Hb.
  replace (8 * Z.of_nat (S (length bs))) with (8 + 8 * Z.of_nat (length bs)) by lia.
  rewrite Z.pow_add_r by lia. lia.
Qed.

Lemma to_from_le_bytes bs : Forall byte_ok bs -> to_le_bytes (length bs) (from_le_bytes bs) = bs.
Proof.
  induction 1 as [|b bs Hb Hbs IH]; [done|].
  cbn [from_le_bytes length to_le_bytes]. unfold byte_ok in Hb.
  replace (b + 256 * from_le_bytes bs) with (b + from_le_bytes bs * 256) by lia.
  rewrite Z.mod_add, Z.mod_small, Z.div_add, Z.div_small, Z.add_0_l by lia.
  by rewrite IH.
Qed.

Lemma to_le_bytes_inj n x y :
  0 <= x < 2 ^ (8 * Z.of_nat n) -> 0 <= y < 2 ^ (8 * Z.of_nat n) ->
  to_le_bytes n x = to_le_bytes n y -> x = y.
Proof.
  intros Hx Hy Heq. rewrite <-(from_to_le_bytes n x), <-(from_to_le_bytes n y) by done.
  by rewrite Heq.
Qed.

(** ** Checked slicing *)

(** [buf.get(off..off + len)]. *)
Definition slice (buf : bytes) (off len : nat) : option bytes :=
  if decide (off + len <= length buf)%nat then Some (take len (drop off buf)) else None.

(** [At buf off rest]: the unread part of [buf] at offset [off] is [rest]. *)
Definition At (buf : bytes) (off : nat) (rest : bytes) : Prop :=
  (off <= length buf)%nat /\ drop off buf = rest.

Lemma At_start buf : At buf 0 buf.
Proof. split; [lia|done]. Qed.

Lemma At_app pre rest : At (pre ++ rest) (length pre) rest.
Proof. split; [rewrite length_app; lia | apply drop_app_length]. Qed.

Lemma At_length buf off rest : At buf off rest -> length rest = (length buf - off)%nat.
Proof. intros [_ <-]. apply length_drop. Qed.

Lemma At_drop buf off rest : At buf off rest -> drop off buf = rest.
Proof. by intros [_ ?]. Qed.

Lemma At_slice buf off xs rest :
  At buf off (xs ++ rest) ->
  slice buf off (length xs) = Some xs /\ At buf (off + length xs) rest.
Proof.
  intros HAt. pose proof (At_length _ _ _ HAt) as Hlen. destruct HAt as [Hle Hdrop].
  rewrite length_app in Hlen. unfold slice, At.
  rewrite decide_True by lia. rewrite Hdrop, take_app_length.
  split; [done|]. split; [lia|].
  by rewrite <-drop_drop, Hdrop, drop_app_length.
Qed.

Lemma At_lookup buf off x rest :
  At buf off (x :: rest) -> buf !! off = Some x /\ At buf (off + 1) rest.
Proof.
  intros HAt. pose proof (At_length _ _ _ HAt) as Hlen. destruct HAt as [Hle Hdrop]. simpl in Hlen.
  unfold At. split.
  - rewrite <-(Nat.add_0_r off), <-lookup_drop, Hdrop. done.
  - split; [lia|]. by rewrite <-drop_drop, Hdrop.
Qed.

Lemma slice_length buf off len xs : slice buf off len = Some xs -> length xs = len.
Proof.
  unfold slice. case_decide; [|done]. intros [= <-]. rewrite length_take, length_drop. lia.
Qed.

(** ** Reading an integer at a moving offset *)

(** [let x = uN::from_le_bytes(buf.get(off..off+n)?...); off += n]. *)
Definition get_le (n : nat) (buf : bytes) (off : nat) : option (Z * nat) :=
  bs ← slice buf off n; Some (from_le_bytes bs, off + n)%nat.

Lemma get_le_At n buf off z rest :
  0 <= z < 2 ^ (8 * Z.of_nat n) -> At buf off (to_le_bytes n z ++ rest) ->
  get_le n buf off = Some (z, (off + n)%nat) /\ At buf (off + n) rest.
Proof.
  intros Hz HAt. apply At_slice in HAt as [Hs HAt]. rewrite length_to_le_bytes in Hs, HAt.
  unfold get_le. rewrite Hs. simpl. by rewrite from_to_le_bytes.
Qed.

(** [let b = *buf.get(off)?; off += 1]. *)
Definition get_u8 (buf : bytes) (off : nat) : option (Z * nat) :=
  b ← buf !! off; Some (b, off + 1)%nat.

Lemma get_u8_At buf off b rest :
  At buf off (b :: rest) -> get_u8 buf off = Some (b, (off + 1)%nat) /\ At buf (off + 1) rest.
Proof. intros [Hl HAt]%At_lookup. unfold get_u8. by rewrite Hl. Qed.

(** ** UTF-8 validation, as [core::str::from_utf8] *)

Definition utf8_cont (b : Z) : bool := (128 <=? b) && (b <=? 191).

Definition utf8_second_ok (lead b : Z) : bool :=
  if lead =? 224 then (160 <=? b) && (b <=? 191)
  else if lead =? 237 then (128 <=? b) && (b <=? 159)
  else if lead =? 240 then (144 <=? b) && (b <=? 191)
  else if lead =? 244 then (128 <=? b) && (b <=? 143)
  else utf8_cont b.

(** Whether a byte sequence is well-formed UTF-8: shortest encodings only, no
    surrogates, nothing above U+10FFFF. *)
Fixpoint utf8_valid (l : bytes) : bool :=
  match l with
  | [] => true
  | b :: r =>
      if b <? 128 then utf8_valid r
      else match r with
      | [] => false
      | b1 :: r1 =>
          if (194 <=? b) && (b <=? 223) then utf8_cont b1 && utf8_valid r1
          else match r1 with
          | [] => false
          | b2 :: r2 =>
              if (224 <=? b) && (b <=? 239)
              then utf8_second_ok b b1 && utf8_cont b2 && utf8_valid r2
              else match r2 with
              | [] => false
              | b3 :: r3 =>
                  if (240 <=? b) && (b <=? 244)
                  then utf8_second_ok b b1 && utf8_cont b2 && utf8_cont b3 && utf8_valid r3
                  else false
              end
          end
      end
  end.

(** [std::str::from_utf8(bytes).ok()]. *)
Definition from_utf8 (bs : bytes) : option rstring := if utf8_valid bs then Some bs else None.

(** ** The codec interface *)

(** A value that is appended to a buffer by [wput] and read back by [wget],
    which advances the offset.  [wok] is the domain on which the encoding is
    faithful (widths, lengths that fit their prefix, valid UTF-8). *)
Class WireCodec (A : Type) := {
  wput : A -> bytes;
  wget : bytes -> nat -> option (A * nat);
  wok : A -> Prop;
  wget_wput : forall buf off x rest, wok x -> At buf off (wput x ++ rest) ->
    exists off', wget buf off = Some (x, off') /\ At buf off' rest
}.

(** [for _ in 0..n { v.push(get(buf, off)?) }]. *)
Fixpoint get_many {A} (get : bytes -> nat -> option (A * nat)) (n : nat) (buf : bytes) (off : nat)
    : option (list A * nat) :=
  match n with
  | O => Some ([], off)
  | S n => '(x, off) ← get buf off; '(xs, off) ← get_many get n buf off; Some (x :: xs, off)
  end.

(** [for x in xs { put(buf, x) }]. *)
Definition put_many {A} (put : A -> bytes) (xs : list A) : bytes := concat (map put xs).

(** Elements that are read back as [view x]. *)
Lemma get_many_view {A B} (put : A -> bytes) (get : bytes -> nat -> option (B * nat)) (view : A -> B) (ok : A -> Prop) :
  (forall buf off x rest, ok x -> At buf off (put x ++ rest) ->
     exists off', get buf off = Some (view x, off') /\ At buf off' rest) ->
  forall xs buf off rest, Forall ok xs -> At buf off (put_many put xs ++ rest) ->
    exists off', get_many get (length xs) buf off = Some (map view xs, off') /\ At buf off' rest.
Proof.
  intros Hget xs. induction xs as [|x xs IH]; intros buf off rest Hok HAt.
  - exists off. split; [done|]. exact HAt.
  - apply Forall_cons_1 in Hok as [Hx Hxs].
    unfold put_many in HAt. cbn in HAt. rewrite <-app_assoc in HAt.
    destruct (Hget _ _ _ _ Hx HAt) as (o1 & E1 & HAt1).
    destruct (IH _ _ _ Hxs HAt1) as (o2 & E2 & HAt2).
    exists o2. cbn [get_many length]. rewrite E1. cbn. rewrite E2. done.
Qed.

Lemma get_many_put_many {A} (put : A -> bytes) get (ok : A -> Prop) :
  (forall buf off x rest, ok x -> At buf off (put x ++ rest) ->
     exists off', get buf off = Some (x, off') /\ At buf off' rest) ->
  forall xs buf off rest, Forall ok xs -> At buf off (put_many put xs ++ rest) ->
    exists off', get_many get (length xs) buf off = Some (xs, off') /\ At buf off' rest.
Proof.
  intros Hget xs buf off rest Hok HAt. destruct (get_many_view put get (fun x => x) ok Hget xs buf off rest Hok HAt) as (o & E & HA).
  rewrite map_id in E. by exists o.
Qed.

(** The [u16]-counted list of codecs: the shape of every list on the wire. *)
Definition put_list16 {A} (put : A -> bytes) (xs : list A) : bytes :=
  to_le_bytes 2 (wrap 16 (Z.of_nat (length xs))) ++ put_many put xs.

Definition get_list16 {A} (get : bytes -> nat -> option (A * nat)) (buf : bytes) (off : nat)
    : option (list A * nat) :=
  '(n, off) ← get_le 2 buf off; get_many get (Z.to_nat n) buf off.

Lemma get_list16_put_list16 {A} (put : A -> bytes) get (ok : A -> Prop) :
  (forall buf off x rest, ok x -> At buf off (put x ++ rest) ->
     exists off', get buf off = Some (x, off') /\ At buf off' rest) ->
  forall xs buf off rest, Forall ok xs -> Z.of_nat (length xs) < 2 ^ 16 ->
    At buf off (put_list16 put xs ++ rest) ->
    exists off', get_list16 get buf off = Some (xs, off') /\ At buf off' rest.
Proof.
  intros Hget xs buf off rest Hok Hlen HAt.
  unfold put_list16 in HAt. rewrite <-app_assoc, wrap_small in HAt by lia.
  apply get_le_At in HAt as [E HAt]; [|lia].
  unfold get_list16. rewrite E. cbn. rewrite Nat2Z.id.
  by apply (get_many_put_many put get ok).
Qed.
