(* ===== verification/Text.v ===== *)
(** * Text the standard library produces

    Decimal printing of unsigned integers ([Display for u64]) with the reader
    that inverts it, ASCII lower case, and [String::from_utf8_lossy]. *)

From S2P Require Import Prelude Wire.

(** ** Decimal numbers *)

(** The digits of [n], most significant first, put before [acc]. *)
Fixpoint digits (fuel : nat) (n : Z) (acc : bytes) : bytes :=
  match fuel with
  | O => acc
  | S fuel => let acc := (48 + n mod 10) :: acc in if n <? 10 then acc else digits fuel (n / 10) acc
  end.

(** [{n}] for an unsigned [n]; there are at most [log2 n + 1] digits. *)
Definition dec (n : Z) : rstring := digits (S (Z.to_nat (Z.log2 n))) n [].

Definition is_digit (b : Z) : bool := (48 <=? b) && (b <=? 57).

(** The digits at the front of a text as a number, and the rest. *)
Fixpoint scan_dec (acc : Z) (s : bytes) : Z * bytes :=
  match s with
  | b :: r => if is_digit b then scan_dec (acc * 10 + (b - 48)) r else (acc, s)
  | [] => (acc, [])
  end.

Lemma digits_scan fuel n acc rest k :
  0 <= n < 2 ^ Z.of_nat fuel ->
  exists ds, digits fuel n acc = ds ++ acc /\ Forall (fun b => is_digit b = true) ds /\ (fuel <> O -> ds <> []) /\
    scan_dec k (ds ++ rest) = scan_dec (k * 10 ^ Z.of_nat (length ds) + n) rest.
Proof.
  revert n acc rest. induction fuel as [|fuel IH]; intros n acc rest Hn; cbn [digits].
  { exists []. assert (n = 0) as -> by (cbn in Hn; lia). split_and!; [done|constructor|done|]. cbn [length app]. f_equal. lia. }
  assert (Hd : is_digit (48 + n mod 10) = true).
  { unfold is_digit. pose proof (Z.mod_pos_bound n 10 ltac:(lia)). apply andb_true_intro. split; [apply Z.leb_le|apply Z.leb_le]; lia. }
  destruct (Z.ltb_spec n 10) as [Hs|Hl].
  - exists [48 + n mod 10]. rewrite Z.mod_small in * by lia. split_and!; [done|by repeat constructor|done|].
    cbn [app scan_dec length]. rewrite Hd. f_equal. change (10 ^ Z.of_nat 1) with 10. lia.
  - destruct (IH (n / 10) ((48 + n mod 10) :: acc) ((48 + n mod 10) :: rest)) as (ds & E & Hall & _ & Es).
    { split; [apply Z.div_pos; lia|]. apply Z.div_lt_upper_bound; [lia|]. rewrite Nat2Z.inj_succ, Z.pow_succ_r in Hn by lia. lia. }
    exists (ds ++ [48 + n mod 10]). rewrite E, <-!app_assoc. cbn [app]. split_and!; [done| |by destruct ds|].
    + apply Forall_app. split; [done|]. by repeat constructor.
    + rewrite Es. cbn [scan_dec]. rewrite Hd, length_app, Nat2Z.inj_add. change (Z.of_nat (length [_])) with 1. rewrite Z.pow_add_r by lia.
      f_equal. pose proof (Z.div_mod n 10 ltac:(lia)). lia.
Qed.

(** What is printed is at least one digit and reads back, whatever follows. *)
Lemma dec_scan n rest : 0 <= n -> match rest with b :: _ => is_digit b = false | [] => True end ->
  scan_dec 0 (dec n ++ rest) = (n, rest).
Proof.
  intros Hn Hr. assert (Hf : 0 <= n < 2 ^ Z.of_nat (S (Z.to_nat (Z.log2 n)))).
  { split; [done|]. rewrite Nat2Z.inj_succ, Z2Nat.id by apply Z.log2_nonneg.
    destruct (decide (n = 0)) as [->|]; [done|]. apply Z.log2_lt_pow2; lia. }
  destruct (digits_scan _ n [] rest 0 Hf) as (ds & E & _ & _ & Es). unfold dec. rewrite E, app_nil_r, Es.
  destruct rest as [|b rest]; cbn [scan_dec]; [f_equal; lia|]. rewrite Hr. f_equal; lia.
Qed.

Lemma dec_digits n : 0 <= n -> Forall (fun b => is_digit b = true) (dec n) /\ dec n <> [].
Proof.
  intros Hn. assert (Hf : 0 <= n < 2 ^ Z.of_nat (S (Z.to_nat (Z.log2 n)))).
  { split; [done|]. rewrite Nat2Z.inj_succ, Z2Nat.id by apply Z.log2_nonneg.
    destruct (decide (n = 0)) as [->|]; [done|]. apply Z.log2_lt_pow2; lia. }
  destruct (digits_scan _ n [] [] 0 Hf) as (ds & E & Ha & Hne & _). unfold dec. rewrite E, app_nil_r. auto.
Qed.

Lemma dec_inj a b : 0 <= a -> 0 <= b -> dec a = dec b -> a = b.
Proof.
  intros Ha Hb E. pose proof (dec_scan a [] Ha I) as Ea. pose proof (dec_scan b [] Hb I) as Eb. rewrite E, Eb in Ea. by injection Ea.
Qed.

(** ** ASCII lower case *)

Definition to_ascii_lower (b : Z) : Z := if (65 <=? b) && (b <=? 90) then b + 32 else b.

Lemma to_ascii_lower_idem b : to_ascii_lower (to_ascii_lower b) = to_ascii_lower b.
Proof.
  unfold to_ascii_lower. destruct ((65 <=? b) && (b <=? 90)) eqn:E; [|by rewrite E].
  destruct ((65 <=? b + 32) && (b + 32 <=? 90)) eqn:E'; [|done]. bool_facts. lia.
Qed.

(** ** [String::from_utf8_lossy] *)

(** U+FFFD. *)
Definition REPLACEMENT : bytes := [239; 191; 189].

(** Each maximal prefix of a character that is cut short becomes one U+FFFD. *)
Fixpoint from_utf8_lossy (l : bytes) : rstring :=
  match l with
  | [] => []
  | b :: r =>
      if b <? 128 then b :: from_utf8_lossy r
      else if (194 <=? b) && (b <=? 223) then
        match r with
        | b1 :: r1 => if utf8_cont b1 then b :: b1 :: from_utf8_lossy r1 else REPLACEMENT ++ from_utf8_lossy r
        | [] => REPLACEMENT
        end
      else if (224 <=? b) && (b <=? 239) then
        match r with
        | b1 :: r1 =>
            if utf8_second_ok b b1 then
              match r1 with
              | b2 :: r2 => if utf8_cont b2 then b :: b1 :: b2 :: from_utf8_lossy r2 else REPLACEMENT ++ from_utf8_lossy r1
              | [] => REPLACEMENT
              end
            else REPLACEMENT ++ from_utf8_lossy r
        | [] => REPLACEMENT
        end
      else if (240 <=? b) && (b <=? 244) then
        match r with
        | b1 :: r1 =>
            if utf8_second_ok b b1 then
              match r1 with
              | b2 :: r2 =>
                  if utf8_cont b2 then
                    match r2 with
                    | b3 :: r3 => if utf8_cont b3 then b :: b1 :: b2 :: b3 :: from_utf8_lossy r3 else REPLACEMENT ++ from_utf8_lossy r2
                    | [] => REPLACEMENT
                    end
                  else REPLACEMENT ++ from_utf8_lossy r1
              | [] => REPLACEMENT
              end
            else REPLACEMENT ++ from_utf8_lossy r
        | [] => REPLACEMENT
        end
      else REPLACEMENT ++ from_utf8_lossy r
  end.

Lemma replacement_valid x : utf8_valid (REPLACEMENT ++ x) = utf8_valid x.
Proof. reflexivity. Qed.

Lemma bytes_ind (P : bytes -> Prop) :
  (forall l, (forall r, (length r < length l)%nat -> P r) -> P l) -> forall l, P l.
Proof. intros HP l. induction l as [l IH] using (induction_ltof1 _ (@length Z)). by apply HP. Qed.

(** The result is always a string. *)
Lemma lossy_valid l : utf8_valid (from_utf8_lossy l) = true.
Proof.
  induction l as [[|b r] IH] using bytes_ind; [done|]. cbn [from_utf8_lossy].
  repeat match goal with
  | |- utf8_valid (if ?c then _ else _) = true => destruct c eqn:?
  | |- utf8_valid (match ?r with [] => _ | _ => _ end) = true => destruct r
  | |- utf8_valid (REPLACEMENT ++ _) = true => rewrite replacement_valid; apply IH; simpl; lia
  end; try done; simpl utf8_valid;
  repeat match goal with H : ?b = _ |- context [?b] => rewrite H end; cbn [andb];
  try (apply IH; simpl; lia).
  all: bool_facts; repeat match goal with
  | |- context [?a <? ?b] => destruct (Z.ltb_spec a b); [lia|]
  | |- context [(?a <=? ?b) && (?c <=? ?d)] => destruct ((a <=? b) && (c <=? d)) eqn:?; [bool_facts; lia|]
  end; try (apply IH; simpl; lia).
Qed.

(** A string is left alone. *)
Lemma lossy_id l : utf8_valid l = true -> from_utf8_lossy l = l.
Proof.
  induction l as [[|b r] IH] using bytes_ind; [done|]. intros Hv. cbn [from_utf8_lossy]. simpl in Hv.
  destruct (b <? 128); [by rewrite IH by (done || simpl; lia)|].
  destruct r as [|b1 r1]; [done|]. destruct ((194 <=? b) && (b <=? 223)).
  { apply andb_prop in Hv as [-> Hv]. by rewrite IH by (done || simpl; lia). }
  destruct r1 as [|b2 r2]; [done|]. destruct ((224 <=? b) && (b <=? 239)).
  { apply andb_prop in Hv as [[-> ->]%andb_prop Hv]. by rewrite IH by (done || simpl; lia). }
  destruct r2 as [|b3 r3]; [done|]. destruct ((240 <=? b) && (b <=? 244)); [|done].
  apply andb_prop in Hv as [[[-> ->]%andb_prop ->]%andb_prop Hv]. by rewrite IH by (done || simpl; lia).
Qed.
