(* ===== verification/Float.v ===== *)
(** * f64 as the code uses it

    IEEE-754 binary64 through the Standard Library's executable [SpecFloat]:
    arithmetic with rounding to nearest, the comparisons, [f64::max], the
    conversion from an unsigned integer, and the saturating [as] casts. *)

From Stdlib Require Export SpecFloat.
From S2P Require Import Prelude.

Abbreviation f64 := spec_float.

Definition f64_prec : Z := 53.
Definition f64_emax : Z := 1024.

Definition fadd (x y : f64) : f64 := SFadd f64_prec f64_emax x y.
Definition fsub (x y : f64) : f64 := SFsub f64_prec f64_emax x y.
Definition fmul (x y : f64) : f64 := SFmul f64_prec f64_emax x y.
Definition fdiv (x y : f64) : f64 := SFdiv f64_prec f64_emax x y.
Definition fopp (x : f64) : f64 := SFopp x.
Definition fltb (x y : f64) : bool := SFltb x y.

(** [n as f64] for an unsigned [n]. *)
Definition f64_of (n : Z) : f64 := binary_normalize f64_prec f64_emax n 0 false.

Definition f0 : f64 := S754_zero false.
Definition f1 : f64 := f64_of 1.

(** [f64::max]: a NaN loses. *)
Definition fmax (x y : f64) : f64 :=
  match x, y with
  | S754_nan, _ => y
  | _, S754_nan => x
  | _, _ => if fltb x y then y else x
  end.

(** [v as uW]: towards zero, NaN is 0, out of range saturates. *)
Definition as_unsigned (w : Z) (v : f64) : Z :=
  match v with
  | S754_nan | S754_zero _ => 0
  | S754_infinity s => if s then 0 else 2 ^ w - 1
  | S754_finite s m e => if s then 0 else Z.min (Z.shiftl (Z.pos m) e) (2 ^ w - 1)
  end.

(** [v.fract() != 0.0]. *)
Definition has_fract (v : f64) : bool :=
  match v with
  | S754_nan | S754_infinity _ => true
  | S754_zero _ => false
  | S754_finite _ m e => negb (Z.shiftl (Z.shiftl (Z.pos m) e) (- e) =? Z.pos m)
  end.

(** [v] is exactly the integer [z]. *)
Definition is_int (v : f64) (z : Z) : Prop :=
  match v with
  | S754_zero _ => z = 0
  | S754_finite s m e => (if s then - z else z) * 2 ^ Z.max 0 (- e) = Z.pos m * 2 ^ Z.max 0 e
  | _ => False
  end.

Lemma as_unsigned_range w v : 0 <= w -> 0 <= as_unsigned w v < 2 ^ w.
Proof.
  intros Hw. pose proof (Z.pow_pos_nonneg 2 w ltac:(lia) Hw).
  destruct v as [s|s| |s m e]; cbn [as_unsigned]; [lia|destruct s; lia|lia|]. destruct s; [lia|].
  assert (0 <= Z.shiftl (Z.pos m) e) by (apply Z.shiftl_nonneg; lia). lia.
Qed.

(** The integer part of a scaled number. *)
Lemma shiftl_int m e z : z * 2 ^ Z.max 0 (- e) = Z.pos m * 2 ^ Z.max 0 e -> Z.shiftl (Z.pos m) e = z.
Proof.
  intros Hz. destruct (Z.le_gt_cases 0 e) as [He|He].
  - rewrite Z.shiftl_mul_pow2 by done. rewrite Z.max_l, Z.max_r in Hz by lia. lia.
  - rewrite Z.max_r, Z.max_l in Hz by lia. rewrite <-(Z.opp_involutive e), Z.shiftl_opp_r, Z.shiftr_div_pow2 by lia.
    change (2 ^ 0) with 1 in Hz. rewrite Z.mul_1_r in Hz. rewrite <-Hz. apply Z.div_mul. apply Z.pow_nonzero; lia.
Qed.

(** An integer in range goes through a cast unchanged. *)
Lemma as_unsigned_exact w v z : 0 <= z < 2 ^ w -> is_int v z -> as_unsigned w v = z.
Proof.
  intros Hz Hv. destruct v as [s|s| |s m e]; cbn [as_unsigned is_int] in *; [lia|done|done|]. destruct s.
  - assert (0 < Z.pos m * 2 ^ Z.max 0 e) by (apply Z.mul_pos_pos; [lia|apply Z.pow_pos_nonneg; lia]).
    assert (0 < 2 ^ Z.max 0 (- e)) by (apply Z.pow_pos_nonneg; lia). nia.
  - rewrite (shiftl_int m e z Hv). lia.
Qed.

(** A number without fraction is an integer. *)
Lemma no_fract_int v : has_fract v = false -> exists z, is_int v z.
Proof.
  destruct v as [s|s| |s m e]; cbn [has_fract is_int]; try done; [by exists 0|]. intros Hf. bool_facts.
  assert (Hi : Z.shiftl (Z.pos m) e * 2 ^ Z.max 0 (- e) = Z.pos m * 2 ^ Z.max 0 e).
  { destruct (Z.le_gt_cases 0 e) as [He|He].
    - rewrite (Z.max_l 0 (- e)), (Z.max_r 0 e), Z.shiftl_mul_pow2 by lia. lia.
    - rewrite (Z.max_r 0 (- e)), (Z.max_l 0 e) by lia. rewrite (Z.shiftl_mul_pow2 _ (- e)) in Hf by lia. lia. }
  exists (if s then - Z.shiftl (Z.pos m) e else Z.shiftl (Z.pos m) e). destruct s; [|done]. by rewrite Z.opp_involutive.
Qed.

(** The sampler starts at zero and stays there without traffic. *)
Lemma fmul_zero_finite x : match x with S754_zero _ | S754_finite _ _ _ => True | _ => False end ->
  fadd f0 (fmul x (fsub f0 f0)) = f0.
Proof. by destruct x as [[]| | |[] ? ?]. Qed.

(** ** Order *)

(** The values a float can have: the mantissa is normalised. *)
Definition f64_ok (v : f64) : Prop := valid_binary f64_prec f64_emax v = true.

Lemma digits2_bound m : Z.pos m < 2 ^ Z.pos (digits2_pos m).
Proof.
  induction m as [m IH|m IH|]; cbn [digits2_pos]; [..|done].
  all: rewrite Pos2Z.inj_succ, Z.pow_succ_r by lia; lia.
Qed.

Lemma mantissa_bound s m e : f64_ok (S754_finite s m e) -> Z.pos m < 2 ^ 53.
Proof.
  unfold f64_ok. cbn. unfold bounded, canonical_mantissa. intros [Hc _]%andb_prop. apply Z.eqb_eq in Hc. unfold fexp, f64_prec in Hc.
  pose proof (digits2_bound m). apply Z.lt_le_trans with (2 ^ Z.pos (digits2_pos m)); [done|]. apply Z.pow_le_mono_r; lia.
Qed.

(** A number that is not below zero and an integer is a natural number. *)
Lemma not_negative v z : fltb v f0 = false -> is_int v z -> 0 <= z.
Proof.
  destruct v as [s|s| |s m e]; cbn; try done; [lia|]. destruct s; [done|]. intros _ Hz.
  assert (0 < Z.pos m * 2 ^ Z.max 0 e) by (apply Z.mul_pos_pos; [lia|apply Z.pow_pos_nonneg; lia]).
  assert (0 < 2 ^ Z.max 0 (- e)) by (apply Z.pow_pos_nonneg; lia). nia.
Qed.

(** An integer that is not above 65535 as a float is not above it. *)
Lemma not_above_u16 v z : f64_ok v -> fltb (f64_of 65535) v = false -> is_int v z -> z <= 65535.
Proof.
  intros Hok Hl Hz. destruct v as [s|s| |s m e]; cbn [is_int] in Hz; [lia|done|done|].
  pose proof (mantissa_bound _ _ _ Hok) as Hm. pose proof (Z.pow_pos_nonneg 2 (Z.max 0 e) ltac:(lia) ltac:(lia)) as Hp.
  pose proof (Z.pow_pos_nonneg 2 (Z.max 0 (- e)) ltac:(lia) ltac:(lia)) as Hq.
  destruct s; [nia|]. change (f64_of 65535) with (S754_finite false 9007061815787520 (-37)) in Hl. unfold fltb, SFltb in Hl. cbn [SFcompare] in Hl.
  destruct (Z.compare_spec (-37) e) as [<-|Hlt|Hgt]; [|done|].
  - assert (Hle : Z.pos m <= 9007061815787520).
    { change (Pos.compare_cont Eq 9007061815787520 m) with (Z.compare 9007061815787520 (Z.pos m)) in Hl.
      apply Z.le_ngt. intros Hlt%Z.compare_lt_iff. by rewrite Hlt in Hl. }
    clear Hok Hl Hm Hp Hq. replace (2 ^ Z.max 0 (- -37)) with 137438953472 in Hz by reflexivity.
    replace (2 ^ Z.max 0 (-37)) with 1 in Hz by reflexivity. lia.
  - rewrite (Z.max_l 0 e) in Hz by lia. assert (2 ^ 38 <= 2 ^ Z.max 0 (- e)) by (apply Z.pow_le_mono_r; lia).
    change (2 ^ 0) with 1 in Hz. change (2 ^ 38) with 274877906944 in *. change (2 ^ 53) with (274877906944 * 32768) in Hm. nia.
Qed.

(** ** The interchange format: [f64::to_le_bytes], [f64::from_le_bytes] *)

Definition sign_bit (s : bool) : Z := if s then 2 ^ 63 else 0.

(** [f64::to_bits]; of a NaN, the bits of [f64::NAN]. *)
Definition f64_to_bits (v : f64) : Z :=
  match v with
  | S754_zero s => sign_bit s
  | S754_infinity s => sign_bit s + 2047 * 2 ^ 52
  | S754_nan => 2047 * 2 ^ 52 + 2 ^ 51
  | S754_finite s m e =>
      if Z.pos m <? 2 ^ 52 then sign_bit s + Z.pos m else sign_bit s + (e + 1075) * 2 ^ 52 + (Z.pos m - 2 ^ 52)
  end.

(** [f64::from_bits]. *)
Definition f64_of_bits (b : Z) : f64 :=
  let s := 2 ^ 63 <=? b in
  let ex := (b / 2 ^ 52) mod 2048 in
  let fr := b mod 2 ^ 52 in
  let finite m e := match m with Z.pos m => S754_finite s m e | _ => S754_zero s end in
  if ex =? 0 then finite fr (-1074)
  else if ex =? 2047 then (if fr =? 0 then S754_infinity s else S754_nan)
  else finite (fr + 2 ^ 52) (ex - 1075).

Lemma digits2_lower m : 2 ^ (Z.pos (digits2_pos m) - 1) <= Z.pos m.
Proof.
  induction m as [m IH|m IH|]; cbn [digits2_pos]; [..|done].
  all: rewrite Pos2Z.inj_succ, Z.sub_succ_l, Z.pow_succ_r by lia; lia.
Qed.

(** A finite float is normal, with 53 digits, or has the least exponent. *)
Lemma finite_shape s m e : f64_ok (S754_finite s m e) ->
  2 ^ 52 <= Z.pos m < 2 ^ 53 /\ -1074 <= e <= 971 \/ Z.pos m < 2 ^ 52 /\ e = -1074.
Proof.
  intros Hok. pose proof (mantissa_bound _ _ _ Hok) as Hm. unfold f64_ok in Hok. cbn [valid_binary] in Hok. unfold bounded, canonical_mantissa in Hok.
  apply andb_prop in Hok as [Hc He]. apply Z.eqb_eq in Hc. apply Z.leb_le in He. unfold fexp, SpecFloat.emin, f64_prec, f64_emax in Hc, He.
  pose proof (digits2_bound m) as Hd. pose proof (digits2_lower m) as Hl. destruct (Z.lt_ge_cases (Z.pos m) (2 ^ 52)) as [Hs|Hs]; [right|left].
  - assert (Z.pos (digits2_pos m) - 1 < 52) by (apply (Z.pow_lt_mono_r_iff 2); lia). lia.
  - assert (52 < Z.pos (digits2_pos m)) by (apply (Z.pow_lt_mono_r_iff 2); lia). lia.
Qed.

(** The bits of a float read back as the float. *)
Lemma f64_bits_roundtrip v : f64_ok v -> f64_of_bits (f64_to_bits v) = v /\ 0 <= f64_to_bits v < 2 ^ 64.
Proof.
  intros Hok. destruct v as [s|s| |s m e]; [by destruct s|by destruct s|done|].
  assert (Hgen : forall ex fr, 0 <= ex < 2047 -> 0 <= fr < 2 ^ 52 -> let b := sign_bit s + ex * 2 ^ 52 + fr in
    (2 ^ 63 <=? b) = s /\ (b / 2 ^ 52) mod 2048 = ex /\ b mod 2 ^ 52 = fr /\ 0 <= b < 2 ^ 64).
  { intros ex fr Hex Hfr b. assert (Hb : b = (ex + (if s then 2048 else 0)) * 2 ^ 52 + fr) by (unfold b, sign_bit; destruct s; lia).
    clearbody b. subst b. set (k := if s then 2048 else 0). split_and!.
    - destruct s; [apply Z.leb_le|apply Z.leb_gt]; unfold k; lia.
    - rewrite Z.div_add_l, Z.div_small, Z.add_0_r by lia. unfold k. destruct s; [|rewrite Z.add_0_r; apply Z.mod_small; lia].
      change 2048 with (1 * 2048) at 1. rewrite Z.mod_add, Z.mod_small; lia.
    - rewrite Z.add_comm, Z.mod_add by lia. apply Z.mod_small. lia.
    - unfold k. destruct s; lia.
    - unfold k. destruct s; lia. }
  destruct (finite_shape _ _ _ Hok) as [[Hm He]|[Hm ->]]; cbn [f64_to_bits].
  - rewrite (proj2 (Z.ltb_ge _ _)) by lia. destruct (Hgen (e + 1075) (Z.pos m - 2 ^ 52)) as (Es & Ee & Ef & Hr); [lia..|]. split; [|exact Hr].
    unfold f64_of_bits. rewrite Es, Ee, Ef. rewrite (proj2 (Z.eqb_neq _ 0)), (proj2 (Z.eqb_neq _ 2047)) by lia.
    rewrite Z.sub_add. f_equal. lia.
  - rewrite (proj2 (Z.ltb_lt _ _)) by lia. destruct (Hgen 0 (Z.pos m)) as (Es & Ee & Ef & Hr); [lia..|]. rewrite Z.mul_0_l, Z.add_0_r in *.
    split; [|exact Hr]. unfold f64_of_bits. by rewrite Es, Ee, Ef.
Qed.

(** ** Exact conversion *)

Lemma iter_xO m k : Z.pos (Pos.iter xO m k) = Z.pos m * 2 ^ Z.pos k /\ digits2_pos (Pos.iter xO m k) = (digits2_pos m + k)%positive.
Proof.
  induction k as [|k IH] using Pos.peano_ind; [cbn; lia|]. destruct IH as [H1 H2]. rewrite Pos.iter_succ. cbn [digits2_pos]. rewrite H2.
  split; [|lia]. rewrite Pos2Z.inj_succ, Z.pow_succ_r by lia. lia.
Qed.

(** An integer below 2^53 is converted exactly. *)
Lemma f64_of_exact n : 0 <= n < 2 ^ 53 -> f64_ok (f64_of n) /\ is_int (f64_of n) n.
Proof.
  intros Hn. destruct n as [|m|m]; [done| |lia]. set (d := Z.pos (digits2_pos m)). pose proof (digits2_lower m) as Hl. fold d in Hl.
  assert (Hd : d <= 53) by (assert (d - 1 < 53) by (apply (Z.pow_lt_mono_r_iff 2); lia); lia). clear Hl.
  assert (Hex : exists mz, f64_of (Z.pos m) = S754_finite false mz (d - 53) /\ Z.pos mz = Z.pos m * 2 ^ (53 - d) /\ Z.pos (digits2_pos mz) = 53).
  { assert (Haux : forall mz, Z.pos (digits2_pos mz) = 53 -> binary_round_aux 53 1024 false (Z.pos mz) (d - 53) loc_Exact = S754_finite false mz (d - 53)).
    { intros mz Hz. unfold binary_round_aux, shr_fexp. cbn [Zdigits2 shr_record_of_loc]. rewrite Hz.
      replace (fexp 53 1024 (53 + (d - 53)) - (d - 53)) with 0 by (unfold fexp, SpecFloat.emin; lia).
      cbn [shr shr_m loc_of_shr_record round_nearest_even Zdigits2 shr_r shr_s]. rewrite Hz.
      replace (fexp 53 1024 (53 + (d - 53)) - (d - 53)) with 0 by (unfold fexp, SpecFloat.emin; lia). cbn [shr shr_m].
      rewrite (proj2 (Z.leb_le _ _)) by lia. done. }
    unfold f64_of, binary_normalize, binary_round, f64_prec, f64_emax. fold d.
    replace (fexp 53 1024 (d + 0)) with (d - 53) by (unfold fexp, SpecFloat.emin, d; lia). unfold shl_align. rewrite Z.sub_0_r.
    destruct (d - 53) as [|k|k] eqn:Ek; [|lia|].
    - exists m. replace (53 - d) with 0 by lia. rewrite Haux by (fold d; lia). split_and!; [done|lia|fold d; lia].
    - destruct (iter_xO m k) as [Hv Hk]. exists (Pos.iter xO m k). rewrite Haux by (rewrite Hk; lia). split_and!; [done| |rewrite Hk; lia].
      rewrite Hv. f_equal. f_equal. lia. }
  destruct Hex as (mz & -> & Hz & Hdz). split.
  - unfold f64_ok, valid_binary, bounded, canonical_mantissa, f64_prec, f64_emax. rewrite Hdz. apply andb_true_intro.
    split; [apply Z.eqb_eq; unfold fexp, SpecFloat.emin; lia|apply Z.leb_le; lia].
  - cbn [is_int]. rewrite Z.max_r, Z.max_l by lia. rewrite Hz. replace (- (d - 53)) with (53 - d) by lia. change (2 ^ 0) with 1. lia.
Qed.
