(* ===== verification/Ids.v ===== *)
(** * Connection identifiers (crates/core/src/ids.rs) *)

From S2P Require Import Prelude.

(** [pub const GENERATION_BITS: u32 = 24] and its mask. *)
Definition GENERATION_BITS : Z := 24.
Definition GENERATION_MASK : Z := Z.shiftl 1 GENERATION_BITS - 1.

(** [ConnectionId(pub u64)]. *)
Abbreviation ConnectionId := Z (only parsing).
(** [UserId(pub String)] and [RoomId(pub String)]. *)
Abbreviation UserId := rstring (only parsing).
Abbreviation RoomId := rstring (only parsing).

Module ConnId.

(** [ConnectionId::new(shard: u8, generation: u32, key: u32)]:
    [shard: 8][generation: 24][key: 32]. *)
Definition new (shard generation key : Z) : ConnectionId :=
  let g := Z.land generation GENERATION_MASK in
  Z.lor (Z.lor (wrap 64 (Z.shiftl shard 56)) (Z.shiftl g 32)) key.

(** [(self.0 >> 56) as u8]. *)
Definition shard (id : ConnectionId) : Z := wrap 8 (Z.shiftr id 56).

(** [((self.0 >> 32) as u32) & GENERATION_MASK]. *)
Definition generation (id : ConnectionId) : Z :=
  Z.land (wrap 32 (Z.shiftr id 32)) GENERATION_MASK.

(** [self.0 as u32]. *)
Definition key (id : ConnectionId) : Z := wrap 32 id.

End ConnId.

#[global] Arguments ConnId.new : simpl never.
#[global] Arguments ConnId.shard : simpl never.
#[global] Arguments ConnId.generation : simpl never.
#[global] Arguments ConnId.key : simpl never.

(** The three fields as an arithmetic sum, the form the proofs use. *)
Lemma conn_id_new_sum s g k :
  0 <= s < 256 -> 0 <= k < 2 ^ 32 ->
  ConnId.new s g k = s * 2 ^ 56 + (g mod 2 ^ 24) * 2 ^ 32 + k.
Proof.
  intros Hs Hk. unfold ConnId.new, GENERATION_MASK, GENERATION_BITS.
  change (Z.shiftl 1 24 - 1) with (Z.ones 24).
  rewrite Z.land_ones, !Z.shiftl_mul_pow2, wrap_small by lia.
  pose proof (Z.mod_pos_bound g (2 ^ 24)).
  rewrite (lor_disjoint_add s _ 56) by lia.
  replace (s * 2 ^ 56 + g mod 2 ^ 24 * 2 ^ 32) with ((s * 2 ^ 24 + g mod 2 ^ 24) * 2 ^ 32) by lia.
  rewrite lor_disjoint_add by lia. lia.
Qed.

Lemma conn_id_range s g k : 0 <= s < 256 -> 0 <= k < 2 ^ 32 -> u64_ok (ConnId.new s g k).
Proof.
  intros Hs Hk. rewrite conn_id_new_sum by done. unfold u64_ok.
  pose proof (Z.mod_pos_bound g (2 ^ 24)). lia.
Qed.

Lemma conn_id_shard s g k : 0 <= s < 256 -> 0 <= k < 2 ^ 32 -> ConnId.shard (ConnId.new s g k) = s.
Proof.
  intros Hs Hk. unfold ConnId.shard. rewrite conn_id_new_sum, Z.shiftr_div_pow2 by lia.
  pose proof (Z.mod_pos_bound g (2 ^ 24)).
  rewrite <-Z.add_assoc, Z.div_add_l, Z.div_small by lia. rewrite wrap_small; lia.
Qed.

Lemma conn_id_key s g k : 0 <= s < 256 -> 0 <= k < 2 ^ 32 -> ConnId.key (ConnId.new s g k) = k.
Proof.
  intros Hs Hk. unfold ConnId.key, wrap. rewrite conn_id_new_sum by lia.
  replace (s * 2 ^ 56 + g mod 2 ^ 24 * 2 ^ 32 + k) with
    (k + (s * 2 ^ 24 + g mod 2 ^ 24) * 2 ^ 32) by lia.
  rewrite Z.mod_add by lia. apply Z.mod_small. lia.
Qed.

Lemma conn_id_generation s g k :
  0 <= s < 256 -> 0 <= k < 2 ^ 32 -> ConnId.generation (ConnId.new s g k) = g mod 2 ^ 24.
Proof.
  intros Hs Hk. unfold ConnId.generation, wrap, GENERATION_MASK, GENERATION_BITS.
  change (Z.shiftl 1 24 - 1) with (Z.ones 24).
  rewrite Z.land_ones, Z.shiftr_div_pow2, conn_id_new_sum by lia.
  replace (s * 2 ^ 56 + g mod 2 ^ 24 * 2 ^ 32 + k) with
    (k + (s * 2 ^ 24 + g mod 2 ^ 24) * 2 ^ 32) by lia.
  rewrite Z.div_add, (Z.div_small k), Z.add_0_l by lia.
  pose proof (Z.mod_pos_bound g (2 ^ 24)).
  rewrite (Z.mod_small _ (2 ^ 32)) by lia.
  rewrite Z.add_comm, Z.mod_add by lia. by rewrite Z.mod_mod by lia.
Qed.

(** Two identifiers with the same fields are the same identifier. *)
Lemma conn_id_inj s1 g1 k1 s2 g2 k2 :
  0 <= s1 < 256 -> 0 <= k1 < 2 ^ 32 -> 0 <= s2 < 256 -> 0 <= k2 < 2 ^ 32 ->
  ConnId.new s1 g1 k1 = ConnId.new s2 g2 k2 ->
  s1 = s2 /\ g1 mod 2 ^ 24 = g2 mod 2 ^ 24 /\ k1 = k2.
Proof.
  intros H1 H2 H3 H4 Heq.
  pose proof (conn_id_shard s1 g1 k1 H1 H2) as A. pose proof (conn_id_shard s2 g2 k2 H3 H4).
  pose proof (conn_id_generation s1 g1 k1 H1 H2) as B.
  pose proof (conn_id_generation s2 g2 k2 H3 H4).
  pose proof (conn_id_key s1 g1 k1 H1 H2) as C. pose proof (conn_id_key s2 g2 k2 H3 H4).
  rewrite Heq in A, B, C. split_and!; congruence.
Qed.

(** Every [u64] is the identifier of its own three fields. *)
Lemma conn_id_eta id :
  u64_ok id -> ConnId.new (ConnId.shard id) (ConnId.generation id) (ConnId.key id) = id.
Proof.
  intros Hid. unfold u64_ok in Hid.
  assert (0 <= ConnId.shard id < 256) by (apply Z.mod_pos_bound; lia).
  assert (0 <= ConnId.key id < 2 ^ 32) by (apply Z.mod_pos_bound; lia).
  rewrite conn_id_new_sum by done.
  unfold ConnId.shard, ConnId.key, ConnId.generation, GENERATION_MASK, GENERATION_BITS, wrap.
  change (Z.shiftl 1 24 - 1) with (Z.ones 24).
  rewrite Z.land_ones, !Z.shiftr_div_pow2 by lia.
  rewrite (Z.mod_small (id / 2 ^ 56)) by (split; [apply Z.div_pos|apply Z.div_lt_upper_bound]; lia).
  rewrite (Z.mod_small (id / 2 ^ 32)) by (split; [apply Z.div_pos|apply Z.div_lt_upper_bound]; lia).
  rewrite Z.mod_mod by lia.
  replace (id / 2 ^ 56) with (id / 2 ^ 32 / 2 ^ 24) by (rewrite Z.div_div by lia; done).
  pose proof (Z.div_mod (id / 2 ^ 32) (2 ^ 24)). pose proof (halves_sum id). lia.
Qed.

Lemma conn_id_shard_range id : 0 <= ConnId.shard id < 256.
Proof. apply Z.mod_pos_bound. lia. Qed.

Lemma conn_id_key_range id : 0 <= ConnId.key id < 2 ^ 32.
Proof. apply Z.mod_pos_bound. lia. Qed.

(** The clients reason through the lemmas above. *)
#[global] Opaque ConnId.new ConnId.shard ConnId.generation ConnId.key.
