(* ===== verification/Runtime.v ===== *)
(** * Interfaces of the crates the program builds on

    The program's own code is modelled from its source; the crates it links
    (slab, tokio) are not part of it.  Each is a typeclass here: the operations
    the code calls, and the documented behaviour the code relies on as laws.
    The theorems of the components are proved against these interfaces; the
    instances at the end show that the laws can be met. *)

From S2P Require Import Prelude.

(** ** slab::Slab

    A slab hands out small integer keys and reuses freed ones before it grows.
    [slab_slots] is the number of slots ever allocated: a vacant key is a freed
    slot below it or exactly the next one. *)
Class Slab (S : Type -> Type) := {
  slab_new : forall A, S A;
  slab_vacant_key : forall A, S A -> nat;
  slab_insert : forall A, S A -> A -> S A;
  slab_get : forall A, S A -> nat -> option A;
  slab_set : forall A, S A -> nat -> A -> S A;
  slab_remove : forall A, S A -> nat -> S A;
  slab_iter : forall A, S A -> list (nat * A);
  slab_slots : forall A, S A -> nat;
  slab_get_new : forall A k, slab_get A (slab_new A) k = None;
  slab_get_vacant : forall A (s : S A), slab_get A s (slab_vacant_key A s) = None;
  slab_get_insert : forall A (s : S A) x k,
    slab_get A (slab_insert A s x) k =
    if decide (k = slab_vacant_key A s) then Some x else slab_get A s k;
  slab_get_set : forall A (s : S A) x k k',
    is_Some (slab_get A s k) ->
    slab_get A (slab_set A s k x) k' = if decide (k' = k) then Some x else slab_get A s k';
  slab_get_remove : forall A (s : S A) k k',
    slab_get A (slab_remove A s k) k' = if decide (k' = k) then None else slab_get A s k';
  slab_iter_get : forall A (s : S A) k x, (k, x) ∈ slab_iter A s <-> slab_get A s k = Some x;
  slab_iter_nodup : forall A (s : S A), NoDup (slab_iter A s).*1;
  slab_slots_new : forall A, slab_slots A (slab_new A) = 0%nat;
  slab_slots_set : forall A (s : S A) k x, slab_slots A (slab_set A s k x) = slab_slots A s;
  slab_slots_remove : forall A (s : S A) k, slab_slots A (slab_remove A s k) = slab_slots A s;
  slab_slots_insert : forall A (s : S A) x,
    slab_slots A (slab_insert A s x) = Nat.max (slab_slots A s) (slab_vacant_key A s + 1);
  slab_vacant_slots : forall A (s : S A), (slab_vacant_key A s <= slab_slots A s)%nat;
}.

#[global] Arguments slab_new {S _ A}.
#[global] Arguments slab_vacant_key {S _ A} _.
#[global] Arguments slab_insert {S _ A} _ _.
#[global] Arguments slab_get {S _ A} _ _.
#[global] Arguments slab_set {S _ A} _ _ _.
#[global] Arguments slab_remove {S _ A} _ _.
#[global] Arguments slab_iter {S _ A} _.
#[global] Arguments slab_slots {S _ A} _.

(** ** tokio::sync::Notify, with one waiting task

    [notify_one] wakes the parked task if there is one and otherwise stores one
    permit; [notified().await] consumes a stored permit and otherwise parks. *)
Class Notify (N : Type) := {
  notify_new : N;
  notify_permit : N -> bool;
  notify_store : N -> N;
  notify_take : N -> N;
  notify_permit_new : notify_permit notify_new = false;
  notify_permit_store : forall n, notify_permit (notify_store n) = true;
  notify_permit_take : forall n, notify_permit (notify_take n) = false;
}.

(** ** tokio::sync::mpsc, a bounded channel

    The messages in the channel oldest first, its capacity and whether the
    receiver is gone.  [try_send], [send] and [recv] are defined from these. *)
Class Mpsc (Ch : Type -> Type) := {
  ch_new : forall A, nat -> Ch A;
  ch_items : forall A, Ch A -> list A;
  ch_capacity : forall A, Ch A -> nat;
  ch_closed : forall A, Ch A -> bool;
  ch_enqueue : forall A, Ch A -> A -> Ch A;
  ch_dequeue : forall A, Ch A -> Ch A;
  ch_drop_rx : forall A, Ch A -> Ch A;
  ch_items_new : forall A n, ch_items A (ch_new A n) = [];
  ch_items_enqueue : forall A c x, ch_items A (ch_enqueue A c x) = ch_items A c ++ [x];
  ch_items_dequeue : forall A c, ch_items A (ch_dequeue A c) = tail (ch_items A c);
  ch_capacity_new : forall A n, ch_capacity A (ch_new A n) = n;
  ch_capacity_enqueue : forall A c x, ch_capacity A (ch_enqueue A c x) = ch_capacity A c;
  ch_capacity_dequeue : forall A c, ch_capacity A (ch_dequeue A c) = ch_capacity A c;
  ch_closed_new : forall A n, ch_closed A (ch_new A n) = false;
  ch_closed_enqueue : forall A c x, ch_closed A (ch_enqueue A c x) = ch_closed A c;
  ch_closed_dequeue : forall A c, ch_closed A (ch_dequeue A c) = ch_closed A c;
  ch_items_drop_rx : forall A c, ch_items A (ch_drop_rx A c) = [];
  ch_capacity_drop_rx : forall A c, ch_capacity A (ch_drop_rx A c) = ch_capacity A c;
  ch_closed_drop_rx : forall A c, ch_closed A (ch_drop_rx A c) = true;
}.

#[global] Arguments ch_new {Ch _ A} _.
#[global] Arguments ch_items {Ch _ A} _.
#[global] Arguments ch_capacity {Ch _ A} _.
#[global] Arguments ch_closed {Ch _ A} _.
#[global] Arguments ch_enqueue {Ch _ A} _ _.
#[global] Arguments ch_dequeue {Ch _ A} _.
#[global] Arguments ch_drop_rx {Ch _ A} _.

(** [Result<(), TrySendError>]. *)
Inductive SendResult := SendOk | SendFull | SendClosed.

#[global] Instance SendResult_eq_dec : EqDecision SendResult.
Proof. solve_decision. Defined.

Section Mpsc.
Context {Ch : Type -> Type} `{Mpsc Ch}.

Definition ch_room {A} (c : Ch A) : bool := bool_decide (length (ch_items c) < ch_capacity c)%nat.

(** [Sender::try_send]. *)
Definition try_send {A} (x : A) (c : Ch A) : SendResult * Ch A :=
  if ch_closed c then (SendClosed, c)
  else if ch_room c then (SendOk, ch_enqueue c x) else (SendFull, c).

(** One poll of [Sender::send]: [None] while it has to wait for room. *)
Definition send {A} (x : A) (c : Ch A) : option (bool * Ch A) :=
  if ch_closed c then Some (false, c)
  else if ch_room c then Some (true, ch_enqueue c x) else None.

(** One poll of [Receiver::recv] or [try_recv] on a channel with live senders. *)
Definition recv {A} (c : Ch A) : option (A * Ch A) :=
  match ch_items c with [] => None | x :: _ => Some (x, ch_dequeue c) end.

Lemma try_send_items {A} (x : A) c res c' :
  try_send x c = (res, c') ->
  ch_items c' = ch_items c ++ (if decide (res = SendOk) then [x] else []) /\
  ch_capacity c' = ch_capacity c /\ ch_closed c' = ch_closed c /\
  (length (ch_items c) <= ch_capacity c -> length (ch_items c') <= ch_capacity c)%nat.
Proof.
  unfold try_send, ch_room. destruct (ch_closed c) eqn:Ec.
  { intros [= <- <-]. rewrite decide_False, app_nil_r by done. done. }
  case_bool_decide as Hr; intros [= <- <-].
  - rewrite decide_True by done. rewrite ch_items_enqueue, ch_capacity_enqueue, ch_closed_enqueue.
    split_and!; [done..|]. intros _. rewrite length_app. simpl. lia.
  - rewrite decide_False, app_nil_r by done. done.
Qed.

End Mpsc.

(** ** Instances *)

(** A slab as a vector of slots, reusing the lowest vacant one. *)
Module VecSlab.

Definition t (A : Type) : Type := list (option A).

Fixpoint vacant {A} (s : list (option A)) : nat :=
  match s with
  | [] => O
  | None :: _ => O
  | Some _ :: s => S (vacant s)
  end.

Fixpoint put {A} (s : list (option A)) (x : A) : t A :=
  match s with
  | [] => [Some x]
  | None :: s => Some x :: s
  | Some y :: s => Some y :: put s x
  end.

Definition get {A} (s : list (option A)) (k : nat) : option A := mjoin (s !! k).

Definition iter {A} (s : list (option A)) : list (nat * A) :=
  omap (fun '(k, o) => pair k <$> o) (imap (fun k o => (k, o)) s).

Lemma get_put {A} (s : list (option A)) x k : get (put s x) k = if decide (k = vacant s) then Some x else get s k.
Proof.
  unfold get. revert k. induction s as [|[y|] s IH]; intros [|k]; simpl; try done.
  rewrite IH. repeat case_decide; naive_solver.
Qed.

Lemma get_insert {A} (s : list (option A)) o k k' :
  (k < length s)%nat -> get (<[k := o]> s) k' = if decide (k' = k) then o else get s k'.
Proof.
  intros Hk. unfold get. case_decide as Hd.
  - subst. by rewrite list_lookup_insert_eq.
  - by rewrite list_lookup_insert_ne.
Qed.

Lemma get_lt {A} (s : list (option A)) k x : get s k = Some x -> (k < length s)%nat.
Proof.
  unfold get. destruct (s !! k) eqn:E; [|done]. intros _. by apply lookup_lt_Some in E.
Qed.

Lemma get_remove {A} (s : list (option A)) k k' :
  get (<[k := None]> s) k' = if decide (k' = k) then None else get s k'.
Proof.
  destruct (decide (k < length s)%nat); [by apply get_insert|].
  rewrite list_insert_ge by lia. case_decide; [|done]. subst.
  unfold get. by rewrite lookup_ge_None_2 by lia.
Qed.

Lemma iter_get {A} (s : list (option A)) k x : (k, x) ∈ iter s <-> get s k = Some x.
Proof.
  unfold iter, get. rewrite list_elem_of_omap. split.
  - intros ([k' o] & Hin & Heq). destruct o; simplify_eq/=.
    apply elem_of_lookup_imap in Hin as (i & y & [= <- <-] & Hl). by rewrite Hl.
  - intros Hl. exists (k, Some x). split; [|done]. apply elem_of_lookup_imap.
    exists k, (Some x). split; [done|]. destruct (s !! k) as [[]|]; naive_solver.
Qed.

Lemma iter_nodup {A} (s : list (option A)) : NoDup (iter s).*1.
Proof.
  unfold iter. assert (H : forall f : nat -> nat, Inj eq eq f ->
    NoDup (omap (fun '(k, o) => pair k <$> o) (imap (fun k (o : option A) => (f k, o)) s)).*1 /\
    forall k, k ∈ (omap (fun '(k, o) => pair k <$> o) (imap (fun k o => (f k, o)) s)).*1 ->
      exists i, k = f i).
  { induction s as [|o s IH]; intros f Hf; [split; [constructor|intros ? []%not_elem_of_nil]|].
    destruct (IH (f ∘ S)) as [Hnd Hin]; [apply _|].
    cbn. destruct o as [x|]; cbn.
    - split.
      + constructor; [|exact Hnd]. intros [i Hi]%Hin. apply Hf in Hi. done.
      + intros k [->|[i ->]%Hin]%elem_of_cons; eauto.
    - split; [exact Hnd|]. intros k [i ->]%Hin. eauto. }
  destruct (H id) as [Hnd _]; [apply _|]. exact Hnd.
Qed.

Lemma vacant_le {A} (s : list (option A)) : (vacant s <= length s)%nat.
Proof. induction s as [|[]]; simpl; lia. Qed.

Lemma length_put {A} (s : list (option A)) x : length (put s x) = Nat.max (length s) (vacant s + 1).
Proof. induction s as [|[] ? IH]; simpl; try rewrite IH; lia. Qed.

Lemma get_vacant {A} (s : list (option A)) : get s (vacant s) = None.
Proof. unfold get. induction s as [|[]]; simpl; done. Qed.

End VecSlab.

#[global] Instance vec_slab : Slab VecSlab.t.
Proof.
  refine {| slab_new A := []; slab_vacant_key A := VecSlab.vacant; slab_insert A := VecSlab.put;
            slab_get A := VecSlab.get; slab_set A s k x := <[k := Some x]> s;
            slab_remove A s k := <[k := None]> s; slab_iter A := VecSlab.iter;
            slab_slots A s := length s |}.
  - done.
  - intros. apply VecSlab.get_vacant.
  - intros. apply VecSlab.get_put.
  - intros A s x k k' [y Hy]. apply VecSlab.get_insert. by eapply VecSlab.get_lt.
  - intros. apply VecSlab.get_remove.
  - intros. apply VecSlab.iter_get.
  - intros. apply VecSlab.iter_nodup.
  - done.
  - intros. apply length_insert.
  - intros. apply length_insert.
  - intros. apply VecSlab.length_put.
  - intros. apply VecSlab.vacant_le.
Defined.

(** A permit is one bit. *)
#[global] Instance bool_notify : Notify bool.
Proof.
  refine {| notify_new := false; notify_permit b := b;
            notify_store _ := true; notify_take _ := false |}; done.
Defined.

(** A bounded channel as its contents, its capacity and the closed flag. *)
Module ListChan.
Record t (A : Type) := { items : list A; capacity : nat; closed : bool }.
#[global] Arguments items {A} _.
#[global] Arguments capacity {A} _.
#[global] Arguments closed {A} _.
End ListChan.

#[global] Instance list_mpsc : Mpsc ListChan.t.
Proof.
  refine {| ch_new A n := {| ListChan.items := []; ListChan.capacity := n; ListChan.closed := false |};
            ch_items A := ListChan.items; ch_capacity A := ListChan.capacity; ch_closed A := ListChan.closed;
            ch_enqueue A c x := {| ListChan.items := ListChan.items c ++ [x];
              ListChan.capacity := ListChan.capacity c; ListChan.closed := ListChan.closed c |};
            ch_dequeue A c := {| ListChan.items := tail (ListChan.items c);
              ListChan.capacity := ListChan.capacity c; ListChan.closed := ListChan.closed c |};
            ch_drop_rx A c := {| ListChan.items := []; ListChan.capacity := ListChan.capacity c; ListChan.closed := true |} |}; done.
Defined.
