(* ===== verification/Config.v ===== *)
(** * Runtime configuration (crates/core/src/config.rs)

    The data of [Config] and its defaults.  [Config::validate] calls the
    trust-proxy parser, so it is in [Limits].  Durations are milliseconds. *)

From S2P Require Import Prelude.

(** [struct Limits]. *)
Record Limits := {
  max_payload_bytes : Z;
  max_connections_per_ip : Z;
  max_rooms_per_connection : Z;
}.

Definition Limits_default : Limits :=
  {| max_payload_bytes := Z.shiftl 1 20; max_connections_per_ip := 0;
     max_rooms_per_connection := 100 |}.

(** [enum BackpressurePolicy]. *)
Inductive BackpressurePolicy := Disconnect | DropNewest | DropOldest.

#[global] Instance BackpressurePolicy_eq_dec : EqDecision BackpressurePolicy.
Proof. solve_decision. Defined.

(** [struct Backpressure]. *)
Record Backpressure := { high_water_mark : Z; policy : BackpressurePolicy }.

Definition Backpressure_default : Backpressure :=
  {| high_water_mark := 64 * 1024; policy := Disconnect |}.

(** [struct Keepalive], in milliseconds. *)
Record Keepalive := { ping_interval : Z; pong_timeout : Z }.

Definition Keepalive_default : Keepalive :=
  {| ping_interval := 30 * 1000; pong_timeout := 10 * 1000 |}.

(** [enum TrustProxy]. *)
Inductive TrustProxy := Never | Always | Cidrs (cidrs : list rstring).

(** [struct Authorize]. *)
Record Authorize := { timeout : Z; max_pending : Z }.

Definition Authorize_default : Authorize := {| timeout := 10 * 1000; max_pending := 8192 |}.

(** [struct Observability]. *)
Record Observability := { sampler_ms : Z }.

Definition Observability_default : Observability := {| sampler_ms := 1000 |}.

(** An IP address and a socket address ([std::net]): the octets of the address
    as one number, and the port. *)
Inductive IpAddr := V4 (a : Z) | V6 (a : Z).
Record SocketAddr := { ip : IpAddr; port : Z }.

#[global] Instance IpAddr_eq_dec : EqDecision IpAddr.
Proof. solve_decision. Defined.
#[global] Instance IpAddr_countable : Countable IpAddr.
Proof.
  apply (inj_countable' (fun a => match a with V4 z => inl z | V6 z => inr z end)
    (fun s => match s with inl z => V4 z | inr z => V6 z end)). by intros [].
Defined.
#[global] Instance SocketAddr_eq_dec : EqDecision SocketAddr.
Proof. solve_decision. Defined.
#[global] Instance SocketAddr_countable : Countable SocketAddr.
Proof.
  apply (inj_countable' (fun a => (ip a, port a)) (fun '(i, p) => {| ip := i; port := p |})).
  by intros [].
Defined.

(** [struct ClusterConfig]. *)
Record ClusterConfig := {
  cc_node_id : Z;
  cc_listen : SocketAddr;
  cc_seeds : list SocketAddr;
  cc_secret : bytes;
  cc_cluster_name : rstring;
}.

(** [struct Config]. *)
Record Config := {
  limits : Limits;
  backpressure : Backpressure;
  keepalive : Keepalive;
  trust_proxy : TrustProxy;
  authorize : Authorize;
  observability : Observability;
  cluster : option ClusterConfig;
}.

Definition Config_default : Config :=
  {| limits := Limits_default; backpressure := Backpressure_default;
     keepalive := Keepalive_default; trust_proxy := Never; authorize := Authorize_default;
     observability := Observability_default; cluster := None |}.
