(* ===== verification/Metrics.v ===== *)
(** * Lock-free counters (crates/core/src/metrics.rs)

    [Metrics] is one record of [u64] counters; a [counter] names a field, and
    [add]/[sub]/[get] are the [fetch_add]/[fetch_sub]/[load] on that field,
    with the wrap-around of an atomic. *)

From S2P Require Import Prelude.

Module Metrics.

(** [struct Metrics]. *)
Record t := {
  connections : Z;
  messages_in : Z;
  messages_out : Z;
  bytes_in : Z;
  bytes_out : Z;
  backpressure_drops : Z;
  bridge_dropped : Z;
  admission_rejected_ip : Z;
  authorize_rejected : Z;
  authorize_timed_out : Z;
  pending_overflow : Z;
  admin_disconnects : Z;
  admin_room_closes : Z;
}.

(** The name of one counter: what the code passes as [&AtomicU64]. *)
Inductive counter :=
  | Connections | MessagesIn | MessagesOut | BytesIn | BytesOut | BackpressureDrops
  | BridgeDropped | AdmissionRejectedIp | AuthorizeRejected | AuthorizeTimedOut
  | PendingOverflow | AdminDisconnects | AdminRoomCloses.

#[global] Instance counter_eq_dec : EqDecision counter.
Proof. solve_decision. Defined.

(** [Metrics::default()]. *)
Definition default : t :=
  {| connections := 0; messages_in := 0; messages_out := 0; bytes_in := 0; bytes_out := 0;
     backpressure_drops := 0; bridge_dropped := 0; admission_rejected_ip := 0;
     authorize_rejected := 0; authorize_timed_out := 0; pending_overflow := 0;
     admin_disconnects := 0; admin_room_closes := 0 |}.

(** [Metrics::get]. *)
Definition get (c : counter) (m : t) : Z :=
  match c with
  | Connections => connections m
  | MessagesIn => messages_in m
  | MessagesOut => messages_out m
  | BytesIn => bytes_in m
  | BytesOut => bytes_out m
  | BackpressureDrops => backpressure_drops m
  | BridgeDropped => bridge_dropped m
  | AdmissionRejectedIp => admission_rejected_ip m
  | AuthorizeRejected => authorize_rejected m
  | AuthorizeTimedOut => authorize_timed_out m
  | PendingOverflow => pending_overflow m
  | AdminDisconnects => admin_disconnects m
  | AdminRoomCloses => admin_room_closes m
  end.

Definition upd (c : counter) (f : Z -> Z) (m : t) : t :=
  let at_ c' z := if decide (c = c') then f z else z in
  {| connections := at_ Connections (connections m);
     messages_in := at_ MessagesIn (messages_in m);
     messages_out := at_ MessagesOut (messages_out m);
     bytes_in := at_ BytesIn (bytes_in m);
     bytes_out := at_ BytesOut (bytes_out m);
     backpressure_drops := at_ BackpressureDrops (backpressure_drops m);
     bridge_dropped := at_ BridgeDropped (bridge_dropped m);
     admission_rejected_ip := at_ AdmissionRejectedIp (admission_rejected_ip m);
     authorize_rejected := at_ AuthorizeRejected (authorize_rejected m);
     authorize_timed_out := at_ AuthorizeTimedOut (authorize_timed_out m);
     pending_overflow := at_ PendingOverflow (pending_overflow m);
     admin_disconnects := at_ AdminDisconnects (admin_disconnects m);
     admin_room_closes := at_ AdminRoomCloses (admin_room_closes m) |}.

(** [Metrics::add]: a wrapping [fetch_add]. *)
Definition add (c : counter) (n : Z) (m : t) : t := upd c (fun v => wrap 64 (v + n)) m.

(** [Metrics::sub]: a wrapping [fetch_sub]. *)
Definition sub (c : counter) (n : Z) (m : t) : t := upd c (fun v => wrap 64 (v - n)) m.

End Metrics.

#[global] Arguments Metrics.get : simpl never.
#[global] Arguments Metrics.add : simpl never.
#[global] Arguments Metrics.sub : simpl never.

Lemma metrics_get_add c c' n m :
  Metrics.get c' (Metrics.add c n m) =
  if decide (c = c') then wrap 64 (Metrics.get c m + n) else Metrics.get c' m.
Proof. by destruct c, c'. Qed.

Lemma metrics_get_sub c c' n m :
  Metrics.get c' (Metrics.sub c n m) =
  if decide (c = c') then wrap 64 (Metrics.get c m - n) else Metrics.get c' m.
Proof. by destruct c, c'. Qed.

Lemma metrics_get_add_eq c n m : Metrics.get c (Metrics.add c n m) = wrap 64 (Metrics.get c m + n).
Proof. rewrite metrics_get_add. by rewrite decide_True. Qed.

(** Two bumps of one counter are one bump by the sum, wrap-around included. *)
Lemma wrap_add_add w a b c : 0 <= w -> wrap w (wrap w (a + b) + c) = wrap w (a + (b + c)).
Proof. intros. unfold wrap. rewrite Z.add_mod_idemp_l by lia. f_equal. lia. Qed.
