(* ===== verification/Mailbox.v ===== *)
(** * The bounded send queue (crates/core/src/connection/backpressure.rs)

    One [Mailbox] per connection: a queue bounded in bytes by the high-water
    mark, with the configured overflow policy.  The mutex makes every [push],
    [pop] attempt and [close] one atomic step; [usize] byte counts of resident
    frames are unbounded integers here. *)

From S2P Require Import Prelude Config Metrics Runtime.

Module Mailbox.

(** [struct OutboundFrame]. *)
Record OutboundFrame := { data : bytes; is_binary : bool }.

(** [enum PushOutcome]. *)
Inductive PushOutcome := Queued | DroppedNewest | DroppedOldest | Disconnected | Closed.

#[global] Instance PushOutcome_eq_dec : EqDecision PushOutcome.
Proof. solve_decision. Defined.

(** [fn charge]: the payload bytes, but at least 1. *)
Definition charge (frame : OutboundFrame) : Z := Z.max (Z.of_nat (length (data frame))) 1.

(** [struct Q] with the immutable fields of [struct Inner]. *)
Record t := {
  items : list OutboundFrame;
  qbytes : Z;
  closed : bool;
  hwm : Z;
  pol : BackpressurePolicy;
}.

(** [Mailbox::new]. *)
Definition new (high_water_mark : Z) (policy : BackpressurePolicy) : t :=
  {| items := []; qbytes := 0; closed := false; hwm := high_water_mark; pol := policy |}.

Definition set_q (its : list OutboundFrame) (b : Z) (cl : bool) (mb : t) : t :=
  {| items := its; qbytes := b; closed := cl; hwm := hwm mb; pol := pol mb |}.

(** The [DropOldest] loop: pop from the front until the frame fits or the queue
    is empty.  Returns the items, their bytes and how many were dropped. *)
Fixpoint evict (limit len : Z) (its : list OutboundFrame) (b dropped : Z)
    : list OutboundFrame * Z * Z :=
  match its with
  | [] => ([], b, dropped)
  | old :: rest =>
      if limit <? b + len then evict limit len rest (b - charge old) (dropped + 1)
      else (its, b, dropped)
  end.

(** [Mailbox::push]; the boolean says whether [notify_one] is called. *)
Definition push (frame : OutboundFrame) (mb : t) (m : Metrics.t)
    : PushOutcome * bool * t * Metrics.t :=
  if closed mb then (Closed, false, mb, m)
  else
    let len := charge frame in
    if (hwm mb <? qbytes mb + len) && negb (bool_decide (items mb = [])) then
      match pol mb with
      | Disconnect =>
          (Disconnected, true, set_q (items mb) (qbytes mb) true mb,
           Metrics.add Metrics.BackpressureDrops 1 m)
      | DropNewest => (DroppedNewest, false, mb, Metrics.add Metrics.BackpressureDrops 1 m)
      | DropOldest =>
          let '(its, b, dropped) := evict (hwm mb) len (items mb) (qbytes mb) 0 in
          (DroppedOldest, true, set_q (its ++ [frame]) (b + len) (closed mb) mb,
           Metrics.add Metrics.BackpressureDrops dropped m)
      end
    else (Queued, true, set_q (items mb ++ [frame]) (qbytes mb + len) (closed mb) mb, m).

(** What one locked pass of the [pop] loop finds. *)
Inductive PopStep := Got (frame : OutboundFrame) | Ended | MustWait.

(** [Mailbox::pop], one pass under the lock. *)
Definition pop (mb : t) : PopStep * t :=
  match items mb with
  | f :: rest => (Got f, set_q rest (qbytes mb - charge f) (closed mb) mb)
  | [] => (if closed mb then Ended else MustWait, mb)
  end.

(** [Mailbox::close]. *)
Definition close (mb : t) : t := set_q (items mb) (qbytes mb) true mb.

(** [Mailbox::queued_bytes]. *)
Definition queued_bytes (mb : t) : Z := qbytes mb.

End Mailbox.

Import Mailbox.

Lemma charge_pos f : 1 <= charge f.
Proof. unfold charge. lia. Qed.

(** ** The representation invariant *)

(** The byte count is the sum of the charges, and the queue is within the
    high-water mark unless it holds a single oversized frame. *)
Record mailbox_wf (mb : Mailbox.t) : Prop := {
  mb_bytes : qbytes mb = zsum charge (items mb);
  mb_bound : qbytes mb <= hwm mb \/ length (items mb) = 1%nat;
  mb_hwm : 0 <= hwm mb;
}.

Lemma evict_spec limit len its b d its' b' d' :
  evict limit len its b d = (its', b', d') ->
  exists gone, its = gone ++ its' /\ b' = b - zsum charge gone /\
    d' = d + Z.of_nat (length gone) /\ (its' = [] \/ b' + len <= limit).
Proof.
  revert b d. induction its as [|old rest IH]; intros b d; cbn [evict].
  - intros [= <- <- <-]. exists []. rewrite zsum_nil. simpl. split_and!; [done|lia|lia|by left].
  - destruct (limit <? b + len) eqn:E.
    + intros (gone & -> & -> & -> & Hfit)%IH. exists (old :: gone).
      rewrite zsum_cons. simpl. split_and!; [done|lia|lia|done].
    + intros [= <- <- <-]. exists []. rewrite zsum_nil. simpl. split_and!; [done|lia|lia|right; blia].
Qed.

Lemma mailbox_new_wf h p : 0 <= h -> mailbox_wf (Mailbox.new h p).
Proof. intros Hh. split; simpl; [by rewrite zsum_nil|by left|done]. Qed.

Lemma push_wf f mb m o n mb' m' :
  mailbox_wf mb -> push f mb m = (o, n, mb', m') -> mailbox_wf mb'.
Proof.
  intros [Hb Hbd Hh]. unfold push.
  destruct (closed mb); [intros [= <- <- <- <-]; by split|].
  destruct (_ && _) eqn:Ec.
  - destruct (pol mb); [intros [= <- <- <- <-]; by split|intros [= <- <- <- <-]; by split|].
    destruct (evict _ _ _ _ _) as [[its b] d] eqn:Ee.
    apply evict_spec in Ee as (gone & Hits & -> & -> & Hfit).
    intros [= <- <- <- <-]. split; simpl; rewrite ?zsum_app, ?zsum_cons, ?zsum_nil; [| |done].
    + rewrite Hb, Hits, zsum_app. lia.
    + destruct Hfit as [->|Hfit]; [by right|]. left. lia.
  - intros [= <- <- <- <-]. split; simpl; rewrite ?zsum_app, ?zsum_cons, ?zsum_nil; [lia| |done].
    apply andb_false_iff in Ec as [Ec|Ec]; [left; blia|].
    apply negb_false_iff, bool_decide_eq_true in Ec. rewrite Ec. by right.
Qed.

Lemma pop_wf mb r mb' : mailbox_wf mb -> pop mb = (r, mb') -> mailbox_wf mb'.
Proof.
  intros [Hb Hbd Hh]. unfold pop. destruct (items mb) as [|f rest] eqn:Ei.
  - intros [= _ <-]. split; rewrite ?Ei; [done|left|done]. rewrite zsum_nil in Hb. lia.
  - intros [= _ <-]. rewrite zsum_cons in Hb. pose proof (charge_pos f).
    split; simpl; [lia| |done]. left. destruct Hbd as [|Hl]; [lia|].
    destruct rest; [rewrite zsum_nil in Hb; lia|done].
Qed.

Lemma close_wf mb : mailbox_wf mb -> mailbox_wf (Mailbox.close mb).
Proof. by intros [? ? ?]. Qed.

#[export] Hint Resolve mailbox_new_wf push_wf pop_wf close_wf : beam.

(** ** Runs with their history *)

(** One mailbox operation, as the producer and the writer issue them. *)
Inductive mailbox_op := OpPush (f : OutboundFrame) | OpPop | OpClose.

(** A mailbox with the frames it was offered while open and the frames the
    writer took, oldest first. *)
Record mailbox_run := {
  r_mb : Mailbox.t;
  r_metrics : Metrics.t;
  r_offered : list OutboundFrame;
  r_popped : list OutboundFrame;
}.

Definition mailbox_step (r : mailbox_run) (op : mailbox_op) : mailbox_run :=
  match op with
  | OpPush f =>
      let '(o, _, mb, m) := push f (r_mb r) (r_metrics r) in
      {| r_mb := mb; r_metrics := m;
         r_offered := if decide (o = Closed) then r_offered r else r_offered r ++ [f];
         r_popped := r_popped r |}
  | OpPop =>
      let '(res, mb) := pop (r_mb r) in
      {| r_mb := mb; r_metrics := r_metrics r; r_offered := r_offered r;
         r_popped := match res with Got f => r_popped r ++ [f] | _ => r_popped r end |}
  | OpClose =>
      {| r_mb := Mailbox.close (r_mb r); r_metrics := r_metrics r;
         r_offered := r_offered r; r_popped := r_popped r |}
  end.

Definition mailbox_exec (ops : list mailbox_op) (r : mailbox_run) : mailbox_run :=
  foldl mailbox_step r ops.

Definition mailbox_start (h : Z) (p : BackpressurePolicy) (m : Metrics.t) : mailbox_run :=
  {| r_mb := Mailbox.new h p; r_metrics := m; r_offered := []; r_popped := [] |}.

(** Frames offered, minus frames delivered, minus frames still queued. *)
Definition lost (r : mailbox_run) : Z :=
  Z.of_nat (length (r_offered r)) - Z.of_nat (length (r_popped r))
    - Z.of_nat (length (items (r_mb r))).

(** What every run keeps: representation, order without duplication, and the
    drop counter as the exact number of lost frames. *)
Record mailbox_run_inv (m0 : Metrics.t) (r : mailbox_run) : Prop := {
  ri_wf : mailbox_wf (r_mb r);
  ri_order : (r_popped r ++ items (r_mb r)) `sublist_of` r_offered r;
  ri_drops : Metrics.get Metrics.BackpressureDrops (r_metrics r) =
    wrap 64 (Metrics.get Metrics.BackpressureDrops m0 + lost r);
}.

Lemma sublist_evict (a b c : list OutboundFrame) l x :
  (a ++ b ++ c) `sublist_of` l -> (a ++ c ++ [x]) `sublist_of` l ++ [x].
Proof.
  intros H. rewrite app_assoc. apply sublist_app; [|done].
  etrans; [|exact H]. apply sublist_app; [done|]. by apply sublist_inserts_l.
Qed.

Lemma mailbox_push_inv m0 r f :
  mailbox_run_inv m0 r -> mailbox_run_inv m0 (mailbox_step r (OpPush f)).
Proof.
  intros [Hwf Hord Hdr]. cbn [mailbox_step].
  destruct (push f (r_mb r) (r_metrics r)) as [[[o n] mb] m] eqn:Ep.
  pose proof (push_wf _ _ _ _ _ _ _ Hwf Ep) as Hwf'.
  unfold push in Ep. unfold lost in Hdr.
  destruct (closed (r_mb r)); [by simplify_eq|].
  destruct (_ && _).
  - destruct (pol (r_mb r)).
    + simplify_eq. split; simpl; [done|by apply sublist_inserts_r|].
      rewrite metrics_get_add_eq, Hdr, wrap_add_add by lia. unfold lost. simpl.
      rewrite length_app. simpl. f_equal. lia.
    + simplify_eq. split; simpl; [done|by apply sublist_inserts_r|].
      rewrite metrics_get_add_eq, Hdr, wrap_add_add by lia. unfold lost. simpl.
      rewrite length_app. simpl. f_equal. lia.
    + destruct (evict _ _ _ _ _) as [[its b] d] eqn:Ee.
      apply evict_spec in Ee as (gone & Hits & -> & -> & _). simplify_eq.
      split; simpl; [done|rewrite Hits in Hord; by eapply sublist_evict|].
      rewrite metrics_get_add_eq, Hdr, wrap_add_add by lia. unfold lost. simpl.
      rewrite Hits, !length_app. simpl. f_equal. lia.
  - simplify_eq. split; simpl; [done|rewrite app_assoc; by apply sublist_app|].
    rewrite Hdr. unfold lost. simpl. rewrite !length_app. simpl. f_equal. lia.
Qed.

Lemma mailbox_step_inv m0 r op : mailbox_run_inv m0 r -> mailbox_run_inv m0 (mailbox_step r op).
Proof.
  destruct op as [f| |]; [apply mailbox_push_inv| |].
  - intros [Hwf Hord Hdr]. cbn [mailbox_step]. destruct (pop (r_mb r)) as [res mb] eqn:Ep.
    pose proof (pop_wf _ _ _ Hwf Ep) as Hwf'. unfold pop, lost in *.
    destruct (items (r_mb r)) as [|f rest] eqn:Ei; simplify_eq; split; simpl; try done.
    + by destruct (closed (r_mb r)); rewrite Ei.
    + unfold lost. simpl. rewrite Hdr. destruct (closed (r_mb r)); simpl; by rewrite Ei.
    + by rewrite <-app_assoc.
    + unfold lost. simpl. rewrite Hdr, length_app. simpl. f_equal. lia.
  - intros [Hwf Hord Hdr]. split; simpl; [by apply close_wf|done|done].
Qed.

Lemma mailbox_exec_inv ops h p m :
  0 <= h -> u64_ok (Metrics.get Metrics.BackpressureDrops m) ->
  mailbox_run_inv m (mailbox_exec ops (mailbox_start h p m)).
Proof.
  intros Hh Hm. unfold mailbox_exec.
  assert (Hi : mailbox_run_inv m (mailbox_start h p m)).
  { split; simpl; [auto with beam|constructor|]. unfold lost. simpl.
    rewrite wrap_small; unfold u64_ok in Hm; lia. }
  revert Hi. generalize (mailbox_start h p m). induction ops as [|op ops IH]; intros r Hr; [done|].
  apply IH. by apply mailbox_step_inv.
Qed.

(** ** Properties of a run *)

(** C2. Rule 5 for the send queue: whatever the producer and the writer do, the
    queued bytes stay within the high-water mark unless a single oversized
    frame is queued, and the number of entries never exceeds the mark (empty
    frames are charged one byte). *)
Theorem mailbox_bounded ops h p m :
  0 < h -> u64_ok (Metrics.get Metrics.BackpressureDrops m) ->
  let mb := r_mb (mailbox_exec ops (mailbox_start h p m)) in
  (queued_bytes mb <= h \/ length (items mb) = 1%nat) /\ Z.of_nat (length (items mb)) <= h.
Proof.
  intros Hh Hm mb.
  assert (Hhwm : hwm mb = h).
  { unfold mb, mailbox_exec. assert (E : hwm (r_mb (mailbox_start h p m)) = h) by done.
    revert E. generalize (mailbox_start h p m). clear. induction ops as [|op ops IH]; intros r E; [done|].
    apply IH. destruct op as [f| |]; cbn [mailbox_step]; [| |done].
    - unfold push. repeat break_match; simpl in *; by simplify_eq.
    - unfold pop. repeat break_match; simpl in *; by simplify_eq. }
  destruct (mailbox_exec_inv ops h p m ltac:(lia) Hm) as [[Hb Hbd _] _ _]. fold mb in Hb, Hbd.
  unfold queued_bytes. rewrite Hhwm in Hbd. split; [done|].
  destruct Hbd as [Hbd|Hl]; [|rewrite Hl; lia].
  pose proof (zsum_ge_length charge (items mb) charge_pos). lia.
Qed.

Definition mailbox_demo : list mailbox_op :=
  [OpPush {| data := str "abc"; is_binary := false |}; OpPush {| data := []; is_binary := true |};
   OpPush {| data := str "hello"; is_binary := false |}; OpPop].

Lemma mailbox_bounded_witness :
  (queued_bytes (r_mb (mailbox_exec mailbox_demo (mailbox_start 4 DropOldest Metrics.default))) <= 4 \/
   length (items (r_mb (mailbox_exec mailbox_demo (mailbox_start 4 DropOldest Metrics.default)))) = 1%nat) /\
  Z.of_nat (length (items (r_mb (mailbox_exec mailbox_demo (mailbox_start 4 DropOldest Metrics.default))))) <= 4.
Proof. apply (mailbox_bounded mailbox_demo 4 DropOldest Metrics.default); [lia|split; vm_compute; congruence]. Defined.

(** C20. Delivery accounting of the send queue: the frames the writer took,
    followed by the frames still queued, are a subsequence of the frames
    offered (order kept, nothing duplicated or invented), and the
    [backpressure_drops] counter grew by exactly the number of frames that are
    in neither, so no drop is silent. *)
Theorem mailbox_fifo_and_counted ops h p m :
  0 <= h -> u64_ok (Metrics.get Metrics.BackpressureDrops m) ->
  let r := mailbox_exec ops (mailbox_start h p m) in
  (r_popped r ++ items (r_mb r)) `sublist_of` r_offered r /\
  Metrics.get Metrics.BackpressureDrops (r_metrics r) =
    wrap 64 (Metrics.get Metrics.BackpressureDrops m + lost r).
Proof. intros Hh Hm r. destruct (mailbox_exec_inv ops h p m Hh Hm). done. Qed.

Lemma mailbox_fifo_and_counted_witness :
  let r := mailbox_exec mailbox_demo (mailbox_start 4 DropOldest Metrics.default) in
  (r_popped r ++ items (r_mb r)) `sublist_of` r_offered r /\
  Metrics.get Metrics.BackpressureDrops (r_metrics r) = 2 /\ length (r_popped r) = 1%nat.
Proof.
  destruct (mailbox_fifo_and_counted mailbox_demo 4 DropOldest Metrics.default) as [Hs _];
    [lia|split; vm_compute; congruence|].
  split; [exact Hs|split; vm_compute; reflexivity].
Defined.

(** Popping [n] times, collecting what comes out. *)
Fixpoint pop_n (n : nat) (mb : Mailbox.t) : list PopStep * Mailbox.t :=
  match n with
  | O => ([], mb)
  | S n => let '(r, mb) := pop mb in let '(rs, mb) := pop_n n mb in (r :: rs, mb)
  end.

Lemma pop_n_items n its b cl h p :
  n = length its ->
  exists b', pop_n n {| items := its; qbytes := b; closed := cl; hwm := h; pol := p |} =
    (map Got its, {| items := []; qbytes := b'; closed := cl; hwm := h; pol := p |}).
Proof.
  intros ->. revert b. induction its as [|f its IH]; intros b; [by exists b|].
  cbn. unfold set_q. cbn. destruct (IH (b - charge f)) as [b' ->]. by exists b'.
Qed.

(** Teardown of a mailbox: once it is closed (by [close] or by the
    [Disconnect] policy) every further push is refused and leaves queue and
    metrics untouched, and the writer receives exactly the queued frames in
    order and then the end of the stream, so it terminates. *)
Lemma mailbox_close_drains mb m f :
  let mb' := Mailbox.close mb in
  push f mb' m = (Closed, false, mb', m) /\
  exists mb'', pop_n (length (items mb)) mb' = (map Got (items mb), mb'') /\ pop mb'' = (Ended, mb'').
Proof.
  destruct mb as [its b cl h p]. simpl. unfold Mailbox.close, set_q. simpl. split; [done|].
  destruct (pop_n_items (length its) its b true h p eq_refl) as [b' E].
  eexists. split; [exact E|done].
Qed.

(** ** The writer never misses a wake-up

    [pop] checks the queue under the lock, then awaits [notified()] outside it;
    a push or close can run in between.  The writer's program counter: *)
Inductive writer_pc := Checking | Awaiting | Parked | Finished.

Section Wakeup.
Context {N : Type} `{Notify N}.

Record wake_state := {
  w_mb : Mailbox.t;
  w_metrics : Metrics.t;
  w_notify : N;
  w_pc : writer_pc;
}.

(** [notify_one]: wakes the parked writer or stores the permit. *)
Definition notify_one (pc : writer_pc) (n : N) : N * writer_pc :=
  match pc with Parked => (n, Checking) | _ => (notify_store n, pc) end.

(** The interleaved steps of the producer side and the writer. *)
Inductive wake_step : wake_state -> wake_state -> Prop :=
  | WakePush st f o nt mb m n pc :
      push f (w_mb st) (w_metrics st) = (o, nt, mb, m) ->
      (n, pc) = (if nt : bool then notify_one (w_pc st) (w_notify st) else (w_notify st, w_pc st)) ->
      wake_step st {| w_mb := mb; w_metrics := m; w_notify := n; w_pc := pc |}
  | WakeClose st n pc :
      (n, pc) = notify_one (w_pc st) (w_notify st) ->
      wake_step st {| w_mb := Mailbox.close (w_mb st); w_metrics := w_metrics st;
                      w_notify := n; w_pc := pc |}
  | WakeCheck st res mb :
      w_pc st = Checking -> pop (w_mb st) = (res, mb) ->
      wake_step st {| w_mb := mb; w_metrics := w_metrics st; w_notify := w_notify st;
                      w_pc := match res with Got _ => Checking | Ended => Finished
                              | MustWait => Awaiting end |}
  | WakeAwait st :
      w_pc st = Awaiting ->
      wake_step st
        (if notify_permit (w_notify st)
         then {| w_mb := w_mb st; w_metrics := w_metrics st;
                 w_notify := notify_take (w_notify st); w_pc := Checking |}
         else {| w_mb := w_mb st; w_metrics := w_metrics st;
                 w_notify := w_notify st; w_pc := Parked |}).

Definition wake_init (h : Z) (p : BackpressurePolicy) (m : Metrics.t) : wake_state :=
  {| w_mb := Mailbox.new h p; w_metrics := m; w_notify := notify_new; w_pc := Checking |}.

Definition idle (mb : Mailbox.t) : Prop := items mb = [] /\ closed mb = false.

Definition wake_inv (st : wake_state) : Prop :=
  match w_pc st with
  | Parked => idle (w_mb st)
  | Awaiting => idle (w_mb st) \/ notify_permit (w_notify st) = true
  | _ => True
  end.

Lemma push_silent_idle f mb m o mb' m' :
  push f mb m = (o, false, mb', m') -> idle mb -> idle mb'.
Proof.
  intros Hp [Hi Hc]. unfold push in Hp. rewrite Hc, Hi in Hp.
  rewrite (bool_decide_true _ eq_refl), andb_false_r in Hp. done.
Qed.

Lemma wake_step_inv st st' : wake_step st st' -> wake_inv st -> wake_inv st'.
Proof.
  unfold wake_inv. intros Hs Hinv. destruct Hs as [st f o nt mb m n pc Hp Hn|st n pc Hn|st res mb Hpc Hp|st Hpc].
  - destruct nt; simplify_eq/=.
    + destruct (w_pc st); simplify_eq/=; try done. right. apply notify_permit_store.
    + destruct (w_pc st); try done.
      * destruct Hinv as [Hi|?]; [left; by eapply push_silent_idle|by right].
      * by eapply push_silent_idle.
  - destruct (w_pc st); simplify_eq/=; try done. right. apply notify_permit_store.
  - rewrite Hpc in Hinv. unfold pop in Hp. destruct (items (w_mb st)) eqn:Ei; simplify_eq/=; [|done].
    destruct (closed (w_mb st)) eqn:Ec; [done|]. left. by split.
  - rewrite Hpc in Hinv. destruct (notify_permit (w_notify st)) eqn:E; simpl; [done|].
    destruct Hinv as [?|?]; [done|congruence].
Qed.

(** C21. No lost wake-up on the send queue: in every state reachable by
    interleaving pushes, close and the writer's check/await steps, a parked
    writer has nothing to do: the queue is empty and still open, so every frame
    and the close itself is eventually observed. *)
Theorem mailbox_no_lost_wakeup h p m st :
  rtc wake_step (wake_init h p m) st -> w_pc st = Parked -> idle (w_mb st).
Proof.
  intros Hr Hpc. assert (Hi : wake_inv st).
  { revert Hr. apply (rtc_ind_r (fun st => wake_inv st)); [done|].
    intros y z _ Hs Hy. by eapply wake_step_inv. }
  unfold wake_inv in Hi. by rewrite Hpc in Hi.
Qed.

End Wakeup.

Lemma mailbox_no_lost_wakeup_witness :
  let parked : wake_state (N := bool) :=
    {| w_mb := Mailbox.new 4 Disconnect; w_metrics := Metrics.default; w_notify := false; w_pc := Parked |} in
  rtc wake_step (wake_init 4 Disconnect Metrics.default) parked /\ idle (w_mb parked).
Proof.
  assert (Hr : rtc wake_step (wake_init (N := bool) 4 Disconnect Metrics.default)
    {| w_mb := Mailbox.new 4 Disconnect; w_metrics := Metrics.default; w_notify := false; w_pc := Parked |}).
  { eapply rtc_l; [by eapply (WakeCheck _ MustWait (Mailbox.new 4 Disconnect))|].
    eapply rtc_l; [by eapply WakeAwait|]. constructor. }
  split; [exact Hr|]. exact (mailbox_no_lost_wakeup 4 Disconnect Metrics.default _ Hr eq_refl).
Defined.
