(* ===== verification/Registry.v ===== *)
(** * The sharded slab registry (crates/core/src/connection/registry.rs)

    Sixteen slabs behind one mutex each; a connection id is shard, generation
    and slab key.  Every public operation holds one shard lock, so each is one
    atomic step.  The registry is polymorphic in the handle it stores; a panic
    (an index out of range) is [None], and [registry_insert_total] shows that
    there is none. *)

From S2P Require Import Prelude Runtime Ids.

(** [pub const SHARDS: usize = 16]. *)
Definition SHARDS : nat := 16.

Module Registry.
Section Registry.
Context {SL : Type -> Type} {slab_ops : Slab SL} {Hd : Type}.

(** [struct Entry]. *)
Record Entry := {
  generation : Z;
  handle : Hd;
  rooms : gset RoomId;
  user : option UserId;
}.

(** [struct Shard]. *)
Record Shard := { slab : SL Entry; gens : list Z }.

(** [struct Registry]. *)
Record t := { shards : list Shard; next : Z }.

(** [Registry::new]. *)
Definition new : t :=
  {| shards := replicate SHARDS {| slab := slab_new; gens := [] |}; next := 0 |}.

(** [Registry::insert]. *)
Definition insert (h : Hd) (u : option UserId) (r : t) : option (ConnectionId * t) :=
  let shard_idx := Z.to_nat (Z.land (next r) (Z.of_nat SHARDS - 1)) in
  sh ← shards r !! shard_idx;
  let key := slab_vacant_key (slab sh) in
  let sl := slab_insert (slab sh) {| generation := 0; handle := h; rooms := ∅; user := u |} in
  '(g, gs) ← (if decide (key < length (gens sh))%nat
    then g0 ← gens sh !! key;
         let g := Z.land (g0 + 1) GENERATION_MASK in Some (g, <[key := g]> (gens sh))
    else Some (0, gens sh ++ [0]));
  e ← slab_get sl key;
  let e := {| generation := g; handle := handle e; rooms := rooms e; user := user e |} in
  let sh' := {| slab := slab_set sl key e; gens := gs |} in
  Some (ConnId.new (wrap 8 (Z.of_nat shard_idx)) g (wrap 32 (Z.of_nat key)),
        {| shards := <[shard_idx := sh']> (shards r); next := wrap 64 (next r + 1) |}).

(** The entry at slot [k] of a shard, if it is of generation [g]. *)
Definition find_in (sh : Shard) (k : nat) (g : Z) : option Entry :=
  e ← slab_get (slab sh) k; if generation e =? g then Some e else None.

(** The lookup every operation starts with: shard, slab key, generation. *)
Definition find (id : ConnectionId) (r : t) : option Entry :=
  sh ← shards r !! Z.to_nat (ConnId.shard id);
  find_in sh (Z.to_nat (ConnId.key id)) (ConnId.generation id).

(** [Registry::get]. *)
Definition get (id : ConnectionId) (r : t) : option Hd := handle <$> find id r.

(** [Registry::remove_full]. *)
Definition remove_full (id : ConnectionId) (r : t) : option ((Hd * gset RoomId) * t) :=
  sh ← shards r !! Z.to_nat (ConnId.shard id);
  e ← slab_get (slab sh) (Z.to_nat (ConnId.key id));
  if negb (generation e =? ConnId.generation id) then None
  else
    let sh' := {| slab := slab_remove (slab sh) (Z.to_nat (ConnId.key id)); gens := gens sh |} in
    Some ((handle e, rooms e),
          {| shards := <[Z.to_nat (ConnId.shard id) := sh']> (shards r); next := next r |}).

(** [Registry::remove]. *)
Definition remove (id : ConnectionId) (r : t) : option (Hd * t) :=
  '((h, _), r') ← remove_full id r; Some (h, r').

(** [Registry::with_rooms]: [f] gets the room set and returns its result and
    the set it leaves behind. *)
Definition with_rooms {R} (id : ConnectionId) (f : gset RoomId -> R * gset RoomId) (r : t)
    : option (R * t) :=
  sh ← shards r !! Z.to_nat (ConnId.shard id);
  e ← slab_get (slab sh) (Z.to_nat (ConnId.key id));
  if negb (generation e =? ConnId.generation id) then None
  else
    let '(res, rs) := f (rooms e) in
    let e' := {| generation := generation e; handle := handle e; rooms := rs; user := user e |} in
    let sh' := {| slab := slab_set (slab sh) (Z.to_nat (ConnId.key id)) e'; gens := gens sh |} in
    Some (res, {| shards := <[Z.to_nat (ConnId.shard id) := sh']> (shards r); next := next r |}).

(** [Registry::user_of]. *)
Definition user_of (id : ConnectionId) (r : t) : option (option UserId) := user <$> find id r.

(** [Registry::len] and [is_empty]. *)
Definition len (r : t) : nat := sum_list_with (fun sh => length (slab_iter (slab sh))) (shards r).
Definition is_empty (r : t) : bool := (len r =? 0)%nat.

(** The ids and entries of one shard, in slab order. *)
Definition shard_entries (si : nat) (sh : Shard) : list (ConnectionId * Entry) :=
  map (fun '(key, e) =>
    (ConnId.new (wrap 8 (Z.of_nat si)) (generation e) (wrap 32 (Z.of_nat key)), e))
    (slab_iter (slab sh)).

Definition entries (r : t) : list (ConnectionId * Entry) :=
  concat (imap shard_entries (shards r)).

(** [Registry::handles]. *)
Definition handles (r : t) : list (ConnectionId * Hd) :=
  map (fun '(id, e) => (id, handle e)) (entries r).

(** [Registry::handles_with_user]. *)
Definition handles_with_user (r : t) : list (ConnectionId * Hd * option UserId) :=
  map (fun '(id, e) => (id, handle e, user e)) (entries r).

(** ** Representation invariant *)

Record shard_wf (sh : Shard) : Prop := {
  sh_gens : length (gens sh) = slab_slots (slab sh);
  sh_live : forall k e, slab_get (slab sh) k = Some e -> gens sh !! k = Some (generation e);
  sh_range : Forall (fun g => 0 <= g < 2 ^ 24) (gens sh);
  sh_slots : Z.of_nat (slab_slots (slab sh)) <= 2 ^ 32;
}.

Record wf (r : t) : Prop := {
  r_shards : length (shards r) = SHARDS;
  r_each : forall i sh, shards r !! i = Some sh -> shard_wf sh;
}.

(** Every slab can still grow by one slot without leaving the [u32] key range. *)
Definition has_room (r : t) : Prop :=
  forall i sh, shards r !! i = Some sh -> Z.of_nat (slab_slots (slab sh)) < 2 ^ 32.

End Registry.
#[global] Arguments Entry : clear implicits.
#[global] Arguments Shard : clear implicits.
#[global] Arguments t : clear implicits.
End Registry.

Section RegistryFacts.
Context {SL : Type -> Type} {slab_ops : Slab SL} {Hd : Type}.
Implicit Types (r : Registry.t SL Hd) (sh : Registry.Shard SL Hd).
Import Registry.

Lemma find_update id r i sh' n :
  (i < length (shards r))%nat ->
  find id {| shards := <[i := sh']> (shards r); next := n |} =
  if decide (Z.to_nat (ConnId.shard id) = i)
  then find_in sh' (Z.to_nat (ConnId.key id)) (ConnId.generation id) else find id r.
Proof.
  intros Hi. unfold find. cbn [shards]. case_decide as Hd'.
  - rewrite Hd', list_lookup_insert_eq by done. done.
  - by rewrite list_lookup_insert_ne.
Qed.

Lemma new_wf : wf (new (SL := SL) (Hd := Hd)).
Proof.
  split; [apply length_replicate|]. intros i sh [-> _]%lookup_replicate.
  split; simpl.
  - by rewrite slab_slots_new.
  - intros k e. by rewrite slab_get_new.
  - constructor.
  - rewrite slab_slots_new. lia.
Qed.

Lemma find_new id : find id (new (SL := SL) (Hd := Hd)) = None.
Proof.
  unfold find. destruct (shards new !! _) eqn:E; [|done].
  apply lookup_replicate in E as [-> _]. unfold find_in. simpl. by rewrite slab_get_new.
Qed.

(** The three fields of an id built from a shard index, a generation and a key
    in range. *)
Lemma id_fields i g k :
  (i < SHARDS)%nat -> 0 <= g < 2 ^ 24 -> Z.of_nat k < 2 ^ 32 ->
  let id := ConnId.new (wrap 8 (Z.of_nat i)) g (wrap 32 (Z.of_nat k)) in
  Z.to_nat (ConnId.shard id) = i /\ ConnId.generation id = g /\
  Z.to_nat (ConnId.key id) = k /\ u64_ok id.
Proof.
  intros Hi Hg Hk. unfold SHARDS in Hi. simpl.
  rewrite (wrap_small 8), (wrap_small 32) by lia.
  rewrite conn_id_shard, conn_id_generation, conn_id_key, Z.mod_small by lia.
  split_and!; [lia|done|lia|]. apply conn_id_range; lia.
Qed.

Lemma id_eq_fields id j :
  u64_ok id -> u64_ok j ->
  Z.to_nat (ConnId.shard id) = Z.to_nat (ConnId.shard j) ->
  ConnId.generation id = ConnId.generation j ->
  Z.to_nat (ConnId.key id) = Z.to_nat (ConnId.key j) -> id = j.
Proof.
  intros Hid Hj Hs Hg Hk. rewrite <-(conn_id_eta id), <-(conn_id_eta j) by done.
  pose proof (conn_id_shard_range id). pose proof (conn_id_shard_range j).
  pose proof (conn_id_key_range id). pose proof (conn_id_key_range j).
  f_equal; [|done|]; lia.
Qed.

(** What an insert does to the slot it takes. *)
Definition next_gen (sh : Shard SL Hd) (key : nat) : Z :=
  match gens sh !! key with Some g => (g + 1) mod 2 ^ 24 | None => 0 end.

Lemma insert_unfold h u r :
  wf r -> exists i sh, shards r !! i = Some sh /\ (i < SHARDS)%nat /\
    let key := slab_vacant_key (slab sh) in
    let g := next_gen sh key in
    let e := {| generation := g; handle := h; rooms := ∅; user := u |} in
    exists sl gs, insert h u r = Some (ConnId.new (wrap 8 (Z.of_nat i)) g (wrap 32 (Z.of_nat key)),
      {| shards := <[i := {| slab := sl; gens := gs |}]> (shards r); next := wrap 64 (next r + 1) |}) /\
    (forall k, slab_get sl k = if decide (k = key) then Some e else slab_get (slab sh) k) /\
    slab_slots sl = Nat.max (slab_slots (slab sh)) (key + 1) /\
    length gs = slab_slots sl /\ gs !! key = Some g /\
    (forall k, k <> key -> gs !! k = gens sh !! k) /\ 0 <= g < 2 ^ 24.
Proof.
  intros [Hlen Heach].
  set (i := Z.to_nat (Z.land (next r) (Z.of_nat SHARDS - 1))).
  assert (Hi : (i < SHARDS)%nat).
  { unfold i, SHARDS. change (Z.of_nat 16 - 1) with (Z.ones 4). rewrite Z.land_ones by lia.
    pose proof (Z.mod_pos_bound (next r) (2 ^ 4)). lia. }
  destruct (lookup_lt_is_Some_2 (shards r) i) as [sh Hsh]; [lia|].
  exists i, sh. split; [done|]. split; [done|].
  destruct (Heach i sh Hsh) as [Hg Hl Hr Hs].
  pose proof (slab_vacant_slots _ (slab sh)) as Hv.
  unfold insert. fold i. rewrite Hsh. cbn [mbind option_bind].
  set (key := slab_vacant_key (slab sh)) in *. unfold next_gen. simpl.
  assert (Hget : forall sl e0, (forall k, slab_get sl k = if decide (k = key) then Some e0 else slab_get (slab sh) k) ->
    slab_get sl key = Some e0) by (intros sl e0 E; by rewrite E, decide_True).
  set (e0 := {| generation := 0; handle := h; rooms := ∅; user := u |}).
  assert (E0 : slab_get (slab_insert (slab sh) e0) key = Some e0).
  { apply Hget. intros k. apply slab_get_insert. }
  assert (Hset : forall e k, slab_get (slab_set (slab_insert (slab sh) e0) key e) k =
    if decide (k = key) then Some e else slab_get (slab sh) k).
  { intros e k. rewrite slab_get_set by eauto. case_decide; [done|].
    rewrite slab_get_insert. by rewrite decide_False. }
  destruct (decide (key < length (gens sh))%nat) as [Hlt|Hge].
  - destruct (lookup_lt_is_Some_2 (gens sh) key Hlt) as [g0 Hg0]. rewrite Hg0. simpl. rewrite E0. simpl.
    change GENERATION_MASK with (Z.ones 24). rewrite Z.land_ones by lia.
    eexists _, _. split; [reflexivity|]. split_and!.
    + intros k. apply Hset.
    + by rewrite slab_slots_set, slab_slots_insert.
    + rewrite slab_slots_set, slab_slots_insert, length_insert. fold key. lia.
    + by rewrite list_lookup_insert_eq.
    + intros k Hk. by rewrite list_lookup_insert_ne.
    + apply Z.mod_pos_bound. lia.
    + apply Z.mod_pos_bound. lia.
  - rewrite (lookup_ge_None_2 (gens sh) key) by lia. simpl. rewrite E0. simpl.
    assert (Hk : key = length (gens sh)) by lia.
    eexists _, _. split; [reflexivity|]. split_and!; try lia.
    + intros k. apply Hset.
    + by rewrite slab_slots_set, slab_slots_insert.
    + rewrite slab_slots_set, slab_slots_insert, length_app. fold key. simpl. lia.
    + rewrite Hk. apply list_lookup_middle. done.
    + intros k Hne. destruct (decide (k < length (gens sh))%nat).
      * by rewrite lookup_app_l.
      * rewrite !lookup_ge_None_2; [done|lia|rewrite length_app; simpl; lia].
Qed.

(** ** What each operation does to the set of live connections *)

Lemma insert_spec h u r :
  wf r -> has_room r -> exists id r', insert h u r = Some (id, r') /\ wf r' /\ u64_ok id /\
    find id r = None /\
    forall j, u64_ok j -> find j r' =
      if decide (j = id)
      then Some {| generation := ConnId.generation id; handle := h; rooms := ∅; user := u |}
      else find j r.
Proof.
  intros Hwf Hroom.
  destruct (insert_unfold h u r Hwf) as (i & sh & Hsh & Hi & sl & gs & Hins & Hget & Hsl & Hgs & Hgk & Hgo & Hg).
  pose proof (slab_vacant_slots _ (slab sh)) as Hv. pose proof (Hroom i sh Hsh) as Hrm.
  set (key := slab_vacant_key (slab sh)) in *. set (g := next_gen sh key) in *.
  destruct (id_fields i g key Hi Hg ltac:(lia)) as (Fs & Fg & Fk & Fr).
  set (id := ConnId.new _ _ _) in *. clearbody id.
  assert (Hvac : slab_get (slab sh) key = None) by apply slab_get_vacant.
  destruct Hwf as [Hlen Heach]. destruct (Heach i sh Hsh) as [Hg1 Hl1 Hr1 Hs1].
  eexists id, _. split; [exact Hins|]. split_and!.
  - split; [simpl; by rewrite length_insert|]. intros i' sh' Hsh'. simpl in Hsh'.
    apply list_lookup_insert_Some in Hsh' as [(-> & <- & _)|(Hne & Hsh')]; [|by eapply Heach].
    split; simpl; [done| | |].
    + intros k e. rewrite Hget. case_decide as Hk; [subst k; intros [= <-]; done|].
      intros He. rewrite Hgo by done. by apply Hl1.
    + apply Forall_lookup. intros k x Hx. destruct (decide (k = key)) as [->|Hne].
      * rewrite Hgk in Hx. by simplify_eq.
      * rewrite Hgo in Hx by done. by eapply Forall_lookup_1 in Hr1.
    + rewrite Hsl. lia.
  - exact Fr.
  - unfold find. rewrite Fs, Hsh. unfold find_in. cbn. by rewrite Fk, Hvac.
  - intros j Hj. rewrite find_update by (unfold SHARDS in *; lia).
    destruct (decide (j = id)) as [->|Hne].
    + rewrite decide_True by done. rewrite Fg, Fk. unfold find_in. simpl.
      rewrite Hget, decide_True by done. simpl. by rewrite Z.eqb_refl.
    + case_decide as Hsj; [|done]. unfold find. rewrite Hsj, Hsh. unfold find_in. simpl.
      rewrite Hget. case_decide as Hkj; [|done]. rewrite Hkj, Hvac. simpl.
      destruct (Z.eqb_spec g (ConnId.generation j)) as [Heq|]; [|done].
      exfalso. apply Hne. apply id_eq_fields; congruence.
Qed.

Lemma find_Some id r e :
  find id r = Some e <-> exists sh, shards r !! Z.to_nat (ConnId.shard id) = Some sh /\
    slab_get (slab sh) (Z.to_nat (ConnId.key id)) = Some e /\ generation e = ConnId.generation id.
Proof.
  unfold find, find_in. split.
  - intros (sh & Hsh & (e' & He & Hg)%bind_Some)%bind_Some.
    destruct (Z.eqb_spec (generation e') (ConnId.generation id)); simplify_eq. eauto.
  - intros (sh & -> & Hg & Heq). cbn. rewrite Hg. cbn. by rewrite Heq, Z.eqb_refl.
Qed.

Lemma remove_full_None id r : find id r = None -> remove_full id r = None.
Proof.
  unfold find, remove_full, find_in. destruct (shards r !! _) as [sh|]; [|done]. simpl.
  destruct (slab_get _ _) as [e|]; [|done]. simpl. by destruct (_ =? _).
Qed.

Lemma remove_full_spec id r e :
  wf r -> find id r = Some e -> exists r', remove_full id r = Some ((handle e, rooms e), r') /\ wf r' /\
    forall j, u64_ok j -> u64_ok id -> find j r' = if decide (j = id) then None else find j r.
Proof.
  intros Hwf (sh & Hsh & He & Hg)%find_Some. unfold remove_full. rewrite Hsh. cbn. rewrite He. cbn.
  rewrite Hg, Z.eqb_refl. cbn. eexists. split; [reflexivity|].
  destruct Hwf as [Hlen Heach]. pose proof (Heach _ _ Hsh) as [Hg1 Hl1 Hr1 Hs1]. split.
  - split; [simpl; by rewrite length_insert|]. intros i' sh' Hsh'. simpl in Hsh'.
    apply list_lookup_insert_Some in Hsh' as [(<- & <- & _)|(Hne & Hsh')]; [|by eapply Heach].
    split; simpl; rewrite ?slab_slots_remove; try done.
    intros k e'. rewrite slab_get_remove. case_decide; [done|]. apply Hl1.
  - intros j Hj Hid. rewrite find_update by (eapply lookup_lt_Some; exact Hsh).
    destruct (decide (j = id)) as [->|Hne].
    + rewrite decide_True by done. unfold find_in. simpl. rewrite slab_get_remove. by rewrite decide_True.
    + case_decide as Hsj; [|done]. unfold find. rewrite Hsj, Hsh. unfold find_in. simpl.
      rewrite slab_get_remove. case_decide as Hkj; [|done]. rewrite Hkj, He. simpl.
      destruct (Z.eqb_spec (generation e) (ConnId.generation j)); [|done].
      exfalso. apply Hne. apply id_eq_fields; congruence.
Qed.

Lemma with_rooms_None {R} (id : ConnectionId) (f : gset RoomId -> R * gset RoomId) r :
  find id r = None -> with_rooms id f r = None.
Proof.
  unfold find, with_rooms, find_in. destruct (shards r !! _) as [sh|]; [|done]. simpl.
  destruct (slab_get _ _) as [e|]; [|done]. simpl. by destruct (_ =? _).
Qed.

Lemma with_rooms_spec {R} (id : ConnectionId) (f : gset RoomId -> R * gset RoomId) r e :
  wf r -> find id r = Some e -> exists r', with_rooms id f r = Some ((f (rooms e)).1, r') /\ wf r' /\
    forall j, u64_ok j -> u64_ok id -> find j r' =
      if decide (j = id)
      then Some {| generation := generation e; handle := handle e; rooms := (f (rooms e)).2; user := user e |}
      else find j r.
Proof.
  intros Hwf (sh & Hsh & He & Hg)%find_Some. unfold with_rooms. rewrite Hsh. cbn. rewrite He. cbn.
  rewrite (proj2 (Z.eqb_eq _ _) Hg). cbn. destruct (f (rooms e)) as [res rs]. cbn. eexists. split; [reflexivity|].
  destruct Hwf as [Hlen Heach]. pose proof (Heach _ _ Hsh) as [Hg1 Hl1 Hr1 Hs1]. split.
  - split; [simpl; by rewrite length_insert|]. intros i' sh' Hsh'. simpl in Hsh'.
    apply list_lookup_insert_Some in Hsh' as [(<- & <- & _)|(Hne & Hsh')]; [|by eapply Heach].
    split; simpl; rewrite ?slab_slots_set; try done.
    intros k e'. rewrite slab_get_set by eauto. case_decide; [|apply Hl1].
    subst k. intros [= <-]. simpl. by apply Hl1.
  - intros j Hj Hid. rewrite find_update by (eapply lookup_lt_Some; exact Hsh).
    destruct (decide (j = id)) as [->|Hne].
    + rewrite decide_True by done. unfold find_in. simpl. rewrite slab_get_set by eauto.
      rewrite decide_True by done. simpl. by rewrite Hg, Z.eqb_refl.
    + case_decide as Hsj; [|done]. unfold find. rewrite Hsj, Hsh. unfold find_in. simpl.
      rewrite slab_get_set by eauto. case_decide as Hkj; [|done]. rewrite Hkj, He. simpl.
      destruct (Z.eqb_spec (generation e) (ConnId.generation j)); [|done].
      exfalso. apply Hne. apply id_eq_fields; congruence.
Qed.


(** ** Enumeration *)

Lemma shard_entries_elem i sh id e :
  shard_wf sh -> (i < SHARDS)%nat -> u64_ok id ->
  (id, e) ∈ shard_entries i sh <->
  Z.to_nat (ConnId.shard id) = i /\ slab_get (slab sh) (Z.to_nat (ConnId.key id)) = Some e /\
  generation e = ConnId.generation id.
Proof.
  intros [Hg Hl Hr Hs] Hi Hid. unfold shard_entries. rewrite list_elem_of_fmap.
  assert (Hrange : forall k e', slab_get (slab sh) k = Some e' ->
    Z.of_nat k < 2 ^ 32 /\ 0 <= generation e' < 2 ^ 24).
  { intros k e' He. pose proof (Hl _ _ He) as Hk. split; [apply lookup_lt_Some in Hk; lia|].
    by eapply Forall_lookup_1 in Hr. }
  split.
  - intros ([k e'] & [= -> ->] & He%slab_iter_get). destruct (Hrange _ _ He).
    destruct (id_fields i (generation e') k) as (-> & -> & -> & _); done.
  - intros (Hsi & He & Hgen). exists (Z.to_nat (ConnId.key id), e).
    split; [|by apply slab_iter_get]. destruct (Hrange _ _ He).
    destruct (id_fields i (generation e) (Z.to_nat (ConnId.key id))) as (F1 & F2 & F3 & F4); [done..|].
    f_equal. apply id_eq_fields; congruence.
Qed.

Lemma entries_elem r id e : wf r -> u64_ok id -> (id, e) ∈ entries r <-> find id r = Some e.
Proof.
  intros [Hlen Heach] Hid. unfold entries. rewrite find_Some, list_elem_of_concat. split.
  - intros (l & Hin & (i & sh & -> & Hsh)%elem_of_lookup_imap).
    pose proof (lookup_lt_Some _ _ _ Hsh) as Hi. rewrite Hlen in Hi.
    apply shard_entries_elem in Hin as (Hs & He & Hg); [|by eapply Heach|done|done].
    exists sh. by rewrite Hs.
  - intros (sh & Hsh & He & Hg). pose proof (lookup_lt_Some _ _ _ Hsh) as Hi. rewrite Hlen in Hi.
    exists (shard_entries (Z.to_nat (ConnId.shard id)) sh). split.
    + apply shard_entries_elem; [by eapply Heach|done..].
    + apply elem_of_lookup_imap. eauto.
Qed.

Lemma entries_ok r id e : wf r -> (id, e) ∈ entries r -> u64_ok id.
Proof.
  intros [Hlen Heach]. unfold entries. rewrite list_elem_of_concat.
  intros (l & Hin & (i & sh & -> & Hsh)%elem_of_lookup_imap).
  pose proof (lookup_lt_Some _ _ _ Hsh) as Hi. rewrite Hlen in Hi.
  destruct (Heach _ _ Hsh) as [Hg Hl Hr Hs].
  apply list_elem_of_fmap in Hin as ([k e'] & [= -> ->] & He%slab_iter_get).
  pose proof (Hl _ _ He) as Hk. apply id_fields; [done| |apply lookup_lt_Some in Hk; lia].
  by eapply Forall_lookup_1 in Hr.
Qed.

Lemma shard_entries_NoDup i sh : shard_wf sh -> (i < SHARDS)%nat -> NoDup (shard_entries i sh).*1.
Proof.
  intros [Hg Hl Hr Hs] Hi. unfold shard_entries.
  pose proof (slab_iter_nodup _ (slab sh)) as Hnd.
  assert (Hall : Forall (fun '(k, e) => Z.of_nat k < 2 ^ 32 /\ 0 <= generation e < 2 ^ 24) (slab_iter (slab sh))).
  { apply Forall_forall. intros [k e] He%slab_iter_get. pose proof (Hl _ _ He) as Hk.
    split; [apply lookup_lt_Some in Hk; lia|]. by eapply Forall_lookup_1 in Hr. }
  clear Hl. induction (slab_iter (slab sh)) as [|[k e] l IH]; cbn; [constructor|].
  inversion Hnd as [|? ? Hni Hnd']; subst. apply Forall_cons in Hall as [Hke Hall']. cbn beta iota in Hke. destruct Hke as [Hk He].
  constructor; [|by apply IH].
  rewrite list_elem_of_fmap. intros ([id' e''] & Heq & Hin). simpl in Heq.
  apply list_elem_of_fmap in Hin as ([k' e'] & [= -> ->] & Hin').
  pose proof (proj1 (Forall_forall _ _) Hall' _ Hin') as [Hk' He'].
  destruct (id_fields i (generation e) k) as (_ & _ & F3 & _); [done..|].
  destruct (id_fields i (generation e') k') as (_ & _ & F3' & _); [done..|].
  apply Hni, list_elem_of_fmap. exists (k', e'). split; [|done]. simpl in *. congruence.
Qed.

Lemma entries_NoDup r : wf r -> NoDup (entries r).*1.
Proof.
  intros [Hlen Heach]. unfold entries. rewrite concat_fmap. apply concat_NoDup.
  - intros i l (l0 & -> & (sh & Hsh & ->)%list_lookup_imap_Some)%list_lookup_fmap_Some.
    pose proof (lookup_lt_Some _ _ _ Hsh). apply shard_entries_NoDup; [by eapply Heach|lia].
  - intros i j l l' id.
    intros (l0 & -> & (sh & Hsh & ->)%list_lookup_imap_Some)%list_lookup_fmap_Some
      (l1 & -> & (sh' & Hsh' & ->)%list_lookup_imap_Some)%list_lookup_fmap_Some.
    intros ([x e] & -> & Hin)%list_elem_of_fmap ([y e'] & Heq & Hin')%list_elem_of_fmap. simpl in Heq. subst y.
    pose proof (lookup_lt_Some _ _ _ Hsh). pose proof (lookup_lt_Some _ _ _ Hsh').
    rewrite Hlen in *.
    assert (Hok : u64_ok x).
    { eapply (entries_ok r x e); [by split|]. unfold entries. apply list_elem_of_concat.
      eexists; split; [exact Hin|]. apply elem_of_lookup_imap. eauto. }
    apply shard_entries_elem in Hin as (<- & _); [|by eapply Heach|done|done].
    apply shard_entries_elem in Hin' as (<- & _); [done|by eapply Heach|done|done].
Qed.

Lemma length_entries r : length (entries r) = len r.
Proof.
  unfold entries, len. generalize 0%nat as i0.
  assert (H : forall (f : nat -> Shard SL Hd -> list (ConnectionId * Entry Hd)) l,
    (forall i sh, length (f i sh) = length (slab_iter (slab sh))) ->
    length (concat (imap f l)) = sum_list_with (fun sh => length (slab_iter (slab sh))) l).
  { intros f l. revert f. induction l as [|sh l IH]; intros f Hf; [done|]. simpl.
    rewrite length_app, Hf, IH; [done|]. intros. apply Hf. }
  intros _. apply H. intros. unfold shard_entries. apply length_map.
Qed.

(** ** The abstract specification: a finite map from ids to connections *)

Definition abs_entry (e : Entry Hd) : Hd * gset RoomId * option UserId := (handle e, rooms e, user e).

(** [r] implements the map [a]. *)
Record models (r : Registry.t SL Hd) (a : gmap Z (Hd * gset RoomId * option UserId)) : Prop := {
  m_wf : wf r;
  m_find : forall id : ConnectionId, u64_ok id -> a !! id = abs_entry <$> find id r;
  m_dom : forall id : ConnectionId, is_Some (a !! id) -> u64_ok id;
}.

Lemma models_new : models new ∅.
Proof.
  split; [apply new_wf| |].
  - intros id _. by rewrite find_new.
  - intros id [? H]. by rewrite lookup_empty in H.
Qed.

Lemma models_insert h u r a :
  models r a -> has_room r -> exists id r', insert h u r = Some (id, r') /\ a !! id = None /\
    models r' (<[id := (h, ∅, u)]> a).
Proof.
  intros [Hwf Hf Hdom] Hr. destruct (insert_spec h u r Hwf Hr) as (id & r' & Hins & Hwf' & Hid & Hno & Hfind).
  exists id, r'. split; [done|]. split; [by rewrite Hf, Hno|]. split; [done| |].
  - intros j Hj. rewrite Hfind by done. case_decide as He; [subst; by rewrite lookup_insert_eq|].
    rewrite lookup_insert_ne by congruence. by apply Hf.
  - intros j. destruct (decide (j = id)) as [->|]; [done|]. rewrite lookup_insert_ne by congruence. apply Hdom.
Qed.

Lemma models_remove (id : ConnectionId) r a h rs u :
  models r a -> a !! id = Some (h, rs, u) ->
  exists r', remove_full id r = Some ((h, rs), r') /\ models r' (delete id a).
Proof.
  intros [Hwf Hf Hdom] Ha. pose proof (Hdom id (mk_is_Some _ _ Ha)) as Hid.
  rewrite Hf in Ha by done. destruct (find id r) as [e|] eqn:He; [|done]. unfold abs_entry in Ha. simplify_eq/=.
  destruct (remove_full_spec id r e Hwf He) as (r' & Hrm & Hwf' & Hfind).
  exists r'. split; [done|]. split; [done| |].
  - intros j Hj. rewrite Hfind by done. case_decide as E; [subst; by rewrite lookup_delete_eq|].
    rewrite lookup_delete_ne by congruence. by apply Hf.
  - intros j. rewrite lookup_delete_is_Some. intros [_ ?]. by apply Hdom.
Qed.

Lemma models_with_rooms {R} (id : ConnectionId) (f : gset RoomId -> R * gset RoomId) r a h rs u :
  models r a -> a !! id = Some (h, rs, u) ->
  exists r', with_rooms id f r = Some ((f rs).1, r') /\ models r' (<[id := (h, (f rs).2, u)]> a).
Proof.
  intros [Hwf Hf Hdom] Ha. pose proof (Hdom id (mk_is_Some _ _ Ha)) as Hid.
  rewrite Hf in Ha by done. destruct (find id r) as [e|] eqn:He; [|done]. unfold abs_entry in Ha. simplify_eq/=.
  destruct (with_rooms_spec id f r e Hwf He) as (r' & Hrm & Hwf' & Hfind).
  exists r'. split; [done|]. split; [done| |].
  - intros j Hj. rewrite Hfind by done. case_decide as E; [subst; by rewrite lookup_insert_eq|].
    rewrite lookup_insert_ne by congruence. by apply Hf.
  - intros j. destruct (decide (j = id)) as [->|]; [done|]. rewrite lookup_insert_ne by congruence. apply Hdom.
Qed.

Lemma models_entries r a :
  models r a -> map (fun '(id, e) => (id, abs_entry e)) (entries r) ≡ₚ map_to_list a.
Proof.
  intros [Hwf Hf Hdom]. apply NoDup_Permutation.
  - apply (NoDup_fmap_1 fst). rewrite <-list_fmap_compose.
    rewrite (list_fmap_ext _ fst); [by apply entries_NoDup|]. by intros ? [].
  - apply NoDup_map_to_list.
  - intros [id x]. rewrite elem_of_map_to_list, list_elem_of_fmap. split.
    + intros ([id' e] & [= -> ->] & Hin). pose proof (entries_ok _ _ _ Hwf Hin).
      apply entries_elem in Hin; [|done..]. by rewrite Hf, Hin.
    + intros Ha. pose proof (Hdom id (mk_is_Some _ _ Ha)) as Hid. rewrite Hf in Ha by done.
      destruct (find id r) as [e|] eqn:He; [|done]. simpl in Ha. simplify_eq/=. exists (id, e).
      split; [done|]. by apply entries_elem.
Qed.

(** ** Generations: the history of one slot *)

Definition slot_gen (r : Registry.t SL Hd) (s k : nat) : option Z :=
  sh ← shards r !! s; gens sh !! k.
Definition slot_live (r : Registry.t SL Hd) (s k : nat) : bool :=
  match shards r !! s with Some sh => bool_decide (is_Some (slab_get (slab sh) k)) | None => false end.

(** The operations that change the registry; a panic ends the run. *)
Inductive reg_op := RInsert (h : Hd) (u : option UserId) | RRemove (id : ConnectionId)
  | RRooms (id : ConnectionId) (f : gset RoomId -> gset RoomId).

Definition is_insert (op : reg_op) : bool := match op with RInsert _ _ => true | _ => false end.

Definition reg_step (op : reg_op) (r : Registry.t SL Hd) : option (Registry.t SL Hd) :=
  match op with
  | RInsert h u => snd <$> insert h u r
  | RRemove id => Some (match remove_full id r with Some (_, r') => r' | None => r end)
  | RRooms id f => Some (match with_rooms id (fun s => ((), f s)) r with Some (_, r') => r' | None => r end)
  end.

Fixpoint reg_exec (ops : list reg_op) (r : Registry.t SL Hd) : option (Registry.t SL Hd) :=
  match ops with [] => Some r | op :: ops => r' ← reg_step op r; reg_exec ops r' end.

(** Slot [k] of shard [s] has moved on [j] generations from [g], and at least
    one if it is in use. *)
Definition moved_on (s k : nat) (g j : Z) (r : Registry.t SL Hd) : Prop :=
  0 <= j /\ slot_gen r s k = Some ((g + j) mod 2 ^ 24) /\ (slot_live r s k = true -> 1 <= j).

Lemma insert_moved_on h u r id r' s k g j :
  wf r -> insert h u r = Some (id, r') -> moved_on s k g j r ->
  moved_on s k g j r' \/ moved_on s k g (j + 1) r'.
Proof.
  intros Hwf Hins (Hj & Hg & Hl).
  destruct (insert_unfold h u r Hwf) as (i & sh & Hsh & Hi & sl & gs & Hins' & Hget & Hsl & Hgs & Hgk & Hgo & Hgr).
  rewrite Hins in Hins'. simplify_eq. unfold moved_on, slot_gen, slot_live in *. cbn [shards].
  destruct (decide (s = i)) as [->|Hne]; [|left; by rewrite !list_lookup_insert_ne].
  pose proof (lookup_lt_Some _ _ _ Hsh). rewrite !list_lookup_insert_eq by done.
  rewrite Hsh in Hg, Hl. simpl in *. destruct (decide (k = slab_vacant_key (slab sh))) as [->|Hk].
  - right. split; [lia|]. split; [|lia]. rewrite Hgk. unfold next_gen. rewrite Hg.
    f_equal. rewrite Zplus_mod_idemp_l. f_equal. lia.
  - left. rewrite Hgo, Hget, decide_False by done. done.
Qed.

Lemma remove_moved_on (id : ConnectionId) r x r' s k g j :
  remove_full id r = Some (x, r') -> moved_on s k g j r -> moved_on s k g j r'.
Proof.
  unfold remove_full. intros (sh & Hsh & (e & He & Hb)%bind_Some)%bind_Some.
  destruct (negb _); simplify_eq. unfold moved_on, slot_gen, slot_live. cbn [shards].
  destruct (decide (s = Z.to_nat (ConnId.shard id))) as [->|Hne]; [|by rewrite !list_lookup_insert_ne].
  pose proof (lookup_lt_Some _ _ _ Hsh). rewrite !list_lookup_insert_eq by done. rewrite Hsh. simpl.
  intros (Hj & Hg & Hl). split_and!; [done..|]. intros Hb. apply Hl.
  rewrite slab_get_remove in Hb. case_decide; [by apply bool_decide_eq_true in Hb as [? ?]|done].
Qed.

Lemma rooms_moved_on {R} (id : ConnectionId) (f : gset RoomId -> R * gset RoomId) r x r' s k g j :
  with_rooms id f r = Some (x, r') -> moved_on s k g j r -> moved_on s k g j r'.
Proof.
  unfold with_rooms. intros (sh & Hsh & (e & He & Hb)%bind_Some)%bind_Some.
  destruct (negb _); [done|]. destruct (f _); simplify_eq. unfold moved_on, slot_gen, slot_live. cbn [shards].
  destruct (decide (s = Z.to_nat (ConnId.shard id))) as [->|Hne]; [|by rewrite !list_lookup_insert_ne].
  pose proof (lookup_lt_Some _ _ _ Hsh). rewrite !list_lookup_insert_eq by done. rewrite Hsh. simpl.
  intros (Hj & Hg & Hl). split_and!; [done..|]. intros Hb. apply Hl.
  rewrite slab_get_set in Hb by eauto. case_decide; [subst; by apply bool_decide_eq_true|done].
Qed.

(** Every slab has allocated at most [n] slots. *)
Definition slots_le (n : Z) (r : Registry.t SL Hd) : Prop :=
  forall i sh, shards r !! i = Some sh -> Z.of_nat (slab_slots (slab sh)) <= n.

Lemma reg_step_wf op r r' n :
  wf r -> slots_le n r -> n < 2 ^ 32 -> reg_step op r = Some r' ->
  wf r' /\ slots_le (n + if is_insert op then 1 else 0) r'.
Proof.
  intros Hwf Hs Hn. destruct op as [h u|id|id f]; cbn [reg_step is_insert].
  - intros ([id' ?] & Hins & ->)%fmap_Some.
    destruct (insert_spec h u r Hwf) as (id & r1 & Hi & Hwf' & _); [intros i sh Hsh; specialize (Hs i sh Hsh); lia|].
    rewrite Hins in Hi. simplify_eq. split; [done|].
    destruct (insert_unfold h u r Hwf) as (i & sh & Hsh & Hlt & sl & gs & Hi' & _ & Hsl & _).
    rewrite Hins in Hi'. simplify_eq. intros i' sh'. cbn [shards].
    intros [(-> & <- & _)|(_ & H')]%list_lookup_insert_Some; [|specialize (Hs _ _ H'); lia].
    cbn [slab]. pose proof (slab_vacant_slots _ (slab sh)). specialize (Hs _ _ Hsh). lia.
  - intros [= <-]. rewrite Z.add_0_r. destruct (find id r) as [e|] eqn:He.
    2: { by rewrite remove_full_None. }
    destruct (remove_full_spec id r e Hwf He) as (r' & Hrm & Hwf' & _). rewrite Hrm. split; [done|].
    unfold remove_full in Hrm. apply bind_Some in Hrm as (sh & Hsh & (e' & He' & Hb)%bind_Some).
    destruct (negb _); simplify_eq. intros i' sh'. cbn [shards].
    intros [(<- & <- & _)|(_ & H')]%list_lookup_insert_Some; [|by apply (Hs i')].
    cbn [slab]. rewrite slab_slots_remove. by eapply Hs.
  - intros [= <-]. rewrite Z.add_0_r. destruct (find id r) as [e|] eqn:He.
    2: { by rewrite with_rooms_None. }
    destruct (with_rooms_spec id (fun s => ((), f s)) r e Hwf He) as (r' & Hrm & Hwf' & _).
    rewrite Hrm. split; [done|].
    unfold with_rooms in Hrm. apply bind_Some in Hrm as (sh & Hsh & (e' & He' & Hb)%bind_Some).
    destruct (negb _); simplify_eq. intros i' sh'. cbn [shards].
    intros [(<- & <- & _)|(_ & H')]%list_lookup_insert_Some; [|by apply (Hs i')].
    cbn [slab]. rewrite slab_slots_set. by eapply Hs.
Qed.

(** The number of inserts in a run. *)
Definition inserts (ops : list reg_op) : Z := Z.of_nat (length (filter (fun op => is_insert op = true) ops)).

Lemma inserts_cons op ops : inserts (op :: ops) = (if is_insert op then 1 else 0) + inserts ops.
Proof. unfold inserts. rewrite filter_cons. destruct (is_insert op) eqn:E; simpl; lia. Qed.

Lemma inserts_nonneg ops : 0 <= inserts ops.
Proof. unfold inserts. lia. Qed.

Lemma reg_step_total op r n :
  wf r -> slots_le n r -> n < 2 ^ 32 -> exists r', reg_step op r = Some r'.
Proof.
  intros Hwf Hs Hn. destruct op as [h u|id|id f]; [|by eexists..].
  destruct (insert_spec h u r Hwf) as (id & r1 & Hi & _); [intros i sh Hsh; specialize (Hs i sh Hsh); lia|].
  exists r1. cbn. by rewrite Hi.
Qed.

Lemma reg_exec_wf ops r n :
  wf r -> slots_le n r -> n + inserts ops < 2 ^ 32 -> exists r', reg_exec ops r = Some r' /\ wf r'.
Proof.
  revert r n. induction ops as [|op ops IH]; intros r n Hwf Hs Hn; [by eexists|].
  rewrite inserts_cons in Hn. pose proof (inserts_nonneg ops).
  assert (Hlt : n < 2 ^ 32) by (destruct (is_insert op); lia).
  destruct (reg_step_total op r n Hwf Hs Hlt) as [r1 Hst]. cbn. rewrite Hst. cbn.
  destruct (reg_step_wf op r r1 n Hwf Hs Hlt Hst) as [Hwf1 Hs1]. eapply IH; [done..|lia].
Qed.

Lemma slots_le_new : slots_le 0 (new (SL := SL) (Hd := Hd)).
Proof. intros i sh [-> _]%lookup_replicate. simpl. rewrite slab_slots_new. lia. Qed.

Lemma reg_step_moved_on op r r' s k g j :
  wf r -> reg_step op r = Some r' -> moved_on s k g j r ->
  exists j', j' <= j + (if is_insert op then 1 else 0) /\ moved_on s k g j' r'.
Proof.
  intros Hwf Hst Hm. destruct op as [h u|id|id f]; cbn in Hst; cbn [is_insert].
  - apply fmap_Some in Hst as ([id' ?] & Hins & ->).
    destruct (insert_moved_on _ _ _ _ _ s k g j Hwf Hins Hm); [exists j|exists (j + 1)]; (split; [lia|done]).
  - exists j. split; [lia|]. destruct (remove_full id r) as [[]|] eqn:E; simplify_eq; [|done].
    by eapply remove_moved_on.
  - exists j. split; [lia|]. destruct (with_rooms _ _ r) as [[]|] eqn:E; simplify_eq; [|done].
    by eapply rooms_moved_on.
Qed.

Lemma reg_exec_moved_on ops r n s k g j :
  wf r -> slots_le n r -> n + inserts ops < 2 ^ 32 -> moved_on s k g j r ->
  exists r' j', reg_exec ops r = Some r' /\ wf r' /\ j' <= j + inserts ops /\ moved_on s k g j' r'.
Proof.
  revert r n j. induction ops as [|op ops IH]; intros r n j Hwf Hs Hn Hm.
  { exists r, j. cbn. split_and!; [done..| |done]. unfold inserts; simpl; lia. }
  rewrite inserts_cons in *. pose proof (inserts_nonneg ops).
  assert (Hlt : n < 2 ^ 32) by (destruct (is_insert op); lia).
  destruct (reg_step_total op r n Hwf Hs Hlt) as [r1 Hst].
  destruct (reg_step_wf op r r1 n Hwf Hs Hlt Hst) as [Hwf1 Hs1].
  destruct (reg_step_moved_on op r r1 s k g j Hwf Hst Hm) as (j1 & Hj1 & Hm1).
  destruct (IH r1 _ j1 Hwf1 Hs1 ltac:(lia) Hm1) as (r' & j' & He & Hwf' & Hj' & Hm').
  exists r', j'. cbn. rewrite Hst. cbn. split_and!; [done..|lia|done].
Qed.

(** C17. Functional refinement of the sharded slab registry: it implements a
    finite map from connection ids to (handle, rooms, user).  A fresh registry
    is the empty map; [insert] never panics and returns an id that was not in
    use; [remove_full], [with_rooms], [get] and [user_of] act on exactly the id
    they are given and miss every id that is not live; [handles_with_user] and
    [len] enumerate the map without duplicates. *)
Theorem registry_refines_map :
  models new ∅ /\
  forall (r : Registry.t SL Hd) a, models r a ->
  (forall h u, has_room r -> exists id r', insert h u r = Some (id, r') /\ a !! id = None /\
     models r' (<[id := (h, ∅, u)]> a)) /\
  (forall (id : ConnectionId), u64_ok id ->
     get id r = (fun x => x.1.1) <$> a !! id /\ user_of id r = snd <$> a !! id /\
     match a !! id with
     | Some (h, rs, u) =>
         (exists r', remove_full id r = Some ((h, rs), r') /\ models r' (delete id a)) /\
         (forall f : gset RoomId -> bool * gset RoomId, exists r',
            with_rooms id f r = Some ((f rs).1, r') /\ models r' (<[id := (h, (f rs).2, u)]> a))
     | None => remove_full id r = None /\ forall f : gset RoomId -> bool * gset RoomId, with_rooms id f r = None
     end) /\
  handles_with_user r ≡ₚ map (fun '(id, (h, _, u)) => (id, h, u)) (map_to_list a) /\
  len r = size a.
Proof.
  split; [apply models_new|]. intros r a Hm. split_and!.
  - intros h u. by apply models_insert.
  - intros id Hid. pose proof (m_find _ _ Hm id Hid) as Hf. unfold get, user_of.
    split_and!; [rewrite Hf; by destruct (find id r)..|].
    destruct (a !! id) as [[[h rs] u]|] eqn:Ha.
    + split; [by eapply models_remove|]. intros f. by apply models_with_rooms.
    + destruct (find id r) eqn:E; [done|].
      split; [by apply remove_full_None|]. intros f. by apply with_rooms_None.
  - pose proof (models_entries r a Hm) as Hp. unfold handles_with_user.
    apply (Permutation_map (fun '(id, (h, _, u)) => (id, h, u))) in Hp. rewrite <-Hp, map_map.
    apply reflexive_eq, map_ext. by intros [id [g h rs u]].
  - rewrite <-length_entries, <-length_map_to_list, <-(models_entries r a Hm). by rewrite length_map.
Qed.

(** C3. No id reuse (ABA): once a connection's id is removed, the id is dead for
    every later sequence of registry operations with fewer than [2^24] inserts
    (the generation width), whichever connections reuse its slab slot; no
    operation in the sequence panics. *)
Theorem stale_id_never_resolves (r r1 : Registry.t SL Hd) id x ops n :
  wf r -> slots_le n r -> n + inserts ops < 2 ^ 32 -> inserts ops < 2 ^ 24 ->
  remove_full id r = Some (x, r1) ->
  exists r2, reg_exec ops r1 = Some r2 /\ get id r2 = None.
Proof.
  intros Hwf Hs Hn Hops Hrm. pose proof Hrm as Hrm0.
  pose proof (inserts_nonneg ops) as Hnn.
  unfold remove_full in Hrm. apply bind_Some in Hrm as (sh & Hsh & (e & He & Hb)%bind_Some).
  destruct (Z.eqb_spec (generation e) (ConnId.generation id)) as [Hgen|]; [|done]. cbn in Hb.
  destruct (reg_step_wf (RRemove id) r r1 n Hwf Hs ltac:(lia)) as [Hwf1 Hs1]; [cbn; by rewrite Hrm0|].
  rewrite Z.add_0_r in Hs1.
  destruct (r_each _ Hwf _ _ Hsh) as [Hg1 Hl1 Hr1 _]. pose proof (Hl1 _ _ He) as Hge.
  set (s := Z.to_nat (ConnId.shard id)) in *. set (k := Z.to_nat (ConnId.key id)) in *.
  set (g := ConnId.generation id) in *.
  assert (Hg : 0 <= g < 2 ^ 24) by (eapply Forall_lookup_1 in Hr1; [|exact Hge]; cbn beta in Hr1; lia).
  assert (Hm : moved_on s k g 0 r1).
  { simplify_eq. unfold moved_on, slot_gen, slot_live. cbn [shards].
    pose proof (lookup_lt_Some _ _ _ Hsh). rewrite !list_lookup_insert_eq by done. cbn.
    rewrite slab_get_remove, decide_True by done. rewrite Z.add_0_r, Z.mod_small by done.
    split_and!; [lia|congruence|]. by intros [? ?]%bool_decide_eq_true. }
  destruct (reg_exec_moved_on ops r1 n s k g 0 Hwf1 Hs1 Hn Hm) as (r2 & j & Hex & Hwf2 & Hj & Hj0 & Hgj & Hlive).
  exists r2. split; [done|]. unfold get. destruct (find id r2) as [e2|] eqn:Hf; [exfalso|done].
  apply find_Some in Hf as (sh2 & Hsh2 & He2 & Hgen2). fold s k g in Hsh2, He2, Hgen2.
  unfold slot_live in Hlive. rewrite Hsh2, He2 in Hlive. specialize (Hlive ltac:(by apply bool_decide_eq_true)).
  unfold slot_gen in Hgj. rewrite Hsh2 in Hgj. cbn in Hgj.
  rewrite (sh_live _ (r_each _ Hwf2 _ _ Hsh2) _ _ He2), Hgen2 in Hgj. injection Hgj as Hgj.
  assert (H2 : (g + j) mod 2 ^ 24 = g) by congruence.
  pose proof (Z.div_mod (g + j) (2 ^ 24) ltac:(lia)) as Hdm. rewrite H2 in Hdm. nia.
Qed.

End RegistryFacts.

Section RegistryWitness.
Import Registry.

(** A registry of named handles with two connections. *)
Definition registry_demo : Registry.t VecSlab.t rstring :=
  match reg_exec [RInsert (str "a") None; RInsert (str "b") (Some (str "u"))] new with
  | Some r => r | None => new end.

Lemma demo_shard (P : Shard VecSlab.t rstring -> Prop) i sh :
  shards registry_demo !! i = Some sh -> Forall P (shards registry_demo) -> P sh.
Proof. intros Hsh HP. by eapply Forall_lookup_1 in HP. Qed.

Lemma registry_demo_wf : wf registry_demo /\ slots_le 1 registry_demo.
Proof.
  split; [split; [reflexivity|]|]; intros i sh Hsh;
    [apply (demo_shard shard_wf i sh Hsh)
    |apply (demo_shard (fun sh => Z.of_nat (slab_slots (slab sh)) <= 1) i sh Hsh)].
  - vm_compute. repeat constructor; cbn; try lia; try done.
    all: intros [|k] e H; cbn in H; try (by simplify_eq); try (by destruct k).
  - vm_compute. repeat constructor; congruence.
Qed.

Lemma stale_id_never_resolves_witness :
  match remove_full (ConnId.new 0 0 0) registry_demo with
  | Some (_, r1) => match reg_exec [RInsert (str "c") None] r1 with
                    | Some r2 => get (ConnId.new 0 0 0) r2 = None | None => False end
  | None => False
  end.
Proof.
  destruct (remove_full (ConnId.new 0 0 0) registry_demo) as [[x r1]|] eqn:E; [|vm_compute in E; discriminate E].
  destruct (stale_id_never_resolves registry_demo r1 (ConnId.new 0 0 0) x [RInsert (str "c") None] 1) as (r2 & -> & H).
  - apply registry_demo_wf.
  - apply registry_demo_wf.
  - vm_compute; reflexivity.
  - vm_compute; reflexivity.
  - exact E.
  - exact H.
Defined.

(** The map it implements. *)
Definition registry_demo_map : gmap Z (rstring * gset RoomId * option UserId) :=
  <[ConnId.new 1 0 0 := (str "b", ∅, Some (str "u"))]> (<[ConnId.new 0 0 0 := (str "a", ∅, None)]> ∅).

Lemma registry_demo_models : models registry_demo registry_demo_map.
Proof.
  destruct (models_insert (str "a") None new ∅) as (id1 & r1 & H1 & _ & M1);
    [apply models_new|intros i sh Hsh; apply lookup_replicate in Hsh as [-> _]; reflexivity|].
  edestruct (models_insert (str "b") (Some (str "u"))) as (id2 & r2 & H2 & _ & M2); [exact M1| |].
  - intros i sh Hsh. assert (HF : Forall (fun sh => Z.of_nat (slab_slots (slab sh)) < 2 ^ 32) (shards r1)).
    { vm_compute in H1. injection H1 as <- <-. repeat constructor. }
    by eapply Forall_lookup_1 in HF.
  - vm_compute in H1. injection H1 as <- <-. vm_compute in H2. injection H2 as <- <-. exact M2.
Qed.

Lemma registry_refines_map_witness :
  models registry_demo registry_demo_map /\ len registry_demo = 2%nat /\ get (ConnId.new 1 0 0) registry_demo = Some (str "b").
Proof.
  destruct (proj2 registry_refines_map registry_demo registry_demo_map registry_demo_models) as (_ & Hid & _ & Hlen).
  split; [exact registry_demo_models|]. split; [rewrite Hlen; vm_compute; reflexivity|].
  destruct (Hid (ConnId.new 1 0 0)) as (-> & _); [split; vm_compute; congruence|]. vm_compute. reflexivity.
Defined.

End RegistryWitness.
