(* ===== verification/Events.v ===== *)
(** * Engine-to-bridge events (crates/core/src/events.rs)

    The bounded channel between the connection tasks and the bridge, with the
    overflow policy of each event class: messages are dropped (and counted) when
    it is full, control events wait for room.  [EventSender::pressure] is a
    floating-point ratio and is not modelled. *)

From S2P Require Import Prelude Ids Runtime Metrics.

(** [enum EngineEvent]. *)
Inductive EngineEvent :=
  | EvAuthorize (request_id : Z) (client_ip url : rstring) (headers : list (rstring * rstring))
  | ConnectionOpened (id : ConnectionId) (auth_request : option Z)
  | Message (id : ConnectionId) (payload : bytes) (is_binary : bool)
  | ConnectionClosed (id : ConnectionId) (code : Z) (reason : rstring).

#[global] Instance EngineEvent_eq_dec : EqDecision EngineEvent.
Proof. solve_decision. Defined.

Definition is_message (ev : EngineEvent) : bool := match ev with Message _ _ _ => true | _ => false end.

Module EventSender.
Section EventSender.
Context {Ch : Type -> Type} `{Mpsc Ch}.

(** [EventSender::bounded]; [None] is the failed assertion. *)
Definition bounded (capacity : nat) : option (Ch EngineEvent) :=
  if (capacity =? 0)%nat then None else Some (ch_new capacity).

(** [EventSender::try_message]. *)
Definition try_message (id : ConnectionId) (payload : bytes) (is_binary : bool)
    (tx : Ch EngineEvent) (m : Metrics.t) : Ch EngineEvent * Metrics.t :=
  match try_send (Message id payload is_binary) tx with
  | (SendOk, tx') => (tx', m)
  | (SendFull, tx') => (tx', Metrics.add Metrics.BridgeDropped 1 m)
  | (SendClosed, tx') => (tx', m)
  end.

(** One poll of [EventSender::control]; [None] while the queue is full. *)
Definition control (ev : EngineEvent) (tx : Ch EngineEvent) : option (Ch EngineEvent) :=
  snd <$> send ev tx.

End EventSender.
End EventSender.

Section EventFacts.
Context {Ch : Type -> Type} `{Mpsc Ch}.

(** An offer, with what the channel was like when it was made. *)
Record Offer := { o_event : EngineEvent; o_closed : bool; o_full : bool }.

(** The channel with its history: the offers, oldest first, what the bridge
    received, and what was queued when the receiver went away. *)
Record event_run := {
  er_tx : Ch EngineEvent;
  er_metrics : Metrics.t;
  er_offers : list Offer;
  er_received : list EngineEvent;
  er_discarded : list EngineEvent;
}.

Definition offer (ev : EngineEvent) (st : event_run) : Offer :=
  {| o_event := ev; o_closed := ch_closed (er_tx st); o_full := negb (ch_room (er_tx st)) |}.

(** The engine's two ways in, the bridge's way out, and the end of the bridge. *)
Inductive event_step (st : event_run) : event_run -> Prop :=
  | EvTryMessage id payload b tx m :
      EventSender.try_message id payload b (er_tx st) (er_metrics st) = (tx, m) ->
      event_step st {| er_tx := tx; er_metrics := m; er_offers := er_offers st ++ [offer (Message id payload b) st];
        er_received := er_received st; er_discarded := er_discarded st |}
  | EvControl ev tx :
      is_message ev = false -> EventSender.control ev (er_tx st) = Some tx ->
      event_step st {| er_tx := tx; er_metrics := er_metrics st; er_offers := er_offers st ++ [offer ev st];
        er_received := er_received st; er_discarded := er_discarded st |}
  | EvRecv ev tx :
      recv (er_tx st) = Some (ev, tx) ->
      event_step st {| er_tx := tx; er_metrics := er_metrics st; er_offers := er_offers st;
        er_received := er_received st ++ [ev]; er_discarded := er_discarded st |}
  | EvReceiverGone :
      event_step st {| er_tx := ch_drop_rx (er_tx st); er_metrics := er_metrics st; er_offers := er_offers st;
        er_received := er_received st; er_discarded := er_discarded st ++ ch_items (er_tx st) |}.

Definition event_start (tx : Ch EngineEvent) (m : Metrics.t) : event_run :=
  {| er_tx := tx; er_metrics := m; er_offers := []; er_received := []; er_discarded := [] |}.

(** The offers that found an open channel with room, and the messages that found
    an open channel without. *)
Definition found_room (o : Offer) : Prop := o_closed o = false /\ o_full o = false.
Definition found_full (o : Offer) : Prop := o_closed o = false /\ o_full o = true /\ is_message (o_event o) = true.
#[global] Instance found_room_dec o : Decision (found_room o) := ltac:(unfold found_room; apply _).
#[global] Instance found_full_dec o : Decision (found_full o) := ltac:(unfold found_full; apply _).

Record event_inv (cap : nat) (m0 : Metrics.t) (st : event_run) : Prop := {
  ei_cap : ch_capacity (er_tx st) = cap;
  ei_bound : (length (ch_items (er_tx st)) <= cap)%nat;
  ei_gone : if ch_closed (er_tx st) then ch_items (er_tx st) = [] else er_discarded st = [];
  ei_kept : er_received st ++ er_discarded st ++ ch_items (er_tx st) = map o_event (filter found_room (er_offers st));
  ei_controls : Forall (fun o => is_message (o_event o) = false -> o_closed o = true \/ o_full o = false) (er_offers st);
  ei_drops : Metrics.get Metrics.BridgeDropped (er_metrics st) =
    wrap 64 (Metrics.get Metrics.BridgeDropped m0 + Z.of_nat (length (filter found_full (er_offers st))));
}.

(** An offer to an open channel with room is enqueued. *)
Lemma event_inv_sent cap m0 st ev :
  event_inv cap m0 st -> ch_closed (er_tx st) = false -> ch_room (er_tx st) = true ->
  event_inv cap m0 {| er_tx := ch_enqueue (er_tx st) ev; er_metrics := er_metrics st;
    er_offers := er_offers st ++ [offer ev st]; er_received := er_received st; er_discarded := er_discarded st |}.
Proof.
  intros [Hc Hb Hg Hk Hf Hd] Ho Hroom. unfold offer. rewrite Ho, Hroom in *. cbn [negb]. apply bool_decide_eq_true in Hroom.
  split; cbn; rewrite ?ch_closed_enqueue, ?ch_capacity_enqueue, ?ch_items_enqueue, ?Ho; try done.
  - rewrite length_app. simpl. lia.
  - rewrite filter_app, filter_cons_True by done. rewrite map_app, <-Hk. by rewrite <-!app_assoc.
  - apply Forall_app. split; [done|]. constructor; [|done]. by right.
  - rewrite Hd, filter_app, filter_cons_False by (intros (_ & ? & _); done). by rewrite app_nil_r.
Qed.

(** An offer the channel does not take leaves it as it is. *)
Lemma event_inv_refused cap m0 st ev m :
  event_inv cap m0 st -> ~ found_room (offer ev st) ->
  (is_message ev = false -> ch_closed (er_tx st) = true) ->
  Metrics.get Metrics.BridgeDropped m = wrap 64 (Metrics.get Metrics.BridgeDropped (er_metrics st) + (if decide (found_full (offer ev st)) then 1 else 0)) ->
  event_inv cap m0 {| er_tx := er_tx st; er_metrics := m; er_offers := er_offers st ++ [offer ev st];
    er_received := er_received st; er_discarded := er_discarded st |}.
Proof.
  intros [Hc Hb Hg Hk Hf Hd] Hno Hmsg Hm. split; cbn; try done.
  - rewrite filter_app, filter_cons_False by done. by rewrite app_nil_r.
  - apply Forall_app. split; [done|]. constructor; [|done]. intros He. left. cbn. by apply Hmsg.
  - rewrite Hm, Hd, wrap_add_add, filter_app, length_app, filter_cons, filter_nil by lia. f_equal. case_decide; simpl; lia.
Qed.

Lemma event_step_inv cap m0 st st' : event_step st st' -> event_inv cap m0 st -> event_inv cap m0 st'.
Proof.
  intros Hst Hi. assert (H64 : Metrics.get Metrics.BridgeDropped (er_metrics st) = wrap 64 (Metrics.get Metrics.BridgeDropped (er_metrics st) + 0)).
  { rewrite Z.add_0_r, (ei_drops _ _ _ Hi). unfold wrap. by rewrite Z.mod_mod. }
  destruct Hst as [id p b tx m Ht|ev tx Hev Hc|ev tx Hr|].
  - unfold EventSender.try_message, try_send in Ht. destruct (ch_closed (er_tx st)) eqn:Eo; [|destruct (ch_room (er_tx st)) eqn:Er].
    + injection Ht as <- <-. apply event_inv_refused; [done| |done|]; unfold offer, found_room, found_full; rewrite Eo; [by intros []|].
      rewrite decide_False by (by intros []). done.
    + injection Ht as <- <-. by apply event_inv_sent.
    + injection Ht as <- <-. apply event_inv_refused; [done| |done|]; unfold offer, found_room, found_full; rewrite Eo, Er; [by intros []|].
      rewrite decide_True by done. by rewrite metrics_get_add_eq.
  - unfold EventSender.control, send in Hc. destruct (ch_closed (er_tx st)) eqn:Eo; [|destruct (ch_room (er_tx st)) eqn:Er]; [| |done].
    + injection Hc as <-. apply event_inv_refused; [done| |done|]; unfold offer, found_room, found_full; rewrite Eo; [by intros []|].
      rewrite decide_False by (by intros []). done.
    + injection Hc as <-. by apply event_inv_sent.
  - unfold recv in Hr. destruct (ch_items (er_tx st)) as [|x l] eqn:El; simplify_eq. destruct Hi as [Hc Hb Hg Hk Hf Hd]. rewrite El in Hb, Hk, Hg.
    destruct (ch_closed (er_tx st)) eqn:Eo; [done|].
    split; cbn; rewrite ?ch_closed_dequeue, ?ch_capacity_dequeue, ?ch_items_dequeue, ?El, ?Eo; try done; cbn [tail].
    + simpl in Hb. lia.
    + rewrite <-Hk, Hg. by rewrite <-!app_assoc.
  - destruct Hi as [Hc Hb Hg Hk Hf Hd]. split; cbn; rewrite ?ch_items_drop_rx, ?ch_capacity_drop_rx, ?ch_closed_drop_rx; try done.
    + simpl. lia.
    + by rewrite app_nil_r.
Qed.

(** C22. The engine-to-bridge queue, for every interleaving of hot-path messages,
    control events, receives and the end of the bridge: what the bridge received,
    then what was discarded with its receiver, then what is queued, is exactly the
    offers that found the channel open and with room, each once and in the order
    they were made, so a message is dropped only at a full or closed channel; a
    control event (authorize, opened, closed) is never dropped for lack of room;
    nothing is discarded while the bridge is there; the queue never exceeds its
    capacity; and [bridge_dropped] grew by exactly the messages that found the
    channel open and full. *)
Theorem event_queue_delivery cap tx m0 st :
  EventSender.bounded cap = Some tx -> u64_ok (Metrics.get Metrics.BridgeDropped m0) ->
  rtc event_step (event_start tx m0) st ->
  er_received st ++ er_discarded st ++ ch_items (er_tx st) = map o_event (filter found_room (er_offers st)) /\
  Forall (fun o => is_message (o_event o) = false -> o_closed o = true \/ o_full o = false) (er_offers st) /\
  (ch_closed (er_tx st) = false -> er_discarded st = []) /\
  (length (ch_items (er_tx st)) <= cap)%nat /\
  Metrics.get Metrics.BridgeDropped (er_metrics st) =
    wrap 64 (Metrics.get Metrics.BridgeDropped m0 + Z.of_nat (length (filter found_full (er_offers st)))).
Proof.
  unfold EventSender.bounded. destruct (cap =? 0)%nat; intros Hb Hm Hr; simplify_eq.
  assert (Hi : event_inv cap m0 st).
  { revert Hr. apply (rtc_ind_r (fun st => event_inv cap m0 st)); [|intros; by eapply event_step_inv].
    split; cbn; rewrite ?ch_items_new, ?ch_capacity_new, ?ch_closed_new; try done.
    - simpl. lia.
    - rewrite Z.add_0_r, wrap_small by done. done. }
  destruct Hi as [_ Hbd Hg Hk Hf Hd]. split_and!; try done. intros Ho. by rewrite Ho in Hg.
Qed.

End EventFacts.

Definition demo_events_end : event_run (Ch := ListChan.t) :=
  {| er_tx := {| ListChan.items := []; ListChan.capacity := 1; ListChan.closed := true |};
     er_metrics := Metrics.add Metrics.BridgeDropped 1 Metrics.default;
     er_offers := [{| o_event := ConnectionOpened 7 None; o_closed := false; o_full := false |};
                   {| o_event := Message 7 (str "x") false; o_closed := false; o_full := true |};
                   {| o_event := Message 7 (str "y") false; o_closed := false; o_full := false |};
                   {| o_event := Message 7 (str "z") false; o_closed := true; o_full := false |}];
     er_received := [ConnectionOpened 7 None]; er_discarded := [Message 7 (str "y") false] |}.

Lemma event_queue_delivery_witness :
  rtc event_step (event_start (ch_new (Ch := ListChan.t) 1) Metrics.default) demo_events_end /\
  [ConnectionOpened 7 None; Message 7 (str "y") false] = map o_event (filter found_room (er_offers demo_events_end)) /\
  Metrics.get Metrics.BridgeDropped (er_metrics demo_events_end) = 1.
Proof.
  assert (Hr : rtc event_step (event_start (ch_new (Ch := ListChan.t) 1) Metrics.default) demo_events_end).
  { eapply rtc_l; [by apply (EvControl _ (ConnectionOpened 7 None))|].
    eapply rtc_l; [by apply (EvTryMessage _ 7 (str "x") false)|].
    eapply rtc_l; [by apply (EvRecv _ (ConnectionOpened 7 None))|].
    eapply rtc_l; [by apply (EvTryMessage _ 7 (str "y") false)|].
    eapply rtc_l; [apply EvReceiverGone|].
    eapply rtc_l; [by apply (EvTryMessage _ 7 (str "z") false)|]. constructor. }
  split; [exact Hr|].
  destruct (event_queue_delivery 1 _ Metrics.default _ eq_refl ltac:(split; vm_compute; congruence) Hr) as (Hk & _ & _ & _ & Hd).
  split; [exact Hk|rewrite Hd; vm_compute; reflexivity].
Defined.
