(* ===== verification/Connection.v ===== *)
(** * The per-connection task (crates/core/src/connection/mod.rs)

    The close latch, the handle the registry stores, the write loop, the read
    loop and [run_connection] which runs both.  The transport (the frame source
    and sink) is the environment: a frame that arrives, a write that fails, a
    timer that fires and a panic are the inputs of the step functions.  Time is
    in milliseconds. *)

From S2P Require Import Prelude Ids Runtime Config Metrics Mailbox Events.

Definition CLOSE_NORMAL : Z := 1000.
Definition CLOSE_GOING_AWAY : Z := 1001.
Definition CLOSE_ABNORMAL : Z := 1006.
Definition CLOSE_INTERNAL_ERROR : Z := 1011.
Definition CLOSE_BACKPRESSURE : Z := 1013.
Definition CLOSE_UNAUTHORIZED : Z := 1008.
Definition CLOSE_AUTH_UNAVAILABLE : Z := 1013.
(** [CLOSE_GRACE], in milliseconds. *)
Definition CLOSE_GRACE : Z := 10 * 1000.
Definition CONTROL_QUEUE_CAPACITY : nat := 4.

(** [enum Control]. *)
Inductive Control := Ping (payload : bytes) | Close (code : Z) (reason : rstring).

(** [struct CloseCmd]. *)
Record CloseCmd := { code : Z; reason : rstring; graceful : bool }.

(** [enum InFrame], [enum OutFrame] and [struct TransportError] (transport/mod.rs). *)
Inductive InFrame := InText (b : bytes) | InBinary (b : bytes) | InPong
  | InClose (code : Z) (reason : rstring).
Inductive OutFrame := OutText (b : bytes) | OutBinary (b : bytes) | OutPing (b : bytes)
  | OutClose (code : Z) (reason : rstring).
Record TransportError := { close_code : Z; message : rstring }.

Module Connection.
Section Connection.
Context {Ch : Type -> Type} `{Mpsc Ch}.

(** What a [ConnHandle] points at: the mailbox, the writer's control queue and
    the value of the close watch.  Handles are clones of the same [Arc]s, so
    there is one such state per connection. *)
Record ConnState := {
  mailbox : Mailbox.t;
  control : Ch Control;
  close : option CloseCmd;
}.

(** The handle a fresh connection starts with ([Engine::run_admitted]). *)
Definition fresh (bp : Backpressure) : ConnState :=
  {| mailbox := Mailbox.new (high_water_mark bp) (policy bp);
     control := ch_new CONTROL_QUEUE_CAPACITY; close := None |}.

Definition set_mailbox (mb : Mailbox.t) (c : ConnState) : ConnState :=
  {| mailbox := mb; control := control c; close := close c |}.
Definition set_control (q : Ch Control) (c : ConnState) : ConnState :=
  {| mailbox := mailbox c; control := q; close := close c |}.

(** [CloseSignal::signal]. *)
Definition signal (cmd : CloseCmd) (c : ConnState) : ConnState :=
  {| mailbox := mailbox c; control := control c;
     close := match close c with None => Some cmd | Some old => Some old end |}.

(** [let _ = control.try_send(..)]. *)
Definition nudge (cmd : Control) (c : ConnState) : ConnState :=
  set_control (try_send cmd (control c)).2 c.

(** [ConnHandle::initiate_close]. *)
Definition initiate_close (cd : Z) (rs : rstring) (gr : bool) (c : ConnState) : ConnState :=
  nudge (Close cd rs) (signal {| code := cd; reason := rs; graceful := gr |} c).

(** [ConnHandle::push]; the boolean is the mailbox's [notify_one]. *)
Definition push (f : Mailbox.OutboundFrame) (c : ConnState) (m : Metrics.t)
    : Mailbox.PushOutcome * bool * ConnState * Metrics.t :=
  let '(outcome, nt, mb, m') := Mailbox.push f (mailbox c) m in
  let c' := set_mailbox mb c in
  (outcome, nt,
   if decide (outcome = Mailbox.Disconnected)
   then initiate_close CLOSE_BACKPRESSURE (str "backpressure") true c' else c', m').

(** ** The write loop *)

(** The writer's state: [None] is a loop that has ended. [wire] is what was
    handed to the sink, oldest first. *)
Record Writer := { close_sent : bool; wire : list OutFrame; ended : bool }.

Definition writer_start : Writer := {| close_sent := false; wire := []; ended := false |}.

Definition put_wire (o : OutFrame) (ok : bool) (w : Writer) : Writer :=
  {| close_sent := close_sent w; wire := wire w ++ [o]; ended := negb ok |}.

(** The outcome of one iteration: [None] when both branches of the [select!]
    are pending.  [ok] says whether the sink accepts a frame written in it, and
    [senders] whether a control sender is alive. *)
Definition write_iter (ok senders : bool) (w : Writer) (c : ConnState) (m : Metrics.t)
    : option (Writer * ConnState * Metrics.t) :=
  match recv (control c) with
  | Some (Ping payload, q) =>
      let c' := set_control q c in
      Some (if close_sent w then w else put_wire (OutPing payload) ok w, c', m)
  | Some (Close cd rs, q) =>
      let c' := set_control q c in
      Some (if close_sent w then w
            else {| close_sent := true; wire := wire w ++ [OutClose cd rs]; ended := false |}, c', m)
  | None =>
      if negb senders then Some ({| close_sent := close_sent w; wire := wire w; ended := true |}, c, m)
      else
        match Mailbox.pop (mailbox c) with
        | (Mailbox.Got f, mb) =>
            let c' := set_mailbox mb c in
            if close_sent w then Some (w, c', m)
            else
              let out := if Mailbox.is_binary f then OutBinary (Mailbox.data f) else OutText (Mailbox.data f) in
              if ok then
                Some (put_wire out true w, c',
                      Metrics.add Metrics.BytesOut (Z.of_nat (length (Mailbox.data f)))
                        (Metrics.add Metrics.MessagesOut 1 m))
              else Some (put_wire out false w, c', m)
        | (Mailbox.Ended, _) => Some ({| close_sent := close_sent w; wire := wire w; ended := true |}, c, m)
        | (Mailbox.MustWait, _) => None
        end
  end.

(** ** The read loop *)

(** The local variables of [read_loop]. [seen] is the watch receiver's version:
    whether the latched close has been taken by [borrow_and_update]. *)
Record Reader := {
  next_tick : Z;
  last_activity : Z;
  pong_deadline : option Z;
  close_deadline : option Z;
  initiated : option (Z * rstring);
  seen : bool;
}.

(** Either the loop goes on or it returned the code and reason to report. *)
Inductive ReadState := Reading (r : Reader) | Returned (out : Z * rstring).

(** [if let Some(cmd) = close_rx.borrow_and_update().clone() { .. }]. *)
Definition take_close (now : Z) (c : ConnState) (r : Reader) : ReadState :=
  match close c with
  | None => Reading r
  | Some cmd =>
      if negb (graceful cmd) then Returned (code cmd, reason cmd)
      else Reading {| next_tick := next_tick r; last_activity := last_activity r;
             pong_deadline := pong_deadline r; close_deadline := Some (now + CLOSE_GRACE);
             initiated := Some (code cmd, reason cmd); seen := true |}
  end.

(** The part of [read_loop] before the loop. *)
Definition read_start (ka : Keepalive) (now : Z) (c : ConnState) : ReadState :=
  take_close now c {| next_tick := now + ping_interval ka; last_activity := now;
    pong_deadline := None; close_deadline := None; initiated := None; seen := false |}.

(** The branches of the [select!]. *)
Inductive ReadEvent :=
  | EvClose                                    (* close_rx.changed(), Ok *)
  | EvCloseGone                                (* close_rx.changed(), Err *)
  | EvFrame (f : option (InFrame + TransportError))
  | EvTick                                     (* ping_timer.tick() *)
  | EvDeadline.                                (* maybe_sleep(deadline) *)

Definition active (now : Z) (r : Reader) : Reader :=
  {| next_tick := next_tick r; last_activity := now; pong_deadline := None;
     close_deadline := close_deadline r; initiated := initiated r; seen := seen r |}.

Definition set_tick (t : Z) (pd : option Z) (r : Reader) : Reader :=
  {| next_tick := t; last_activity := last_activity r; pong_deadline := pd;
     close_deadline := close_deadline r; initiated := initiated r; seen := seen r |}.

(** [let deadline = match (pong_deadline, close_deadline) { .. }]. *)
Definition deadline (r : Reader) : option Z :=
  match pong_deadline r, close_deadline r with
  | Some a, Some b => Some (Z.min a b)
  | Some a, None => Some a
  | None, b => b
  end.

(** A data frame: counted, then offered to the bridge queue. *)
Definition deliver (id : ConnectionId) (b : bytes) (bin : bool) (tx : Ch EngineEvent) (m : Metrics.t)
    : Ch EngineEvent * Metrics.t :=
  EventSender.try_message id b bin tx
    (Metrics.add Metrics.BytesIn (Z.of_nat (length b)) (Metrics.add Metrics.MessagesIn 1 m)).

(** One pass through the [select!] of [read_loop]. *)
Definition read_iter (id : ConnectionId) (ka : Keepalive) (now : Z) (ev : ReadEvent) (r : Reader)
    (c : ConnState) (tx : Ch EngineEvent) (m : Metrics.t)
    : ReadState * ConnState * Ch EngineEvent * Metrics.t :=
  match ev with
  | EvCloseGone => (Returned (CLOSE_ABNORMAL, str "engine dropped"), c, tx, m)
  | EvClose => (take_close now c r, c, tx, m)
  | EvFrame None =>
      (Returned (default (CLOSE_ABNORMAL, str "connection reset without close frame") (initiated r)), c, tx, m)
  | EvFrame (Some (inr e)) => (Returned (close_code e, message e), c, tx, m)
  | EvFrame (Some (inl (InText b))) =>
      let '(tx', m') := deliver id b false tx m in (Reading (active now r), c, tx', m')
  | EvFrame (Some (inl (InBinary b))) =>
      let '(tx', m') := deliver id b true tx m in (Reading (active now r), c, tx', m')
  | EvFrame (Some (inl InPong)) => (Reading (active now r), c, tx, m)
  | EvFrame (Some (inl (InClose cd rs))) =>
      (Returned (default (cd, rs) (initiated r)),
       nudge (Close (if cd =? 1005 then CLOSE_NORMAL else cd) []) c, tx, m)
  | EvTick =>
      let t := now + ping_interval ka in
      if (ping_interval ka <=? now - last_activity r) && bool_decide (pong_deadline r = None)
      then (Reading (set_tick t (Some (now + pong_timeout ka)) r), nudge (Ping []) c, tx, m)
      else (Reading (set_tick t (pong_deadline r) r), c, tx, m)
  | EvDeadline =>
      if match close_deadline r with Some d => d <=? now | None => false end
      then (Returned ((default (CLOSE_ABNORMAL, []) (initiated r)).1, str "close handshake timed out"), c, tx, m)
      else (Returned (CLOSE_ABNORMAL, str "keepalive timeout: no pong"), c, tx, m)
  end.

(** Which branch the biased [select!] may take: an unseen close comes first; a
    timer only when it is due. *)
Definition ready (now : Z) (ev : ReadEvent) (r : Reader) (c : ConnState) : Prop :=
  let pending_close := close c <> None /\ seen r = false in
  match ev with
  | EvClose => pending_close
  | EvCloseGone => False  (* the read loop borrows the handle, which owns the sender *)
  | EvFrame _ => ~ pending_close
  | EvTick => ~ pending_close /\ next_tick r <= now
  | EvDeadline => ~ pending_close /\ now < next_tick r /\ exists d, deadline r = Some d /\ d <= now
  end.

End Connection.
#[global] Arguments ConnState : clear implicits.
End Connection.

(** ** [run_connection]: reader, writer and the rest of the engine interleaved *)

Section Task.
Context {Ch : Type -> Type} `{Mpsc Ch}.
Import Connection.

(** Where [run_connection] is: before the Opened event is queued; reading;
    waiting for the writer after the read loop returned [out]; finished. *)
Inductive Phase := Opening | Running (r : Reader) | Draining (out : Z * rstring) | Done (out : Z * rstring).

Record Task := {
  t_id : ConnectionId;
  t_auth : option Z;
  t_keepalive : Keepalive;
  t_phase : Phase;
  t_conn : ConnState Ch;
  t_writer : Writer;
  t_events : Ch EngineEvent;
  t_metrics : Metrics.t;
  t_now : Z;
  (* the events this task offered to the bridge queue, oldest first *)
  t_log : list EngineEvent;
}.

Definition set_task (p : Phase) (c : ConnState Ch) (w : Writer) (tx : Ch EngineEvent) (m : Metrics.t)
    (log : list EngineEvent) (st : Task) : Task :=
  {| t_id := t_id st; t_auth := t_auth st; t_keepalive := t_keepalive st; t_phase := p; t_conn := c;
     t_writer := w; t_events := tx; t_metrics := m; t_now := t_now st; t_log := log |}.

(** When the read loop returns, [handle.mailbox.close()] follows. *)
Definition after_read (rs : ReadState) (c : ConnState Ch) : Phase * ConnState Ch :=
  match rs with
  | Reading r => (Running r, c)
  | Returned out => (Draining out, set_mailbox (Mailbox.close (mailbox c)) c)
  end.

(** The events a pass of the read loop offers. *)
Definition offered (id : ConnectionId) (ev : ReadEvent) : list EngineEvent :=
  match ev with
  | EvFrame (Some (inl (InText b))) => [Message id b false]
  | EvFrame (Some (inl (InBinary b))) => [Message id b true]
  | _ => []
  end.

Inductive task_step : Task -> Task -> Prop :=
  (* ctx.events.control(ConnectionOpened ..).await, then the loops start *)
  | StepOpen st tx p c :
      t_phase st = Opening -> EventSender.control (ConnectionOpened (t_id st) (t_auth st)) (t_events st) = Some tx ->
      after_read (read_start (t_keepalive st) (t_now st) (t_conn st)) (t_conn st) = (p, c) ->
      task_step st (set_task p c (t_writer st) tx (t_metrics st)
        (t_log st ++ [ConnectionOpened (t_id st) (t_auth st)]) st)
  (* one pass of the read loop *)
  | StepRead st r ev rs c tx m p c' :
      t_phase st = Running r -> ready (t_now st) ev r (t_conn st) ->
      read_iter (t_id st) (t_keepalive st) (t_now st) ev r (t_conn st) (t_events st) (t_metrics st) = (rs, c, tx, m) ->
      after_read rs c = (p, c') ->
      task_step st (set_task p c' (t_writer st) tx m (t_log st ++ offered (t_id st) ev) st)
  (* the read loop panics and is caught *)
  | StepReadPanic st r p c :
      t_phase st = Running r ->
      after_read (Returned (CLOSE_INTERNAL_ERROR, str "connection task panicked")) (t_conn st) = (p, c) ->
      task_step st (set_task p c (t_writer st) (t_events st) (t_metrics st) (t_log st) st)
  (* one pass of the write loop; [run_connection] holds a control sender *)
  | StepWrite st ok w c m :
      t_phase st <> Opening -> ended (t_writer st) = false ->
      write_iter ok true (t_writer st) (t_conn st) (t_metrics st) = Some (w, c, m) ->
      task_step st (set_task (t_phase st) c w (t_events st) m (t_log st) st)
  (* the write loop panics, is caught and signals a close *)
  | StepWritePanic st :
      t_phase st <> Opening -> ended (t_writer st) = false ->
      task_step st (set_task (t_phase st)
        (signal {| code := CLOSE_INTERNAL_ERROR; reason := str "connection writer panicked"; graceful := false |} (t_conn st))
        {| close_sent := close_sent (t_writer st); wire := wire (t_writer st); ended := true |}
        (t_events st) (t_metrics st) (t_log st) st)
  (* writer.await has completed: ctx.events.control(ConnectionClosed ..).await *)
  | StepClosed st out tx :
      t_phase st = Draining out -> ended (t_writer st) = true ->
      EventSender.control (ConnectionClosed (t_id st) out.1 out.2) (t_events st) = Some tx ->
      task_step st (set_task (Done out) (t_conn st) (t_writer st) tx (t_metrics st)
        (t_log st ++ [ConnectionClosed (t_id st) out.1 out.2]) st)
  (* the engine, through any clone of the handle *)
  | StepPush st f o nt c m :
      push f (t_conn st) (t_metrics st) = (o, nt, c, m) ->
      task_step st (set_task (t_phase st) c (t_writer st) (t_events st) m (t_log st) st)
  | StepInitiate st cd rs gr :
      task_step st (set_task (t_phase st) (initiate_close cd rs gr (t_conn st)) (t_writer st) (t_events st)
        (t_metrics st) (t_log st) st)
  (* other tasks use the event queue and the counters; time passes *)
  | StepOthers st tx m :
      task_step st (set_task (t_phase st) (t_conn st) (t_writer st) tx m (t_log st) st)
  | StepTime st d :
      0 <= d ->
      task_step st {| t_id := t_id st; t_auth := t_auth st; t_keepalive := t_keepalive st; t_phase := t_phase st;
        t_conn := t_conn st; t_writer := t_writer st; t_events := t_events st; t_metrics := t_metrics st;
        t_now := t_now st + d; t_log := t_log st |}.

Definition task_start (id : ConnectionId) (auth : option Z) (cfg : Config) (tx : Ch EngineEvent)
    (m : Metrics.t) (now : Z) : Task :=
  {| t_id := id; t_auth := auth; t_keepalive := keepalive cfg; t_phase := Opening;
     t_conn := fresh (backpressure cfg); t_writer := writer_start; t_events := tx; t_metrics := m;
     t_now := now; t_log := [] |}.

(** *** The invariant *)

Definition is_data (o : OutFrame) : bool := match o with OutClose _ _ => false | _ => true end.
Definition is_close (o : OutFrame) : bool := negb (is_data o).

(** Frames written: data and pings, then at most one Close. *)
Definition wire_ok (w : Writer) : Prop :=
  exists pre, Forall (fun o => is_data o = true) pre /\
    (if close_sent w then exists cd rs, wire w = pre ++ [OutClose cd rs] else wire w = pre).

Definition from (id : ConnectionId) (ev : EngineEvent) : Prop := exists b bin, ev = Message id b bin.

(** The events offered so far, by phase. *)
Definition log_ok (st : Task) : Prop :=
  let opened := ConnectionOpened (t_id st) (t_auth st) in
  match t_phase st with
  | Opening => t_log st = []
  | Running _ | Draining _ => exists msgs, t_log st = opened :: msgs /\ Forall (from (t_id st)) msgs
  | Done out => exists msgs, t_log st = opened :: msgs ++ [ConnectionClosed (t_id st) out.1 out.2] /\
      Forall (from (t_id st)) msgs
  end.

(** While the connection is up, a closed mailbox has a latched close, and what
    the reader means to report is what was latched. *)
Definition latch_ok (st : Task) : Prop :=
  match t_phase st with
  | Opening => Mailbox.closed (mailbox (t_conn st)) = true -> close (t_conn st) <> None
  | Running r =>
      (Mailbox.closed (mailbox (t_conn st)) = true -> close (t_conn st) <> None) /\
      (seen r = true -> exists cmd, close (t_conn st) = Some cmd /\ graceful cmd = true /\
         initiated r = Some (code cmd, reason cmd) /\ exists d, close_deadline r = Some d /\ d <= t_now st + CLOSE_GRACE) /\
      (seen r = false -> initiated r = None /\ close_deadline r = None)
  | Draining _ | Done _ => Mailbox.closed (mailbox (t_conn st)) = true
  end.

Record task_inv (st : Task) : Prop := {
  ti_wire : wire_ok (t_writer st);
  ti_log : log_ok st;
  ti_latch : latch_ok st;
}.

(** *** How each operation moves the latch and the mailbox *)

(** [c'] follows [c]: a latched close stays, a closed mailbox stays closed, and
    a mailbox that closes latches a close. *)
Record follows (c c' : ConnState Ch) : Prop := {
  f_latch : forall cmd, close c = Some cmd -> close c' = Some cmd;
  f_closed : Mailbox.closed (mailbox c) = true -> Mailbox.closed (mailbox c') = true;
  f_half : Mailbox.closed (mailbox c') = true -> Mailbox.closed (mailbox c) = true \/ close c' <> None;
}.

#[local] Instance follows_preorder : PreOrder follows.
Proof.
  split; [intros c; split; eauto|]. intros a b c [H1 H2 H3] [H4 H5 H6]. split; eauto.
  intros Hc. destruct (H6 Hc) as [Hb|]; [|by right]. destruct (H3 Hb) as [|Hn]; [by left|right].
  destruct (close b) as [cmd|] eqn:E; [|done]. by rewrite (H4 cmd eq_refl).
Qed.

Lemma follows_same c c' :
  close c' = close c -> Mailbox.closed (mailbox c') = Mailbox.closed (mailbox c) -> follows c c'.
Proof. intros E1 E2. split; rewrite ?E1, ?E2; auto. Qed.

Lemma nudge_follows cmd c : follows c (nudge cmd c).
Proof. by apply follows_same. Qed.

Lemma signal_follows cmd c : follows c (signal cmd c).
Proof. split; simpl; [by intros ? ->|done|by left]. Qed.

Lemma initiate_close_follows cd rs gr c : follows c (initiate_close cd rs gr c).
Proof. unfold initiate_close. etrans; [apply signal_follows|apply nudge_follows]. Qed.

Lemma initiate_close_latched cd rs gr c : close (initiate_close cd rs gr c) <> None.
Proof. simpl. by destruct (close c). Qed.

Lemma mailbox_push_closed f mb m o nt mb' m' :
  Mailbox.push f mb m = (o, nt, mb', m') ->
  Mailbox.closed mb' = Mailbox.closed mb \/ o = Mailbox.Disconnected /\ Mailbox.closed mb' = true.
Proof.
  unfold Mailbox.push. destruct (Mailbox.closed mb) eqn:E; [intros [= <- <- <- <-]; auto|].
  destruct (_ && _); [|intros [= <- <- <- <-]; simpl; auto].
  destruct (Mailbox.pol mb); [| |destruct (Mailbox.evict _ _ _ _ _) as [[]]]; intros [= <- <- <- <-]; simpl; auto.
Qed.

Lemma push_follows f c m o nt c' m' : push f c m = (o, nt, c', m') -> follows c c'.
Proof.
  unfold push. destruct (Mailbox.push f (mailbox c) m) as [[[o1 nt1] mb] m1] eqn:E.
  intros [= <- <- <- <-]. apply mailbox_push_closed in E.
  case_decide as Ho.
  - split.
    + intros cmd Hc. simpl. by rewrite Hc.
    + simpl. destruct E as [->|[_ ->]]; auto.
    + intros _. right. apply initiate_close_latched.
  - destruct E as [E|[? _]]; [|done]. by apply follows_same.
Qed.

Lemma write_iter_follows ok s w c m w' c' m' : write_iter ok s w c m = Some (w', c', m') -> follows c c'.
Proof.
  unfold write_iter. destruct (recv (control c)) as [[[]]|].
  - intros [= _ <- _]. by apply follows_same.
  - intros [= _ <- _]. by apply follows_same.
  - destruct s; simpl; [|intros [= _ <- _]; reflexivity].
    unfold Mailbox.pop. destruct (Mailbox.items (mailbox c)) as [|f its].
    + destruct (Mailbox.closed (mailbox c)); [intros [= _ <- _]; reflexivity|done].
    + intros Hw. apply follows_same; repeat break_match_hyp Hw; simplify_eq/=; done.
Qed.

Lemma write_iter_wire ok s w c m w' c' m' :
  wire_ok w -> write_iter ok s w c m = Some (w', c', m') -> wire_ok w'.
Proof.
  intros (pre & Hp & Hw) Hi.
  assert (Hsent : forall o, close_sent w = false -> is_data o = true -> forall e,
    wire_ok {| close_sent := close_sent w; wire := wire w ++ [o]; ended := e |}).
  { intros o Hc Ho e. rewrite Hc in Hw. exists (pre ++ [o]). simpl. rewrite Hc, Hw.
    split; [|done]. apply Forall_app. auto. }
  assert (Hsame : forall e, wire_ok {| close_sent := close_sent w; wire := wire w; ended := e |}).
  { intros e. by exists pre. }
  unfold write_iter in Hi. destruct (recv (control c)) as [[[p|cd rs] q]|].
  - simplify_eq. destruct (close_sent w) eqn:Ec; [by exists pre; rewrite Ec|].
    unfold put_wire. rewrite Ec. by apply Hsent.
  - simplify_eq. destruct (close_sent w) eqn:Ec; [by exists pre; rewrite Ec|].
    exists pre. simpl. rewrite Hw. eauto.
  - destruct s; simpl in Hi; simplify_eq; [|apply Hsame].
    destruct (Mailbox.pop (mailbox c)) as [[f| |] mb]; simplify_eq; [|apply Hsame].
    destruct (close_sent w) eqn:Ec; simplify_eq; [by exists pre; rewrite Ec|].
    unfold put_wire in Hi. rewrite Ec in Hi.
    destruct ok; simplify_eq; apply Hsent; by destruct (Mailbox.is_binary f).
Qed.

Lemma read_iter_follows id ka now ev r c tx m rs c' tx' m' :
  read_iter id ka now ev r c tx m = (rs, c', tx', m') -> follows c c'.
Proof.
  intros Hr. apply follows_same; unfold read_iter in Hr;
    repeat (break_match_hyp Hr; simplify_eq/=; try done).
Qed.

(** What a pass of the read loop does to the reader's view of the latch. *)
Lemma take_close_seen now (c : ConnState Ch) r r' :
  seen r = false -> initiated r = None -> close_deadline r = None -> take_close now c r = Reading r' ->
  (seen r' = true -> exists cmd, close c = Some cmd /\ graceful cmd = true /\
     initiated r' = Some (code cmd, reason cmd) /\ exists d, close_deadline r' = Some d /\ d <= now + CLOSE_GRACE) /\
  (seen r' = false -> initiated r' = None /\ close_deadline r' = None).
Proof.
  intros Hs Hi Hd. unfold take_close. destruct (close c) as [cmd|]; [|by intros [= <-]; rewrite Hs].
  destruct (graceful cmd) eqn:Eg; simpl; intros [= <-]. simpl. split; [|done].
  intros _. exists cmd. split_and!; try done. eexists. split; [done|lia].
Qed.

Lemma read_iter_reader id ka now ev r c tx m r' c' tx' m' :
  read_iter id ka now ev r c tx m = (Reading r', c', tx', m') ->
  take_close now c r = Reading r' \/
  (seen r' = seen r /\ initiated r' = initiated r /\ close_deadline r' = close_deadline r).
Proof.
  intros Hr. destruct ev as [| |[[[]|]|]| |]; cbn in Hr; try discriminate Hr;
    [left; by injection Hr|right..]; repeat (break_match_hyp Hr; simplify_eq/=); simplify_eq; done.
Qed.

(** A state that only moved its connection, writer or clock keeps the latch part. *)
Lemma latch_ok_follows st c w tx m log :
  follows (t_conn st) c -> latch_ok st -> latch_ok (set_task (t_phase st) c w tx m log st).
Proof.
  intros [F1 F2 F3]. unfold latch_ok. cbn. destruct (t_phase st) as [|r|out|out]; try (by intros; auto).
  - intros Hl Hc. destruct (F3 Hc) as [Hc'|]; [|done]. specialize (Hl Hc').
    destruct (close (t_conn st)) as [cmd|]; [|done]. by rewrite (F1 cmd).
  - intros (Hl & Hs & Hn). split_and!; [| |done].
    + intros Hc. destruct (F3 Hc) as [Hc'|]; [|done]. specialize (Hl Hc').
      destruct (close (t_conn st)) as [cmd|]; [|done]. by rewrite (F1 cmd).
    + intros Hse. destruct (Hs Hse) as (cmd & Hc & Hg & Hi & Hd). exists cmd. rewrite (F1 cmd Hc). done.
Qed.

Lemma task_inv_move st c w tx m :
  task_inv st -> follows (t_conn st) c -> wire_ok w -> task_inv (set_task (t_phase st) c w tx m (t_log st) st).
Proof. intros [Hw Hl Hla] Hf Hw'. split; [done|done|by apply latch_ok_follows]. Qed.

(** What [after_read] leaves behind satisfies the latch part, in either case. *)
Lemma after_read_latch st rs c c0 p w tx m log :
  after_read rs c0 = (p, c) ->
  (forall r, rs = Reading r -> latch_ok (set_task (Running r) c0 w tx m log st)) ->
  latch_ok (set_task p c w tx m log st).
Proof. destruct rs as [r|out]; intros [= <- <-] Hr; [by apply Hr|done]. Qed.

Lemma after_read_phase rs (c c0 : ConnState Ch) p :
  after_read rs c0 = (p, c) -> (exists r, p = Running r) \/ exists out, p = Draining out.
Proof. destruct rs; intros [= <- <-]; eauto. Qed.

Lemma task_read_inv st r ev rs c tx m p c' :
  task_inv st -> t_phase st = Running r ->
  read_iter (t_id st) (t_keepalive st) (t_now st) ev r (t_conn st) (t_events st) (t_metrics st) = (rs, c, tx, m) ->
  after_read rs c = (p, c') -> ready (t_now st) ev r (t_conn st) ->
  task_inv (set_task p c' (t_writer st) tx m (t_log st ++ offered (t_id st) ev) st).
Proof.
  intros [Hw Hl Hla] Hph Hr Ha Hrd. pose proof (read_iter_follows _ _ _ _ _ _ _ _ _ _ _ _ Hr) as Hf.
  split; [done| |].
  - unfold log_ok in *. rewrite Hph in Hl. destruct Hl as (msgs & El & Hm).
    assert (exists msgs', t_log st ++ offered (t_id st) ev = ConnectionOpened (t_id st) (t_auth st) :: msgs' /\
      Forall (from (t_id st)) msgs') as Hres.
    { exists (msgs ++ offered (t_id st) ev). rewrite El. split; [done|]. apply Forall_app. split; [done|].
      destruct ev as [| |[[[]|]|]| |]; cbn; constructor; try constructor; eexists _, _; done. }
    cbn. destruct (after_read_phase _ _ _ _ Ha) as [[r' ->]|[out ->]]; done.
  - eapply after_read_latch; [exact Ha|]. intros r' ->.
    unfold latch_ok in Hla. rewrite Hph in Hla. destruct Hla as (Hc & Hs & Hn).
    destruct Hf as [F1 F2 F3]. unfold latch_ok. cbn. split.
    { intros Hx. destruct (F3 Hx) as [Hy|]; [|done]. specialize (Hc Hy).
      destruct (close (t_conn st)) as [cmd|] eqn:E; [|done]. by rewrite (F1 cmd). }
    destruct (read_iter_reader _ _ _ _ _ _ _ _ _ _ _ _ Hr) as [Htc|(E1 & E2 & E3)].
    + destruct (seen r) eqn:Es.
      * destruct (Hs eq_refl) as (cmd & Hcmd & Hg & Hi & d & Hd & Hle).
        unfold take_close in Htc. rewrite Hcmd, Hg in Htc. simplify_eq/=. split; [|done]. intros _.
        exists cmd. split_and!; auto. eexists; split; [done|lia].
      * destruct (Hn eq_refl) as [Hi Hd]. destruct (take_close_seen _ _ _ _ Es Hi Hd Htc) as [H1 H2].
        split; [|done]. intros Hse. destruct (H1 Hse) as (cmd & Hcmd & Hrest). exists cmd.
        split; [by apply F1|done].
    + rewrite E1, E2, E3. split; [|done]. intros Hse. destruct (Hs Hse) as (cmd & Hcmd & Hrest).
      exists cmd. split; [by apply F1|done].
Qed.

Lemma task_step_inv st st' : task_step st st' -> task_inv st -> task_inv st'.
Proof.
  intros Hst Hi. destruct Hst as [st tx p c Hph Hc Ha|st r ev rs c tx m p c' Hph Hrd Hr Ha|st r p c Hph Ha
    |st ok w c m Hph He Hw|st Hph He|st out tx Hph He Hc|st f o nt c m Hp|st cd rs gr|st tx m|st d Hd].
  - destruct Hi as [Hw Hl Hla]. split; [done| |].
    + unfold log_ok in *. rewrite Hph in Hl. cbn. rewrite Hl.
      destruct (after_read_phase _ _ _ _ Ha) as [[r' ->]|[out ->]]; exists []; by split.
    + eapply after_read_latch; [exact Ha|]. intros r Er. unfold latch_ok in *. rewrite Hph in Hla. cbn.
      split; [done|]. unfold read_start in Er. by apply take_close_seen in Er.
  - by eapply task_read_inv.
  - destruct Hi as [Hw Hl Hla]. injection Ha as <- <-. split; [done| |done].
    unfold log_ok in *. rewrite Hph in Hl. exact Hl.
  - apply task_inv_move; [done|by eapply write_iter_follows|eapply write_iter_wire; [apply Hi|exact Hw]].
  - apply task_inv_move; [done|apply signal_follows|]. destruct Hi as [(pre & ? & ?) _ _]. by exists pre.
  - destruct Hi as [Hw Hl Hla]. unfold log_ok, latch_ok in *. rewrite Hph in Hl, Hla. split; cbn; try done.
    destruct Hl as (msgs & -> & Hm). by exists msgs.
  - apply task_inv_move; [done|by eapply push_follows|apply Hi].
  - apply task_inv_move; [done|apply initiate_close_follows|apply Hi].
  - apply task_inv_move; [done|reflexivity|apply Hi].
  - destruct Hi as [Hw Hl Hla]. split; [done|done|]. unfold latch_ok in *. cbn.
    destruct (t_phase st) as [|r|out|out]; try done. destruct Hla as (H1 & H2 & H3). split_and!; try done.
    intros Hs. destruct (H2 Hs) as (cmd & Hc & Hg & Hini & d' & Hd' & Hle). exists cmd. split_and!; try done.
    exists d'. split; [done|lia].
Qed.

Lemma task_reach_inv id auth cfg tx m now st :
  rtc task_step (task_start id auth cfg tx m now) st -> task_inv st.
Proof.
  apply (rtc_ind_r (fun st => task_inv st)); [|intros; by eapply task_step_inv].
  split; cbn; [by exists []|done|by intros].
Qed.

Lemma task_step_const st st' :
  task_step st st' -> t_id st' = t_id st /\ t_auth st' = t_auth st.
Proof. by destruct 1. Qed.

Lemma after_read_follows_latch rs (c c0 : ConnState Ch) p cmd :
  after_read rs c0 = (p, c) -> close c0 = Some cmd -> close c = Some cmd.
Proof. by destruct rs; intros [= <- <-]. Qed.

Lemma task_step_latch st st' cmd :
  task_step st st' -> close (t_conn st) = Some cmd -> close (t_conn st') = Some cmd.
Proof.
  intros Hst Hc. destruct Hst as [st tx p c Hph Hev Ha|st r ev rs c tx m p c' Hph Hrd Hr Ha|st r p c Hph Ha
    |st ok w c m Hph He Hw|st Hph He|st out tx Hph He Hev|st f o nt c m Hp|st cd rs gr|st tx m|st d Hd]; cbn; try done.
  - by eapply after_read_follows_latch.
  - eapply after_read_follows_latch; [exact Ha|]. by eapply (f_latch _ _ (read_iter_follows _ _ _ _ _ _ _ _ _ _ _ _ Hr)).
  - by eapply after_read_follows_latch.
  - by eapply (f_latch _ _ (write_iter_follows _ _ _ _ _ _ _ _ Hw)).
  - by rewrite Hc.
  - by eapply (f_latch _ _ (push_follows _ _ _ _ _ _ _ Hp)).
  - by rewrite Hc.
Qed.

(** C4. Lifecycle of one connection: under every interleaving of the read loop,
    the write loop, engine calls, timers, panics and other tasks, the events the
    task offers are Opened, then messages of this connection, then (once it is
    done) exactly one Closed carrying the reported code and reason. *)
Theorem run_connection_lifecycle id auth cfg tx m now st :
  rtc task_step (task_start id auth cfg tx m now) st ->
  match t_phase st with
  | Opening => t_log st = []
  | Running _ | Draining _ => exists msgs, t_log st = ConnectionOpened id auth :: msgs /\ Forall (from id) msgs
  | Done out => exists msgs,
      t_log st = ConnectionOpened id auth :: msgs ++ [ConnectionClosed id out.1 out.2] /\ Forall (from id) msgs
  end.
Proof.
  intros Hr. pose proof (ti_log _ (task_reach_inv _ _ _ _ _ _ _ Hr)) as Hl.
  assert (t_id st = id /\ t_auth st = auth) as [<- <-]; [|exact Hl].
  revert Hr. apply (rtc_ind_r (fun st => t_id st = id /\ t_auth st = auth)); [done|].
  intros y z _ Hs [<- <-]. by apply task_step_const.
Qed.

(** C23. RFC 6455 on the wire: in every reachable state the frames handed to the
    sink are data and ping frames followed by at most one Close frame, so no
    data, ping or second Close ever follows a Close. *)
Theorem close_frame_is_last id auth cfg tx m now st :
  rtc task_step (task_start id auth cfg tx m now) st ->
  exists pre, Forall (fun o => is_data o = true) pre /\
    (wire (t_writer st) = pre \/ exists cd rs, wire (t_writer st) = pre ++ [OutClose cd rs]).
Proof.
  intros Hr. destruct (ti_wire _ (task_reach_inv _ _ _ _ _ _ _ Hr)) as (pre & Hp & Hw).
  exists pre. split; [done|]. destruct (close_sent (t_writer st)); auto.
Qed.

(** No half-dead connection and first close wins: while the read loop runs,
    a mailbox that was closed (the [Disconnect] policy) has a latched close
    command; the latch never changes once set; and a latched close the reader
    has seen is the one it will report, within the grace period. *)
Lemma close_latch_first_wins id auth cfg tx m now st st' :
  rtc task_step (task_start id auth cfg tx m now) st -> rtc task_step st st' ->
  (forall cmd, close (t_conn st) = Some cmd -> close (t_conn st') = Some cmd) /\
  forall r, t_phase st' = Running r ->
    (Mailbox.closed (mailbox (t_conn st')) = true -> close (t_conn st') <> None) /\
    (forall out, initiated r = Some out -> exists cmd, close (t_conn st') = Some cmd /\
       out = (code cmd, reason cmd) /\ exists d, deadline r = Some d /\ d <= t_now st' + CLOSE_GRACE).
Proof.
  intros Hr Hr'. assert (Hrr : rtc task_step (task_start id auth cfg tx m now) st') by (by etrans). split.
  - intros cmd Hc. revert Hr'. clear Hrr. apply (rtc_ind_r (fun st' => close (t_conn st') = Some cmd)); [done|].
    intros y z _ Hs Hy. by eapply task_step_latch.
  - intros r Hph. pose proof (ti_latch _ (task_reach_inv _ _ _ _ _ _ _ Hrr)) as Hl.
    unfold latch_ok in Hl. rewrite Hph in Hl. destruct Hl as (H1 & H2 & H3). split; [done|].
    intros out Ho. destruct (seen r); [|by rewrite (proj1 (H3 eq_refl)) in Ho].
    destruct (H2 eq_refl) as (cmd & Hc & Hg & Hi & d & Hd & Hle). exists cmd. split; [done|]. split; [congruence|].
    unfold deadline. rewrite Hd. destruct (pong_deadline r) as [p|]; eexists; (split; [done|lia]).
Qed.

(** ** The write loop ends *)

(** Passes of the write loop with no other activity, until it ends or waits. *)
Fixpoint write_loop (oks : list bool) (w : Writer) (c : ConnState Ch) (m : Metrics.t)
    : Writer * ConnState Ch * Metrics.t :=
  match oks with
  | [] => (w, c, m)
  | ok :: oks =>
      if ended w then (w, c, m)
      else match write_iter ok true w c m with
           | None => (w, c, m)
           | Some (w', c', m') => write_loop oks w' c' m'
           end
  end.

(** Work left for a writer: commands, frames and the end of the stream. *)
Definition backlog (c : ConnState Ch) : nat :=
  length (ch_items (control c)) + length (Mailbox.items (mailbox c)).

Lemma write_iter_progress ok w c m :
  Mailbox.closed (mailbox c) = true -> exists w' c' m', write_iter ok true w c m = Some (w', c', m') /\
    Mailbox.closed (mailbox c') = true /\ (ended w' = true \/ backlog c = S (backlog c')).
Proof.
  intros Hc. unfold write_iter, recv, backlog. destruct (ch_items (control c)) as [|x q] eqn:Eq.
  - cbn. unfold Mailbox.pop. rewrite Hc. destruct (Mailbox.items (mailbox c)) as [|f its] eqn:Ei.
    { eexists _, _, _. split; [done|]. by auto. }
    destruct (close_sent w), ok; eexists _, _, _; (split; [done|]); simpl; rewrite ?Eq; auto.
  - destruct x; eexists _, _, _; (split; [done|]); simpl; rewrite ch_items_dequeue, Eq; simpl; auto.
Qed.

(** C24. Writer termination: once the mailbox is closed (teardown or backpressure)
    the write loop ends after at most one pass per queued control command and
    frame plus one, whatever the sink answers and whether or not a Close frame
    was already sent; so [writer.await] returns and the Closed event is emitted. *)
Theorem write_loop_terminates oks w c m :
  Mailbox.closed (mailbox c) = true -> (backlog c < length oks)%nat ->
  let '(w', _, _) := write_loop oks w c m in ended w' = true.
Proof.
  revert w c m. induction oks as [|ok oks IH]; intros w c m Hc Hl; [simpl in Hl; lia|]. simpl.
  destruct (ended w) eqn:Ew; [done|].
  destruct (write_iter_progress ok w c m Hc) as (w' & c' & m' & -> & Hc' & [He|Hb]).
  - destruct oks; simpl; [done|]. by rewrite He.
  - apply IH; [done|simpl in Hl; lia].
Qed.

(** ** Keepalive

    A silent peer: no frame and no close request arrive, only the reader's own
    timers fire, each when it is due. The clock is the time of the last event. *)
Fixpoint silent (fuel : nat) (id : ConnectionId) (ka : Keepalive) (now : Z) (r : Reader)
    (c : ConnState Ch) (tx : Ch EngineEvent) (m : Metrics.t) : option (Z * (Z * rstring)) :=
  match fuel with
  | O => None
  | S fuel =>
      let tick := Z.max now (next_tick r) in
      let '(t, ev) := match deadline r with
                      | Some d => if d <? tick then (Z.max now d, EvDeadline) else (tick, EvTick)
                      | None => (tick, EvTick)
                      end in
      match read_iter id ka t ev r c tx m with
      | (Reading r', c', tx', m') => silent fuel id ka t r' c' tx' m'
      | (Returned out, _, _, _) => Some (t, out)
      end
  end.

Lemma silent_S fuel id ka now r c tx m :
  silent (S fuel) id ka now r c tx m =
  let tick := Z.max now (next_tick r) in
  let '(t, ev) := match deadline r with
                  | Some d => if d <? tick then (Z.max now d, EvDeadline) else (tick, EvTick)
                  | None => (tick, EvTick)
                  end in
  match read_iter id ka t ev r c tx m with
  | (Reading r', c', tx', m') => silent fuel id ka t r' c' tx' m'
  | (Returned out, _, _, _) => Some (t, out)
  end.
Proof. reflexivity. Qed.

Definition no_pong : Z * rstring := (CLOSE_ABNORMAL, str "keepalive timeout: no pong").

(** With the pong deadline set, the loop returns exactly then. *)
Lemma silent_pong n id ka now r c tx m d :
  0 < ping_interval ka -> pong_deadline r = Some d -> close_deadline r = None ->
  now <= d -> now <= next_tick r -> d < next_tick r + Z.of_nat n * ping_interval ka ->
  silent (S n) id ka now r c tx m = Some (d, no_pong).
Proof.
  intros Hi. revert now r c tx m. induction n as [|n IH]; intros now r c tx m Hp Hc Hd Ht Hn.
  - rewrite silent_S. unfold deadline. cbv zeta. rewrite Hp, Hc, (proj2 (Z.ltb_lt _ _)) by lia. cbn. rewrite Hc, Z.max_r by lia. done.
  - rewrite silent_S. unfold deadline. cbv zeta. rewrite Hp, Hc. destruct (Z.ltb_spec d (Z.max now (next_tick r))) as [Hlt|Hge].
    + cbn. by rewrite Hc, Z.max_r by lia.
    + cbn [read_iter]. rewrite Hp. rewrite (bool_decide_false (Some d = None)), andb_false_r by done.
      apply IH; cbn; [done..|lia|lia|]. lia.
Qed.

(** C25. Keepalive window: after the last frame from a peer that then stays
    silent (and with no close under way), the read loop reports 1006 "no pong";
    never sooner than [ping_interval + pong_timeout] after that frame and never
    later than [2 * ping_interval + pong_timeout]. *)
Theorem silent_peer_detected id ka r (c : ConnState Ch) tx m :
  0 < ping_interval ka -> 0 <= pong_timeout ka ->
  pong_deadline r = None -> close_deadline r = None ->
  last_activity r <= next_tick r <= last_activity r + ping_interval ka ->
  exists fuel t, silent fuel id ka (last_activity r) r c tx m = Some (t, no_pong) /\
    last_activity r + ping_interval ka + pong_timeout ka <= t <=
    last_activity r + 2 * ping_interval ka + pong_timeout ka.
Proof.
  intros Hi Hp Hpd Hcd Hn.
  set (n := S (Z.to_nat (pong_timeout ka))).
  assert (Hfirst : forall now r c tx m, pong_deadline r = None -> close_deadline r = None -> now <= next_tick r ->
    ping_interval ka <= next_tick r - last_activity r ->
    silent (S (S n)) id ka now r c tx m = Some (next_tick r + pong_timeout ka, no_pong)).
  { clear -Hi Hp. intros now r c tx m Hpd Hcd Hnow Hd. rewrite silent_S. unfold deadline. cbv zeta. rewrite Hpd, Hcd.
    cbn [read_iter]. rewrite Hpd, Z.max_r, (bool_decide_true (None = None)), (proj2 (Z.leb_le _ _)) by (done || lia).
    cbn [andb]. apply silent_pong; cbn; [done..|lia|lia|]. nia. }
  destruct (decide (ping_interval ka <= next_tick r - last_activity r)) as [Hd|Hd].
  - exists (S (S n)), (next_tick r + pong_timeout ka). rewrite Hfirst by (done || lia). split; [done|lia].
  - exists (S (S (S n))), (next_tick r + ping_interval ka + pong_timeout ka). split; [|lia].
    rewrite silent_S. unfold deadline. cbv zeta. rewrite Hpd, Hcd. cbn [read_iter]. rewrite Hpd, Z.max_r by lia.
    rewrite (proj2 (Z.leb_gt _ _)) by lia. cbn [andb]. rewrite Hfirst; cbn; [done..|lia|lia].
Qed.
End Task.

(** ** Concrete runs *)

Section ConnectionWitness.
Import Connection.

(** Take one step of a concrete run and evaluate the state it leads to. *)
Ltac run_step tac :=
  eapply rtc_l; [tac|];
  match goal with |- rtc _ ?s _ => let s' := eval vm_compute in s in change s with s' end.

Definition demo_task : Task (Ch := ListChan.t) :=
  task_start 7 None Config_default (ch_new 8) Metrics.default 0.

(** Opened, a text frame in, a graceful close from the engine, the Close frame
    out, the peer's answer, the writer's end, Closed. *)
Lemma demo_reach : exists st,
  rtc task_step demo_task st /\ t_phase st = Done (1000, str "bye") /\
  wire (t_writer st) = [OutClose 1000 (str "bye")] /\
  t_log st = [ConnectionOpened 7 None; Message 7 (str "hi") false; ConnectionClosed 7 1000 (str "bye")] /\
  close (t_conn st) = Some {| code := 1000; reason := str "bye"; graceful := true |}.
Proof.
  eexists. split.
  - run_step ltac:(eapply StepOpen; reflexivity).
    run_step ltac:(eapply (StepRead _ _ (EvFrame (Some (inl (InText (str "hi"))))));
      [reflexivity|intros [Hc _]; apply Hc; reflexivity|reflexivity|reflexivity]).
    run_step ltac:(apply (StepInitiate _ 1000 (str "bye") true)).
    run_step ltac:(eapply (StepRead _ _ EvClose); [reflexivity|split; [discriminate|reflexivity]|reflexivity|reflexivity]).
    run_step ltac:(eapply (StepWrite _ true); [discriminate|reflexivity|reflexivity]).
    run_step ltac:(eapply (StepRead _ _ (EvFrame (Some (inl (InClose 1000 [])))));
      [reflexivity|intros [_ Hc]; discriminate Hc|reflexivity|reflexivity]).
    run_step ltac:(eapply (StepWrite _ true); [discriminate|reflexivity|reflexivity]).
    run_step ltac:(eapply (StepWrite _ true); [discriminate|reflexivity|reflexivity]).
    run_step ltac:(eapply StepClosed; reflexivity). constructor.
  - vm_compute. done.
Qed.

Lemma run_connection_lifecycle_witness : exists st,
  rtc task_step demo_task st /\ exists msgs, t_log st =
    ConnectionOpened 7 None :: msgs ++ [ConnectionClosed 7 1000 (str "bye")] /\ Forall (from 7) msgs.
Proof.
  destruct demo_reach as (st & Hr & Hph & _). exists st. split; [exact Hr|].
  pose proof (run_connection_lifecycle 7 None Config_default (ch_new 8) Metrics.default 0 st Hr) as Hl.
  rewrite Hph in Hl. exact Hl.
Defined.

Lemma close_frame_is_last_witness : exists st pre,
  rtc task_step demo_task st /\ wire (t_writer st) = [OutClose 1000 (str "bye")] /\
  Forall (fun o => is_data o = true) pre /\
  (wire (t_writer st) = pre \/ exists cd rs, wire (t_writer st) = pre ++ [OutClose cd rs]).
Proof.
  destruct demo_reach as (st & Hr & _ & Hw & _). exists st.
  destruct (close_frame_is_last 7 None Config_default (ch_new 8) Metrics.default 0 st Hr) as (pre & Hp & H).
  exists pre. auto.
Defined.

Lemma close_latch_first_wins_witness : exists st cmd,
  rtc task_step demo_task st /\ close (t_conn st) = Some cmd /\ code cmd = 1000 /\
  forall st', rtc task_step st st' -> close (t_conn st') = Some cmd.
Proof.
  destruct demo_reach as (st & Hr & _ & _ & _ & Hc). eexists st, _. split; [exact Hr|]. split; [exact Hc|].
  split; [reflexivity|]. intros st' Hr'.
  exact (proj1 (close_latch_first_wins 7 None Config_default (ch_new 8) Metrics.default 0 st st' Hr Hr') _ Hc).
Defined.

Definition demo_conn : ConnState ListChan.t :=
  {| mailbox := Mailbox.close (Mailbox.push {| Mailbox.data := str "x"; Mailbox.is_binary := false |}
       (Mailbox.new 10 DropNewest) Metrics.default).1.2;
     control := (try_send (Close 1000 []) (ch_new 4)).2; close := None |}.

Lemma write_loop_terminates_witness :
  let '(w', _, _) := write_loop [true; true; true] writer_start demo_conn Metrics.default in ended w' = true.
Proof. apply (write_loop_terminates [true; true; true]); [reflexivity|vm_compute; lia]. Defined.

Lemma silent_peer_detected_witness : exists fuel t,
  silent fuel 7 Keepalive_default 5 {| next_tick := 30000; last_activity := 5; pong_deadline := None;
    close_deadline := None; initiated := None; seen := false |} demo_conn (ch_new 4) Metrics.default = Some (t, no_pong) /\
  40005 <= t <= 70005.
Proof.
  apply (silent_peer_detected 7 Keepalive_default {| next_tick := 30000; last_activity := 5; pong_deadline := None;
    close_deadline := None; initiated := None; seen := false |} demo_conn (ch_new 4) Metrics.default); cbn; lia || done.
Defined.
End ConnectionWitness.
