(* ===== verification/Rooms.v ===== *)
(** * Rooms and presence (crates/core/src/rooms.rs, presence.rs)

    The room map ([DashMap<RoomId, RoomEntry>]) and the membership operations,
    which run inside the connection's shard lock ([Registry.with_rooms]).  Every
    call on the room map is one atomic step; [remove_member] is two, since it
    drops the entry guard before [remove_if].  The first half composes these
    steps the way one thread does; the second half interleaves them. *)

From S2P Require Import Prelude TopN Ids Runtime Metrics Registry.

(** [String]'s ordering: byte-wise lexicographic. *)
Fixpoint bytes_cmp (a b : bytes) : comparison :=
  match a, b with
  | [], [] => Eq
  | [], _ => Lt
  | _, [] => Gt
  | x :: a, y :: b => match x ?= y with Eq => bytes_cmp a b | c => c end
  end.

(** [struct RoomEntry]. *)
Record RoomEntry := { members : gset Z; messages : Z }.

(** [struct RoomStat]. *)
Record RoomStat := { s_room : rstring; s_members : Z; s_messages : Z }.

#[global] Instance RoomStat_eq_dec : EqDecision RoomStat.
Proof. solve_decision. Defined.

(** [impl Ord for RoomStat]. *)
Definition RoomStat_cmp (a b : RoomStat) : comparison :=
  match s_members a ?= s_members b with
  | Eq => match s_messages a ?= s_messages b with
          | Eq => bytes_cmp (s_room b) (s_room a)
          | c => c
          end
  | c => c
  end.

(** [enum MembershipChange]. *)
Inductive MembershipChange := Changed | NoOp | NotFound | LimitExceeded.

#[global] Instance MembershipChange_eq_dec : EqDecision MembershipChange.
Proof. solve_decision. Defined.

Module RoomRegistry.

(** [struct RoomRegistry]. *)
Abbreviation t := (gmap RoomId RoomEntry) (only parsing).

(** [RoomRegistry::new]. *)
Definition new : t := ∅.

(** [RoomRegistry::room_count]. *)
Definition room_count (rm : t) : nat := size rm.

(** [RoomRegistry::members]: copied out of the map. *)
Definition members (room : RoomId) (rm : t) : option (list ConnectionId) :=
  (fun e => elements (Rooms.members e)) <$> rm !! room.

(** [RoomRegistry::record_and_members]. *)
Definition record_and_members (room : RoomId) (rm : t) : option (list ConnectionId) * t :=
  match rm !! room with
  | Some e => (Some (elements (Rooms.members e)),
      <[room := {| Rooms.members := Rooms.members e; messages := wrap 64 (messages e + 1) |}]> rm)
  | None => (None, rm)
  end.

(** [RoomRegistry::member_count]. *)
Definition member_count (room : RoomId) (rm : t) : nat :=
  match rm !! room with Some e => size (Rooms.members e) | None => 0%nat end.

Definition stat_of (room : RoomId) (e : RoomEntry) : RoomStat :=
  {| s_room := room; s_members := Z.of_nat (size (Rooms.members e)); s_messages := messages e |}.

(** [RoomRegistry::info]. *)
Definition info (room : RoomId) (rm : t) : RoomStat :=
  match rm !! room with
  | Some e => stat_of room e
  | None => {| s_room := room; s_members := 0; s_messages := 0 |}
  end.

(** *** top_rooms *)

(** [RoomRegistry::top_rooms]. *)
Definition top_rooms (n : nat) (rm : t) : list RoomStat :=
  top_n RoomStat_cmp n (map (fun '(room, e) => stat_of room e) (map_to_list rm)).

(** *** The atomic steps on the room map *)

(** [self.rooms.entry(room).or_default().members.insert(id)]. *)
Definition insert_member (room : RoomId) (id : ConnectionId) (rm : t) : t :=
  let e := default {| Rooms.members := ∅; messages := 0 |} (rm !! room) in
  <[room := {| Rooms.members := {[id]} ∪ Rooms.members e; messages := messages e |}]> rm.

(** The first half of [remove_member]: [get_mut] and [members.remove]; the
    boolean says that the room is now empty. *)
Definition drop_member (room : RoomId) (id : ConnectionId) (rm : t) : bool * t :=
  match rm !! room with
  | Some e =>
      let e' := {| Rooms.members := Rooms.members e ∖ {[id]}; messages := messages e |} in
      (bool_decide (Rooms.members e' = ∅), <[room := e']> rm)
  | None => (false, rm)
  end.

(** The second half: [self.rooms.remove_if(room, |_, e| e.members.is_empty())]. *)
Definition destroy_if_empty (room : RoomId) (rm : t) : t :=
  match rm !! room with
  | Some e => if decide (Rooms.members e = ∅) then delete room rm else rm
  | None => rm
  end.

(** [RoomRegistry::remove_member]. *)
Definition remove_member (room : RoomId) (id : ConnectionId) (rm : t) : t :=
  let '(empty, rm') := drop_member room id rm in
  if empty then destroy_if_empty room rm' else rm'.

(** [RoomRegistry::disconnect_cleanup]. *)
Definition disconnect_cleanup (id : ConnectionId) (rooms : gset RoomId) (rm : t) : t :=
  foldl (fun rm room => remove_member room id rm) rm (elements rooms).

(** *** The membership operations *)

(** What [join] decides while it holds the connection's room set: the outcome
    and the set it leaves. *)
Definition join_set (room : RoomId) (max_rooms : Z) (set : gset RoomId) : MembershipChange * gset RoomId :=
  if decide (room ∈ set) then (NoOp, set)
  else if negb (max_rooms =? 0) && (max_rooms <=? Z.of_nat (size set)) then (LimitExceeded, set)
  else (Changed, {[room]} ∪ set).

Definition leave_set (room : RoomId) (set : gset RoomId) : MembershipChange * gset RoomId :=
  if decide (room ∈ set) then (Changed, set ∖ {[room]}) else (NoOp, set).

Section Ops.
Context {SL : Type -> Type} {slab_ops : Slab SL} {Hd : Type}.

(** [RoomRegistry::join]. *)
Definition join (id : ConnectionId) (room : RoomId) (max_rooms : Z) (conns : Registry.t SL Hd) (rm : t)
    : MembershipChange * Registry.t SL Hd * t :=
  match Registry.with_rooms id (join_set room max_rooms) conns with
  | Some (Changed, conns') => (Changed, conns', insert_member room id rm)
  | Some (change, conns') => (change, conns', rm)
  | None => (NotFound, conns, rm)
  end.

(** [RoomRegistry::leave]. *)
Definition leave (id : ConnectionId) (room : RoomId) (conns : Registry.t SL Hd) (rm : t)
    : MembershipChange * Registry.t SL Hd * t :=
  match Registry.with_rooms id (leave_set room) conns with
  | Some (Changed, conns') => (Changed, conns', remove_member room id rm)
  | Some (change, conns') => (change, conns', rm)
  | None => (NotFound, conns, rm)
  end.

(** The sweep of [close_room]. *)
Definition leave_all (room : RoomId) (ids : list ConnectionId) (conns : Registry.t SL Hd) (rm : t)
    : nat * Registry.t SL Hd * t :=
  foldl (fun '(removed, conns, rm) id =>
    let '(change, conns', rm') := leave id room conns rm in
    ((if decide (change = Changed) then S removed else removed), conns', rm')) (0%nat, conns, rm) ids.

(** [RoomRegistry::close_room]. *)
Definition close_room (room : RoomId) (conns : Registry.t SL Hd) (rm : t)
    : option nat * Registry.t SL Hd * t :=
  match members room rm with
  | None => (None, conns, rm)
  | Some ids => let '(removed, conns', rm') := leave_all room ids conns rm in (Some removed, conns', rm')
  end.

(** The removal of a connection and the sweep of its rooms, as [Engine] does it
    when a connection ends: [remove_full] then [disconnect_cleanup]. *)
Definition disconnect (id : ConnectionId) (conns : Registry.t SL Hd) (rm : t) : Registry.t SL Hd * t :=
  match Registry.remove_full id conns with
  | Some ((_, rooms), conns') => (conns', disconnect_cleanup id rooms rm)
  | None => (conns, rm)
  end.

(** [LocalPresence::room_presence]: one [PresenceEntry] (id, user) per member
    that is still registered. *)
Definition room_presence (room : RoomId) (conns : Registry.t SL Hd) (rm : t)
    : list (ConnectionId * option UserId) :=
  match members room rm with
  | None => []
  | Some ids => omap (fun id => pair id <$> Registry.user_of id conns) ids
  end.

End Ops.
End RoomRegistry.

(** ** Membership as sets *)

Section RoomFacts.
Context {SL : Type -> Type} {slab_ops : Slab SL} {Hd : Type}.
Implicit Types (id : Z) (conns : Registry.t SL Hd) (rm : RoomRegistry.t) (a : gmap Z (Hd * gset RoomId * option UserId)).
Import RoomRegistry.

(** The connections the room map has in a room, and the rooms a connection's
    registry entry has. *)
Definition memb (rm : RoomRegistry.t) (room : RoomId) : gset Z :=
  match rm !! room with Some e => Rooms.members e | None => ∅ end.
Definition rooms_of (a : gmap Z (Hd * gset RoomId * option UserId)) (id : ConnectionId) : gset RoomId :=
  match a !! id with Some (_, rs, _) => rs | None => ∅ end.

(** The part of the connection table that membership never touches: handle and
    user of every connection. *)
Definition owners (a : gmap Z (Hd * gset RoomId * option UserId)) : gmap Z (Hd * option UserId) :=
  (fun '(h, _, u) => (h, u)) <$> a.

(** Rooms auto-destroy: no entry without members. *)
Definition no_empty (rm : RoomRegistry.t) : Prop :=
  forall (room : RoomId) e, rm !! room = Some e -> Rooms.members e <> ∅.

(** The two sides of the membership agree. *)
Record consistent (a : gmap Z (Hd * gset RoomId * option UserId)) (rm : RoomRegistry.t) : Prop := {
  c_both : forall (id : ConnectionId) (room : RoomId), id ∈ memb rm room <-> room ∈ rooms_of a id;
  c_live : no_empty rm;
}.

Lemma memb_insert room id rm (r : RoomId) :
  memb (insert_member room id rm) r = if decide (r = room) then {[id]} ∪ memb rm room else memb rm r.
Proof.
  unfold memb, insert_member. case_decide as Hr.
  - subst. rewrite lookup_insert_eq. simpl. by destruct (rm !! room).
  - by rewrite lookup_insert_ne by congruence.
Qed.

Lemma memb_drop room id rm (r : RoomId) :
  memb (drop_member room id rm).2 r = if decide (r = room) then memb rm room ∖ {[id]} else memb rm r.
Proof.
  unfold memb, drop_member. destruct (rm !! room) as [e|] eqn:E; simpl.
  - case_decide as Hr; [subst; by rewrite lookup_insert_eq|by rewrite lookup_insert_ne by congruence].
  - case_decide as Hr; [subst; rewrite E; set_solver|done].
Qed.

Lemma memb_destroy room rm (r : RoomId) : memb (destroy_if_empty room rm) r = memb rm r.
Proof.
  unfold memb, destroy_if_empty. destruct (rm !! room) as [e|] eqn:E; [|done].
  case_decide as He; [|done]. destruct (decide (r = room)) as [->|Hr].
  - by rewrite lookup_delete_eq, E.
  - by rewrite lookup_delete_ne by congruence.
Qed.

Lemma memb_remove room id rm (r : RoomId) :
  memb (remove_member room id rm) r = if decide (r = room) then memb rm room ∖ {[id]} else memb rm r.
Proof.
  unfold remove_member. pose proof (memb_drop room id rm r) as Hd'.
  destruct (drop_member room id rm) as [[] rm'] eqn:E; simpl in Hd'; [|done]. by rewrite memb_destroy.
Qed.

Lemma no_empty_insert room id rm : no_empty rm -> no_empty (insert_member room id rm).
Proof.
  intros Hn r e. unfold insert_member. rewrite lookup_insert_Some. intros [[_ <-]|[_ He]]; [|by eapply Hn].
  simpl. set_solver.
Qed.

Lemma no_empty_remove room id rm : no_empty rm -> no_empty (remove_member room id rm).
Proof.
  intros Hn r e. unfold remove_member, drop_member. destruct (rm !! room) as [e0|] eqn:E; [|apply Hn].
  case_bool_decide as Hb; simpl in Hb.
  - unfold destroy_if_empty. rewrite lookup_insert_eq. simpl. rewrite decide_True by done.
    rewrite lookup_delete_Some, lookup_insert_Some. intros [Hne [[? _]|[_ He]]]; [done|by eapply Hn].
  - rewrite lookup_insert_Some. intros [[_ <-]|[_ He]]; [done|by eapply Hn].
Qed.

#[local] Hint Resolve no_empty_insert no_empty_remove : beam.

Lemma disconnect_cleanup_spec id rs rm :
  (forall r : RoomId, memb (disconnect_cleanup id rs rm) r = if decide (r ∈ rs) then memb rm r ∖ {[id]} else memb rm r) /\
  (no_empty rm -> no_empty (disconnect_cleanup id rs rm)).
Proof.
  unfold disconnect_cleanup.
  assert (H : forall l rm0,
    (forall r : RoomId, memb (foldl (fun rm room => remove_member room id rm) rm0 l) r =
      if decide (r ∈ l) then memb rm0 r ∖ {[id]} else memb rm0 r) /\
    (no_empty rm0 -> no_empty (foldl (fun rm room => remove_member room id rm) rm0 l))).
  { induction l as [|x l IH]; intros rm0; cbn [foldl]; [split; [intros r; case_decide; [set_solver|done]|done]|].
    destruct (IH (remove_member x id rm0)) as [H1 H2]. split; [|auto with beam].
    intros r. rewrite H1, memb_remove. clear H1 H2 IH. repeat case_decide; subst; set_solver. }
  destruct (H (elements rs) rm) as [H1 H2]. split; [|done]. intros r. rewrite H1. clear H H1 H2.
  repeat case_decide; set_solver.
Qed.

Lemma consistent_nil (a : gmap Z (Hd * gset RoomId * option UserId)) rm id (room : RoomId) :
  consistent a rm -> a !! id = None -> id ∉ memb rm room.
Proof. intros [Hb _] Ha. rewrite Hb. unfold rooms_of. rewrite Ha. set_solver. Qed.

Lemma rooms_of_insert a id (h : Hd) rs u j :
  rooms_of (<[id := (h, rs, u)]> a) j = if decide (j = id) then rs else rooms_of a j.
Proof.
  unfold rooms_of. case_decide as Hj; [subst; by rewrite lookup_insert_eq|by rewrite lookup_insert_ne by congruence].
Qed.

(** *** Each operation on a consistent state *)

(** What [join] and [leave] leave behind, at one place. *)
Record op_result (a a' : gmap Z (Hd * gset RoomId * option UserId)) (conns' : Registry.t SL Hd) (rm' : RoomRegistry.t) (id : ConnectionId) (rs : gset RoomId) : Prop := {
  op_models : models conns' a';
  op_consistent : consistent a' rm';
  op_rooms : forall j : ConnectionId, rooms_of a' j = if decide (j = id) then rs else rooms_of a j;
  op_owners : owners a' = owners a;
}.

Lemma op_result_intro a conns' rm rm' id h rs0 rs u :
  a !! id = Some (h, rs0, u) -> models conns' (<[id := (h, rs, u)]> a) -> no_empty rm' ->
  consistent a rm ->
  (forall (j : ConnectionId) (r : RoomId), j ∈ memb rm' r <-> if decide (j = id) then r ∈ rs else j ∈ memb rm r) ->
  op_result a (<[id := (h, rs, u)]> a) conns' rm' id rs.
Proof.
  intros Ha Hm Hn [Hb _] Hmem. split; [done| | |].
  - split; [|done]. intros j r. rewrite Hmem, rooms_of_insert. by case_decide.
  - intros j. apply rooms_of_insert.
  - unfold owners. rewrite fmap_insert. apply insert_id. by rewrite lookup_fmap, Ha.
Qed.

Lemma join_spec id room mx conns rm a :
  models conns a -> consistent a rm -> u64_ok id ->
  match join id room mx conns rm, a !! id with
  | (change, conns', rm'), None => change = NotFound /\ conns' = conns /\ rm' = rm
  | (change, conns', rm'), Some (_, rs, _) =>
      change = (join_set room mx rs).1 /\ exists a', op_result a a' conns' rm' id (join_set room mx rs).2
  end.
Proof.
  intros Hm Hc Hid. unfold join. destruct (a !! id) as [[[h rs] u]|] eqn:Ha.
  - destruct (models_with_rooms id (join_set room mx) conns a h rs u Hm Ha) as (conns' & -> & Hm').
    assert (Hin : forall r : RoomId, id ∈ memb rm r <-> r ∈ rs).
    { intros r. rewrite (c_both _ _ Hc). unfold rooms_of. by rewrite Ha. }
    unfold join_set in *. case_decide as Hin'; [|destruct (_ && _)]; cbn [fst snd] in *; (split; [done|]); eexists;
      (eapply op_result_intro; [exact Ha|exact Hm'|try apply Hc|exact Hc|]).
    + intros j r. case_decide; [subst; apply Hin|done].
    + intros j r. case_decide; [subst; apply Hin|done].
    + apply no_empty_insert, Hc.
    + intros j r. rewrite memb_insert. repeat case_decide; subst; set_solver.
  - pose proof (m_find _ _ Hm id Hid) as Hf. rewrite Ha in Hf.
    destruct (Registry.find id conns) eqn:E; [done|]. by rewrite with_rooms_None.
Qed.

Lemma leave_spec id room conns rm a :
  models conns a -> consistent a rm -> u64_ok id ->
  match leave id room conns rm, a !! id with
  | (change, conns', rm'), None => change = NotFound /\ conns' = conns /\ rm' = rm
  | (change, conns', rm'), Some (_, rs, _) =>
      change = (leave_set room rs).1 /\ exists a', op_result a a' conns' rm' id (leave_set room rs).2
  end.
Proof.
  intros Hm Hc Hid. unfold leave. destruct (a !! id) as [[[h rs] u]|] eqn:Ha.
  - destruct (models_with_rooms id (leave_set room) conns a h rs u Hm Ha) as (conns' & -> & Hm').
    assert (Hin : forall r : RoomId, id ∈ memb rm r <-> r ∈ rs).
    { intros r. rewrite (c_both _ _ Hc). unfold rooms_of. by rewrite Ha. }
    unfold leave_set in *. case_decide as Hin'; cbn [fst snd] in *; (split; [done|]); eexists;
      (eapply op_result_intro; [exact Ha|exact Hm'|try apply Hc|exact Hc|]).
    + apply no_empty_remove, Hc.
    + intros j r. rewrite memb_remove. repeat case_decide; subst; set_solver.
    + intros j r. case_decide; [subst; apply Hin|done].
  - pose proof (m_find _ _ Hm id Hid) as Hf. rewrite Ha in Hf.
    destruct (Registry.find id conns) eqn:E; [done|]. by rewrite with_rooms_None.
Qed.

(** A member of a consistent room is a live connection that lists the room. *)
Lemma member_entry a rm id (room : RoomId) :
  consistent a rm -> id ∈ memb rm room -> exists h rs u, a !! id = Some (h, rs, u) /\ room ∈ rs.
Proof.
  intros Hc Hin. apply (c_both _ _ Hc) in Hin. unfold rooms_of in Hin.
  destruct (a !! id) as [[[h rs] u]|]; [eauto|set_solver].
Qed.

Lemma leave_set_in room rs : room ∈ rs -> leave_set room rs = (Changed, rs ∖ {[room]}).
Proof. intros Hin. unfold leave_set. by rewrite decide_True. Qed.

Lemma leave_all_spec room ids conns rm a n :
  models conns a -> consistent a rm -> NoDup ids -> (forall id, id ∈ ids -> id ∈ memb rm room) ->
  exists conns' rm' a', foldl (fun '(removed, conns, rm) id =>
      let '(change, conns', rm') := leave id room conns rm in
      ((if decide (change = Changed) then S removed else removed), conns', rm')) (n, conns, rm) ids =
    ((n + length ids)%nat, conns', rm') /\
    models conns' a' /\ consistent a' rm' /\ owners a' = owners a /\
    forall j : ConnectionId, rooms_of a' j = if decide (j ∈ ids) then rooms_of a j ∖ {[room]} else rooms_of a j.
Proof.
  revert conns rm a n. induction ids as [|id ids IH]; intros conns rm a n Hm Hc Hnd Hin; cbn [foldl].
  { exists conns, rm, a. rewrite Nat.add_0_r. by split_and!. }
  inversion Hnd as [|? ? Hni Hnd']; subst.
  destruct (member_entry a rm id room Hc (Hin id ltac:(set_solver))) as (h & rs & u & Ha & Hrs).
  assert (Hid : u64_ok id) by (apply (m_dom _ _ Hm id); eauto).
  pose proof (leave_spec id room conns rm a Hm Hc Hid) as Hl. rewrite Ha in Hl.
  destruct (leave id room conns rm) as [[change conns1] rm1]. destruct Hl as (-> & a1 & [Hm1 Hc1 Hr1 Hd1]).
  rewrite (leave_set_in room rs Hrs) in *. cbn [fst snd] in *. rewrite (decide_True (P := Changed = Changed)) by done.
  destruct (IH conns1 rm1 a1 (S n) Hm1 Hc1 Hnd') as (conns' & rm' & a' & -> & Hm' & Hc' & Hd' & Hr').
  { intros j Hj. rewrite (c_both _ _ Hc1), Hr1. rewrite decide_False by set_solver.
    rewrite <-(c_both _ _ Hc). apply Hin. set_solver. }
  exists conns', rm', a'. split; [do 2 f_equal; simpl; lia|]. split_and!; [done..|congruence|].
  intros j. rewrite Hr', Hr1. clear IH Hr' Hr1. unfold rooms_of. destruct (decide (j = id)) as [->|Hj].
  - by rewrite decide_False, decide_True, Ha by set_solver.
  - destruct (decide (j ∈ ids)); [rewrite decide_True by set_solver|rewrite decide_False by set_solver]; done.
Qed.

Lemma memb_None room rm : no_empty rm -> memb rm room = ∅ -> rm !! room = None.
Proof.
  intros Hn. unfold memb. destruct (rm !! room) as [e|] eqn:E; [|done]. intros He. by destruct (Hn _ _ E).
Qed.

Lemma close_room_spec room conns rm a :
  models conns a -> consistent a rm ->
  exists conns' rm' a', close_room room conns rm =
      (if decide (memb rm room = ∅) then None else Some (size (memb rm room)), conns', rm') /\
    models conns' a' /\ consistent a' rm' /\ owners a' = owners a /\ rm' !! room = None /\
    forall j : ConnectionId, rooms_of a' j = rooms_of a j ∖ {[room]}.
Proof.
  intros Hm Hc. unfold close_room, members. destruct (rm !! room) as [e|] eqn:E; cbn.
  - assert (Hme : memb rm room = Rooms.members e) by (unfold memb; by rewrite E).
    unfold leave_all.
    destruct (leave_all_spec room (elements (Rooms.members e)) conns rm a 0 Hm Hc (NoDup_elements _))
      as (conns' & rm' & a' & -> & Hm' & Hc' & Hd' & Hr'); [intros id; rewrite Hme; set_solver|].
    rewrite decide_False by (rewrite Hme; by apply (c_live _ _ Hc room)). rewrite Hme. cbn.
    assert (Hall : forall j : ConnectionId, rooms_of a' j = rooms_of a j ∖ {[room]}).
    { intros j. rewrite Hr'. case_decide as Hj; [done|].
      assert (room ∉ rooms_of a j); [|set_solver]. rewrite <-(c_both _ _ Hc), Hme. set_solver. }
    exists conns', rm', a'. split_and!; try done. apply memb_None; [apply Hc'|].
    apply set_eq. intros j. rewrite (c_both _ _ Hc'), Hall. set_solver.
  - assert (Hme : memb rm room = ∅) by (unfold memb; by rewrite E).
    rewrite decide_True by done. exists conns, rm, a. split_and!; try done. intros j.
    assert (room ∉ rooms_of a j); [|set_solver]. rewrite <-(c_both _ _ Hc), Hme. set_solver.
Qed.

Lemma disconnect_spec id conns rm a :
  models conns a -> consistent a rm -> u64_ok id ->
  exists conns' rm', disconnect id conns rm = (conns', rm') /\
    models conns' (delete id a) /\ consistent (delete id a) rm'.
Proof.
  intros Hm Hc Hid. unfold disconnect. destruct (a !! id) as [[[h rs] u]|] eqn:Ha.
  - destruct (models_remove id conns a h rs u Hm Ha) as (conns' & -> & Hm').
    eexists _, _. split; [done|]. split; [done|]. destruct (disconnect_cleanup_spec id rs rm) as [H1 H2].
    split; [|apply H2, Hc]. intros j r. rewrite H1. unfold rooms_of.
    pose proof (c_both _ _ Hc j r) as Hb. unfold rooms_of in Hb. destruct (decide (j = id)) as [->|Hne].
    + rewrite lookup_delete_eq. rewrite Ha in Hb. case_decide; set_solver.
    + rewrite lookup_delete_ne by congruence. case_decide; set_solver.
  - pose proof (m_find _ _ Hm id Hid) as Hf. rewrite Ha in Hf.
    destruct (Registry.find id conns) eqn:E; [done|]. rewrite remove_full_None by done.
    rewrite delete_id by done. eauto.
Qed.

Lemma room_presence_spec room conns rm a :
  models conns a -> consistent a rm ->
  NoDup (room_presence room conns rm).*1 /\
  forall id u, (id, u) ∈ room_presence room conns rm <->
    exists h rs, a !! id = Some (h, rs, u) /\ room ∈ rs.
Proof.
  intros Hm Hc. unfold room_presence, members. destruct (rm !! room) as [e|] eqn:E; cbn.
  2: { split; [constructor|]. intros id u. split; [by intros ?%not_elem_of_nil|].
       intros (h & rs & Ha & Hr). assert (Hin : id ∈ memb rm room).
       { apply (c_both _ _ Hc). unfold rooms_of. by rewrite Ha. }
       unfold memb in Hin. rewrite E in Hin. set_solver. }
  assert (Hme : memb rm room = Rooms.members e) by (unfold memb; by rewrite E).
  assert (Hu : forall id, id ∈ Rooms.members e -> exists h rs u,
    a !! id = Some (h, rs, u) /\ room ∈ rs /\ Registry.user_of id conns = Some u).
  { intros id Hin. rewrite <-Hme in Hin. destruct (member_entry a rm id room Hc Hin) as (h & rs & u & Ha & Hr).
    exists h, rs, u. split_and!; try done. unfold Registry.user_of.
    pose proof (m_find _ _ Hm id (m_dom _ _ Hm id ltac:(eauto))) as Hf. rewrite Ha in Hf.
    destruct (Registry.find id conns); [|done]. unfold abs_entry in Hf. by simplify_eq/=. }
  split.
  - pose proof (NoDup_elements (Rooms.members e)) as Hnd.
    assert (Hall : forall id, id ∈ elements (Rooms.members e) -> exists u, Registry.user_of id conns = Some u).
    { intros id Hin. destruct (Hu id) as (? & ? & u & _ & _ & ?); [set_solver|eauto]. }
    clear -Hnd Hall. induction (elements (Rooms.members e)) as [|id l IH]; cbn; [constructor|].
    inversion Hnd as [|? ? Hni Hnd']; subst. destruct (Hall id ltac:(set_solver)) as [u ->]. cbn.
    constructor; [|apply IH; set_solver]. rewrite list_elem_of_fmap. intros ([j v] & -> & Hj).
    apply list_elem_of_omap in Hj as (j' & Hj' & Heq). destruct (Registry.user_of j' conns); simplify_eq/=. done.
  - intros id u. rewrite list_elem_of_omap. split.
    + intros (j & Hj%elem_of_elements & Heq). destruct (Hu j Hj) as (h & rs & v & Ha & Hr & Hv).
      rewrite Hv in Heq. simplify_eq/=. eauto.
    + intros (h & rs & Ha & Hr). exists id. assert (Hin : id ∈ Rooms.members e).
      { rewrite <-Hme. apply (c_both _ _ Hc). unfold rooms_of. by rewrite Ha. }
      split; [by apply elem_of_elements|]. destruct (Hu id Hin) as (h' & rs' & v & Ha' & _ & Hv).
      rewrite Hv. by simplify_eq/=.
Qed.

(** C18. Room membership, functionally: on a registry and a room map that agree,
    [join] reports NotFound / NoOp / LimitExceeded / Changed exactly as the
    caller's room set and the cap say, adds the room on both sides or changes
    nothing, and never takes a connection over the cap; [leave] is its inverse;
    [close_room] removes every member (and only them) and destroys the room;
    ending a connection removes it from all its rooms; presence lists exactly
    the live members with their users. Handles and users stay, the sides agree
    again afterwards, and no room is left empty. *)
Theorem membership_operations conns rm a :
  models conns a -> consistent a rm ->
  (forall id room mx h rs u, a !! id = Some (h, rs, u) ->
     exists conns' rm' a', join id room mx conns rm = ((join_set room mx rs).1, conns', rm') /\
       op_result a a' conns' rm' id (join_set room mx rs).2 /\
       (mx <> 0 -> Z.of_nat (size rs) <= mx -> Z.of_nat (size (rooms_of a' id)) <= mx)) /\
  (forall id room h rs u, a !! id = Some (h, rs, u) ->
     exists conns' rm' a', leave id room conns rm = ((leave_set room rs).1, conns', rm') /\
       op_result a a' conns' rm' id (leave_set room rs).2) /\
  (forall id room mx, u64_ok id -> a !! id = None ->
     join id room mx conns rm = (NotFound, conns, rm) /\ leave id room conns rm = (NotFound, conns, rm)) /\
  (forall room, exists conns' rm' a', close_room room conns rm =
       (if decide (memb rm room = ∅) then None else Some (size (memb rm room)), conns', rm') /\
     models conns' a' /\ consistent a' rm' /\ owners a' = owners a /\ rm' !! room = None /\
     forall j : ConnectionId, rooms_of a' j = rooms_of a j ∖ {[room]}) /\
  (forall id, u64_ok id -> exists conns' rm', disconnect id conns rm = (conns', rm') /\
     models conns' (delete id a) /\ consistent (delete id a) rm') /\
  (forall room, NoDup (room_presence room conns rm).*1 /\
     forall id u, (id, u) ∈ room_presence room conns rm <-> exists h rs, a !! id = Some (h, rs, u) /\ room ∈ rs).
Proof.
  intros Hm Hc. split_and!.
  - intros id room mx h rs u Ha.
    pose proof (join_spec id room mx conns rm a Hm Hc (m_dom _ _ Hm id ltac:(eauto))) as Hj. rewrite Ha in Hj.
    destruct (join id room mx conns rm) as [[change conns'] rm']. destruct Hj as (-> & a' & Hop).
    exists conns', rm', a'. split_and!; [done..|]. intros Hmx Hsz. rewrite (op_rooms _ _ _ _ _ _ Hop), decide_True by done.
    unfold join_set. case_decide; [done|]. destruct (_ && _) eqn:Eb; [done|]. cbn.
    rewrite size_union, size_singleton by set_solver.
    destruct (Z.eqb_spec mx 0); [done|]. simpl in Eb. apply Z.leb_gt in Eb. lia.
  - intros id room h rs u Ha.
    pose proof (leave_spec id room conns rm a Hm Hc (m_dom _ _ Hm id ltac:(eauto))) as Hj. rewrite Ha in Hj.
    destruct (leave id room conns rm) as [[change conns'] rm']. destruct Hj as (-> & a' & Hop). eauto.
  - intros id room mx Hid Ha.
    pose proof (join_spec id room mx conns rm a Hm Hc Hid) as Hj. pose proof (leave_spec id room conns rm a Hm Hc Hid) as Hl.
    rewrite Ha in Hj, Hl. destruct (join id room mx conns rm) as [[? ?] ?], (leave id room conns rm) as [[? ?] ?].
    destruct Hj as (-> & -> & ->), Hl as (-> & -> & ->). done.
  - intros room. by apply close_room_spec.
  - intros id Hid. by apply disconnect_spec.
  - intros room. by apply room_presence_spec.
Qed.
End RoomFacts.

(** ** Ranking *)

Section TopRooms.
Import RoomRegistry.

Lemma bytes_cmp_eq a b : bytes_cmp a b = Eq -> a = b.
Proof.
  revert b. induction a as [|x a IH]; intros [|y b]; simpl; try done.
  destruct (Z.compare_spec x y) as [->| |]; try done. intros Hc. by rewrite (IH b).
Qed.

Lemma bytes_cmp_opp a b : bytes_cmp b a = CompOpp (bytes_cmp a b).
Proof.
  revert b. induction a as [|x a IH]; intros [|y b]; simpl; try done.
  rewrite (Z.compare_antisym x y). destruct (x ?= y); simpl; auto.
Qed.

Lemma bytes_cmp_trans a b c : bytes_cmp a b = Lt -> bytes_cmp b c = Lt -> bytes_cmp a c = Lt.
Proof.
  revert b c. induction a as [|x a IH]; intros [|y b] [|z c]; simpl; try done.
  destruct (Z.compare_spec x y), (Z.compare_spec y z), (Z.compare_spec x z); try done; try lia; subst; eauto.
Qed.

Lemma RoomStat_cmp_eq a b : RoomStat_cmp a b = Eq -> a = b.
Proof.
  unfold RoomStat_cmp. destruct a as [ra ma ka], b as [rb mb kb]; simpl.
  destruct (Z.compare_spec ma mb), (Z.compare_spec ka kb); try done.
  intros E%bytes_cmp_eq. by subst.
Qed.

Lemma RoomStat_cmp_opp a b : RoomStat_cmp b a = CompOpp (RoomStat_cmp a b).
Proof.
  unfold RoomStat_cmp. rewrite (Z.compare_antisym (s_members a)), (Z.compare_antisym (s_messages a)).
  rewrite (bytes_cmp_opp (s_room b) (s_room a)).
  destruct (s_members a ?= _), (s_messages a ?= _); simpl; done.
Qed.

Lemma RoomStat_cmp_trans a b c : RoomStat_cmp a b = Lt -> RoomStat_cmp b c = Lt -> RoomStat_cmp a c = Lt.
Proof.
  unfold RoomStat_cmp. destruct a as [ra ma ka], b as [rb mb kb], c as [rc mc kc]; simpl.
  destruct (Z.compare_spec ma mb), (Z.compare_spec mb mc), (Z.compare_spec ma mc); try done; try lia.
  destruct (Z.compare_spec ka kb), (Z.compare_spec kb kc), (Z.compare_spec ka kc); try done; try lia.
  intros Hba Hcb. by eapply bytes_cmp_trans.
Qed.

#[global] Instance RoomStat_ranking : Ranking RoomStat_cmp.
Proof.
  split; [apply RoomStat_cmp_opp|]. intros a b c Hab Hbc Hac.
  assert (H1 : RoomStat_cmp b a <> Gt) by (rewrite (RoomStat_cmp_opp a b); by destruct (RoomStat_cmp a b)).
  destruct (RoomStat_cmp b a) eqn:E; [apply RoomStat_cmp_eq in E; by subst| |done].
  apply Hbc. by eapply RoomStat_cmp_trans.
Qed.

(** The statistics of every room. *)
Definition room_stats (rm : RoomRegistry.t) : list RoomStat :=
  map (fun '(room, e) => stat_of room e) (map_to_list rm).

(** [top_rooms n], which keeps a bounded heap of [n] while scanning the room
    map, returns exactly the first [n] rooms of the full ranking (most members,
    then most messages, then smallest name), highest first. *)
Lemma top_rooms_is_prefix_of_ranking n rm :
  top_rooms n rm = take n (sort_desc RoomStat_cmp (room_stats rm)) /\
  sort_desc RoomStat_cmp (room_stats rm) ≡ₚ room_stats rm /\
  StronglySorted (ranks_ge RoomStat_cmp) (sort_desc RoomStat_cmp (room_stats rm)).
Proof.
  split; [|split; [apply sort_desc_perm|apply sort_desc_sorted; apply _]].
  apply top_n_prefix; [apply _|]. intros a b _ _. apply RoomStat_cmp_eq.
Qed.
End TopRooms.

(** ** Interleaved membership changes

    Threads run [join], [leave] (also from [close_room]) and the disconnect
    sweep at once.  The connection's shard lock makes the room-set part of a
    change atomic and lets one change per connection be in flight; the room map
    is updated in separate atomic steps, and other threads run in between.  The
    registry is abstracted to the room set of each live connection. *)

Section Interleaving.
Import RoomRegistry.

(** What a thread working on one connection still has to do. *)
Inductive Pending :=
  | PJoin (room : RoomId)                          (* insert into the room map, then unlock *)
  | PLeave (room : RoomId)                         (* drop_member, then perhaps destroy, then unlock *)
  | PDestroy (room : RoomId)                       (* remove_if, then unlock *)
  | PClean (rooms : gset RoomId)                   (* disconnect_cleanup over the rest *)
  | PCleanDestroy (room : RoomId) (rooms : gset RoomId).  (* remove_if, then the rest *)

(** [tasks] has at most one entry per connection: the shard lock, and after a
    removal the one task that took the room set out. [used] are the ids ever
    handed out (see [stale_id_never_resolves]). *)
Record Shared := {
  conns : gmap Z (gset RoomId);
  rmap : RoomRegistry.t;
  tasks : gmap Z Pending;
  used : gset Z;
}.

Definition upd (cs : gmap Z (gset RoomId)) (rm : RoomRegistry.t) (ts : gmap Z Pending) (s : Shared) : Shared :=
  {| conns := cs; rmap := rm; tasks := ts; used := used s |}.

(** A thread with a task pending takes its next step. *)
Inductive finish_step : Shared -> Shared -> Prop :=
  | FJoin s id room :
      tasks s !! id = Some (PJoin room) ->
      finish_step s (upd (conns s) (insert_member room id (rmap s)) (delete id (tasks s)) s)
  | FLeave s id room empty rm :
      tasks s !! id = Some (PLeave room) -> drop_member room id (rmap s) = (empty, rm) ->
      finish_step s (upd (conns s) rm
        (if empty then <[id := PDestroy room]> (tasks s) else delete id (tasks s)) s)
  | FDestroy s id room :
      tasks s !! id = Some (PDestroy room) ->
      finish_step s (upd (conns s) (destroy_if_empty room (rmap s)) (delete id (tasks s)) s)
  | FClean s id room rooms empty rm :
      tasks s !! id = Some (PClean rooms) -> room ∈ rooms -> drop_member room id (rmap s) = (empty, rm) ->
      finish_step s (upd (conns s) rm
        (<[id := if empty then PCleanDestroy room (rooms ∖ {[room]}) else PClean (rooms ∖ {[room]})]> (tasks s)) s)
  | FCleanDestroy s id room rooms :
      tasks s !! id = Some (PCleanDestroy room rooms) ->
      finish_step s (upd (conns s) (destroy_if_empty room (rmap s)) (<[id := PClean rooms]> (tasks s)) s)
  | FCleanEnd s id :
      tasks s !! id = Some (PClean ∅) ->
      finish_step s (upd (conns s) (rmap s) (delete id (tasks s)) s).

(** A new operation takes the shard lock of its connection; those that change
    nothing are not steps. *)
Inductive start_step : Shared -> Shared -> Prop :=
  | SConnect s id :
      id ∉ used s ->
      start_step s {| conns := <[id := ∅]> (conns s); rmap := rmap s; tasks := tasks s; used := {[id]} ∪ used s |}
  | SJoin s id room max_rooms rs rs' :
      conns s !! id = Some rs -> tasks s !! id = None -> join_set room max_rooms rs = (Changed, rs') ->
      start_step s (upd (<[id := rs']> (conns s)) (rmap s) (<[id := PJoin room]> (tasks s)) s)
  | SLeave s id room rs rs' :
      conns s !! id = Some rs -> tasks s !! id = None -> leave_set room rs = (Changed, rs') ->
      start_step s (upd (<[id := rs']> (conns s)) (rmap s) (<[id := PLeave room]> (tasks s)) s)
  | SDisconnect s id rs :
      conns s !! id = Some rs -> tasks s !! id = None ->
      start_step s (upd (delete id (conns s)) (rmap s) (<[id := PClean rs]> (tasks s)) s).

Definition shared_step (s s' : Shared) : Prop := start_step s s' \/ finish_step s s'.

Definition shared_start : Shared := {| conns := ∅; rmap := new; tasks := ∅; used := ∅ |}.

(** The rooms the room map should have a connection in, given its pending task. *)
Definition owed (s : Shared) (id : Z) (room : RoomId) : Prop :=
  let rs := default ∅ (conns s !! id) in
  match tasks s !! id with
  | None | Some (PDestroy _) => room ∈ rs
  | Some (PJoin r) => room ∈ rs /\ room <> r
  | Some (PLeave r) => room ∈ rs \/ room = r
  | Some (PClean rest) | Some (PCleanDestroy _ rest) => room ∈ rest
  end.

Definition destroys (room : RoomId) (t : Pending) : Prop :=
  match t with PDestroy r | PCleanDestroy r _ => r = room | _ => False end.

Definition task_ok (s : Shared) (id : Z) : Prop :=
  match tasks s !! id with
  | None => True
  | Some (PJoin r) => exists rs, conns s !! id = Some rs /\ r ∈ rs
  | Some (PLeave r) => exists rs, conns s !! id = Some rs /\ r ∉ rs
  | Some (PDestroy _) => is_Some (conns s !! id)
  | Some (PClean _) | Some (PCleanDestroy _ _) => conns s !! id = None
  end.

Record shared_inv (s : Shared) : Prop := {
  si_owed : forall id (room : RoomId), id ∈ memb (rmap s) room <-> owed s id room;
  si_empty : forall (room : RoomId) e, rmap s !! room = Some e -> Rooms.members e = ∅ ->
    exists id t, tasks s !! id = Some t /\ destroys room t;
  si_task : forall id, task_ok s id;
  si_used : forall id, is_Some (conns s !! id) \/ is_Some (tasks s !! id) -> id ∈ used s;
}.

(** The rest of the system does not move when one connection's thread steps. *)
Lemma owed_ext s s' id (room : RoomId) :
  conns s' !! id = conns s !! id -> tasks s' !! id = tasks s !! id -> owed s' id room <-> owed s id room.
Proof. intros E1 E2. unfold owed. by rewrite E1, E2. Qed.

Lemma task_ok_ext s s' id :
  conns s' !! id = conns s !! id -> tasks s' !! id = tasks s !! id -> task_ok s id -> task_ok s' id.
Proof. intros E1 E2. unfold task_ok. by rewrite E1, E2. Qed.

Lemma drop_member_lookup room id rm empty rm' (r : RoomId) :
  drop_member room id rm = (empty, rm') -> r <> room -> rm' !! r = rm !! r.
Proof.
  unfold drop_member. destruct (rm !! room); intros [= <- <-] Hr; [|done]. by rewrite lookup_insert_ne by congruence.
Qed.

Lemma drop_member_empty room id rm empty rm' e :
  drop_member room id rm = (empty, rm') -> rm' !! room = Some e -> (empty = true <-> Rooms.members e = ∅).
Proof.
  unfold drop_member. destruct (rm !! room) as [e0|] eqn:E; intros [= <- <-]; [|by rewrite E].
  rewrite lookup_insert_eq. intros [= <-]. simpl. apply bool_decide_eq_true.
Qed.

Lemma drop_member_memb room id rm empty rm' (r : RoomId) :
  drop_member room id rm = (empty, rm') ->
  memb rm' r = if decide (r = room) then memb rm room ∖ {[id]} else memb rm r.
Proof. intros E. pose proof (memb_drop room id rm r) as H. by rewrite E in H. Qed.

Lemma destroy_if_empty_lookup room rm (r : RoomId) e :
  destroy_if_empty room rm !! r = Some e -> rm !! r = Some e /\ (r = room -> Rooms.members e <> ∅).
Proof.
  unfold destroy_if_empty. destruct (rm !! room) as [e0|] eqn:E; [|intros H; split; [done|intros ->; congruence]].
  case_decide as Hd; [rewrite lookup_delete_Some; naive_solver|]. intros H. split; [done|]. intros ->. congruence.
Qed.

(** One connection's thread moves: what is left to check is that connection's
    share of the room map, its next task, and the rooms it left empty. *)
Lemma shared_inv_move s cs rm ts us id :
  shared_inv s ->
  let s' := {| conns := cs; rmap := rm; tasks := ts; used := us |} in
  (forall j, j <> id -> cs !! j = conns s !! j /\ ts !! j = tasks s !! j) ->
  used s ⊆ us -> id ∈ us ->
  (forall j (r : RoomId), j <> id -> j ∈ memb rm r <-> j ∈ memb (rmap s) r) ->
  (forall r : RoomId, id ∈ memb rm r <-> owed s' id r) -> task_ok s' id ->
  (forall (r : RoomId) e, rm !! r = Some e -> Rooms.members e = ∅ ->
     (exists t, ts !! id = Some t /\ destroys r t) \/
     (exists e, rmap s !! r = Some e /\ Rooms.members e = ∅) /\ forall t, tasks s !! id = Some t -> ~ destroys r t) ->
  shared_inv s'.
Proof.
  intros [Ho He Ht Hu] s' Hoff Hus Hid Hm Hown Htask Hempty. split.
  - intros j r. destruct (decide (j = id)) as [->|Hj]; [apply Hown|]. destruct (Hoff j Hj).
    rewrite (owed_ext s s') by done. rewrite <-Ho. by apply Hm.
  - intros r e Hr Hz. destruct (Hempty r e Hr Hz) as [(t & Ht' & Hd)|[(e' & He' & Hz') Hnd]]; [eauto|].
    destruct (He r e' He' Hz') as (j & t & Hj & Hd). exists j, t. split; [|done].
    destruct (decide (j = id)) as [->|Hne]; [by destruct (Hnd t Hj)|]. cbn. by rewrite (proj2 (Hoff j Hne)).
  - intros j. destruct (decide (j = id)) as [->|Hj]; [done|]. destruct (Hoff j Hj). by apply (task_ok_ext s s').
  - intros j. destruct (decide (j = id)) as [->|Hj]; [done|]. cbn. destruct (Hoff j Hj) as [-> ->].
    intros Hs. by apply Hus, Hu.
Qed.

(** Lookups at the connection that moved and at the others. *)
Ltac at_conn := rewrite ?lookup_insert_eq, ?lookup_delete_eq.
Ltac off_conn := intros; split; rewrite ?lookup_insert_ne, ?lookup_delete_ne by congruence; done.

Lemma start_step_inv s s' : start_step s s' -> shared_inv s -> shared_inv s'.
Proof.
  intros Hst Hi. pose proof Hi as [Ho He Ht Hu].
  destruct Hst as [s id Hid|s id room mx rs rs' Hc Hn Hj|s id room rs rs' Hc Hn Hl|s id rs Hc Hn].
  - assert (conns s !! id = None /\ tasks s !! id = None) as [Hc Hn].
    { split; apply eq_None_not_Some; intros Hs; apply Hid, Hu; auto. }
    apply (shared_inv_move s _ _ _ _ id); try done; [off_conn|set_solver|set_solver| | |].
    + intros r. rewrite Ho. unfold owed; cbn. at_conn. by rewrite Hc, Hn.
    + unfold task_ok. cbn. by rewrite Hn.
    + intros r e Hr Hm. right. split; [eauto|]. by rewrite Hn.
  - unfold join_set in Hj. case_decide as Hin; [done|]. destruct (_ && _); simplify_eq.
    apply (shared_inv_move s _ _ _ _ id); try done; [off_conn|apply Hu; eauto| | |].
    + intros r. rewrite Ho. unfold owed; cbn. at_conn. rewrite Hc, Hn. cbn. set_solver.
    + unfold task_ok; cbn. at_conn. eexists; split; [done|set_solver].
    + intros r e Hr Hm. right. split; [eauto|]. by rewrite Hn.
  - unfold leave_set in Hl. case_decide as Hin; simplify_eq.
    apply (shared_inv_move s _ _ _ _ id); try done; [off_conn|apply Hu; eauto| | |].
    + intros r. rewrite Ho. unfold owed; cbn. at_conn. rewrite Hc, Hn. cbn. destruct (decide (r = room)) as [->|]; set_solver.
    + unfold task_ok; cbn. at_conn. eexists; split; [done|set_solver].
    + intros r e Hr Hm. right. split; [eauto|]. by rewrite Hn.
  - apply (shared_inv_move s _ _ _ _ id); try done; [off_conn|apply Hu; eauto| | |].
    + intros r. rewrite Ho. unfold owed; cbn. at_conn. by rewrite Hc, Hn.
    + unfold task_ok; cbn. by at_conn.
    + intros r e Hr Hm. right. split; [eauto|]. by rewrite Hn.
Qed.

Lemma finish_step_inv s s' : finish_step s s' -> shared_inv s -> shared_inv s'.
Proof.
  intros Hst Hi. pose proof Hi as [Ho He Ht Hu].
  destruct Hst as [s id room Hk|s id room empty rm Hk Hd|s id room Hk|s id room rooms empty rm Hk Hin Hd
    |s id room rooms Hk|s id Hk]; pose proof (Ht id) as Hok; unfold task_ok in Hok; rewrite Hk in Hok;
    (apply (shared_inv_move s _ _ _ _ id); [done| |done|apply Hu; eauto| | | |]).
  - off_conn.
  - intros j r Hj. rewrite memb_insert. case_decide; set_solver.
  - intros r. rewrite memb_insert. pose proof (Ho id r) as Hor. pose proof (Ho id room) as Hor'.
    unfold owed in *; cbn. at_conn. rewrite Hk in Hor, Hor'.
    destruct Hok as (rs & Hc & Hr). rewrite Hc in *. cbn in *. case_decide; set_solver.
  - unfold task_ok; cbn. by at_conn.
  - intros r e Hr Hm. right. rewrite Hk. split; [|by intros t [= <-] []]. unfold insert_member in Hr.
    apply lookup_insert_Some in Hr as [[_ <-]|[_ Hr]]; [simpl in Hm; set_solver|eauto].
  - destruct empty; off_conn.
  - intros j r Hj. rewrite (drop_member_memb _ _ _ _ _ r Hd). case_decide; set_solver.
  - intros r. rewrite (drop_member_memb _ _ _ _ _ r Hd). pose proof (Ho id r) as Hor.
    destruct Hok as (rs & Hc & Hr). unfold owed in *; cbn. rewrite Hk, Hc in Hor. cbn in Hor.
    destruct empty; at_conn; rewrite Hc; cbn; case_decide; set_solver.
  - unfold task_ok; cbn. destruct Hok as (rs & Hc & _). destruct empty; at_conn; eauto.
  - intros r e Hr Hm. destruct (decide (r = room)) as [->|Hne].
    + apply (drop_member_empty _ _ _ _ _ _ Hd) in Hm; [subst|done]. left. at_conn. by eexists.
    + right. rewrite (drop_member_lookup _ _ _ _ _ _ Hd Hne) in Hr. rewrite Hk. split; [eauto|by intros t [= <-] []].
  - off_conn.
  - intros j r Hj. by rewrite memb_destroy.
  - intros r. rewrite memb_destroy, Ho. unfold owed; cbn. at_conn. by rewrite Hk.
  - unfold task_ok; cbn. by at_conn.
  - intros r e [Hr Hne]%destroy_if_empty_lookup Hm. right. split; [eauto|]. rewrite Hk. intros t [= <-] Hd.
    cbn in Hd. by destruct (Hne (eq_sym Hd)).
  - off_conn.
  - intros j r Hj. rewrite (drop_member_memb _ _ _ _ _ r Hd). case_decide; set_solver.
  - intros r. rewrite (drop_member_memb _ _ _ _ _ r Hd). pose proof (Ho id r) as Hor.
    unfold owed in *; cbn. at_conn. rewrite Hk in Hor. destruct empty; case_decide; set_solver.
  - unfold task_ok; cbn. at_conn. by destruct empty.
  - intros r e Hr Hm. destruct (decide (r = room)) as [->|Hne].
    + apply (drop_member_empty _ _ _ _ _ _ Hd) in Hm; [subst|done]. left. at_conn. by eexists.
    + right. rewrite (drop_member_lookup _ _ _ _ _ _ Hd Hne) in Hr. rewrite Hk. split; [eauto|by intros t [= <-] []].
  - off_conn.
  - intros j r Hj. by rewrite memb_destroy.
  - intros r. rewrite memb_destroy, Ho. unfold owed; cbn. at_conn. by rewrite Hk.
  - unfold task_ok; cbn. by at_conn.
  - intros r e [Hr Hne]%destroy_if_empty_lookup Hm. right. split; [eauto|]. rewrite Hk. intros t [= <-] Hd.
    cbn in Hd. by destruct (Hne (eq_sym Hd)).
  - off_conn.
  - done.
  - intros r. rewrite Ho. unfold owed; cbn. at_conn. by rewrite Hk, Hok.
  - unfold task_ok; cbn. by at_conn.
  - intros r e Hr Hm. right. rewrite Hk. split; [eauto|by intros t [= <-] []].
Qed.

(** How many steps a pending task can still take. *)
Definition weight (t : Pending) : nat :=
  match t with
  | PJoin _ | PDestroy _ => 1
  | PLeave _ => 2
  | PClean rooms => 2 * size rooms + 1
  | PCleanDestroy _ rooms => 2 * size rooms + 2
  end.

Lemma task_progress s id t :
  tasks s !! id = Some t -> exists s', finish_step s s' /\
    (tasks s' = delete id (tasks s) \/
     exists t', tasks s' = <[id := t']> (tasks s) /\ (weight t' < weight t)%nat).
Proof.
  intros Hk. destruct t as [room|room|room|rooms|room rooms].
  - eexists. split; [by eapply FJoin|]. by left.
  - destruct (drop_member room id (rmap s)) as [empty rm] eqn:E. eexists. split; [by eapply FLeave|].
    cbn. destruct empty; [right|by left]. eexists. split; [done|]. simpl. lia.
  - eexists. split; [by eapply FDestroy|]. by left.
  - destruct (decide (rooms = ∅)) as [->|Hne]; [eexists; split; [by eapply FCleanEnd|]; by left|].
    apply set_choose_L in Hne as [room Hin]. destruct (drop_member room id (rmap s)) as [empty rm] eqn:E.
    eexists. split; [by eapply FClean|]. right. eexists. split; [done|].
    assert (size rooms = S (size (rooms ∖ {[room]}))).
    { rewrite (union_difference_singleton_L room rooms) at 1 by done.
      rewrite size_union, size_singleton by set_solver. done. }
    destruct empty; simpl; lia.
  - eexists. split; [by eapply FCleanDestroy|]. right. eexists. split; [done|]. simpl. lia.
Qed.

Lemma task_drains n s id t :
  tasks s !! id = Some t -> (weight t <= n)%nat ->
  exists s', rtc finish_step s s' /\ tasks s' = delete id (tasks s).
Proof.
  revert s t. induction n as [|n IH]; intros s t Hk Hw; [destruct t; simpl in Hw; lia|].
  destruct (task_progress s id t Hk) as (s1 & Hs1 & [Hd|(t' & Ht' & Hlt)]).
  - exists s1. split; [by apply rtc_once|done].
  - destruct (IH s1 t') as (s' & Hr & Hd); [rewrite Ht'; by rewrite lookup_insert_eq|lia|].
    exists s'. split; [by eapply rtc_l|]. rewrite Hd, Ht'. by rewrite delete_insert_eq.
Qed.

Lemma tasks_drain s : exists s', rtc finish_step s s' /\ tasks s' = ∅.
Proof.
  remember (size (tasks s)) as n eqn:En. revert s En. induction n as [|n IH]; intros s En.
  - exists s. split; [done|]. by apply map_size_empty_inv.
  - destruct (map_choose (tasks s)) as (id & t & Hk); [intros E; by rewrite E, map_size_empty in En|].
    destruct (task_drains (weight t) s id t Hk ltac:(lia)) as (s1 & Hr & Hd).
    destruct (IH s1) as (s' & Hr' & He); [rewrite Hd, map_size_delete_Some by eauto; lia|].
    exists s'. split; [by etrans|done].
Qed.

Lemma shared_reach_inv s : rtc shared_step shared_start s -> shared_inv s.
Proof.
  apply (rtc_ind_r (fun s => shared_inv s)).
  - split; cbn; try done. intros id [H|H]; by apply lookup_empty_is_Some in H.
  - intros y z _ [Hs|Hs] Hy; [by eapply start_step_inv|by eapply finish_step_inv].
Qed.

(** C7. Membership under concurrency: whatever joins, leaves, closes and
    disconnects interleave at the granularity of the shard lock and the room
    map's atomic calls, whenever no operation is in flight the two sides of the
    membership agree exactly, a connection that is gone is in no room, and no
    empty room survives; and from every reachable state the operations in
    flight can finish. *)
Theorem membership_converges s :
  rtc shared_step shared_start s ->
  (tasks s = ∅ ->
     (forall id (room : RoomId), id ∈ memb (rmap s) room <-> exists rs, conns s !! id = Some rs /\ room ∈ rs) /\
     no_empty (rmap s)) /\
  (exists s', rtc finish_step s s' /\ tasks s' = ∅).
Proof.
  intros Hr. split; [|apply tasks_drain]. intros Hq. destruct (shared_reach_inv s Hr) as [Ho He _ _]. split.
  - intros id room. rewrite Ho. unfold owed. rewrite Hq, lookup_empty.
    destruct (conns s !! id) as [rs|]; cbn; [|set_solver]. naive_solver.
  - intros room e Hr' Hm. destruct (He room e Hr' Hm) as (id & t & Ht & _). by rewrite Hq, lookup_empty in Ht.
Qed.
End Interleaving.

Section RoomsWitness.
Import RoomRegistry.

Definition demo_id : ConnectionId := ConnId.new 0 0 0.

Lemma membership_operations_witness :
  exists conns' rm' a', join demo_id (str "lobby") 1 registry_demo new = (Changed, conns', rm') /\
    op_result registry_demo_map a' conns' rm' demo_id {[str "lobby"]}.
Proof.
  assert (Hc : consistent registry_demo_map new).
  { split; [|intros room e He; unfold new in He; by rewrite lookup_empty in He]. intros id room. unfold memb, new.
    rewrite lookup_empty. split; [set_solver|]. unfold rooms_of, registry_demo_map.
    rewrite !lookup_insert, lookup_empty. repeat case_decide; set_solver. }
  destruct (membership_operations registry_demo new registry_demo_map registry_demo_models Hc) as (Hj & _).
  destruct (Hj demo_id (str "lobby") 1 (str "a") ∅ None) as (conns' & rm' & a' & E & Hop & _).
  { vm_compute. reflexivity. }
  exists conns', rm', a'.
  assert (Ej : join_set (str "lobby") 1 ∅ = (Changed, {[str "lobby"]})) by (vm_compute; reflexivity).
  rewrite Ej in E, Hop. split; [exact E|exact Hop].
Defined.

Lemma membership_converges_witness :
  exists s, rtc shared_step shared_start s /\ tasks s = ∅ /\ 1 ∈ memb (rmap s) (str "r") /\ no_empty (rmap s).
Proof.
  eexists. assert (Hr : rtc shared_step shared_start
    (upd (<[1 := {[str "r"]} ∪ ∅]> (<[1 := ∅]> ∅)) (insert_member (str "r") 1 ∅)
      (delete 1 (<[1 := PJoin (str "r")]> ∅)) {| conns := ∅; rmap := ∅; tasks := ∅; used := {[1]} ∪ ∅ |})).
  { eapply rtc_l; [left; apply (SConnect _ 1); set_solver|].
    eapply rtc_l; [left; by apply (SJoin _ 1 (str "r") 0 ∅ ({[str "r"]} ∪ ∅))|].
    eapply rtc_l; [right; by apply (FJoin _ 1 (str "r"))|]. apply rtc_refl. }
  split; [exact Hr|]. destruct (membership_converges _ Hr) as [Hq _].
  assert (Ht : delete 1 (<[1 := PJoin (str "r")]> (∅ : gmap Z Pending)) = ∅) by (vm_compute; reflexivity).
  destruct (Hq Ht) as [Hm Hn]. split; [exact Ht|]. split; [|exact Hn].
  apply Hm. eexists. split; [vm_compute; reflexivity|set_solver].
Defined.
End RoomsWitness.
