(* ===== verification/Limits.v ===== *)
(** * Admission control (crates/core/src/limits.rs, Config::validate)

    The client-IP resolver behind [trustProxy], the per-IP limiter with its RAII
    guard, the gate that runs both inside the handshake, and the validation of
    the configuration.  CIDR networks come from the ipnet crate: [Net],
    [parse_net] and [net_contains] are parameters.  IP addresses, [str::trim]
    and [split] are the standard library's and are modelled here. *)

From S2P Require Import Prelude Text Runtime Config Metrics.

(** ** [str::trim], [split] and [IpAddr::from_str] *)

(** The UTF-8 encodings of the characters with the White_Space property. *)
Definition whitespace : list bytes :=
  map (fun b => [b]) [9; 10; 11; 12; 13; 32] ++ [[194; 133]; [194; 160]; [225; 154; 128]] ++
  map (fun b => [226; 128; b]) [128; 129; 130; 131; 132; 133; 134; 135; 136; 137; 138; 168; 169; 175] ++
  [[226; 129; 159]; [227; 128; 128]].

Fixpoint strip_prefix (p s : bytes) : option bytes :=
  match p, s with
  | [], s => Some s
  | x :: p, y :: s => if x =? y then strip_prefix p s else None
  | _ :: _, [] => None
  end.

Definition strip_any (ws : list bytes) (s : bytes) : option bytes := head (omap (fun p => strip_prefix p s) ws).

Fixpoint trim_start (fuel : nat) (ws : list bytes) (s : bytes) : bytes :=
  match fuel with
  | O => s
  | S fuel => match strip_any ws s with Some s' => trim_start fuel ws s' | None => s end
  end.

(** [str::trim]: the fuel is the length, since each round removes a byte. *)
Definition trim (s : rstring) : rstring :=
  let s := trim_start (length s) whitespace s in
  rev (trim_start (length s) (map (@rev Z) whitespace) (rev s)).

(** [str::split] on one ASCII character: never empty. *)
Fixpoint split (c : Z) (s : rstring) : list rstring :=
  match s with
  | [] => [[]]
  | x :: s =>
      if x =? c then [] :: split c s
      else match split c s with p :: ps => (x :: p) :: ps | [] => [[x]] end
  end.

(** The parser of [core::net]: each reader returns the value and the rest. *)
Definition to_digit (radix c : Z) : option Z :=
  let d := if (48 <=? c) && (c <=? 57) then c - 48
           else if (97 <=? c) && (c <=? 122) then c - 87
           else if (65 <=? c) && (c <=? 90) then c - 55 else radix in
  if d <? radix then Some d else None.

(** [read_number]: at most [max_digits] digits, the value below [limit]. *)
Fixpoint read_digits (radix limit : Z) (budget : nat) (acc : Z) (count : nat) (s : bytes)
    : option (Z * nat * bytes) :=
  match s with
  | c :: rest =>
      match to_digit radix c with
      | Some d =>
          match budget with
          | O => None
          | S budget =>
              let acc := acc * radix + d in
              if limit <=? acc then None else read_digits radix limit budget acc (S count) rest
          end
      | None => Some (acc, count, s)
      end
  | [] => Some (acc, count, s)
  end.

Definition read_number (radix limit : Z) (max_digits : nat) (allow_zero_prefix : bool) (s : bytes)
    : option (Z * bytes) :=
  '(v, count, rest) ← read_digits radix limit max_digits 0 0%nat s;
  if (count =? 0)%nat then None
  else if negb allow_zero_prefix && bool_decide (head s = Some 48) && (1 <? count)%nat then None
  else Some (v, rest).

(** [read_separator]: the separator is read before every item but the first. *)
Definition read_separator {A} (sep : Z) (index : nat) (inner : bytes -> option (A * bytes)) (s : bytes)
    : option (A * bytes) :=
  match index with
  | O => inner s
  | S _ => rest ← strip_prefix [sep] s; inner rest
  end.

Definition read_ipv4 (s : bytes) : option (Z * bytes) :=
  let octet i := read_separator 46 i (read_number 10 256 3 false) in
  '(a, s) ← octet 0%nat s; '(b, s) ← octet 1%nat s; '(c, s) ← octet 2%nat s; '(d, s) ← octet 3%nat s;
  Some (((a * 256 + b) * 256 + c) * 256 + d, s).

(** [read_groups]: up to [n] 16-bit groups, an embedded IPv4 address as the last
    two; the groups, whether they ended in an IPv4 address, and the rest. *)
Fixpoint read_groups (n i : nat) (s : bytes) : list Z * bool * bytes :=
  match n with
  | O => ([], false, s)
  | S n' =>
      match (if (2 <=? n)%nat then read_separator 58 i read_ipv4 s else None) with
      | Some (v4, rest) => ([v4 / 2 ^ 16; v4 mod 2 ^ 16], true, rest)
      | None =>
          match read_separator 58 i (read_number 16 (2 ^ 16) 4 true) s with
          | Some (g, rest) => let '(gs, v4, rest) := read_groups n' (S i) rest in (g :: gs, v4, rest)
          | None => ([], false, s)
          end
      end
  end.

Definition groups_value (gs : list Z) : Z := foldl (fun acc g => acc * 2 ^ 16 + g) 0 gs.

Definition read_ipv6 (s : bytes) : option (Z * bytes) :=
  let '(head, head_v4, rest) := read_groups 8 0 s in
  if (length head =? 8)%nat then Some (groups_value head, rest)
  else if head_v4 then None
  else
    rest ← strip_prefix [58; 58] rest;
    let '(tail, _, rest) := read_groups (8 - (length head + 1)) 0 rest in
    Some (groups_value (head ++ replicate (8 - length head - length tail) 0 ++ tail), rest).

(** [s.parse::<IpAddr>().ok()]. *)
Definition parse_ip (s : rstring) : option IpAddr :=
  match (match read_ipv4 s with
         | Some (a, rest) => Some (V4 a, rest)
         | None => '(a, rest) ← read_ipv6 s; Some (V6 a, rest)
         end) with
  | Some (ip, []) => Some ip
  | _ => None
  end.

(** [IpAddr::to_canonical]. *)
Definition canonical (ip : IpAddr) : IpAddr :=
  match ip with
  | V6 a => if a / 2 ^ 32 =? 65535 then V4 (a mod 2 ^ 32) else V6 a
  | V4 a => V4 a
  end.

Definition HTTP_TOO_MANY_REQUESTS : Z := 429.
Definition HTTP_SERVICE_UNAVAILABLE : Z := 503.

(** [ConfigError], one constructor per message. *)
Inductive ConfigError :=
  | MaxPayloadZero | HighWaterMarkZero | PingIntervalZero | PongTimeoutZero | AuthTimeoutZero
  | MaxPendingZero | BadCidr (c e : rstring) | EmptySecret.

Section Resolver.
Context {Net : Type} (parse_net : rstring -> Net + rstring) (net_contains : Net -> IpAddr -> bool).

(** [enum ClientIpResolver]. *)
Inductive ClientIpResolver := PeerOnly | RightmostForwarded | TrustedProxies (nets : list Net).

Fixpoint parse_cidrs (cidrs : list rstring) : list Net + ConfigError :=
  match cidrs with
  | [] => inl []
  | c :: cidrs =>
      match parse_net (trim c) with
      | inl net => match parse_cidrs cidrs with inl nets => inl (net :: nets) | inr e => inr e end
      | inr e => inr (BadCidr c e)
      end
  end.

(** [ClientIpResolver::from_trust_proxy]. *)
Definition from_trust_proxy (tp : TrustProxy) : ClientIpResolver + ConfigError :=
  match tp with
  | Never => inl PeerOnly
  | Always => inl RightmostForwarded
  | Cidrs cidrs => match parse_cidrs cidrs with inl nets => inl (TrustedProxies nets) | inr e => inr e end
  end.

(** [fn trusted]. *)
Definition trusted (nets : list Net) (ip : IpAddr) : bool := existsb (fun n => net_contains n ip) nets.

(** [fn parse_hop]. *)
Definition parse_hop (s : rstring) : option IpAddr := canonical <$> parse_ip (trim s).

(** [fn rightmost_hop]. *)
Definition rightmost_hop (xff : rstring) : option IpAddr := head (omap parse_hop (rev (split 44 xff))).

(** The loop of [resolve_via_trusted_chain] over the hops right to left; the
    first component of a hop is its index from the left. *)
Fixpoint walk_chain (nets : list Net) (peer : IpAddr) (hops : list (nat * rstring)) (leftmost : option IpAddr)
    : IpAddr :=
  match hops with
  | [] => default peer leftmost
  | (i, part) :: hops =>
      match parse_hop part with
      | Some ip =>
          if negb (trusted nets ip) then ip
          else walk_chain nets peer hops (if (i =? 0)%nat then Some ip else leftmost)
      | None => peer
      end
  end.

(** [fn resolve_via_trusted_chain]. *)
Definition resolve_via_trusted_chain (nets : list Net) (peer : IpAddr) (xff : rstring) : IpAddr :=
  walk_chain nets peer (rev (imap pair (split 44 xff))) None.

(** [ClientIpResolver::resolve]. *)
Definition resolve (r : ClientIpResolver) (peer : IpAddr) (forwarded_for : option rstring) : IpAddr :=
  let peer := canonical peer in
  match r with
  | PeerOnly => peer
  | RightmostForwarded => default peer (xff ← forwarded_for; rightmost_hop xff)
  | TrustedProxies nets =>
      if negb (trusted nets peer) then peer
      else match forwarded_for with Some xff => resolve_via_trusted_chain nets peer xff | None => peer end
  end.

(** [Config::validate]. *)
Definition validate (cfg : Config) : option ConfigError :=
  if max_payload_bytes (limits cfg) =? 0 then Some MaxPayloadZero
  else if high_water_mark (backpressure cfg) =? 0 then Some HighWaterMarkZero
  else if ping_interval (keepalive cfg) <? 1 then Some PingIntervalZero
  else if pong_timeout (keepalive cfg) <? 1 then Some PongTimeoutZero
  else if timeout (authorize cfg) <? 1 then Some AuthTimeoutZero
  else if max_pending (authorize cfg) =? 0 then Some MaxPendingZero
  else match from_trust_proxy (trust_proxy cfg) with
       | inr e => Some e
       | inl _ =>
           match cluster cfg with
           | Some c => if bool_decide (cc_secret c = []) then Some EmptySecret else None
           | None => None
           end
       end.

End Resolver.
#[global] Arguments ClientIpResolver : clear implicits.

(** [fn header_value]: first header whose name matches, ignoring ASCII case. *)
Definition eq_ignore_ascii_case (a b : rstring) : bool :=
  bool_decide (map to_ascii_lower a = map to_ascii_lower b).
Definition header_value (headers : list (rstring * rstring)) (name : rstring) : option rstring :=
  snd <$> List.find (fun '(k, _) => eq_ignore_ascii_case k name) headers.

Module IpLimiter.

(** [struct IpLimiter]. *)
Record t := { max_per_ip : Z; counts : gmap IpAddr Z }.

(** [IpLimiter::new]. *)
Definition new (max : Z) : t := {| max_per_ip := max; counts := ∅ |}.

(** [IpLimiter::unlimited]. *)
Definition unlimited (l : t) : bool := max_per_ip l =? 0.

(** [struct IpAdmitGuard]: whether it holds a slot, and the address. *)
Record Guard := { holds : bool; client_ip : IpAddr }.

Definition set_counts (m : gmap IpAddr Z) (l : t) : t := {| max_per_ip := max_per_ip l; counts := m |}.

(** [IpLimiter::try_admit]; the entry guard makes it one atomic step. *)
Definition try_admit (ip : IpAddr) (l : t) : option Guard * t :=
  if max_per_ip l =? 0 then (Some {| holds := false; client_ip := ip |}, l)
  else
    let entry := default 0 (counts l !! ip) in
    if max_per_ip l <=? entry then (None, set_counts (<[ip := entry]> (counts l)) l)
    else (Some {| holds := true; client_ip := ip |}, set_counts (<[ip := wrap 32 (entry + 1)]> (counts l)) l).

(** The first half of [release]: decrement; the boolean says that it reached 0. *)
Definition decrement (ip : IpAddr) (l : t) : bool * t :=
  match counts l !! ip with
  | Some n => let n' := wrap 32 (n - 1) in (n' =? 0, set_counts (<[ip := n']> (counts l)) l)
  | None => (false, l)
  end.

(** The second half: [remove_if(&ip, |_, v| *v == 0)]. *)
Definition remove_if_zero (ip : IpAddr) (l : t) : t :=
  match counts l !! ip with
  | Some n => if n =? 0 then set_counts (delete ip (counts l)) l else l
  | None => l
  end.

(** [IpLimiter::release] run by one thread, from [Drop for IpAdmitGuard]. *)
Definition release (ip : IpAddr) (l : t) : t :=
  let '(zero, l') := decrement ip l in if zero then remove_if_zero ip l' else l'.
Definition drop_guard (g : Guard) (l : t) : t := if holds g then release (client_ip g) l else l.

(** [IpLimiter::current] and [tracked_ips]. *)
Definition current (ip : IpAddr) (l : t) : Z := default 0 (counts l !! ip).
Definition tracked_ips (l : t) : nat := size (counts l).

End IpLimiter.

Module Gate.
Section Gate.
Context {Net : Type} (net_contains : Net -> IpAddr -> bool).

(** [struct Gate]. *)
Record t := {
  resolver : ClientIpResolver Net;
  limiter : IpLimiter.t;
  metrics : Metrics.t;
  draining : bool;
}.

(** [struct AdmittedUpgrade]. *)
Record AdmittedUpgrade := {
  au_client_ip : IpAddr;
  au_headers : list (rstring * rstring);
  au_url : rstring;
  au_guard : IpLimiter.Guard;
}.

(** [Gate::new], [set_draining]. *)
Definition new (r : ClientIpResolver Net) (l : IpLimiter.t) (m : Metrics.t) : t :=
  {| resolver := r; limiter := l; metrics := m; draining := false |}.
Definition set_draining (b : bool) (g : t) : t :=
  {| resolver := resolver g; limiter := limiter g; metrics := metrics g; draining := b |}.

(** [Gate::resolve_client_ip]. *)
Definition resolve_client_ip (peer : IpAddr) (headers : list (rstring * rstring)) (g : t) : IpAddr :=
  resolve net_contains (resolver g) peer (header_value headers (str "x-forwarded-for")).

(** [Gate::admit]. *)
Definition admit_upgrade (peer : IpAddr) (headers : list (rstring * rstring)) (url : rstring) (g : t)
    : (AdmittedUpgrade + Z) * t :=
  if draining g then (inr HTTP_SERVICE_UNAVAILABLE, g)
  else
    let ip := resolve_client_ip peer headers g in
    match IpLimiter.try_admit ip (limiter g) with
    | (Some guard, l) =>
        (inl {| au_client_ip := ip; au_headers := headers; au_url := url; au_guard := guard |},
         {| resolver := resolver g; limiter := l; metrics := metrics g; draining := draining g |})
    | (None, l) =>
        (inr HTTP_TOO_MANY_REQUESTS,
         {| resolver := resolver g; limiter := l;
            metrics := Metrics.add Metrics.AdmissionRejectedIp 1 (metrics g); draining := draining g |})
    end.
End Gate.
#[global] Arguments t : clear implicits.
End Gate.

(** ** The forwarded chain cannot be spoofed *)

Section Spoofing.
Context {Net : Type} (net_contains : Net -> IpAddr -> bool).

Lemma split_app c p s : split c (p ++ c :: s) = split c p ++ split c s.
Proof.
  induction p as [|x p IH]; simpl; [by rewrite Z.eqb_refl|].
  destruct (x =? c); rewrite IH; [done|]. by destruct (split c p) eqn:E; [destruct p; simpl in E; repeat break_match_hyp E|].
Qed.

(** Trusted hops that are not the leftmost are passed over. *)
Lemma walk_trusted nets peer hops rest lm ips :
  Forall (fun h => h.1 <> 0%nat) hops -> map (fun h => parse_hop h.2) hops = map Some ips ->
  Forall (fun ip => trusted net_contains nets ip = true) ips ->
  walk_chain net_contains nets peer (hops ++ rest) lm = walk_chain net_contains nets peer rest lm.
Proof.
  revert ips. induction hops as [|[i part] hops IH]; intros ips Hi Hp Ht; [done|].
  destruct ips as [|ip ips]; [done|]. simpl in Hp. injection Hp as Hp Hps.
  apply Forall_cons in Hi as [Hi His], Ht as [Ht Hts]. simpl in *.
  rewrite Hp, Ht. simpl. destruct (Nat.eqb_spec i 0); [done|]. by eapply IH.
Qed.

(** The walk over [forged,hop0,hop1..]: [hop0] decides when the rest is trusted. *)
Lemma walk_suffix nets peer forged suffix p ips :
  map parse_hop (split 44 suffix) = p :: map Some ips ->
  Forall (fun ip => trusted net_contains nets ip = true) ips ->
  match p with
  | Some ip => trusted net_contains nets ip = false ->
      resolve_via_trusted_chain net_contains nets peer (forged ++ 44 :: suffix) = ip
  | None => resolve_via_trusted_chain net_contains nets peer (forged ++ 44 :: suffix) = peer
  end.
Proof.
  intros Hs Ht. unfold resolve_via_trusted_chain. rewrite split_app, imap_app.
  destruct (split 44 suffix) as [|h0 hs]; [done|]. simpl in Hs. injection Hs as Hp Hs.
  rewrite rev_app_distr. simpl. rewrite <-!app_assoc. simpl.
  rewrite (walk_trusted nets peer _ _ _ (rev ips)).
  - simpl. rewrite Hp. destruct p as [ip|]; [intros E; by rewrite E|done].
  - apply Forall_rev, Forall_forall. intros h Hh. apply elem_of_lookup_imap in Hh as (i & x & -> & _). simpl. lia.
  - rewrite map_rev. change (map Some (rev ips)) with (map Some (rev ips)). rewrite map_rev. f_equal.
    rewrite <-Hs. clear. generalize (length (split 44 forged)). intros n.
    assert (H : forall f : nat -> nat, map (fun h => parse_hop h.2) (imap (fun i => pair (f i)) hs) = map parse_hop hs).
    { induction hs as [|x hs IH]; intros f; [done|]. simpl. f_equal. apply (IH (fun i => f (S i))). }
    apply (H (fun i => (n + S i)%nat)).
  - by apply Forall_rev.
Qed.

(** A chain of trusted hops only: its leftmost address. *)
Lemma walk_all_trusted nets peer xff ip ips :
  map parse_hop (split 44 xff) = Some ip :: map Some ips ->
  Forall (fun ip => trusted net_contains nets ip = true) (ip :: ips) ->
  resolve_via_trusted_chain net_contains nets peer xff = ip.
Proof.
  intros Hs [Hip Hips]%Forall_cons. unfold resolve_via_trusted_chain. destruct (split 44 xff) as [|h0 hs]; [done|]. simpl in Hs. injection Hs as Hp Hs.
  simpl. rewrite (walk_trusted nets peer _ _ _ (rev ips)).
  - simpl. by rewrite Hp, Hip.
  - apply Forall_rev, Forall_forall. intros h Hh. apply elem_of_lookup_imap in Hh as (i & x & -> & _). simpl. lia.
  - rewrite !map_rev. f_equal. rewrite <-Hs.
    assert (H : forall f : nat -> nat, map (fun h => parse_hop h.2) (imap (fun i => pair (f i)) hs) = map parse_hop hs).
    { clear. induction hs as [|x hs IH]; intros f; [done|]. simpl. f_equal. apply (IH (fun i => f (S i))). }
    apply (H S).
  - by apply Forall_rev.
Qed.

End Spoofing.

(** Networks as (address, prefix length) over IPv4, for concrete inputs. *)
Definition demo_contains (n : Z * Z) (ip : IpAddr) : bool :=
  match ip with V4 a => a / 2 ^ (32 - n.2) =? n.1 / 2 ^ (32 - n.2) | V6 _ => false end.


(** ** The per-IP cap under concurrency *)

Section Cap.
Import IpLimiter.

(** The limiter, the addresses of the guards alive (one entry per guard), and
    the addresses whose [remove_if] is still to run. *)
Record LimState := { lim : IpLimiter.t; live : list IpAddr; removing : list IpAddr }.

Inductive lim_step : LimState -> LimState -> Prop :=
  | LAdmit s ip g l :
      try_admit ip (lim s) = (Some g, l) ->
      lim_step s {| lim := l; live := if holds g then ip :: live s else live s; removing := removing s |}
  | LReject s ip l :
      try_admit ip (lim s) = (None, l) ->
      lim_step s {| lim := l; live := live s; removing := removing s |}
  | LDrop s ip l1 l2 zero l :
      live s = l1 ++ ip :: l2 -> decrement ip (lim s) = (zero, l) ->
      lim_step s {| lim := l; live := l1 ++ l2; removing := if zero : bool then ip :: removing s else removing s |}
  | LRemove s ip l1 l2 :
      removing s = l1 ++ ip :: l2 ->
      lim_step s {| lim := remove_if_zero ip (lim s); live := live s; removing := l1 ++ l2 |}.

Definition lim_start (max : Z) : LimState := {| lim := new max; live := []; removing := [] |}.

(** How many live guards an address has. *)
Definition guards (ip : IpAddr) (l : list IpAddr) : Z := Z.of_nat (length (filter (fun x => x = ip) l)).

Lemma guards_cons ip x l : guards ip (x :: l) = (if decide (x = ip) then 1 else 0) + guards ip l.
Proof. unfold guards. rewrite filter_cons. case_decide; simpl; lia. Qed.

Lemma guards_middle ip x l1 l2 : guards ip (l1 ++ x :: l2) = (if decide (x = ip) then 1 else 0) + guards ip (l1 ++ l2).
Proof. unfold guards. rewrite !filter_app, filter_cons, !length_app. case_decide; simpl; lia. Qed.

Lemma guards_elem ip l : guards ip l <> 0 <-> ip ∈ l.
Proof.
  induction l as [|x l IH]; [cbn; set_solver|]. rewrite guards_cons, elem_of_cons.
  assert (0 <= guards ip l) by (unfold guards; lia). case_decide; naive_solver lia.
Qed.

Record lim_inv (max : Z) (s : LimState) : Prop := {
  li_max : max_per_ip (lim s) = max;
  li_count : forall ip, current ip (lim s) = guards ip (live s);
  li_cap : forall ip, guards ip (live s) <= max;
  li_zero : forall ip, counts (lim s) !! ip = Some 0 -> ip ∈ removing s;
}.

Lemma current_insert ip n l j :
  current j (set_counts (<[ip := n]> (counts l)) l) = if decide (ip = j) then n else current j l.
Proof. unfold current. cbn. rewrite lookup_insert. by case_decide. Qed.

Lemma lim_step_inv max s s' : 0 < max < 2 ^ 32 -> lim_step s s' -> lim_inv max s -> lim_inv max s'.
Proof.
  intros Hmax Hst [Hm Hc Hcap Hz]. destruct Hst as [s ip g l Ha|s ip l Ha|s ip l1 l2 zero l Hl Hd|s ip l1 l2 Hr].
  - unfold try_admit in Ha. rewrite Hm, (proj2 (Z.eqb_neq _ _)) in Ha by lia.
    fold (current ip (lim s)) in Ha. rewrite Hc in Ha.
    destruct (Z.leb_spec max (guards ip (live s))); simplify_eq. cbn [holds].
    assert (0 <= guards ip (live s)) by (unfold guards; lia).
    split; cbn [lim live removing]; [done|..]; intros j; rewrite ?current_insert, ?guards_cons, ?Hc, ?wrap_small by lia.
    + case_decide; subst; lia.
    + specialize (Hcap j). case_decide; subst; lia.
    + cbn. rewrite lookup_insert_Some. intros [[<- Hw]|[_ Hj]]; [lia|by apply Hz].
  - unfold try_admit in Ha. rewrite Hm, (proj2 (Z.eqb_neq _ _)) in Ha by lia.
    fold (current ip (lim s)) in Ha. rewrite Hc in Ha.
    destruct (Z.leb_spec max (guards ip (live s))); simplify_eq.
    split; cbn [lim live removing]; [done|..|]; [|done|]; intros j; rewrite ?current_insert.
    + case_decide; subst; [done|apply Hc].
    + cbn. rewrite lookup_insert_Some. intros [[<- Hw]|[_ Hj]]; [lia|by apply Hz].
  - pose proof (Hc ip) as Hip. rewrite Hl, guards_middle, decide_True in Hip by done.
    assert (0 <= guards ip (l1 ++ l2)) by (unfold guards; lia).
    pose proof (Hcap ip) as Hcip. rewrite Hl, guards_middle, decide_True in Hcip by done.
    unfold decrement in Hd. unfold current in Hip. destruct (counts (lim s) !! ip) as [n|] eqn:En; simpl in Hip; [|lia].
    rewrite wrap_small in Hd by lia. simplify_eq.
    split; cbn [lim live removing]; [done|..]; intros j.
    + rewrite current_insert, Hc, Hl, guards_middle. case_decide; subst; lia.
    + specialize (Hcap j). rewrite Hl, guards_middle in Hcap. case_decide; lia.
    + cbn. rewrite lookup_insert_Some. intros [[<- Hw]|[_ Hj]].
      * rewrite (proj2 (Z.eqb_eq _ _)) by lia. set_solver.
      * apply Hz in Hj. destruct (_ =? 0); set_solver.
  - assert (Hrm : forall j, counts (remove_if_zero ip (lim s)) !! j = counts (lim s) !! j \/
      j = ip /\ counts (lim s) !! j = Some 0 /\ counts (remove_if_zero ip (lim s)) !! j = None).
    { intros j. unfold remove_if_zero. destruct (counts (lim s) !! ip) as [n|] eqn:En; [|by left].
      destruct (Z.eqb_spec n 0); [subst|by left]. cbn. destruct (decide (ip = j)) as [->|]; [right|left].
      - by rewrite lookup_delete_eq. - by rewrite lookup_delete_ne. }
    split; cbn [lim live removing]; [by unfold remove_if_zero; repeat break_match| |done|].
    + intros j. rewrite <-Hc. unfold current. destruct (Hrm j) as [->|(-> & -> & ->)]; done.
    + intros j Hj. destruct (Hrm j) as [E|(_ & _ & E)]; [|congruence]. rewrite E in Hj. pose proof (Hz j Hj) as Hin.
      rewrite Hr in Hin. destruct (decide (j = ip)) as [->|]; [|set_solver].
      unfold remove_if_zero in E. rewrite Hj in E. cbn in E. by rewrite lookup_delete_eq in E.
Qed.

(** C27. [maxConnectionsPerIp]: for every interleaving of admissions and guard
    drops, the count of an address is exactly the number of guards alive for it
    and never exceeds the cap (so the counter never wraps); and when no release
    is half done, exactly the addresses with a live guard are tracked. *)
Theorem per_ip_cap max s :
  0 < max < 2 ^ 32 -> rtc lim_step (lim_start max) s ->
  forall ip, current ip (lim s) = guards ip (live s) /\ guards ip (live s) <= max /\
    (removing s = [] -> is_Some (counts (lim s) !! ip) <-> ip ∈ live s).
Proof.
  intros Hmax Hr. assert (Hi : lim_inv max s).
  { revert Hr. apply (rtc_ind_r (fun s => lim_inv max s)); [|intros y z _ Hs Hy; by eapply lim_step_inv].
    split; cbn; try done. intros ip. unfold guards. simpl. lia. }
  destruct Hi as [Hm Hc Hcap Hz]. intros ip. split_and!; [done..|]. intros Hq.
  rewrite <-guards_elem, <-Hc. unfold current. destruct (counts (lim s) !! ip) as [n|] eqn:E; simpl; [|split; [by intros []|done]].
  split; [|eauto]. intros _ ->. apply Hz in E. rewrite Hq in E. set_solver.
Qed.
End Cap.

Lemma per_ip_cap_witness :
  exists s, rtc lim_step (lim_start 1) s /\ IpLimiter.current (V4 7) (lim s) = guards (V4 7) (live s) /\
    guards (V4 7) (live s) = 1.
Proof.
  eexists. assert (Hr : rtc lim_step (lim_start 1)
    {| lim := {| IpLimiter.max_per_ip := 1; IpLimiter.counts := <[V4 7 := 1]> ∅ |}; live := [V4 7]; removing := [] |}).
  { eapply rtc_l; [by eapply (LAdmit _ (V4 7))|]. apply rtc_refl. }
  split; [exact Hr|]. destruct (per_ip_cap 1 _ ltac:(lia) Hr (V4 7)) as (Hc & _). split; [exact Hc|reflexivity].
Defined.

(** ** One admission, and its undoing *)

Section Undo.
Import IpLimiter.

(** What [try_admit] does to the counts, when they are within the cap. *)
Lemma try_admit_current ip lm r lm' : 0 <= max_per_ip lm < 2 ^ 32 -> 0 <= current ip lm -> try_admit ip lm = (r, lm') ->
  max_per_ip lm' = max_per_ip lm /\
  match r with
  | Some g => g = {| holds := negb (unlimited lm); client_ip := ip |} /\
      (forall j, current j lm' = current j lm + if decide (j = ip /\ holds g = true) then 1 else 0)
  | None => unlimited lm = false /\ max_per_ip lm <= current ip lm /\ (forall j, current j lm' = current j lm)
  end.
Proof.
  intros Hm Hc E. unfold try_admit in E. unfold unlimited. destruct (Z.eqb_spec (max_per_ip lm) 0) as [Hz|Hnz].
  { simplify_eq/=. split_and!; [done..|]. intros j. rewrite decide_False by naive_solver. lia. }
  fold (current ip lm) in E. destruct (Z.leb_spec (max_per_ip lm) (current ip lm)); simplify_eq/=; (split; [done|]).
  - split_and!; [done..|]. intros j. rewrite current_insert. by case_decide; subst.
  - split; [done|]. intros j. rewrite current_insert. case_decide; subst; [rewrite decide_True, wrap_small by (done || lia); lia|].
    rewrite decide_False by naive_solver. lia.
Qed.

Lemma current_release ip lm j : 1 <= current ip lm < 2 ^ 32 ->
  current j (release ip lm) = current j lm - if decide (j = ip) then 1 else 0.
Proof.
  intros Hc. unfold release, decrement. unfold current in Hc. destruct (counts lm !! ip) as [n|] eqn:E; simpl in Hc; [|lia].
  rewrite wrap_small by lia. destruct (Z.eqb_spec (n - 1) 0) as [Hz|Hnz].
  - unfold remove_if_zero. cbn [counts set_counts]. rewrite lookup_insert_eq, Hz. cbn [Z.eqb]. unfold current. cbn [counts set_counts].
    destruct (decide (j = ip)) as [->|]; [rewrite lookup_delete_eq, E; simpl; lia|].
    rewrite lookup_delete_ne, lookup_insert_ne by congruence. lia.
  - rewrite current_insert. destruct (decide (j = ip)) as [->|]; [rewrite decide_True by done; unfold current; rewrite E; simpl; lia|].
    rewrite decide_False by congruence. lia.
Qed.

(** Dropping the guard of an admission restores every count. *)
Lemma admit_then_drop ip lm g lm' : 0 <= max_per_ip lm < 2 ^ 32 -> 0 <= current ip lm -> try_admit ip lm = (Some g, lm') ->
  forall j, current j (drop_guard g lm') = current j lm.
Proof.
  intros Hm Hc E j. pose proof E as E0. apply try_admit_current in E as (_ & -> & Hall); [|done..]. unfold drop_guard. cbn [holds client_ip] in *.
  unfold unlimited in *. destruct (Z.eqb_spec (max_per_ip lm) 0) as [Hz|Hnz]; cbn [negb] in *.
  { rewrite Hall, decide_False by naive_solver. lia. }
  assert (Hlt : current ip lm < max_per_ip lm).
  { unfold try_admit in E0. rewrite (proj2 (Z.eqb_neq _ _)) in E0 by done. fold (current ip lm) in E0.
    destruct (Z.leb_spec (max_per_ip lm) (current ip lm)); by simplify_eq. }
  rewrite current_release by (rewrite Hall, decide_True by done; lia). rewrite Hall.
  destruct (decide (j = ip)) as [->|]; [rewrite decide_True by done|rewrite decide_False by naive_solver]; lia.
Qed.
End Undo.

(** ** A validated configuration *)

(** What [validate] establishes for the components: the bounds their theorems
    assume. *)
Lemma validate_ok {Net} (parse_net : rstring -> Net + rstring) cfg :
  validate parse_net cfg = None ->
  high_water_mark (backpressure cfg) <> 0 /\ 1 <= ping_interval (keepalive cfg) /\
  1 <= pong_timeout (keepalive cfg) /\ 1 <= timeout (authorize cfg) /\ max_pending (authorize cfg) <> 0 /\
  max_payload_bytes (limits cfg) <> 0 /\ (exists r, from_trust_proxy parse_net (trust_proxy cfg) = inl r) /\
  forall c, cluster cfg = Some c -> cc_secret c <> [].
Proof.
  unfold validate. intros Hv. repeat (case_match; try discriminate Hv); bool_facts; split_and!; try done; try lia; eauto.
  all: intros c' [= <-]; done.
Qed.
