(* ===== verification/Addr.v ===== *)
(** * The text of a socket address (std: [SocketAddr::from_str] and its [Display])

    The parser is the one of [core::net] started in Limits.v; the printer is its
    inverse on the addresses the prototypes bind, which are IPv4. *)

From S2P Require Import Prelude Text Wire Config Limits.

(** ** [from_str] *)

Definition read_port (s : bytes) : option (Z * bytes) :=
  rest ← strip_prefix [58] s; read_number 10 (2 ^ 16) (length rest) true rest.
(** An optional [%scope], which is not kept. *)
Definition skip_scope (s : bytes) : bytes :=
  match (rest ← strip_prefix [37] s; read_number 10 (2 ^ 32) (length rest) true rest) with Some (_, rest) => rest | None => s end.
Definition read_addr_v4 (s : bytes) : option (SocketAddr * bytes) :=
  '(a, rest) ← read_ipv4 s; '(p, rest) ← read_port rest; Some ({| ip := V4 a; port := p |}, rest).
Definition read_addr_v6 (s : bytes) : option (SocketAddr * bytes) :=
  rest ← strip_prefix [91] s; '(a, rest) ← read_ipv6 rest; rest ← strip_prefix [93] (skip_scope rest);
  '(p, rest) ← read_port rest; Some ({| ip := V6 a; port := p |}, rest).
Definition parse_socket_addr (s : rstring) : option SocketAddr :=
  match (match read_addr_v4 s with Some r => Some r | None => read_addr_v6 s end) with
  | Some (a, []) => Some a
  | _ => None
  end.

(** ** [to_string] *)

Definition print_ipv4 (a : Z) : rstring :=
  dec (a / 2 ^ 24) ++ [46] ++ dec (a / 2 ^ 16 mod 256) ++ [46] ++ dec (a / 2 ^ 8 mod 256) ++ [46] ++ dec (a mod 256).

(** [{:x}] of a 16-bit group. *)
Definition hex_digit (d : Z) : Z := if d <? 10 then 48 + d else 87 + d.
Definition hex16 (g : Z) : rstring :=
  let ds := [g / 4096; g / 256 mod 16; g / 16 mod 16; g mod 16] in
  map hex_digit (drop (if g <? 16 then 3 else if g <? 256 then 2 else if g <? 4096 then 1 else 0) ds).
Definition segments (a : Z) : list Z := map (fun i => a / 2 ^ (16 * (7 - Z.of_nat i)) mod 2 ^ 16) (seq 0 8).

(** The longest run of zero groups: its start and length, the first one on a tie. *)
Fixpoint zero_runs (i : nat) (cur best : nat * nat) (gs : list Z) : nat * nat :=
  match gs with
  | [] => best
  | g :: gs =>
      if g =? 0 then
        let cur := (if (cur.2 =? 0)%nat then i else cur.1, S cur.2) in
        zero_runs (S i) cur (if (best.2 <? cur.2)%nat then cur else best) gs
      else zero_runs (S i) (O, O) best gs
  end.

Fixpoint join_colon (gs : list Z) : rstring :=
  match gs with [] => [] | [g] => hex16 g | g :: gs => hex16 g ++ [58] ++ join_colon gs end.

Definition print_ipv6 (a : Z) : rstring :=
  if a / 2 ^ 32 =? 65535 then str "::ffff:" ++ print_ipv4 (a mod 2 ^ 32)
  else
    let gs := segments a in
    let '(start, len) := zero_runs 0 (O, O) (O, O) gs in
    if (1 <? len)%nat then join_colon (take start gs) ++ [58; 58] ++ join_colon (drop (start + len) gs) else join_colon gs.

Definition print_socket_addr (a : SocketAddr) : rstring :=
  match ip a with
  | V4 x => print_ipv4 x ++ [58] ++ dec (port a)
  | V6 x => [91] ++ print_ipv6 x ++ [93; 58] ++ dec (port a)
  end.

Example print_v4 : print_socket_addr {| ip := V4 2130706433; port := 47000 |} = str "127.0.0.1:47000".
Proof. vm_compute. reflexivity. Qed.
Example print_v6 : print_socket_addr {| ip := V6 (2 ^ 125 + 1); port := 7 |} = str "[2000::1]:7".
Proof. vm_compute. reflexivity. Qed.

(** ** Ranges *)

Lemma to_digit_nonneg radix c d : 0 <= radix -> to_digit radix c = Some d -> 0 <= d.
Proof. unfold to_digit. intros Hr E. repeat break_match_hyp E; simplify_eq; bool_facts; lia. Qed.

Lemma read_digits_range radix limit budget acc count s v n rest :
  0 <= radix -> 0 <= acc < limit -> read_digits radix limit budget acc count s = Some (v, n, rest) -> 0 <= v < limit.
Proof.
  intros Hr. revert acc count s. induction budget as [|budget IH]; intros acc count [|c s] Ha E; cbn [read_digits] in E; try by injection E as <- _ _.
  - destruct (to_digit radix c); [done|by injection E as <- _ _].
  - destruct (to_digit radix c) as [d|] eqn:Ed; [|by injection E as <- _ _]. apply to_digit_nonneg in Ed; [|done].
    destruct (Z.leb_spec limit (acc * radix + d)); [done|]. eapply IH; [|exact E]. nia.
Qed.

Lemma read_number_range radix limit md z s v rest : 0 <= radix -> 0 < limit -> read_number radix limit md z s = Some (v, rest) -> 0 <= v < limit.
Proof.
  intros Hr Hl. unfold read_number. destruct (read_digits radix limit md 0 0%nat s) as [[[v' n] rest']|] eqn:E; [|done]. cbn [mbind option_bind].
  intros E'. repeat break_match_hyp E'; simplify_eq. eapply read_digits_range; [done| |exact E]. lia.
Qed.

Lemma read_port_range s p rest : read_port s = Some (p, rest) -> u16_ok p.
Proof. unfold read_port. destruct (strip_prefix [58] s); [|done]. cbn [mbind option_bind]. apply read_number_range; lia. Qed.

(** A parsed socket address has a 16-bit port. *)
Lemma parse_socket_addr_port s a : parse_socket_addr s = Some a -> u16_ok (port a).
Proof.
  unfold parse_socket_addr. intros E.
  assert (Hr : exists rest, read_addr_v4 s = Some (a, rest) \/ read_addr_v6 s = Some (a, rest)).
  { repeat break_match_hyp E; simplify_eq; eauto. }
  destruct Hr as (rest & [Hr|Hr]).
  - unfold read_addr_v4 in Hr. destruct (read_ipv4 s) as [[x r]|]; [|done]. cbn [mbind option_bind] in Hr.
    destruct (read_port r) as [[p r']|] eqn:Ep; [|done]. cbn [mbind option_bind] in Hr. simplify_eq. by eapply read_port_range.
  - unfold read_addr_v6 in Hr. destruct (strip_prefix [91] s) as [s1|]; [|done]. cbn [mbind option_bind] in Hr.
    destruct (read_ipv6 s1) as [[x r]|]; [|done]. cbn [mbind option_bind] in Hr.
    destruct (strip_prefix [93] (skip_scope r)) as [s2|]; [|done]. cbn [mbind option_bind] in Hr.
    destruct (read_port s2) as [[p r']|] eqn:Ep; [|done]. cbn [mbind option_bind] in Hr. simplify_eq. by eapply read_port_range.
Qed.

(** ** What is printed reads back *)

Definition not_digit (s : bytes) : Prop := match s with b :: _ => to_digit 10 b = None | [] => True end.

Lemma to_digit_dec b : is_digit b = true -> to_digit 10 b = Some (b - 48).
Proof.
  intros Hd. unfold to_digit. unfold is_digit in Hd. rewrite Hd. apply andb_true_iff in Hd as [H1 H2].
  apply Z.leb_le in H1, H2. destruct (Z.ltb_spec (b - 48) 10); [done|lia].
Qed.

Lemma scan_dec_ge ds rest acc v : 0 <= acc -> Forall (fun b => is_digit b = true) ds -> scan_dec acc (ds ++ rest) = (v, rest) ->
  match rest with b :: _ => is_digit b = false | [] => True end -> acc <= v.
Proof.
  revert acc. induction ds as [|b ds IH]; intros acc Ha Hd E Hr; cbn [app] in E.
  - destruct rest as [|b rest]; cbn [scan_dec] in E; [|rewrite Hr in E]; injection E; lia.
  - apply Forall_cons in Hd as [Hb Hd]. cbn [scan_dec] in E. rewrite Hb in E. unfold is_digit in Hb. bool_facts.
    apply IH in E; [|lia|done|done]. lia.
Qed.

Lemma not_digit_is s : not_digit s -> match s with b :: _ => is_digit b = false | [] => True end.
Proof. destruct s as [|b s]; [done|]. cbn. destruct (is_digit b) eqn:E; [|done]. by rewrite to_digit_dec. Qed.

Lemma read_digits_dec limit budget acc count ds rest v :
  0 <= acc -> (length ds <= budget)%nat -> Forall (fun b => is_digit b = true) ds -> not_digit rest ->
  scan_dec acc (ds ++ rest) = (v, rest) -> v < limit ->
  read_digits 10 limit budget acc count (ds ++ rest) = Some (v, (count + length ds)%nat, rest).
Proof.
  revert budget acc count. induction ds as [|b ds IH]; intros budget acc count Ha Hb Hd Hr E Hv; cbn [app length] in *.
  - rewrite Nat.add_0_r. pose proof (not_digit_is _ Hr) as Hr'. destruct rest as [|c rest]; cbn [scan_dec] in E.
    + injection E as <-. by destruct budget.
    + rewrite Hr' in E. injection E as <-. cbn in Hr. destruct budget; cbn [read_digits]; by rewrite Hr.
  - apply Forall_cons in Hd as [Hdb Hd]. destruct budget as [|budget]; [lia|]. cbn [read_digits]. rewrite to_digit_dec by done.
    cbn [scan_dec] in E. rewrite Hdb in E. assert (Hb' : 0 <= b - 48) by (unfold is_digit in Hdb; bool_facts; lia).
    pose proof (scan_dec_ge ds rest (acc * 10 + (b - 48)) v ltac:(lia) Hd E (not_digit_is _ Hr)) as Hge.
    destruct (Z.leb_spec limit (acc * 10 + (b - 48))); [lia|]. rewrite (IH budget) by (done || lia). do 3 f_equal. lia.
Qed.

Lemma read_number_dec limit md allow n rest :
  0 <= n < limit -> (length (dec n) <= md)%nat -> (allow = false -> head (dec n) = Some 48 -> length (dec n) = 1%nat) -> not_digit rest ->
  read_number 10 limit md allow (dec n ++ rest) = Some (n, rest).
Proof.
  intros Hn Hl Hz Hr. destruct (dec_digits n) as [Hd Hne]; [lia|]. unfold read_number.
  rewrite (read_digits_dec limit md 0 0%nat (dec n) rest n); [|lia|done|done|done|apply dec_scan; [lia|by apply not_digit_is]|lia].
  cbn [mbind option_bind Nat.add]. destruct (dec n) as [|b ds] eqn:Ed; [done|]. cbn [length Nat.eqb app head].
  destruct allow; [done|]. cbn [negb andb]. case_bool_decide as Hb; [|done]. cbn [andb]. cbn in Hz. rewrite (Hz eq_refl Hb). done.
Qed.

(** Octets: at most three digits, no leading zero. *)
Lemma octet_text n : 0 <= n < 256 -> (length (dec n) <= 3)%nat /\ (head (dec n) = Some 48 -> length (dec n) = 1%nat).
Proof.
  intros Hn. assert (Hall : Forall (fun n => (length (dec n) <= 3)%nat /\ (head (dec n) = Some 48 -> length (dec n) = 1%nat)) (map Z.of_nat (seq 0 256))).
  { apply (bool_decide_unpack _). vm_compute. exact I. }
  eapply Forall_forall in Hall; [exact Hall|]. apply list_elem_of_fmap. exists (Z.to_nat n). split; [lia|]. apply elem_of_seq. lia.
Qed.

Lemma read_octet n rest : 0 <= n < 256 -> not_digit rest -> read_number 10 256 3 false (dec n ++ rest) = Some (n, rest).
Proof. intros Hn Hr. destruct (octet_text n Hn) as [Hl Hz]. by apply read_number_dec. Qed.

Lemma read_print_ipv4 a rest : 0 <= a < 2 ^ 32 -> not_digit rest -> read_ipv4 (print_ipv4 a ++ rest) = Some (a, rest).
Proof.
  intros Ha Hr. unfold read_ipv4, print_ipv4. rewrite <-!app_assoc. unfold read_separator.
  assert (Hm : forall x, 0 <= x mod 256 < 256) by (intros; apply Z.mod_pos_bound; lia).
  rewrite read_octet; [|split; [apply Z.div_pos; lia|apply Z.div_lt_upper_bound; lia]|done]. cbn [mbind option_bind strip_prefix app Z.eqb Pos.eqb].
  do 2 (rewrite read_octet by done; cbn [mbind option_bind strip_prefix app Z.eqb Pos.eqb]).
  rewrite read_octet by done. cbn [mbind option_bind]. do 2 f_equal.
  assert (E1 : a / 2 ^ 24 = a / 256 / 256 / 256) by (rewrite !Z.div_div by lia; done).
  assert (E2 : a / 2 ^ 16 = a / 256 / 256) by (rewrite !Z.div_div by lia; done). change (2 ^ 8) with 256. rewrite E1, E2.
  pose proof (Z.div_mod a 256 ltac:(lia)). pose proof (Z.div_mod (a / 256) 256 ltac:(lia)). pose proof (Z.div_mod (a / 256 / 256) 256 ltac:(lia)). lia.
Qed.

(** An IPv4 address within its ranges prints to a text that parses back to it. *)
Lemma parse_print_v4 x p : 0 <= x < 2 ^ 32 -> u16_ok p -> parse_socket_addr (print_socket_addr {| ip := V4 x; port := p |}) = Some {| ip := V4 x; port := p |}.
Proof.
  intros Hx Hp. unfold parse_socket_addr, read_addr_v4, print_socket_addr. cbn [ip port]. rewrite read_print_ipv4 by done.
  cbn [mbind option_bind]. unfold read_port. cbn [app strip_prefix mbind option_bind Z.eqb Pos.eqb].
  pose proof (read_number_dec (2 ^ 16) (length (dec p)) true p []) as E. rewrite app_nil_r in E. rewrite E; [done|exact Hp|done|done|done].
Qed.
