(* ===== verification/Identity.v ===== *)
(** * Users and the authorize round trip (crates/core/src/identity.rs)

    The user index is a multimap with the room map's auto-destroy idiom.  The
    authorizer runs one task per pending upgrade; its shared state is the
    in-flight counter, the id counter and the pending table, each atomic.  A
    oneshot channel is a cell keyed by the request id. *)

From S2P Require Import Prelude Ids Runtime Config Metrics Events Connection.

Module IdentityRegistry.

(** [struct IdentityRegistry]. *)
Abbreviation t := (gmap UserId (gset Z)) (only parsing).

(** [IdentityRegistry::new]. *)
Definition new : t := ∅.

(** [IdentityRegistry::bind]. *)
Definition bind (user : UserId) (id : ConnectionId) (users : t) : t :=
  <[user := {[id]} ∪ default ∅ (users !! user)]> users.

(** [IdentityRegistry::unbind], run by one thread. *)
Definition unbind (user : UserId) (id : ConnectionId) (users : t) : t :=
  match users !! user with
  | Some set =>
      let set' := set ∖ {[id]} in
      let users' := <[user := set']> users in
      if decide (set' = ∅) then
        match users' !! user with
        | Some set'' => if decide (set'' = ∅) then delete user users' else users'
        | None => users'
        end
      else users'
  | None => users
  end.

(** [IdentityRegistry::connections]. *)
Definition connections (user : UserId) (users : t) : option (list ConnectionId) :=
  elements <$> users !! user.

(** [IdentityRegistry::device_count] and [user_count]. *)
Definition device_count (user : UserId) (users : t) : nat :=
  match users !! user with Some set => size set | None => 0%nat end.
Definition user_count (users : t) : nat := size users.

End IdentityRegistry.

Section IdentityFacts.
Import IdentityRegistry.

Definition devices (users : IdentityRegistry.t) (u : UserId) : gset Z := default ∅ (users !! u).
Definition no_idle_user (users : IdentityRegistry.t) : Prop :=
  forall (u : UserId) s, users !! u = Some s -> s <> ∅.

Lemma devices_bind u id users (v : UserId) :
  devices (bind u id users) v = if decide (v = u) then {[id]} ∪ devices users u else devices users v.
Proof.
  unfold devices, bind. case_decide; [subst; by rewrite lookup_insert_eq|by rewrite lookup_insert_ne by congruence].
Qed.

Lemma unbind_eq u id users :
  unbind u id users =
  match users !! u with
  | Some set => if decide (set ∖ {[id]} = ∅) then delete u users else <[u := set ∖ {[id]}]> users
  | None => users
  end.
Proof.
  unfold unbind. destruct (users !! u) as [set|]; [|done]. case_decide as Hd; [|done].
  rewrite lookup_insert_eq, decide_True by done. by rewrite delete_insert_eq.
Qed.

Lemma devices_unbind u id users (v : UserId) :
  devices (unbind u id users) v = if decide (v = u) then devices users u ∖ {[id]} else devices users v.
Proof.
  unfold devices. rewrite unbind_eq. destruct (users !! u) as [s|] eqn:E; simpl.
  - destruct (decide (v = u)) as [->|Hv].
    + case_decide as Hd; [by rewrite lookup_delete_eq, Hd|by rewrite lookup_insert_eq].
    + case_decide; [by rewrite lookup_delete_ne by congruence|by rewrite lookup_insert_ne by congruence].
  - case_decide; [subst; rewrite E; set_solver|done].
Qed.

Lemma no_idle_bind u id users : no_idle_user users -> no_idle_user (bind u id users).
Proof. intros Hn v s. unfold bind. rewrite lookup_insert_Some. intros [[_ <-]|[_ Hs]]; [set_solver|by eapply Hn]. Qed.

Lemma no_idle_unbind u id users : no_idle_user users -> no_idle_user (unbind u id users).
Proof.
  intros Hn v s. rewrite unbind_eq. destruct (users !! u) as [set|] eqn:E; [|apply Hn].
  case_decide as Hd; [rewrite lookup_delete_Some; intros [_ Hs]; by eapply Hn|].
  rewrite lookup_insert_Some. intros [[_ <-]|[_ Hs]]; [done|by eapply Hn].
Qed.
End IdentityFacts.

(** [enum AuthorizeOutcome]. *)
Inductive AuthorizeOutcome := OutAccept (user_id : option rstring) | OutReject (code : Z).

(** [enum AuthorizeResolution]. *)
Inductive AuthorizeResolution :=
  | AuthAccept (user_id : option UserId) (request_id : Z)
  | AuthReject (code : Z) (reason : rstring).

Module Authorizer.

(** [struct Authorizer], less the event sender: the pending table maps a
    request to its oneshot sender, named by the request id; [slots] are the
    values in the oneshot channels. *)
Record t := {
  pending : gset Z;
  next_id : Z;
  in_flight : Z;
  max_pending : Z;
  slots : gmap Z AuthorizeOutcome;
  metrics : Metrics.t;
}.

(** [Authorizer::new]. *)
Definition new (max : Z) (m : Metrics.t) : t :=
  {| pending := ∅; next_id := 1; in_flight := 0; max_pending := max; slots := ∅; metrics := m |}.

(** Where a call of [authorize] is. *)
Inductive Call :=
  | Overflowed                              (* counted, found the table full *)
  | Permitted                                (* holds the permit *)
  | HasId (rid : Z)                         (* took a request id *)
  | Emitting (rid : Z)                      (* in the pending table, event not yet queued *)
  | Waiting (rid : Z)                       (* awaiting the reply *)
  | Resolved (rid : Z) (res : AuthorizeResolution)   (* about to clean the table *)
  | Cleaned (res : AuthorizeResolution)     (* about to drop the permit *)
  | Returned (res : AuthorizeResolution).

Definition set_metrics (m : Metrics.t) (a : t) : t :=
  {| pending := pending a; next_id := next_id a; in_flight := in_flight a;
     max_pending := max_pending a; slots := slots a; metrics := m |}.
Definition set_in_flight (n : Z) (a : t) : t :=
  {| pending := pending a; next_id := next_id a; in_flight := n;
     max_pending := max_pending a; slots := slots a; metrics := metrics a |}.

(** [in_flight.fetch_add(1)] and the test on the old value. *)
Definition reserve (a : t) : Call * t :=
  (if max_pending a <=? in_flight a then Overflowed else Permitted, set_in_flight (wrap 64 (in_flight a + 1)) a).

(** The overflow exit. *)
Definition overflow_exit (a : t) : Call * t :=
  (Returned (AuthReject CLOSE_AUTH_UNAVAILABLE (str "pending-upgrade table full")),
   set_metrics (Metrics.add Metrics.PendingOverflow 1 (metrics a))
     (set_in_flight (wrap 64 (in_flight a - 1)) a)).

(** [next_id.fetch_add(1)]. *)
Definition take_id (a : t) : Call * t :=
  (HasId (next_id a),
   {| pending := pending a; next_id := wrap 64 (next_id a + 1); in_flight := in_flight a;
      max_pending := max_pending a; slots := slots a; metrics := metrics a |}).

(** [self.pending.insert(request_id, tx)]. *)
Definition enlist (rid : Z) (a : t) : Call * t :=
  (Emitting rid,
   {| pending := {[rid]} ∪ pending a; next_id := next_id a; in_flight := in_flight a;
      max_pending := max_pending a; slots := delete rid (slots a); metrics := metrics a |}).

(** The match on the reply, the dropped sender or the timeout. *)
Inductive Reply := Replied (o : AuthorizeOutcome) | SenderDropped | Elapsed.

Definition on_reply (rid : Z) (r : Reply) (a : t) : Call * t :=
  match r with
  | Replied (OutAccept user_id) => (Resolved rid (AuthAccept user_id rid), a)
  | Replied (OutReject code) =>
      (Resolved rid (AuthReject code (str "unauthorized")),
       set_metrics (Metrics.add Metrics.AuthorizeRejected 1 (metrics a)) a)
  | SenderDropped => (Resolved rid (AuthReject CLOSE_AUTH_UNAVAILABLE (str "authorize unavailable")), a)
  | Elapsed =>
      (Resolved rid (AuthReject CLOSE_AUTH_UNAVAILABLE (str "authorize timed out")),
       set_metrics (Metrics.add Metrics.AuthorizeTimedOut 1 (metrics a)) a)
  end.

(** [self.pending.remove(&request_id)]. *)
Definition clean (rid : Z) (res : AuthorizeResolution) (a : t) : Call * t :=
  (Cleaned res,
   {| pending := pending a ∖ {[rid]}; next_id := next_id a; in_flight := in_flight a;
      max_pending := max_pending a; slots := slots a; metrics := metrics a |}).

(** [Drop for InFlightPermit]. *)
Definition drop_permit (res : AuthorizeResolution) (a : t) : Call * t :=
  (Returned res, set_in_flight (wrap 64 (in_flight a - 1)) a).

(** [Authorizer::resolve]: the command from JS. *)
Definition resolve (rid : Z) (o : AuthorizeOutcome) (a : t) : t :=
  if decide (rid ∈ pending a) then
    {| pending := pending a ∖ {[rid]}; next_id := next_id a; in_flight := in_flight a;
       max_pending := max_pending a; slots := <[rid := o]> (slots a); metrics := metrics a |}
  else a.

End Authorizer.

(** ** Concurrent authorize calls *)

Section AuthorizerRun.
Import Authorizer.

(** The shared authorizer and the calls in progress or returned. *)
Record AuthState := { auth : Authorizer.t; calls : gmap Z Call }.

(** What one call does next; [r] is the reply it sees, if it is waiting. *)
Inductive call_step (a : Authorizer.t) : Call -> Call -> Authorizer.t -> Prop :=
  | CallOverflow c' a' : overflow_exit a = (c', a') -> call_step a Overflowed c' a'
  | CallTakeId c' a' : next_id a + 1 < 2 ^ 64 -> take_id a = (c', a') -> call_step a Permitted c' a'
  | CallEnlist rid c' a' : enlist rid a = (c', a') -> call_step a (HasId rid) c' a'
  | CallEmit rid : call_step a (Emitting rid) (Waiting rid) a
  | CallReply rid r c' a' :
      match r with
      | Replied o => slots a !! rid = Some o
      | SenderDropped => slots a !! rid = None /\ rid ∉ pending a
      | Elapsed => slots a !! rid = None
      end -> on_reply rid r a = (c', a') -> call_step a (Waiting rid) c' a'
  | CallClean rid res c' a' : clean rid res a = (c', a') -> call_step a (Resolved rid res) c' a'
  | CallDrop res c' a' : drop_permit res a = (c', a') -> call_step a (Cleaned res) c' a'.

Inductive auth_step : AuthState -> AuthState -> Prop :=
  | AuthNew s k c a :
      calls s !! k = None -> in_flight (auth s) + 1 < 2 ^ 64 -> reserve (auth s) = (c, a) ->
      auth_step s {| auth := a; calls := <[k := c]> (calls s) |}
  | AuthCall s k c c' a :
      calls s !! k = Some c -> call_step (auth s) c c' a ->
      auth_step s {| auth := a; calls := <[k := c']> (calls s) |}
  | AuthResolve s rid o :
      auth_step s {| auth := resolve rid o (auth s); calls := calls s |}.

Definition auth_start (max : Z) (m : Metrics.t) : AuthState := {| auth := new max m; calls := ∅ |}.

Definition holds_permit (c : Call) : bool :=
  match c with Overflowed | Returned _ => false | _ => true end.
Definition counted (c : Call) : bool := match c with Returned _ => false | _ => true end.

(** The request id a call has, and whether it may still be in the table. *)
Definition accepted (res : AuthorizeResolution) : option Z :=
  match res with AuthAccept _ r => Some r | AuthReject _ _ => None end.
Definition rid_of (c : Call) : option Z :=
  match c with
  | HasId r | Emitting r | Waiting r | Resolved r _ => Some r
  | Cleaned res | Returned res => accepted res
  | _ => None
  end.
Definition listed (c : Call) : option Z :=
  match c with Emitting r | Waiting r | Resolved r _ => Some r | _ => None end.
Definition res_of (c : Call) : option AuthorizeResolution :=
  match c with Resolved _ res | Cleaned res | Returned res => Some res | _ => None end.

Record auth_inv (max : Z) (s : AuthState) : Prop := {
  ai_max : max_pending (auth s) = max;
  ai_count : in_flight (auth s) = mcount counted (calls s);
  ai_cap : mcount holds_permit (calls s) <= max;
  ai_next : 1 <= next_id (auth s) < 2 ^ 64;
  ai_rids : forall k c r, calls s !! k = Some c -> rid_of c = Some r -> r < next_id (auth s);
  ai_distinct : forall k c k' c' r, calls s !! k = Some c -> calls s !! k' = Some c' ->
    rid_of c = Some r -> rid_of c' = Some r -> k = k';
  ai_pending : forall r, r ∈ pending (auth s) -> exists k c, calls s !! k = Some c /\ listed c = Some r;
  ai_accept : forall k c u r, calls s !! k = Some c -> res_of c = Some (AuthAccept u r) ->
    rid_of c = Some r /\ slots (auth s) !! r = Some (OutAccept u);
  ai_fresh : forall r, r ∈ pending (auth s) -> slots (auth s) !! r = None;
}.

(** A step of one call: its own entry is the only one that changes. *)
Lemma auth_inv_move max s k c0 c a :
  auth_inv max s -> calls s !! k = c0 ->
  max_pending a = max -> in_flight a = mcount counted (<[k := c]> (calls s)) ->
  mcount holds_permit (<[k := c]> (calls s)) <= max ->
  next_id (auth s) <= next_id a < 2 ^ 64 ->
  (forall r, rid_of c = Some r -> r < next_id a /\ (next_id (auth s) <= r \/ exists c1, c0 = Some c1 /\ rid_of c1 = Some r)) ->
  (forall r, r ∈ pending a -> listed c = Some r \/ r ∈ pending (auth s) /\ forall c1, c0 = Some c1 -> listed c1 <> Some r) ->
  (forall u r, res_of c = Some (AuthAccept u r) -> rid_of c = Some r /\ slots a !! r = Some (OutAccept u)) ->
  (forall r o, slots (auth s) !! r = Some o -> slots a !! r = Some o \/ exists c1, c0 = Some c1 /\ rid_of c1 = Some r) ->
  (forall r, r ∈ pending a -> slots a !! r = None) ->
  auth_inv max {| auth := a; calls := <[k := c]> (calls s) |}.
Proof.
  intros [Hm Hc Hcap Hn Hr Hd Hp Ha Hf] Hk Hm' Hc' Hcap' Hn' Hrid Hpen Hacc Hslots Hfr.
  split; cbn [auth calls]; [done|done|done|lia|..|done].
  - intros j c1 r [[<- <-]|[_ Hj]]%lookup_insert_Some Hr1; [by apply Hrid|]. pose proof (Hr j c1 r Hj Hr1). lia.
  - intros j c1 j' c2 r Hj Hj' H1 H2. apply lookup_insert_Some in Hj as [[<- <-]|[Hne Hj]], Hj' as [[<- <-]|[Hne' Hj']].
    + done.
    + destruct (Hrid r H1) as [_ [Hge|(c3 & E & H3)]]; [pose proof (Hr _ _ _ Hj' H2); lia|].
      rewrite E in Hk. exact (Hd _ _ _ _ _ Hk Hj' H3 H2).
    + destruct (Hrid r H2) as [_ [Hge|(c3 & E & H3)]]; [pose proof (Hr _ _ _ Hj H1); lia|].
      rewrite E in Hk. exact (Hd _ _ _ _ _ Hj Hk H1 H3).
    + by eapply Hd.
  - intros r Hin. destruct (Hpen r Hin) as [Hl|[Hin' Hne]]; [exists k, c; by rewrite lookup_insert_eq|].
    destruct (Hp r Hin') as (j & c1 & Hj & Hl). exists j, c1. split; [|done].
    rewrite lookup_insert_ne; [done|]. intros ->. rewrite Hj in Hk. by eapply Hne.
  - intros j c1 u r [[<- <-]|[Hne Hj]]%lookup_insert_Some Hres; [by apply Hacc|].
    destruct (Ha j c1 u r Hj Hres) as [Hrj Hs]. split; [done|].
    destruct (Hslots _ _ Hs) as [|(c2 & E & H2)]; [done|]. rewrite E in Hk. by pose proof (Hd _ _ _ _ _ Hk Hj H2 Hrj).
Qed.

Lemma mcount_le {A} (P Q : A -> bool) (m : gmap Z A) :
  (forall x, P x = true -> Q x = true) -> mcount P m <= mcount Q m.
Proof.
  intros HPQ. induction m as [|k x m Hk IH] using map_ind; [by rewrite !mcount_empty|].
  rewrite !mcount_insert, !delete_id by done. specialize (HPQ x). destruct (P x); [rewrite HPQ by done|destruct (Q x)]; lia.
Qed.

Lemma auth_new_inv max s k c a :
  0 <= max -> calls s !! k = None -> in_flight (auth s) + 1 < 2 ^ 64 -> reserve (auth s) = (c, a) ->
  auth_inv max s -> auth_inv max {| auth := a; calls := <[k := c]> (calls s) |}.
Proof.
  intros Hmax Hk Hlt Hres Hi. pose proof Hi as [Hm Hc Hcap Hn _ _ _ _ Hf].
  pose proof (mcount_nonneg counted (calls s)). unfold reserve in Hres. injection Hres as <- <-.
  assert (Hle : mcount holds_permit (calls s) <= in_flight (auth s)).
  { rewrite Hc. apply mcount_le. by intros []. }
  eapply auth_inv_move; [exact Hi|exact Hk|..]; cbn; try done.
  - rewrite mcount_insert, delete_id, wrap_small by (done || lia). rewrite Hc. destruct (_ <=? _); simpl; lia.
  - rewrite mcount_insert, delete_id by done. rewrite Hm. destruct (Z.leb_spec max (in_flight (auth s))); simpl; lia.
  - lia.
  - destruct (_ <=? _); done.
  - intros r Hr. right. split; [done|]. done.
  - destruct (_ <=? _); done.
  - auto.
Qed.

(** The three kinds of call step by their effect on the counters: [c'] counts
    and holds as [c] did, or lets go of what [c] had. *)
Lemma auth_counts max s k c c' a :
  auth_inv max s -> calls s !! k = Some c -> in_flight (auth s) < 2 ^ 64 ->
  (counted c' = counted c /\ in_flight a = in_flight (auth s) \/
   counted c = true /\ counted c' = false /\ in_flight a = wrap 64 (in_flight (auth s) - 1)) ->
  (holds_permit c' = true -> holds_permit c = true) ->
  in_flight a = mcount counted (<[k := c']> (calls s)) /\ mcount holds_permit (<[k := c']> (calls s)) <= max.
Proof.
  intros [Hm Hc Hcap _ _ _ _ _ _] Hk Hlt Hcase Hh.
  pose proof (mcount_delete counted _ _ _ Hk) as E1. pose proof (mcount_delete holds_permit _ _ _ Hk) as E2.
  pose proof (mcount_nonneg counted (delete k (calls s))). rewrite !mcount_insert. split.
  - destruct Hcase as [[Ec ->]|(Ec & Ec' & ->)]; [rewrite Ec; lia|]. rewrite Ec, Ec' in *. rewrite wrap_small; lia.
  - destruct (holds_permit c'); [rewrite (Hh eq_refl) in E2; lia|]. destruct (holds_permit c); lia.
Qed.

(** What a waiting call turns into, whatever it saw. *)
Lemma on_reply_shape rid r a c a' :
  on_reply rid r a = (c, a') -> exists res, c = Resolved rid res /\
    pending a' = pending a /\ next_id a' = next_id a /\ in_flight a' = in_flight a /\
    max_pending a' = max_pending a /\ slots a' = slots a /\
    (forall u r', res = AuthAccept u r' -> r' = rid /\ r = Replied (OutAccept u)).
Proof.
  destruct r as [[]| |]; cbn; intros [= <- <-]; eexists; split_and!; try done; by intros ? ? [= <- <-].
Qed.

Lemma call_step_counts (a a' : Authorizer.t) c c' :
  call_step a c c' a' ->
  (counted c' = counted c /\ in_flight a' = in_flight a \/
   counted c = true /\ counted c' = false /\ in_flight a' = wrap 64 (in_flight a - 1)) /\
  (holds_permit c' = true -> holds_permit c = true) /\ max_pending a' = max_pending a.
Proof.
  destruct 1 as [? ? E|? ? Hn E|rid ? ? E|rid|rid r ? ? Hrep E|rid res ? ? E|res ? ? E]; try injection E as <- <-; cbn; auto.
  apply on_reply_shape in E as (res & -> & _ & _ & -> & -> & _). auto.
Qed.

Lemma auth_call_inv max s k c c' a :
  calls s !! k = Some c -> call_step (auth s) c c' a -> in_flight (auth s) < 2 ^ 64 ->
  auth_inv max s -> auth_inv max {| auth := a; calls := <[k := c']> (calls s) |}.
Proof.
  intros Hk Hst Hlt Hi. pose proof Hi as [Hm _ _ Hn Hr _ _ Ha Hf].
  destruct (call_step_counts _ _ _ _ Hst) as (Hc1 & Hc2 & Hmax).
  destruct (auth_counts max s k c c' a Hi Hk Hlt Hc1 Hc2) as [H1 H2]. rewrite Hm in Hmax.
  assert (Hrid : forall c1 r, c = c1 -> rid_of c1 = Some r -> r < next_id (auth s)) by (intros; subst; by eapply Hr).
  eapply auth_inv_move; [exact Hi|exact Hk|done|exact H1|exact H2|..]; clear H1 H2 Hc1 Hc2 Hmax Hi;
    destruct Hst as [? ? E|? ? Hx E|rid ? ? E|rid|rid r ? ? Hrep E|rid res ? ? E|res ? ? E].
  all: try (injection E as <- <-); try (apply on_reply_shape in E as (res & -> & Ep & En & _ & _ & Es & Hacc); rewrite ?Ep, ?En, ?Es);
    cbn [next_id pending slots listed rid_of res_of set_in_flight set_metrics accepted]; rewrite ?wrap_small by lia; try done; try lia.
  all: try (by auto).
  all: try (intros r1 [= <-]; split; [first [lia|by eapply Hrid]|first [left; lia|right; by eexists]]).
  all: try (intros r1 Hin; right; split; [done|]; by intros c1 [= <-]).
  all: try (intros r1 Hin; destruct (decide (r1 = rid)) as [->|]; [by left|]; right; split; [done|]; intros c1 [= <-]; cbn; congruence).
  - intros r1 E1. assert (Hacc : rid = r1). { destruct res; simplify_eq/=. by destruct (Ha k _ _ _ Hk eq_refl) as [[= <-] _]. }
    subst. split; [by eapply Hrid|right; by eexists].
  - intros r1 E1. split; [by eapply Hrid|right; by eexists].
  - intros r1 [->%elem_of_singleton|Hin]%elem_of_union; [by left|]. right. split; [done|]. by intros c1 [= <-].
  - intros r1 [Hin Hne]%elem_of_difference. right. split; [done|]. intros c1 [= <-]. cbn. set_solver.
  - intros u r1 [= ->]. destruct (Hacc u r1 eq_refl) as [-> ->]. by split.
  - intros u r1 [= ->]. by destruct (Ha k _ _ _ Hk eq_refl).
  - intros u r1 [= ->]. by destruct (Ha k _ _ _ Hk eq_refl).
  - intros r1 o Ho. destruct (decide (r1 = rid)) as [->|]; [right; by eexists|left]. by rewrite lookup_delete_ne by congruence.
  - intros r1 [->%elem_of_singleton|Hin]%elem_of_union; [by rewrite lookup_delete_eq|].
    destruct (decide (r1 = rid)) as [->|]; [by rewrite lookup_delete_eq|]. rewrite lookup_delete_ne by congruence. by apply Hf.
  - intros r1 [Hin _]%elem_of_difference. by apply Hf.
Qed.

Lemma auth_resolve_inv max s rid o :
  auth_inv max s -> auth_inv max {| auth := resolve rid o (auth s); calls := calls s |}.
Proof.
  intros [Hm Hc Hcap Hn Hr Hd Hp Ha Hf]. unfold resolve. case_decide as Hin; [|by split].
  split; cbn; try done.
  - intros r [Hin' _]%elem_of_difference. by apply Hp.
  - intros k c u r Hk Hres. destruct (Ha k c u r Hk Hres) as [Hrid Hs]. split; [done|].
    rewrite lookup_insert_ne; [done|]. intros ->. rewrite (Hf r Hin) in Hs. done.
  - intros r [Hin' Hne]%elem_of_difference. rewrite lookup_insert_ne by set_solver. by apply Hf.
Qed.

Lemma auth_reach_inv max m s :
  0 <= max -> rtc auth_step (auth_start max m) s -> auth_inv max s /\ in_flight (auth s) < 2 ^ 64.
Proof.
  intros Hmax. revert s. apply (rtc_ind_r (fun s => auth_inv max s /\ in_flight (auth s) < 2 ^ 64)).
  - split; [|done]. split; cbn; try done; try set_solver.
  - intros y z _ Hs [Hi Hlt]. destruct Hs as [s k c a Hk Hl Hr|s k c c' a Hk Hst|s rid o].
    + split; [by eapply auth_new_inv|]. unfold reserve in Hr. injection Hr as <- <-. cbn.
      apply (wrap_range 64). lia.
    + split; [by eapply auth_call_inv|]. cbn.
      destruct (call_step_counts _ _ _ _ Hst) as ([[_ ->]|(_ & _ & ->)] & _); [done|]. apply (wrap_range 64). lia.
    + split; [by apply auth_resolve_inv|]. cbn. unfold resolve. by case_decide.
Qed.

(** The pending table has at most one entry per call that holds a permit. *)
Lemma pending_le_permits max s : auth_inv max s -> Z.of_nat (size (pending (auth s))) <= mcount holds_permit (calls s).
Proof.
  intros Hi. unfold mcount. set (h := filter _ _).
  assert (Hsub : pending (auth s) ⊆ list_to_set (omap (fun kc => listed kc.2) (map_to_list h))).
  { intros r Hr. destruct (ai_pending _ _ Hi r Hr) as (k & c & Hk & Hl). apply elem_of_list_to_set, list_elem_of_omap.
    exists (k, c). split; [|done]. apply elem_of_map_to_list, map_lookup_filter_Some. split; [done|]. by destruct c. }
  apply subseteq_size in Hsub. rewrite <-(length_map_to_list h).
  assert (Hlen : forall l : list (Z * Call), (size (list_to_set (C := gset Z) (omap (fun kc => listed kc.2) l)) <= length l)%nat).
  { clear. induction l as [|[k c] l IH]; csimpl; [done|].
    destruct (listed c) as [r|]; simpl; [|lia]. rewrite size_union_alt, size_singleton.
    pose proof (subseteq_size (list_to_set (omap (λ kc : Z * Call, listed kc.2) l) ∖ {[r]})
      (list_to_set (omap (λ kc : Z * Call, listed kc.2) l) : gset Z) ltac:(set_solver)). lia. }
  specialize (Hlen (map_to_list h)). lia.
Qed.

(** *** Whose reply a call returns *)

(** A run with its history: which call asked JS with which request id (the
    Authorize event it queued), and the replies JS sent. *)
Record AuthRun := { core : AuthState; asked : list (Z * Z); replies : list (Z * AuthorizeOutcome) }.

Inductive auth_run_step (s : AuthRun) : AuthRun -> Prop :=
  | RunNew k c a :
      calls (core s) !! k = None -> in_flight (auth (core s)) + 1 < 2 ^ 64 -> reserve (auth (core s)) = (c, a) ->
      auth_run_step s {| core := {| auth := a; calls := <[k := c]> (calls (core s)) |}; asked := asked s; replies := replies s |}
  | RunCall k c c' a :
      calls (core s) !! k = Some c -> call_step (auth (core s)) c c' a ->
      auth_run_step s {| core := {| auth := a; calls := <[k := c']> (calls (core s)) |};
        asked := asked s ++ match c with Emitting rid => [(rid, k)] | _ => [] end; replies := replies s |}
  | RunResolve rid o :
      auth_run_step s {| core := {| auth := resolve rid o (auth (core s)); calls := calls (core s) |};
        asked := asked s; replies := replies s ++ [(rid, o)] |}.

Definition run_start (max : Z) (m : Metrics.t) : AuthRun := {| core := auth_start max m; asked := []; replies := [] |}.

Lemma auth_run_steps s s' : rtc auth_run_step s s' -> rtc auth_step (core s) (core s').
Proof.
  induction 1 as [|x y z Hs _ IH]; [apply rtc_refl|]. eapply rtc_l; [|exact IH]. destruct Hs.
  - by eapply AuthNew.
  - by eapply AuthCall.
  - apply AuthResolve.
Qed.

(** What justifies the resolution call [k] returns. *)
Definition justified (ask : list (Z * Z)) (rep : list (Z * AuthorizeOutcome)) (k : Z) (res : AuthorizeResolution) : Prop :=
  match res with
  | AuthAccept u r => (r, k) ∈ ask /\ (r, OutAccept u) ∈ rep
  | AuthReject code reason =>
      (reason = str "unauthorized" /\ exists r, (r, k) ∈ ask /\ (r, OutReject code) ∈ rep) \/
      (code = CLOSE_AUTH_UNAVAILABLE /\ reason = str "pending-upgrade table full" /\ k ∉ ask.*2) \/
      (code = CLOSE_AUTH_UNAVAILABLE /\ (reason = str "authorize unavailable" \/ reason = str "authorize timed out") /\ k ∈ ask.*2)
  end.

(** Before and after the Authorize event was queued. *)
Definition unasked (c : Call) : bool := match c with Overflowed | Permitted | HasId _ | Emitting _ => true | _ => false end.
Definition fresh_rid (c : Call) : option Z := match c with HasId r | Emitting r => Some r | _ => None end.

Record trace_inv (s : AuthRun) : Prop := {
  tr_rids : NoDup (asked s).*1;
  tr_calls : NoDup (asked s).*2;
  tr_next : forall r k, (r, k) ∈ asked s -> r < next_id (auth (core s));
  tr_past : forall r k, (r, k) ∈ asked s -> exists c, calls (core s) !! k = Some c /\ unasked c = false;
  tr_fresh : forall k c r, calls (core s) !! k = Some c -> fresh_rid c = Some r -> r ∉ (asked s).*1;
  tr_wait : forall k c r, calls (core s) !! k = Some c -> c = Waiting r \/ (exists res, c = Resolved r res) -> (r, k) ∈ asked s;
  tr_slots : forall r o, slots (auth (core s)) !! r = Some o -> (r, o) ∈ replies s;
  tr_just : forall k c res, calls (core s) !! k = Some c -> res_of c = Some res -> justified (asked s) (replies s) k res;
}.

Lemma justified_mono ask ask' rep rep' k res :
  justified ask rep k res -> ask ⊆ ask' -> rep ⊆ rep' -> (k ∈ ask'.*2 -> k ∈ ask.*2) -> justified ask' rep' k res.
Proof.
  intros Hj Ha Hr Hk. assert (Ha2 : ask.*2 ⊆ ask'.*2) by (intros x (y & -> & Hy)%list_elem_of_fmap; apply list_elem_of_fmap; eauto).
  destruct res as [u r|code reason]; cbn in *; [destruct Hj; auto|].
  destruct Hj as [(-> & r & H1 & H2)|[(-> & -> & H1)|(-> & H1 & H2)]]; [left; split; [done|]; exists r; auto|right; left|right; right]; split_and!; auto.
Qed.

(** The resolution a waiting call computes is its own. *)
Lemma on_reply_justified ask rep k rid r (a a' : Authorizer.t) res :
  (rid, k) ∈ ask -> (forall r o, slots a !! r = Some o -> (r, o) ∈ rep) ->
  match r with Replied o => slots a !! rid = Some o | SenderDropped => slots a !! rid = None /\ rid ∉ pending a | Elapsed => slots a !! rid = None end ->
  on_reply rid r a = (Resolved rid res, a') -> justified ask rep k res.
Proof.
  intros Hask Hs Hr E. assert (Hk : k ∈ ask.*2) by (by apply (list_elem_of_fmap_2 snd) in Hask).
  destruct r as [[u|code]| |]; cbn in E; injection E as <- _; cbn [justified].
  - split; [done|by apply Hs].
  - left. split; [done|]. exists rid. split; [done|by apply Hs].
  - right. right. auto.
  - right. right. auto.
Qed.

(** A call that only changes its own state, before or after it asked. *)
Lemma trace_call_inv max s k c c' a :
  auth_inv max (core s) -> calls (core s) !! k = Some c -> call_step (auth (core s)) c c' a -> trace_inv s ->
  trace_inv {| core := {| auth := a; calls := <[k := c']> (calls (core s)) |};
    asked := asked s ++ match c with Emitting rid => [(rid, k)] | _ => [] end; replies := replies s |}.
Proof.
  intros Hi Hk Hst [T1 T2 T3 T4 T5 T6 T7 T8].
  assert (Hnk : unasked c = true -> k ∉ (asked s).*2).
  { intros Hu ([r k'] & E & Hin)%list_elem_of_fmap. cbn in E. subst k'. destruct (T4 _ _ Hin) as (c1 & E & Hc1). congruence. }
  assert (Hn : next_id (auth (core s)) <= next_id a).
  { destruct (ai_next _ _ Hi). destruct Hst as [? ? E|? ? Hn E|? ? ? E|?|? r ? ? _ E|? ? ? ? E|? ? ? E]; try injection E as <- <-; cbn; try lia.
    - rewrite wrap_small; lia.
    - apply on_reply_shape in E as (? & _ & _ & -> & _). lia. }
  set (add := match c with Emitting rid => [(rid, k)] | _ => [] end).
  assert (Hadd : forall r j, (r, j) ∈ add -> j = k /\ c = Emitting r).
  { subst add. intros r j Hin. destruct c; try (by apply not_elem_of_nil in Hin). by apply list_elem_of_singleton in Hin as [= -> ->]. }
  assert (Hnew : forall r, fresh_rid c' = Some r -> fresh_rid c = Some r \/ next_id (auth (core s)) <= r).
  { intros r. destruct Hst as [? ? E|? ? Hx E|? ? ? E|?|? r0 ? ? _ E|? ? ? ? E|? ? ? E]; try injection E as <- <-; cbn; try done; try (by left).
    - intros [= <-]. right. lia.
    - apply on_reply_shape in E as (? & -> & _). done. }
  split; cbn [core asked replies auth calls].
  - rewrite map_app. apply NoDup_app. split_and!; [done| |subst add; destruct c; try constructor; [set_solver|constructor]].
    intros r Hr Hin. apply list_elem_of_fmap in Hin as ([r' j] & -> & [_ ->]%Hadd). exact (T5 _ _ _ Hk eq_refl Hr).
  - rewrite map_app. apply NoDup_app. split_and!; [done| |subst add; destruct c; try constructor; [set_solver|constructor]].
    intros j Hj Hin. apply list_elem_of_fmap in Hin as ([r' j'] & -> & [-> ->]%Hadd). by apply (Hnk eq_refl).
  - intros r j [Hin|[-> ->]%Hadd]%elem_of_app; [pose proof (T3 _ _ Hin); lia|].
    pose proof (ai_rids _ _ Hi k _ r Hk eq_refl). lia.
  - intros r j [Hin|[-> ->]%Hadd]%elem_of_app.
    + destruct (T4 _ _ Hin) as (c1 & Hc1 & Hu). destruct (decide (j = k)) as [->|Hne]; [|exists c1; by rewrite lookup_insert_ne].
      rewrite Hk in Hc1. injection Hc1 as <-. exists c'. rewrite lookup_insert_eq. split; [done|].
      destruct Hst as [? ? E|? ? Hx E|? ? ? E|?|? r0 ? ? _ E|? ? ? ? E|? ? ? E]; try injection E as <- <-; try done. by apply on_reply_shape in E as (? & -> & _).
    + exists c'. rewrite lookup_insert_eq. split; [done|]. inversion Hst; subst; done.
  - intros j c1 r Hj Hf Hin. rewrite map_app in Hin. apply elem_of_app in Hin as [Hin|Hin].
    + apply lookup_insert_Some in Hj as [[<- <-]|[Hne Hj]]; [|exact (T5 _ _ _ Hj Hf Hin)].
      destruct (Hnew r Hf) as [Hc|Hge]; [exact (T5 _ _ _ Hk Hc Hin)|]. apply list_elem_of_fmap in Hin as ([r' j'] & -> & Hin). pose proof (T3 _ _ Hin). cbn in *. lia.
    + apply list_elem_of_fmap in Hin as ([r' j'] & -> & [-> ->]%Hadd). cbn in Hf. apply lookup_insert_Some in Hj as [[_ <-]|[Hne Hj]]; [by inversion Hst; subst|].
      apply Hne. eapply (ai_distinct _ _ Hi); [exact Hk|exact Hj|done|]. by destruct c1.
  - intros j c1 r Hj Hc. apply elem_of_app. apply lookup_insert_Some in Hj as [[<- <-]|[Hne Hj]]; [|left; by eapply T6].
    destruct Hst as [? ? E|? ? Hx E|? ? ? E|rid|rid r0 ? ? _ E|? ? ? ? E|? ? ? E]; try (injection E as <- <-; by destruct Hc as [|[? ?]]).
    + destruct Hc as [[= ->]|[? ?]]; [|done]. right. by apply list_elem_of_singleton.
    + left. apply on_reply_shape in E as (res & -> & _). destruct Hc as [|[res' [= -> ->]]]; [done|]. eapply T6; [exact Hk|by left].
  - intros r o Hs. apply T7. destruct Hst as [? ? E|? ? Hx E|? ? ? E|rid|rid r0 ? ? _ E|? ? ? ? E|? ? ? E]; try (injection E as <- <-); try done.
    + cbn in Hs. by apply lookup_delete_Some in Hs as [_ Hs].
    + by apply on_reply_shape in E as (res & _ & _ & _ & _ & _ & <- & _).
  - assert (Hold : forall j c1 res, calls (core s) !! j = Some c1 -> res_of c1 = Some res -> justified (asked s ++ add) (replies s) j res).
    { intros j c1 res Hj Hres. eapply justified_mono; [by eapply T8|set_solver|done|]. rewrite map_app. intros [Hin|Hin]%elem_of_app; [done|].
      apply list_elem_of_fmap in Hin as ([r' j'] & -> & [-> ->]%Hadd). cbn in Hj. rewrite Hk in Hj. by injection Hj as <-. }
    intros j c1 res Hj Hres. apply lookup_insert_Some in Hj as [[<- <-]|[Hne Hj]]; [|by eapply Hold].
    destruct Hst as [? ? E|? ? Hx E|? ? ? E|rid|rid r0 ? ? Hrep E|? ? ? ? E|? ? ? E]; try (injection E as <- <-); try done.
    + cbn in Hres. injection Hres as <-. right. left. split_and!; [done|done|]. subst add. rewrite app_nil_r. by apply Hnk.
    + apply on_reply_shape in E as E'. destruct E' as (res' & -> & _). cbn in Hres. injection Hres as <-. subst add. rewrite app_nil_r.
      eapply on_reply_justified; [eapply T6; [exact Hk|by left]|exact T7|exact Hrep|exact E].
    + eapply Hold; [exact Hk|exact Hres].
    + eapply Hold; [exact Hk|exact Hres].
Qed.

Lemma trace_reach max m s : 0 <= max -> rtc auth_run_step (run_start max m) s -> auth_inv max (core s) /\ trace_inv s.
Proof.
  intros Hmax. revert s. apply (rtc_ind_r (fun s => auth_inv max (core s) /\ trace_inv s)).
  - split; [by apply (auth_reach_inv max m _ Hmax (rtc_refl _ _))|]. split; cbn; try (by constructor); try (by intros ? ? ?%not_elem_of_nil); try done.
  - intros y z Hy Hs [Hi Ht]. split.
    + apply (auth_reach_inv max m _ Hmax). change (auth_start max m) with (core (run_start max m)). apply auth_run_steps. by eapply rtc_r.
    + destruct Hs as [k c a Hk Hl E|k c c' a Hk Hst|rid o]; [|by eapply trace_call_inv|].
      * destruct Ht as [T1 T2 T3 T4 T5 T6 T7 T8]. unfold reserve in E. injection E as <- <-.
        assert (Hne : forall r j, (r, j) ∈ asked y -> j <> k) by (intros r j Hin ->; destruct (T4 _ _ Hin) as (? & ? & _); congruence).
        split; cbn; try done.
        -- intros r j Hin. destruct (T4 _ _ Hin) as (c & Hc & Hu). exists c. rewrite lookup_insert_ne; [done|]. intros <-. by eapply Hne.
        -- intros j c r [[<- <-]|[_ Hj]]%lookup_insert_Some; [by destruct (_ <=? _)|by eapply T5].
        -- intros j c r [[<- <-]|[_ Hj]]%lookup_insert_Some Hc; [destruct (_ <=? _); by destruct Hc as [|[? ?]]|by eapply T6].
        -- intros j c res [[<- <-]|[_ Hj]]%lookup_insert_Some Hc; [by destruct (_ <=? _)|by eapply T8].
      * destruct Ht as [T1 T2 T3 T4 T5 T6 T7 T8].
        assert (En : next_id (resolve rid o (auth (core y))) = next_id (auth (core y))) by (unfold resolve; by case_decide).
        split; cbn; rewrite ?En; try done.
        -- intros r o' Hs. apply elem_of_app. unfold resolve in Hs. case_decide; [|left; by apply T7]. cbn in Hs.
           apply lookup_insert_Some in Hs as [[<- <-]|[_ Hs]]; [right; by apply list_elem_of_singleton|left; by apply T7].
        -- intros k c res Hk Hres. eapply justified_mono; [by eapply T8|done|set_solver|done].
Qed.

(** C28. The authorize table is bounded and never leaks or mixes up replies: for
    every interleaving of upgrades, JS replies (unknown, duplicate and late ones
    included) and timeouts, at most [maxPending] calls and table entries are
    pending; the in-flight counter is exact, so once every call has returned it
    is zero and the table is empty; a request id is asked once and a call asks
    once; and what a call returns is justified by its own request: Accept with a
    user, and its own id, only if JS accepted the id this call asked with, for
    that user; "unauthorized" with a code only if JS rejected that id with that
    code; any other reject has the unavailable code, for a full table exactly when
    the call never asked. *)
Theorem authorizer_bounded_and_faithful max m s :
  0 <= max -> rtc auth_run_step (run_start max m) s ->
  Z.of_nat (size (pending (auth (core s)))) <= mcount holds_permit (calls (core s)) <= max /\
  in_flight (auth (core s)) = mcount counted (calls (core s)) /\
  (mcount counted (calls (core s)) = 0 -> pending (auth (core s)) = ∅ /\ in_flight (auth (core s)) = 0) /\
  NoDup (asked s).*1 /\ NoDup (asked s).*2 /\
  (forall k res, calls (core s) !! k = Some (Returned res) -> justified (asked s) (replies s) k res).
Proof.
  intros Hmax Hr. destruct (trace_reach max m s Hmax Hr) as [Hi Ht].
  pose proof (pending_le_permits max _ Hi) as Hp. pose proof Hi as [_ Hc Hcap _ _ _ Hpen _ _].
  split; [lia|]. split; [done|]. split; [|split; [apply Ht|split; [apply Ht|]]].
  - intros Hz. split; [|lia]. apply set_eq. intros r. split; [|set_solver].
    intros (k & c & Hk & Hl)%Hpen. pose proof (mcount_zero _ _ Hz k c Hk) as Hcz. by destruct c.
  - intros k res Hk. by eapply (tr_just _ Ht).
Qed.
End AuthorizerRun.

(** Runs that compute: a call of [authorize] begins or moves on ([late]: by its
    timeout), JS replies. *)
Inductive AuthOp := OpNew (k : Z) | OpCall (k : Z) (late : bool) | OpResolve (rid : Z) (o : AuthorizeOutcome).

Section AuthorizerExec.
Import Authorizer.

Definition call_next (late : bool) (a : Authorizer.t) (c : Call) : option (Call * Authorizer.t) :=
  match c with
  | Overflowed => Some (overflow_exit a)
  | Permitted => if next_id a + 1 <? 2 ^ 64 then Some (take_id a) else None
  | HasId rid => Some (enlist rid a)
  | Emitting rid => Some (Waiting rid, a)
  | Waiting rid =>
      match slots a !! rid with
      | Some o => Some (on_reply rid (Replied o) a)
      | None => if late then Some (on_reply rid Elapsed a) else None
      end
  | Resolved rid res => Some (clean rid res a)
  | Cleaned res => Some (drop_permit res a)
  | Returned _ => None
  end.

Lemma call_next_sound late a c c' a' : call_next late a c = Some (c', a') -> call_step a c c' a'.
Proof.
  destruct c; cbn [call_next]; intros E.
  - injection E as E1 E2. apply CallOverflow. by rewrite <-E1, <-E2.
  - destruct (Z.ltb_spec (next_id a + 1) (2 ^ 64)); [|done]. injection E as E1 E2. apply CallTakeId; [done|]. by rewrite <-E1, <-E2.
  - injection E as E1 E2. apply CallEnlist. by rewrite <-E1, <-E2.
  - injection E as <- <-. apply CallEmit.
  - destruct (slots a !! rid) as [o|] eqn:Es; [apply (inj Some) in E; by eapply (CallReply a rid (Replied o))|].
    destruct late; [|done]. apply (inj Some) in E. by eapply (CallReply a rid Elapsed).
  - injection E as E1 E2. apply CallClean. by rewrite <-E1, <-E2.
  - injection E as E1 E2. apply CallDrop. by rewrite <-E1, <-E2.
  - done.
Qed.

Definition auth_exec_op (s : AuthRun) (op : AuthOp) : option AuthRun :=
  match op with
  | OpNew k =>
      match calls (core s) !! k with
      | None =>
          if in_flight (auth (core s)) + 1 <? 2 ^ 64
          then let '(c, a) := reserve (auth (core s)) in
               Some {| core := {| auth := a; calls := <[k := c]> (calls (core s)) |}; asked := asked s; replies := replies s |}
          else None
      | Some _ => None
      end
  | OpCall k late =>
      c ← calls (core s) !! k;
      '(c', a) ← call_next late (auth (core s)) c;
      Some {| core := {| auth := a; calls := <[k := c']> (calls (core s)) |};
              asked := asked s ++ match c with Emitting rid => [(rid, k)] | _ => [] end; replies := replies s |}
  | OpResolve rid o =>
      Some {| core := {| auth := resolve rid o (auth (core s)); calls := calls (core s) |}; asked := asked s; replies := replies s ++ [(rid, o)] |}
  end.
Fixpoint auth_exec (ops : list AuthOp) (s : AuthRun) : option AuthRun :=
  match ops with [] => Some s | op :: ops => s ← auth_exec_op s op; auth_exec ops s end.

Lemma auth_exec_sound ops s s' : auth_exec ops s = Some s' -> rtc auth_run_step s s'.
Proof.
  revert s. induction ops as [|op ops IH]; intros s E; [injection E as <-; apply rtc_refl|]. cbn [auth_exec] in E. apply bind_Some in E as (s1 & E1 & E).
  eapply rtc_l; [|exact (IH _ E)]. destruct op as [k|k late|rid o]; cbn [auth_exec_op] in E1.
  - destruct (calls (core s) !! k) eqn:Ek; [done|]. destruct (Z.ltb_spec (in_flight (auth (core s)) + 1) (2 ^ 64)); [|done].
    destruct (reserve _) as [c a] eqn:Er. injection E1 as <-. by eapply RunNew.
  - apply bind_Some in E1 as (c & Ek & E1). apply bind_Some in E1 as ([c' a] & Ec & E1). injection E1 as <-. eapply RunCall; [exact Ek|by eapply call_next_sound].
  - injection E1 as <-. apply RunResolve.
Qed.
End AuthorizerExec.

(** Three calls with room for two: the third is shed, the second is answered first
    and rejected, the first is accepted. *)
Definition demo_auth_ops : list AuthOp :=
  [OpNew 0; OpNew 1; OpNew 2; OpCall 2 false; OpCall 0 false; OpCall 1 false; OpCall 0 false; OpCall 1 false; OpCall 0 false; OpCall 1 false;
   OpResolve 2 (OutReject 4001); OpResolve 1 (OutAccept (Some (str "u"))); OpResolve 9 (OutAccept None);
   OpCall 1 false; OpCall 0 false; OpCall 0 false; OpCall 1 false; OpCall 0 false; OpCall 1 false].

Lemma authorizer_bounded_and_faithful_witness :
  match auth_exec demo_auth_ops (run_start 2 Metrics.default) with
  | Some s => asked s = [(1, 0); (2, 1)] /\ justified (asked s) (replies s) 0 (AuthAccept (Some (str "u")) 1) /\
      justified (asked s) (replies s) 1 (AuthReject 4001 (str "unauthorized")) /\
      justified (asked s) (replies s) 2 (AuthReject CLOSE_AUTH_UNAVAILABLE (str "pending-upgrade table full"))
  | None => False
  end.
Proof.
  destruct (auth_exec demo_auth_ops (run_start 2 Metrics.default)) as [s|] eqn:E; [|vm_compute in E; discriminate].
  destruct (authorizer_bounded_and_faithful 2 Metrics.default s ltac:(lia) (auth_exec_sound _ _ _ E)) as (_ & _ & _ & _ & _ & Ha).
  vm_compute in E. injection E as <-. split; [reflexivity|]. split; [apply (Ha 0); reflexivity|]. split; [apply (Ha 1); reflexivity|apply (Ha 2); reflexivity].
Defined.
