(* ===== verification/Broadcast.v ===== *)
(** * Local fan-out (crates/core/src/broadcast.rs)

    One payload into the mailbox of every recipient.  A registry handle is a
    reference: clones of a [ConnHandle] share one connection state, kept here in
    a store keyed by the reference. *)

From S2P Require Import Prelude Ids Runtime Config Metrics Mailbox Registry Events Connection Rooms Identity.

(** [enum FanoutTarget]. *)
Inductive FanoutTarget := All | Room (room : RoomId) | User (user : UserId).

(** [struct FanoutReport]. *)
Record FanoutReport := { attempted : Z; queued : Z; backpressured : Z; missing : Z }.

Definition FanoutReport_default : FanoutReport :=
  {| attempted := 0; queued := 0; backpressured := 0; missing := 0 |}.

Module Exclusions.

(** [enum Exclusions]. *)
Inductive t := Linear (except : list ConnectionId) | Sorted (except : list ConnectionId).

(** [Exclusions::new]; the unstable sort by key of plain ids is any sort. *)
Definition new (except : list ConnectionId) (recipients : nat) : t :=
  if (32 <=? length except)%nat && (64 <=? recipients)%nat && (length except <=? recipients)%nat
  then Sorted (merge_sort Z.le except)
  else Linear except.

(** The loop of [slice::binary_search_by]: [size] candidates from [base]. The
    fuel is the length; [size] shrinks in every round. *)
Fixpoint search (fuel : nat) (l : list Z) (x : Z) (base size : nat) : nat :=
  match fuel with
  | O => base
  | S fuel =>
      if (size <=? 1)%nat then base
      else
        let half := Nat.div size 2 in
        let mid := (base + half)%nat in
        let base' := match l !! mid with
                     | Some y => match y ?= x with Gt => base | _ => mid end
                     | None => base
                     end in
        search fuel l x base' (size - half)
  end.

(** [slice::binary_search_by_key(..).is_ok()]. *)
Definition binary_search (l : list Z) (x : Z) : bool :=
  match l with
  | [] => false
  | _ => bool_decide (l !! search (length l) l x 0 (length l) = Some x)
  end.

(** [Exclusions::contains]. *)
Definition contains (e : t) (id : ConnectionId) : bool :=
  match e with
  | Linear except => bool_decide (id ∈ except)
  | Sorted except => binary_search except id
  end.

End Exclusions.

Section Fanout.
Context {SL : Type -> Type} {slab_ops : Slab SL} {Ch : Type -> Type} {mpsc_ops : Mpsc Ch}.

(** The local data plane: what [Engine] shares with the connection tasks. *)
Record Local := {
  l_conns : Registry.t SL Z;
  l_store : gmap Z (Connection.ConnState Ch);
  l_rooms : RoomRegistry.t;
  l_identity : IdentityRegistry.t;
  l_metrics : Metrics.t;
}.

Definition set_store (s : gmap Z (Connection.ConnState Ch)) (m : Metrics.t) (l : Local) : Local :=
  {| l_conns := l_conns l; l_store := s; l_rooms := l_rooms l; l_identity := l_identity l; l_metrics := m |}.
Definition set_rooms (rm : RoomRegistry.t) (l : Local) : Local :=
  {| l_conns := l_conns l; l_store := l_store l; l_rooms := rm; l_identity := l_identity l; l_metrics := l_metrics l |}.

(** [ConnHandle::push] through a handle; a handle keeps its state alive, so the
    second case does not arise (see [handles_ok]). *)
Definition push_handle (h : Z) (f : Mailbox.OutboundFrame) (l : Local) : Mailbox.PushOutcome * Local :=
  match l_store l !! h with
  | Some c => let '(o, _, c', m) := Connection.push f c (l_metrics l) in (o, set_store (<[h := c']> (l_store l)) m l)
  | None => (Mailbox.Closed, l)
  end.

(** [fn push_one]. *)
Definition push_one (h : Z) (payload : bytes) (is_binary : bool) (r : FanoutReport) (l : Local)
    : FanoutReport * Local :=
  let '(o, l') := push_handle h {| Mailbox.data := payload; Mailbox.is_binary := is_binary |} l in
  (match o with
   | Mailbox.Queued =>
       {| attempted := attempted r; queued := queued r + 1; backpressured := backpressured r; missing := missing r |}
   | Mailbox.DroppedNewest | Mailbox.DroppedOldest | Mailbox.Disconnected =>
       {| attempted := attempted r; queued := queued r; backpressured := backpressured r + 1; missing := missing r |}
   | Mailbox.Closed =>
       {| attempted := attempted r; queued := queued r; backpressured := backpressured r; missing := missing r + 1 |}
   end, l').

Definition count_attempt (r : FanoutReport) : FanoutReport :=
  {| attempted := attempted r + 1; queued := queued r; backpressured := backpressured r; missing := missing r |}.
Definition count_missing (r : FanoutReport) : FanoutReport :=
  {| attempted := attempted r; queued := queued r; backpressured := backpressured r; missing := missing r + 1 |}.

(** The loop of [fan_out_ids]. *)
Fixpoint fan_out_loop (ex : Exclusions.t) (ids : list ConnectionId) (payload : bytes) (is_binary : bool)
    (r : FanoutReport) (l : Local) : FanoutReport * Local :=
  match ids with
  | [] => (r, l)
  | id :: ids =>
      if Exclusions.contains ex id then fan_out_loop ex ids payload is_binary r l
      else
        let '(r', l') := match Registry.get id (l_conns l) with
                         | Some h => push_one h payload is_binary r l
                         | None => (count_missing r, l)
                         end in
        fan_out_loop ex ids payload is_binary (count_attempt r') l'
  end.

(** [fn fan_out_ids]. *)
Definition fan_out_ids (ids : list ConnectionId) (payload : bytes) (is_binary : bool)
    (except : list ConnectionId) (r : FanoutReport) (l : Local) : FanoutReport * Local :=
  fan_out_loop (Exclusions.new except (length ids)) ids payload is_binary r l.

(** The loop of the [All] target, over the handles themselves. *)
Fixpoint fan_out_handles (ex : Exclusions.t) (hs : list (ConnectionId * Z)) (payload : bytes) (is_binary : bool)
    (r : FanoutReport) (l : Local) : FanoutReport * Local :=
  match hs with
  | [] => (r, l)
  | (id, h) :: hs =>
      if Exclusions.contains ex id then fan_out_handles ex hs payload is_binary r l
      else
        let '(r', l') := push_one h payload is_binary r l in
        fan_out_handles ex hs payload is_binary (count_attempt r') l'
  end.

(** [pub fn broadcast]. *)
Definition broadcast (target : FanoutTarget) (payload : bytes) (is_binary : bool)
    (except : list ConnectionId) (l : Local) : FanoutReport * Local :=
  let report := FanoutReport_default in
  match target with
  | Room room =>
      let '(ms, rm) := RoomRegistry.record_and_members room (l_rooms l) in
      let l := set_rooms rm l in
      match ms with
      | None => (report, l)
      | Some members => fan_out_ids members payload is_binary except report l
      end
  | User user =>
      match IdentityRegistry.connections user (l_identity l) with
      | None => (report, l)
      | Some devices => fan_out_ids devices payload is_binary except report l
      end
  | All =>
      let hs := Registry.handles (l_conns l) in
      fan_out_handles (Exclusions.new except (length hs)) hs payload is_binary report l
  end.

End Fanout.
#[global] Arguments Local : clear implicits.

(** ** The exclusion index *)

Section ExclusionFacts.
Import Exclusions.

Lemma sorted_lookup_le (l : list Z) i j a b :
  StronglySorted Z.le l -> (i <= j)%nat -> l !! i = Some a -> l !! j = Some b -> a <= b.
Proof.
  intros Hs. revert i j. induction Hs as [|x l Hs IH Hx]; intros i j Hij Hi Hj; [done|].
  destruct i as [|i], j as [|j]; simplify_eq/=; [lia| |lia|by eapply (IH i j); [lia|..]].
  eapply Forall_lookup_1 in Hx; [|exact Hj]. done.
Qed.

Lemma search_finds l x fuel base size k :
  StronglySorted Z.le l -> (size <= S fuel)%nat -> (base <= k < base + size)%nat -> (base + size <= length l)%nat ->
  l !! k = Some x -> l !! search fuel l x base size = Some x.
Proof.
  intros Hs. revert base size k. induction fuel as [|fuel IH]; intros base size k Hf Hk Hlen Hl; cbn [search].
  { replace base with k by lia. done. }
  destruct (Nat.leb_spec size 1) as [Hle|Hgt]; [replace base with k by lia; done|].
  pose proof (Nat.div_lt size 2 ltac:(lia) ltac:(lia)). pose proof (Nat.div_le_lower_bound size 2 1 ltac:(lia) ltac:(lia)).
  pose proof (Nat.Div0.mul_div_le size 2).
  destruct (lookup_lt_is_Some_2 l (base + size / 2)) as [y Hy]; [lia|]. rewrite Hy.
  destruct (Z.compare_spec y x) as [->|Hlt|Hyx].
  - apply (IH _ _ (base + size / 2)%nat); (lia || done).
  - apply (IH _ _ k); try (lia || done). destruct (decide (base + size / 2 <= k)%nat); [lia|].
    pose proof (sorted_lookup_le l k (base + size / 2) x y Hs ltac:(lia) Hl Hy). lia.
  - apply (IH _ _ k); try (lia || done). destruct (decide (base + size / 2 <= k)%nat); [|lia].
    pose proof (sorted_lookup_le l (base + size / 2) k y x Hs ltac:(lia) Hy Hl). lia.
Qed.

Lemma binary_search_spec l x : StronglySorted Z.le l -> binary_search l x = bool_decide (x ∈ l).
Proof.
  intros Hs. unfold binary_search. destruct l as [|y l]; [done|]. apply bool_decide_ext. split.
  - apply list_elem_of_lookup_2.
  - intros [k Hk]%list_elem_of_lookup. pose proof (lookup_lt_Some _ _ _ Hk).
    apply (search_finds _ _ _ _ _ k); (lia || done).
Qed.

Lemma exclusions_contains except n id : contains (new except n) id = bool_decide (id ∈ except).
Proof.
  unfold new. destruct (_ && _); [|done]. cbn. rewrite binary_search_spec.
  - apply bool_decide_ext. by rewrite merge_sort_Permutation.
  - apply StronglySorted_merge_sort; [apply _|]. intros a b. lia.
Qed.
End ExclusionFacts.

(** ** Who receives a broadcast *)

Section FanoutFacts.
Context {SL : Type -> Type} {slab_ops : Slab SL} {Ch : Type -> Type} {mpsc_ops : Mpsc Ch}.
Implicit Types (l : Local SL Ch).

(** The recipients of a target, before the exclusions. *)
Definition recipients (target : FanoutTarget) (l : Local SL Ch) : list ConnectionId :=
  match target with
  | All => (Registry.handles (l_conns l)).*1
  | Room room => default [] (RoomRegistry.members room (l_rooms l))
  | User user => default [] (IdentityRegistry.connections user (l_identity l))
  end.

(** [c'] is [c] after one [ConnHandle::push] of [f]. *)
Definition pushed (f : Mailbox.OutboundFrame) (c c' : Connection.ConnState Ch) : Prop :=
  exists m o nt m', Connection.push f c m = (o, nt, c', m').

Definition total (r : FanoutReport) : Z := queued r + backpressured r + missing r.

(** What a fan-out over [sent] does to the shared state. *)
Record fanned (f : Mailbox.OutboundFrame) (sent : list ConnectionId) (r r' : FanoutReport) (l l' : Local SL Ch) : Prop := {
  fn_conns : l_conns l' = l_conns l;
  fn_rooms : l_rooms l' = l_rooms l;
  fn_identity : l_identity l' = l_identity l;
  fn_attempted : attempted r' = attempted r + Z.of_nat (length sent);
  fn_total : total r' = total r + Z.of_nat (length sent);
  fn_store : forall id h c, u64_ok id -> Registry.get id (l_conns l) = Some h -> l_store l !! h = Some c ->
    if decide (id ∈ sent) then exists c', pushed f c c' /\ l_store l' !! h = Some c' else l_store l' !! h = Some c;
}.

(** Every live connection has its own state. *)
Record handles_ok (l : Local SL Ch) : Prop := {
  h_store : forall (id : ConnectionId) h, u64_ok id -> Registry.get id (l_conns l) = Some h -> is_Some (l_store l !! h);
  h_inj : forall (i j : ConnectionId) h, u64_ok i -> u64_ok j ->
    Registry.get i (l_conns l) = Some h -> Registry.get j (l_conns l) = Some h -> i = j;
}.

Lemma push_one_spec h payload b r l r' l' :
  push_one h payload b r l = (r', l') ->
  attempted r' = attempted r /\ total r' = total r + 1 /\
  l_conns l' = l_conns l /\ l_rooms l' = l_rooms l /\ l_identity l' = l_identity l /\
  (forall c, l_store l !! h = Some c -> exists c',
     pushed {| Mailbox.data := payload; Mailbox.is_binary := b |} c c' /\ l_store l' = <[h := c']> (l_store l)) /\
  (l_store l !! h = None -> l_store l' = l_store l).
Proof.
  unfold push_one, push_handle, total. destruct (l_store l !! h) as [c|] eqn:E.
  - destruct (Connection.push _ c _) as [[[o nt] c'] m] eqn:Ep. intros [= <- <-].
    split_and!; try (destruct o; cbn; lia || done). intros ? [= <-]. exists c'. split; [|done]. by eexists _, _, _, _.
  - intros [= <- <-]. cbn. split_and!; (lia || done).
Qed.

Lemma handles_ok_push h c' l l' :
  handles_ok l -> l_conns l' = l_conns l -> l_store l' = <[h := c']> (l_store l) -> handles_ok l'.
Proof.
  intros [Hs Hi] Ec Es. split; rewrite Ec; [|exact Hi]. intros id h' Hid Hg. rewrite Es.
  destruct (decide (h = h')) as [->|]; [rewrite lookup_insert_eq; eauto|rewrite lookup_insert_ne by done; eauto].
Qed.

Lemma fan_out_loop_spec ex ids payload b r l :
  handles_ok l -> NoDup ids -> Forall u64_ok ids ->
  let '(r', l') := fan_out_loop ex ids payload b r l in
  fanned {| Mailbox.data := payload; Mailbox.is_binary := b |}
    (filter (fun id => Exclusions.contains ex id = false) ids) r r' l l'.
Proof.
  revert r l. induction ids as [|id ids IH]; intros r l Hok Hnd Hu; cbn [fan_out_loop].
  { split; cbn; done || lia. }
  inversion Hnd as [|? ? Hni Hnd']; subst. apply Forall_cons in Hu as [Hid Hu]. rewrite filter_cons.
  destruct (Exclusions.contains ex id) eqn:Ex.
  { rewrite decide_False by done. by apply IH. }
  rewrite decide_True by done. destruct (Registry.get id (l_conns l)) as [h|] eqn:Eg.
  - destruct (h_store _ Hok id h Hid Eg) as [c Hc]. destruct (push_one h payload b r l) as [r1 l1] eqn:Ep.
    destruct (push_one_spec _ _ _ _ _ _ _ Ep) as (Ha & Ht & Ec & Er & Ei & Hst & _).
    destruct (Hst c Hc) as (c' & Hp & Es).
    assert (Hok1 : handles_ok l1) by (eapply handles_ok_push; done).
    specialize (IH (count_attempt r1) l1 Hok1 Hnd' Hu).
    destruct (fan_out_loop ex ids payload b (count_attempt r1) l1) as [r2 l2].
    destruct IH as [I1 I2 I3 I4 I5 I6]. split; try congruence; cbn [length] in *.
    + rewrite I4. cbn. lia.
    + rewrite I5. unfold total in *. cbn. lia.
    + intros j h' c0 Hj Hg Hc0. specialize (I6 j h'). rewrite Ec in I6.
      destruct (decide (j = id)) as [->|Hne].
      * rewrite Eg in Hg. simplify_eq. rewrite decide_True by set_solver. exists c'. split; [done|].
        specialize (I6 c' Hid Eg). rewrite Es, lookup_insert_eq in I6. specialize (I6 eq_refl).
        rewrite decide_False in I6; [done|]. intros Hin. apply Hni. by apply list_elem_of_filter in Hin as [_ Hin].
      * assert (h' <> h) by (intros ->; apply Hne; by eapply (h_inj _ Hok)).
        specialize (I6 c0 Hj Hg). rewrite Es, lookup_insert_ne in I6 by done. specialize (I6 Hc0).
        case_decide as H1; [rewrite decide_True by set_solver; done|rewrite decide_False by set_solver; done].
  - specialize (IH (count_attempt (count_missing r)) l Hok Hnd' Hu).
    destruct (fan_out_loop ex ids payload b _ l) as [r2 l2]. destruct IH as [I1 I2 I3 I4 I5 I6].
    split; try done; cbn [length] in *.
    + rewrite I4. cbn. lia.
    + rewrite I5. unfold total in *. cbn. lia.
    + intros j h' c0 Hj Hg Hc0. specialize (I6 j h' c0 Hj Hg Hc0).
      assert (j <> id) by (intros ->; congruence).
      case_decide as H1; [rewrite decide_True by set_solver; done|rewrite decide_False by set_solver; done].
Qed.

(** Fanning out over handles is fanning out over the ids that resolve to them. *)
Lemma fan_out_handles_ids ex hs payload b r l :
  (forall id h, (id, h) ∈ hs -> Registry.get id (l_conns l) = Some h) ->
  fan_out_handles ex hs payload b r l = fan_out_loop ex hs.*1 payload b r l.
Proof.
  revert r l. induction hs as [|[id h] hs IH]; intros r l Hg; [done|]. cbn.
  destruct (Exclusions.contains ex id); [apply IH; set_solver|].
  rewrite (Hg id h) by set_solver. destruct (push_one h payload b r l) as [r1 l1] eqn:Ep. apply IH.
  intros j hj Hj. destruct (push_one_spec _ _ _ _ _ _ _ Ep) as (_ & _ & -> & _). apply Hg. set_solver.
Qed.

Lemma handles_get l id h :
  Registry.wf (l_conns l) -> (id, h) ∈ Registry.handles (l_conns l) -> u64_ok id /\ Registry.get id (l_conns l) = Some h.
Proof.
  intros Hwf ([id' e] & [= -> ->] & Hin)%list_elem_of_fmap. pose proof (entries_ok _ _ _ Hwf Hin).
  split; [done|]. unfold Registry.get. apply entries_elem in Hin; [|done..]. by rewrite Hin.
Qed.

Lemma recipients_NoDup target l : Registry.wf (l_conns l) -> NoDup (recipients target l).
Proof.
  intros Hwf. destruct target as [|room|user]; cbn.
  - unfold Registry.handles. rewrite <-list_fmap_compose.
    rewrite (list_fmap_ext _ fst); [by apply entries_NoDup|]. by intros ? [].
  - unfold RoomRegistry.members. destruct (l_rooms l !! room); cbn; [apply NoDup_elements|constructor].
  - unfold IdentityRegistry.connections. destruct (l_identity l !! user); cbn; [apply NoDup_elements|constructor].
Qed.

(** The room message counter is the only thing a broadcast changes besides the
    recipients. *)
Definition after_record (target : FanoutTarget) (l : Local SL Ch) : Local SL Ch :=
  match target with Room room => set_rooms (RoomRegistry.record_and_members room (l_rooms l)).2 l | _ => l end.

(** C5. Local fan-out reaches exactly its audience: every live connection of
    the target (room members, a user's devices, or all) that is not excluded
    gets the frame pushed through [ConnHandle::push] exactly once, every other
    connection's state is untouched, and the report accounts for every
    recipient; the sorted exclusion index and the linear one decide alike. *)
Theorem broadcast_reaches_exactly target payload b except l :
  Registry.wf (l_conns l) -> handles_ok l -> Forall u64_ok (recipients target l) ->
  let '(r, l') := broadcast target payload b except l in
  fanned {| Mailbox.data := payload; Mailbox.is_binary := b |}
    (filter (fun id => id ∉ except) (recipients target l)) FanoutReport_default r (after_record target l) l' /\
  queued r + backpressured r + missing r = attempted r.
Proof.
  intros Hwf Hok Hu. pose proof (recipients_NoDup target l Hwf) as Hnd.
  assert (Hcore : forall l0, handles_ok l0 -> let '(r, l') := fan_out_ids (recipients target l) payload b except FanoutReport_default l0 in
    fanned {| Mailbox.data := payload; Mailbox.is_binary := b |}
      (filter (fun id => id ∉ except) (recipients target l)) FanoutReport_default r l0 l' /\
    queued r + backpressured r + missing r = attempted r).
  { intros l0 Hok0. pose proof (fan_out_loop_spec (Exclusions.new except (length (recipients target l)))
      (recipients target l) payload b FanoutReport_default l0 Hok0 Hnd Hu) as H. unfold fan_out_ids.
    destruct (fan_out_loop _ _ _ _ _ _) as [r l'].
    rewrite (list_filter_iff _ (fun id => id ∉ except)) in H.
    - split; [done|]. pose proof (fn_attempted _ _ _ _ _ _ H) as Ha. pose proof (fn_total _ _ _ _ _ _ H) as Ht.
      unfold total in Ht. cbn in *. lia.
    - intros id. rewrite exclusions_contains. apply bool_decide_eq_false. }
  unfold broadcast. destruct target as [|room|user].
  - rewrite fan_out_handles_ids by (intros; by apply handles_get).
    specialize (Hcore l Hok). unfold fan_out_ids in Hcore. cbn [recipients] in *. by rewrite length_fmap in Hcore.
  - cbn [after_record recipients] in *. unfold RoomRegistry.record_and_members, RoomRegistry.members in *.
    destruct (l_rooms l !! room) as [e|]; cbn in *; [apply Hcore; by destruct Hok|].
    split; [|done]. by split.
  - cbn [after_record recipients] in *. unfold IdentityRegistry.connections in *.
    destruct (l_identity l !! user) as [s|]; cbn in *; [by apply Hcore|].
    split; [|done]. by split.
Qed.
End FanoutFacts.

(** ** A concrete data plane *)

(** Two connections (handles 0 and 1) in one room, mailboxes of 8 bytes. *)
Definition demo_conns : Registry.t VecSlab.t Z :=
  match reg_exec [RInsert 0 None; RInsert 1 (Some (str "u"))] Registry.new with Some r => r | None => Registry.new end.

Definition demo_local : Local VecSlab.t ListChan.t :=
  let c := Connection.fresh {| high_water_mark := 8; policy := DropNewest |} in
  {| l_conns := demo_conns; l_store := <[0 := c]> (<[1 := c]> ∅);
     l_rooms := <[str "r" := {| members := {[ConnId.new 0 0 0; ConnId.new 1 0 0]}; messages := 0 |}]> ∅;
     l_identity := <[str "u" := {[ConnId.new 1 0 0]}]> ∅; l_metrics := Metrics.default |}.

Lemma demo_conns_wf : Registry.wf demo_conns.
Proof.
  destruct (reg_exec_wf [RInsert 0 None; RInsert 1 (Some (str "u"))] (Registry.new (SL := VecSlab.t) (Hd := Z)) 0)
    as (r & Hr & Hwf); [apply new_wf|apply slots_le_new|vm_compute; reflexivity|].
  unfold demo_conns. by rewrite Hr.
Qed.

(** The two live ids and their handles. *)
Lemma demo_get (id : ConnectionId) h :
  Registry.get id demo_conns = Some h ->
  ConnId.generation id = 0 /\ Z.to_nat (ConnId.key id) = 0%nat /\
  (Z.to_nat (ConnId.shard id) = 0%nat /\ h = 0 \/ Z.to_nat (ConnId.shard id) = 1%nat /\ h = 1).
Proof.
  intros (e & He & ->)%fmap_Some. apply find_Some in He as (sh & Hsh & Hg & Hgen).
  assert (HF : forall i sh k e, Registry.shards demo_conns !! i = Some sh -> slab_get (Registry.slab sh) k = Some e ->
    k = 0%nat /\ Registry.generation e = 0 /\ (i = 0%nat /\ Registry.handle e = 0 \/ i = 1%nat /\ Registry.handle e = 1)).
  { clear. intros i sh k e Hi Hk. vm_compute in Hi.
    do 2 (destruct i as [|i]; [injection Hi as <-; destruct k as [|[|k]]; vm_compute in Hk; simplify_eq; auto|]).
    do 14 (destruct i as [|i]; [injection Hi as <-; destruct k; discriminate Hk|]). discriminate Hi. }
  destruct (HF _ _ _ _ Hsh Hg) as (Hk & Hg0 & Hor). rewrite <-Hgen, Hk. done.
Qed.

Lemma demo_handles_ok : handles_ok demo_local.
Proof.
  split.
  - intros id h _ Hg. cbn in Hg. destruct (demo_get id h Hg) as (_ & _ & [[_ ->]|[_ ->]]); by eexists.
  - intros i j h Hi Hj Hgi Hgj. cbn in *. destruct (demo_get i h Hgi) as (Gi & Ki & Hi'), (demo_get j h Hgj) as (Gj & Kj & Hj').
    apply id_eq_fields; [done|done|lia|lia|lia].
Qed.

Lemma broadcast_reaches_exactly_witness :
  let '(r, l') := broadcast (Room (str "r")) (str "hi") false [ConnId.new 0 0 0] demo_local in
  attempted r = 1 /\ queued r + backpressured r + missing r = 1 /\ l_conns l' = demo_conns.
Proof.
  pose proof (broadcast_reaches_exactly (Room (str "r")) (str "hi") false [ConnId.new 0 0 0] demo_local) as H.
  destruct (broadcast (Room (str "r")) (str "hi") false [ConnId.new 0 0 0] demo_local) as [r l'].
  destruct H as [[H1 _ _ H2 _ _] H3].
  - exact demo_conns_wf.
  - exact demo_handles_ok.
  - assert (E : recipients (Room (str "r")) demo_local = [72057594037927936; 0]) by (vm_compute; reflexivity).
    rewrite E. repeat constructor; unfold u64_ok; lia.
  - assert (E : length (filter (fun id => id ∉ [ConnId.new 0 0 0]) (recipients (Room (str "r")) demo_local)) = 1%nat)
      by (vm_compute; reflexivity).
    rewrite E in H2. split; [exact H2|]. split; [rewrite H3; exact H2|exact H1].
Defined.
