(* ===== verification/BroadcastLinear.v ===== *)
(** * The linear fan-out reference (crates/core/benches/support/broadcast_linear.rs)

    The frozen fan-out the benchmarks compare against: the exclusion list is
    scanned for every recipient, and the close after a backpressure disconnect
    is a separate call.  The production fan-out is proved equal to it. *)

From S2P Require Import Prelude Ids Runtime Config Metrics Mailbox Registry Events Connection Rooms Identity Broadcast.

Module Linear.
Section Linear.
Context {SL : Type -> Type} {slab_ops : Slab SL} {Ch : Type -> Type} {mpsc_ops : Mpsc Ch}.
Implicit Types (l : Local SL Ch).

(** [handle.mailbox.push(..)] alone. *)
Definition mailbox_push (h : Z) (f : Mailbox.OutboundFrame) l : Mailbox.PushOutcome * Local SL Ch :=
  match l_store l !! h with
  | Some c =>
      let '(o, _, mb, m) := Mailbox.push f (Connection.mailbox c) (l_metrics l) in
      (o, set_store (<[h := Connection.set_mailbox mb c]> (l_store l)) m l)
  | None => (Mailbox.Closed, l)
  end.

(** [handle.initiate_close(CLOSE_BACKPRESSURE, "backpressure", true)]. *)
Definition close_slow (h : Z) l : Local SL Ch :=
  match l_store l !! h with
  | Some c => set_store (<[h := Connection.initiate_close CLOSE_BACKPRESSURE (str "backpressure") true c]> (l_store l)) (l_metrics l) l
  | None => l
  end.

Definition add_queued (r : FanoutReport) : FanoutReport :=
  {| attempted := attempted r; queued := queued r + 1; backpressured := backpressured r; missing := missing r |}.
Definition add_backpressured (r : FanoutReport) : FanoutReport :=
  {| attempted := attempted r; queued := queued r; backpressured := backpressured r + 1; missing := missing r |}.

(** [fn push_one]. *)
Definition push_one (h : Z) (payload : bytes) (is_binary : bool) (r : FanoutReport) l : FanoutReport * Local SL Ch :=
  let '(o, l) := mailbox_push h {| Mailbox.data := payload; Mailbox.is_binary := is_binary |} l in
  match o with
  | Mailbox.Queued => (add_queued r, l)
  | Mailbox.DroppedNewest | Mailbox.DroppedOldest => (add_backpressured r, l)
  | Mailbox.Disconnected => (add_backpressured r, close_slow h l)
  | Mailbox.Closed => (count_missing r, l)
  end.

(** [fn fan_out_ids]. *)
Fixpoint fan_out_ids (ids : list ConnectionId) (payload : bytes) (is_binary : bool) (except : list ConnectionId)
    (r : FanoutReport) l : FanoutReport * Local SL Ch :=
  match ids with
  | [] => (r, l)
  | id :: ids =>
      if bool_decide (id ∈ except) then fan_out_ids ids payload is_binary except r l
      else
        let '(r, l) := match Registry.get id (l_conns l) with
                       | Some h => push_one h payload is_binary r l
                       | None => (count_missing r, l)
                       end in
        fan_out_ids ids payload is_binary except (count_attempt r) l
  end.

(** The [All] target. *)
Fixpoint fan_out_all (hs : list (ConnectionId * Z)) (payload : bytes) (is_binary : bool) (except : list ConnectionId)
    (r : FanoutReport) l : FanoutReport * Local SL Ch :=
  match hs with
  | [] => (r, l)
  | (id, h) :: hs =>
      if bool_decide (id ∈ except) then fan_out_all hs payload is_binary except r l
      else let '(r, l) := push_one h payload is_binary r l in fan_out_all hs payload is_binary except (count_attempt r) l
  end.

(** [pub fn broadcast]. *)
Definition broadcast (target : FanoutTarget) (payload : bytes) (is_binary : bool) (except : list ConnectionId) l : FanoutReport * Local SL Ch :=
  let report := FanoutReport_default in
  match target with
  | Room room =>
      let '(ms, rm) := RoomRegistry.record_and_members room (l_rooms l) in
      let l := set_rooms rm l in
      match ms with None => (report, l) | Some members => fan_out_ids members payload is_binary except report l end
  | User user =>
      match IdentityRegistry.connections user (l_identity l) with
      | None => (report, l)
      | Some devices => fan_out_ids devices payload is_binary except report l
      end
  | All => fan_out_all (Registry.handles (l_conns l)) payload is_binary except report l
  end.

End Linear.
End Linear.

Section LinearFacts.
Context {SL : Type -> Type} {slab_ops : Slab SL} {Ch : Type -> Type} {mpsc_ops : Mpsc Ch}.
Implicit Types (l : Local SL Ch).

(** Pushing and closing in one call or in two. *)
Lemma push_one_linear h payload b r l : Linear.push_one h payload b r l = push_one h payload b r l.
Proof.
  unfold Linear.push_one, push_one, Linear.mailbox_push, push_handle. destruct (l_store l !! h) as [c|] eqn:E; [|done].
  unfold Connection.push. destruct (Mailbox.push _ _ _) as [[[o nt] mb] m]. destruct o; try done.
  rewrite decide_True by done. unfold Linear.close_slow. cbn [l_store set_store]. rewrite lookup_insert_eq. cbn. by rewrite insert_insert_eq.
Qed.

Lemma fan_out_ids_linear except n ids payload b r l :
  Linear.fan_out_ids ids payload b except r l = fan_out_loop (Exclusions.new except n) ids payload b r l.
Proof.
  revert r l. induction ids as [|id ids IH]; intros r l; cbn [Linear.fan_out_ids fan_out_loop]; [done|].
  rewrite exclusions_contains. destruct (bool_decide _); [apply IH|].
  destruct (Registry.get id (l_conns l)) as [h|]; [rewrite push_one_linear; destruct (push_one h payload b r l)|]; apply IH.
Qed.

Lemma fan_out_all_linear except n hs payload b r l :
  Linear.fan_out_all hs payload b except r l = fan_out_handles (Exclusions.new except n) hs payload b r l.
Proof.
  revert r l. induction hs as [|[id h] hs IH]; intros r l; cbn [Linear.fan_out_all fan_out_handles]; [done|].
  rewrite exclusions_contains. destruct (bool_decide _); [apply IH|]. rewrite push_one_linear. destruct (push_one h payload b r l). apply IH.
Qed.

(** C6. The production fan-out, which switches to a sorted index and binary
    search for long exclusion lists and closes a slow connection inside the push,
    is the frozen linear reference: for every target, payload, exclusion list and
    state of the data plane it gives the same report and leaves the same state. *)
Theorem broadcast_is_linear_reference target payload b except l :
  broadcast target payload b except l = Linear.broadcast target payload b except l.
Proof.
  unfold broadcast, Linear.broadcast, fan_out_ids. destruct target as [|room|user].
  - by rewrite (fan_out_all_linear except (length (Registry.handles (l_conns l)))).
  - destruct (RoomRegistry.record_and_members room (l_rooms l)) as [[ms|] rm]; [by rewrite (fan_out_ids_linear except (length ms))|done].
  - destruct (IdentityRegistry.connections user (l_identity l)) as [ds|]; [by rewrite (fan_out_ids_linear except (length ds))|done].
Qed.
End LinearFacts.

(** ** The exclusion strategies of the benchmark (benches/exclusion_filter.rs) *)

Module ExclusionFilter.

(** [linear], [sorted], [hashed] and [adaptive]: how many of [ids] are kept. *)
Definition linear (ids except : list ConnectionId) : nat :=
  length (filter (fun id => bool_decide (id ∈ except) = false) ids).
Definition sorted (ids except : list ConnectionId) : nat :=
  let index := merge_sort Z.le except in
  length (filter (fun id => Exclusions.binary_search index id = false) ids).
Definition hashed (ids except : list ConnectionId) : nat :=
  let index : gset ConnectionId := list_to_set except in
  length (filter (fun id => bool_decide (id ∈ index) = false) ids).
Definition adaptive (ids except : list ConnectionId) : nat :=
  if (32 <=? length except)%nat && (64 <=? length ids)%nat && (length except <=? length ids)%nat then sorted ids except else linear ids except.

(** The assertion of [main]: every strategy keeps as many as the linear one. *)
Lemma strategies_agree ids except :
  sorted ids except = linear ids except /\ hashed ids except = linear ids except /\ adaptive ids except = linear ids except.
Proof.
  assert (Hs : sorted ids except = linear ids except).
  { unfold sorted, linear. f_equal. apply list_filter_iff. intros id. rewrite binary_search_spec.
    - by rewrite (bool_decide_ext (id ∈ merge_sort Z.le except) (id ∈ except)) by (by rewrite merge_sort_Permutation).
    - apply StronglySorted_merge_sort; [apply _|]. intros a b. lia. }
  split; [exact Hs|]. split.
  - unfold hashed, linear. f_equal. apply list_filter_iff. intros id. by rewrite (bool_decide_ext _ _ (elem_of_list_to_set id except)).
  - unfold adaptive. by destruct (_ && _).
Qed.

End ExclusionFilter.
