(* ===== verification/Frame.v ===== *)
(** * Mesh framing and the HELLO body (crates/mesh/src/frame.rs, hello.rs)

    A frame is [len: u32 LE][kind: u8][flags: u8][body]; [len] covers kind, flags
    and body.  HELLO is the body that opens every link. *)

From S2P Require Import Prelude Wire.

Definition HEADER_LEN : nat := 6.
Definition MIN_FRAME_FLOOR : Z := 64.
Definition MAX_FRAME_CEILING : Z := Z.shiftl 64 20.

(** [enum FrameKind]. *)
Inductive FrameKind :=
  | Hello | Challenge | Auth | Membership | Interest | InterestDigest
  | RelayRoom | RelayUser | RelayAll | RelaySocket | Ping.

#[global] Instance FrameKind_eq_dec : EqDecision FrameKind.
Proof. solve_decision. Defined.

(** [FrameKind::from_u8]. *)
Definition from_u8 (b : Z) : option FrameKind :=
  match b with
  | 1 => Some Hello | 2 => Some Challenge | 3 => Some Auth | 4 => Some Membership
  | 5 => Some Interest | 6 => Some InterestDigest | 7 => Some RelayRoom | 8 => Some RelayUser
  | 9 => Some RelayAll | 10 => Some RelaySocket | 11 => Some Ping | _ => None
  end.

(** [FrameKind::as_u8]. *)
Definition as_u8 (k : FrameKind) : Z :=
  match k with
  | Hello => 1 | Challenge => 2 | Auth => 3 | Membership => 4 | Interest => 5 | InterestDigest => 6
  | RelayRoom => 7 | RelayUser => 8 | RelayAll => 9 | RelaySocket => 10 | Ping => 11
  end.

(** [struct Flags(u8)]. *)
Definition FLAGS_NONE : Z := 0.
Definition FLAGS_BINARY : Z := 1.
Definition FLAGS_PONG : Z := 1.
Definition flags_has (flags bit : Z) : bool := negb (Z.land flags bit =? 0).

Module Frame.

(** [struct Frame]. *)
Record t := { kind : FrameKind; flags : Z; body : bytes }.

(** [Frame::new] and [Frame::with_flags]. *)
Definition new (k : FrameKind) (b : bytes) : t := {| kind := k; flags := FLAGS_NONE; body := b |}.
Definition with_flags (k : FrameKind) (f : Z) (b : bytes) : t := {| kind := k; flags := f; body := b |}.

(** [Frame::wire_len]. *)
Definition wire_len (f : t) : nat := HEADER_LEN + length (body f).

(** [Frame::encode]. *)
Definition encode (f : t) : bytes :=
  to_le_bytes 4 (wrap 32 (2 + Z.of_nat (length (body f)))) ++ [as_u8 (kind f)] ++ [flags f] ++ body f.

(** [Frame::encode_into]. *)
Definition encode_into (f : t) (out : bytes) : bytes := out ++ encode f.

(** [enum FrameError]. *)
Inductive FrameError := Truncated | Malformed | Oversize (len max : Z) | UnknownKind (b : Z).

(** [fn decode_len]. *)
Definition decode_len (len max_frame : Z) : nat + FrameError :=
  if len <? 2 then inr Malformed
  else if max_frame <? len then inr (Oversize len max_frame)
  else inl (Z.to_nat len).

(** [Frame::parse]. *)
Definition parse (buf : bytes) (max_frame : Z) : t + FrameError :=
  match buf with
  | b0 :: b1 :: b2 :: b3 :: rest =>
      let len := from_le_bytes [b0; b1; b2; b3] in
      match decode_len len max_frame with
      | inr e => inr e
      | inl n =>
          if decide (length buf < 4 + n)%nat then inr Truncated
          else match rest with
               | k :: fl :: _ =>
                   match from_u8 k with
                   | Some kd => inl {| kind := kd; flags := fl; body := take (n - 2) (drop HEADER_LEN buf) |}
                   | None => inr (UnknownKind k)
                   end
               | _ => inr Truncated
               end
      end
  | _ => inr Truncated
  end.

End Frame.

Lemma from_as_u8 k : from_u8 (as_u8 k) = Some k.
Proof. by destruct k. Qed.

Lemma as_from_u8 b k : from_u8 b = Some k -> as_u8 k = b.
Proof.
  unfold from_u8. intros H. repeat case_match; simplify_eq/=; done.
Qed.

Section FrameFacts.
Import Frame.

(** A frame that fits a link: its length prefix is within the negotiated
    maximum (and so in a [u32]). *)
Definition fits (max_frame : Z) (f : Frame.t) : Prop := 2 + Z.of_nat (length (body f)) <= max_frame.

Lemma parse_encode f max rest :
  fits max f -> max < 2 ^ 32 -> parse (encode f ++ rest) max = inl f.
Proof.
  intros Hfit Hmax. unfold fits in Hfit. unfold encode. rewrite wrap_small by lia. rewrite <-!app_assoc.
  set (len := 2 + Z.of_nat (length (body f))) in *.
  pose proof (from_to_le_bytes 4 len ltac:(lia)) as Hle. pose proof (length_to_le_bytes 4 len) as Hlen.
  destruct (to_le_bytes 4 len) as [|b0 [|b1 [|b2 [|b3 [|]]]]]; try discriminate Hlen.
  cbn [app parse]. rewrite Hle. unfold decode_len.
  destruct (Z.ltb_spec len 2); [lia|]. destruct (Z.ltb_spec max len); [lia|].
  rewrite decide_False by (cbn [length]; rewrite length_app; lia).
  rewrite from_as_u8. unfold HEADER_LEN. cbn [drop app]. replace (Z.to_nat len - 2)%nat with (length (body f)) by lia.
  rewrite drop_0, take_app_length. by destruct f.
Qed.

Lemma parse_inv buf max f :
  Forall byte_ok buf -> parse buf max = inl f ->
  exists rest, buf = encode f ++ rest /\ fits max f.
Proof.
  intros Hb. unfold parse. destruct buf as [|b0 [|b1 [|b2 [|b3 rest]]]]; try done.
  set (len := from_le_bytes [b0; b1; b2; b3]).
  assert (Hlen : 0 <= len < 2 ^ 32 /\ to_le_bytes 4 len = [b0; b1; b2; b3]).
  { assert (HF : Forall byte_ok [b0; b1; b2; b3]) by (by apply (Forall_app _ [b0; b1; b2; b3] rest) in Hb as [? _]).
    split; [by apply from_le_bytes_bound in HF|]. by apply to_from_le_bytes in HF. }
  destruct Hlen as [Hrange Hto]. clearbody len. unfold decode_len.
  destruct (Z.ltb_spec len 2); [done|]. destruct (Z.ltb_spec max len); [done|].
  case_decide as Hshort; [done|]. cbn [length] in Hshort.
  destruct rest as [|k [|fl tl]]; try done. destruct (from_u8 k) as [kd|] eqn:Ek; [|done].
  intros [= <-]. exists (drop (Z.to_nat len - 2) tl). cbn [length] in Hshort. unfold encode, fits. cbn [body kind flags].
  unfold HEADER_LEN. cbn [drop]. rewrite drop_0, length_take, Nat.min_l by lia.
  replace (2 + Z.of_nat (Z.to_nat len - 2)) with len by lia.
  rewrite wrap_small, Hto, (as_from_u8 _ _ Ek) by lia. cbn. rewrite take_drop. done.
Qed.

(** C29. The mesh frame codec is exact: on a buffer of bytes, [Frame::parse]
    succeeds with [f] if and only if the buffer starts with [Frame::encode f]
    and [f] is within the negotiated maximum; so encode/parse round-trips, the
    accepted encoding is unique, and a length prefix above the maximum is
    refused before the body is looked at. *)
Theorem frame_codec_exact buf max f :
  Forall byte_ok buf -> max < 2 ^ 32 ->
  (parse buf max = inl f <-> exists rest, buf = encode f ++ rest /\ fits max f) /\
  (forall b0 b1 b2 b3 rest, buf = b0 :: b1 :: b2 :: b3 :: rest -> max < from_le_bytes [b0; b1; b2; b3] -> 2 <= max ->
     parse buf max = inr (Oversize (from_le_bytes [b0; b1; b2; b3]) max)).
Proof.
  intros Hb Hmax. split; [split|].
  - by apply parse_inv.
  - intros (rest & -> & Hfit). by apply parse_encode.
  - intros b0 b1 b2 b3 rest -> Hgt H2. unfold parse, decode_len.
    destruct (Z.ltb_spec (from_le_bytes [b0; b1; b2; b3]) 2); [lia|].
    destruct (Z.ltb_spec max (from_le_bytes [b0; b1; b2; b3])); [done|lia].
Qed.

Lemma frame_codec_exact_witness :
  parse (encode (with_flags Ping FLAGS_PONG []) ++ [9]) 64 = inl (with_flags Ping FLAGS_PONG []).
Proof.
  apply (proj1 (frame_codec_exact (encode (with_flags Ping FLAGS_PONG []) ++ [9]) 64 (with_flags Ping FLAGS_PONG [])
    ltac:(repeat constructor; unfold byte_ok; vm_compute; congruence) ltac:(lia))).
  exists [9]. split; [reflexivity|unfold fits; simpl; lia].
Defined.
End FrameFacts.

(** ** HELLO *)

Definition PROTOCOL_VERSION : Z := 1.
Definition MESH_MAGIC : bytes := str "BSMH".
Definition FIXED_PREFIX : nat := 4 + 2 + 2 + 8 + 4 + 4 + 32 + 2.
Definition MAX_CLUSTER_NAME_LEN : Z := 255.

Module HelloBody.

(** [struct Hello]. *)
Record t := {
  protocol_version : Z;
  node_id : Z;
  incarnation : Z;
  max_frame : Z;
  features : Z;
  fresh : bytes;
  cluster_name : rstring;
}.

(** [enum HelloError]. *)
Inductive HelloError := BadMagic | HTruncated | ClusterNameTooLong (n : Z) | ClusterNameNotUtf8.

(** [Hello::encode]. *)
Definition encode (h : t) : bytes :=
  MESH_MAGIC ++ to_le_bytes 2 (protocol_version h) ++ to_le_bytes 2 (node_id h) ++
  to_le_bytes 8 (incarnation h) ++ to_le_bytes 4 (max_frame h) ++ to_le_bytes 4 (features h) ++
  fresh h ++ to_le_bytes 2 (wrap 16 (Z.of_nat (length (cluster_name h)))) ++ cluster_name h.

(** [&body[a..b]]. *)
Definition range (body : bytes) (a b : nat) : bytes := take (b - a) (drop a body).

(** [Hello::decode]. *)
Definition decode (body : bytes) : t + HelloError :=
  if decide (length body < FIXED_PREFIX)%nat then inr HTruncated
  else if negb (bool_decide (range body 0 4 = MESH_MAGIC)) then inr BadMagic
  else
    let name_len := from_le_bytes (range body 56 58) in
    if MAX_CLUSTER_NAME_LEN <? name_len then inr (ClusterNameTooLong name_len)
    else
      let name_end := (FIXED_PREFIX + Z.to_nat name_len)%nat in
      if decide (length body < name_end)%nat then inr HTruncated
      else match from_utf8 (range body FIXED_PREFIX name_end) with
           | None => inr ClusterNameNotUtf8
           | Some name =>
               inl {| protocol_version := from_le_bytes (range body 4 6);
                      node_id := from_le_bytes (range body 6 8);
                      incarnation := from_le_bytes (range body 8 16);
                      max_frame := from_le_bytes (range body 16 20);
                      features := from_le_bytes (range body 20 24);
                      fresh := range body 24 56;
                      cluster_name := name |}
           end.

End HelloBody.

Section HelloFacts.
Import HelloBody.

(** The widths a Rust [Hello] has by type, plus the operator limit on names. *)
Record hello_ok (h : HelloBody.t) : Prop := {
  ho_version : u16_ok (protocol_version h);
  ho_node : u16_ok (node_id h);
  ho_inc : u64_ok (incarnation h);
  ho_max : u32_ok (max_frame h);
  ho_feat : u32_ok (features h);
  ho_fresh : length (fresh h) = 32%nat;
  ho_name : Z.of_nat (length (cluster_name h)) <= MAX_CLUSTER_NAME_LEN;
  ho_utf8 : utf8_valid (cluster_name h) = true;
}.

(** The fields of the encoding, in order. *)
Definition hello_fields (h : HelloBody.t) : list bytes :=
  [MESH_MAGIC; to_le_bytes 2 (protocol_version h); to_le_bytes 2 (node_id h); to_le_bytes 8 (incarnation h);
   to_le_bytes 4 (max_frame h); to_le_bytes 4 (features h); fresh h;
   to_le_bytes 2 (Z.of_nat (length (cluster_name h))); cluster_name h].

Lemma encode_fields h extra : hello_ok h -> encode h ++ extra = concat (hello_fields h ++ [extra]).
Proof.
  intros [_ _ _ _ _ _ Hn _]. unfold MAX_CLUSTER_NAME_LEN in Hn. unfold encode, hello_fields. rewrite wrap_small by lia.
  cbn [app concat]. rewrite app_nil_r, <-!app_assoc. done.
Qed.

(** The field after the fields [pre] is read back by its offsets. *)
Lemma range_concat pre x post a b :
  length (concat pre) = a -> (a + length x)%nat = b -> range (concat (pre ++ x :: post)) a b = x.
Proof.
  intros <- <-. unfold range. rewrite concat_app. cbn [concat]. rewrite drop_app_length, Nat.add_comm, Nat.add_sub.
  apply take_app_length.
Qed.

Lemma hello_length h : hello_ok h -> length (encode h) = (FIXED_PREFIX + length (cluster_name h))%nat.
Proof.
  intros Hok. pose proof (ho_fresh _ Hok). unfold encode. rewrite !length_app, !length_to_le_bytes, H. reflexivity.
Qed.

(** The [i]-th field of an encoded HELLO is read back by its offsets. *)
Lemma hello_field h extra i a b x :
  hello_ok h -> hello_fields h !! i = Some x -> length (concat (take i (hello_fields h))) = a ->
  (a + length x)%nat = b -> range (encode h ++ extra) a b = x.
Proof.
  intros Hok Hx Ha Hb. rewrite (encode_fields h extra Hok), <-(take_drop_middle (hello_fields h) i x Hx), <-app_assoc.
  by apply range_concat.
Qed.

(** HELLO round-trips under the append-only rule: trailing bytes a newer peer may
    add are ignored. *)
Lemma decode_encode h extra : hello_ok h -> decode (encode h ++ extra) = inl h.
Proof.
  intros Hok. pose proof (hello_length h Hok) as Hlen. pose proof Hok as [Hv Hn Hi Hm Hf Hfr Hname Hutf].
  unfold u16_ok, u32_ok, u64_ok in *. unfold MAX_CLUSTER_NAME_LEN in Hname.
  unfold decode. rewrite decide_False by (rewrite length_app, Hlen; lia).
  pose proof (fun i a b x => hello_field h extra i a b x Hok) as F.
  rewrite (F 0%nat 0%nat 4%nat MESH_MAGIC), bool_decide_true by done. cbn [negb].
  rewrite (F 7%nat 56%nat 58%nat (to_le_bytes 2 (Z.of_nat (length (cluster_name h)))))
    by (try done; cbn; rewrite ?length_app, ?Hfr; done).
  rewrite from_to_le_bytes by lia. unfold MAX_CLUSTER_NAME_LEN.
  destruct (Z.ltb_spec 255 (Z.of_nat (length (cluster_name h)))); [lia|]. rewrite Nat2Z.id.
  rewrite decide_False by (rewrite length_app, Hlen; lia).
  rewrite (F 8%nat FIXED_PREFIX (FIXED_PREFIX + length (cluster_name h))%nat (cluster_name h))
    by (try done; cbn; rewrite ?length_app, ?Hfr; done).
  unfold from_utf8. rewrite Hutf.
  rewrite (F 1%nat 4%nat 6%nat (to_le_bytes 2 (protocol_version h))), (F 2%nat 6%nat 8%nat (to_le_bytes 2 (node_id h))),
    (F 3%nat 8%nat 16%nat (to_le_bytes 8 (incarnation h))), (F 4%nat 16%nat 20%nat (to_le_bytes 4 (max_frame h))),
    (F 5%nat 20%nat 24%nat (to_le_bytes 4 (features h))), (F 6%nat 24%nat 56%nat (fresh h))
    by (try done; rewrite Hfr; done).
  rewrite !from_to_le_bytes by lia. by destruct h.
Qed.

End HelloFacts.
