(* ===== verification/Handshake.v ===== *)
(** * The mesh handshake (crates/mesh/src/handshake.rs, config.rs, crypto.rs)

    The sans-IO state machine: HELLO both ways, the responder's CHALLENGE, and
    one AUTH per direction.  HMAC-SHA256 (the hmac and sha2 crates) and the OS
    randomness are parameters: [hmac] is a function of key and message, and the
    random bytes are arguments of the operations that draw them.  A panic
    ([expect]) is [None]. *)

From S2P Require Import Prelude Wire Frame.

(** [crypto::constant_time_eq]. *)
Definition constant_time_eq (a b : bytes) : bool :=
  if negb (length a =? length b)%nat then false
  else foldl (fun diff '(x, y) => Z.lor diff (Z.lxor x y)) 0 (zip a b) =? 0.

#[local] Arguments str : simpl never.
#[global] Arguments constant_time_eq : simpl never.
#[global] Arguments HelloBody.encode : simpl never.
#[global] Arguments HelloBody.decode : simpl never.

(** [struct LinkConfig]; durations in milliseconds, [backoff] is only read by
    the reconnect loop and uses floating point. *)
Record LinkConfig := {
  lc_protocol_version : Z;
  lc_node_id : Z;
  lc_incarnation : Z;
  lc_cluster_name : rstring;
  lc_secret : bytes;
  lc_max_frame : Z;
  lc_features : Z;
  lc_auth_timeout : Z;
  lc_idle_ping_interval : Z;
  lc_idle_dead_after : Z;
  lc_queue_hwm_bytes : Z;
}.

(** [LinkConfig::new] and its default constants. *)
Definition DEFAULT_MAX_FRAME : Z := Z.shiftl 16 20.
Definition DEFAULT_QUEUE_HWM_BYTES : Z := Z.shiftl 1 20.
Definition LinkConfig_new (node_id : Z) (cluster_name : rstring) (secret : bytes) : LinkConfig :=
  {| lc_protocol_version := PROTOCOL_VERSION; lc_node_id := node_id; lc_incarnation := 0;
     lc_cluster_name := cluster_name; lc_secret := secret; lc_max_frame := DEFAULT_MAX_FRAME; lc_features := 0;
     lc_auth_timeout := 5 * 1000; lc_idle_ping_interval := 15 * 1000; lc_idle_dead_after := 45 * 1000;
     lc_queue_hwm_bytes := DEFAULT_QUEUE_HWM_BYTES |}.

(** [LinkConfig::validate], one constructor per message. *)
Inductive LinkConfigError := SecretEmpty | NameTooLong (len : Z) | MaxFrameRange (v : Z) | DeadBeforePing.
Definition LinkConfig_validate (c : LinkConfig) : option LinkConfigError :=
  if bool_decide (lc_secret c = []) then Some SecretEmpty
  else if MAX_CLUSTER_NAME_LEN <? Z.of_nat (length (lc_cluster_name c))
    then Some (NameTooLong (Z.of_nat (length (lc_cluster_name c))))
  else if (lc_max_frame c <? MIN_FRAME_FLOOR) || (MAX_FRAME_CEILING <? lc_max_frame c)
    then Some (MaxFrameRange (lc_max_frame c))
  else if lc_idle_dead_after c <=? lc_idle_ping_interval c then Some DeadBeforePing
  else None.

(** [mod features]. *)
Definition INTEREST_ROUTING : Z := Z.shiftl 1 0.
Definition RELAY : Z := Z.shiftl 1 1.

Definition INITIATOR_LABEL : bytes := str "bsmh-initiator".
Definition RESPONDER_LABEL : bytes := str "bsmh-responder".

#[global] Arguments INITIATOR_LABEL : simpl never.
#[global] Arguments RESPONDER_LABEL : simpl never.

(** [enum Role]. *)
Inductive Role := Initiator | Responder.
Definition my_label (r : Role) : bytes := match r with Initiator => INITIATOR_LABEL | Responder => RESPONDER_LABEL end.
Definition peer_label (r : Role) : bytes := match r with Initiator => RESPONDER_LABEL | Responder => INITIATOR_LABEL end.

(** [struct Negotiated]. *)
Record Negotiated := {
  n_protocol_version : Z;
  n_features : Z;
  n_max_frame : Z;
  n_role : Role;
  n_peer_node_id : Z;
  n_peer_incarnation : Z;
}.

(** [Negotiated::may_emit]. *)
Definition may_emit (n : Negotiated) (kind : FrameKind) : bool :=
  match kind with
  | Hello | Challenge | Auth | Ping | Membership => true
  | Interest | InterestDigest => negb (Z.land (n_features n) INTEREST_ROUTING =? 0)
  | RelayRoom | RelayUser | RelayAll | RelaySocket => negb (Z.land (n_features n) RELAY =? 0)
  end.

(** [enum RefuseReason]. *)
Inductive RefuseReason :=
  | ProtocolViolation (what : rstring) | NotMeshPeer | MalformedHello (e : HelloBody.HelloError)
  | ClusterMismatch (local peer : rstring) | IncompatibleVersion (local peer : Z)
  | NodeIdCollision (id : Z) | MaxFrameTooSmall (negotiated floor : Z) | AuthFailed.

(** [RefuseReason::should_backoff_retry]. *)
Definition should_backoff_retry (r : RefuseReason) : bool := match r with AuthFailed => true | _ => false end.

(** [enum HandshakeStep]. *)
Inductive HandshakeStep :=
  | Continue (send : list Frame.t)
  | Established (send : list Frame.t) (negotiated : Negotiated)
  | Refuse (reason : RefuseReason).

(** [enum State]. *)
Inductive HState := AwaitingHello | AwaitingChallenge | AwaitingAuth | HDone | HRefused.

Module Handshake.
Section Handshake.
Context (hmac : bytes -> bytes -> bytes).

(** [struct Handshake]. *)
Record t := {
  role : Role;
  cfg : LinkConfig;
  state : HState;
  my_hello_raw : bytes;
  peer_hello_raw : option bytes;
  nonce : option bytes;
  negotiated : option Negotiated;
}.

(** [Handshake::new]. *)
Definition new (r : Role) (c : LinkConfig) : t :=
  {| role := r; cfg := c; state := AwaitingHello; my_hello_raw := []; peer_hello_raw := None;
     nonce := None; negotiated := None |}.

Definition hello_of (c : LinkConfig) (fresh : bytes) : HelloBody.t :=
  {| HelloBody.protocol_version := lc_protocol_version c; HelloBody.node_id := lc_node_id c;
     HelloBody.incarnation := lc_incarnation c; HelloBody.max_frame := lc_max_frame c;
     HelloBody.features := lc_features c; HelloBody.fresh := fresh; HelloBody.cluster_name := lc_cluster_name c |}.

(** [Handshake::start]; [fresh] is [random_nonce()]. *)
Definition start (fresh : bytes) (h : t) : Frame.t * t :=
  let raw := HelloBody.encode (hello_of (cfg h) fresh) in
  (Frame.new Hello raw,
   {| role := role h; cfg := cfg h; state := state h; my_hello_raw := raw; peer_hello_raw := peer_hello_raw h;
      nonce := nonce h; negotiated := negotiated h |}).

(** [Handshake::transcript]. *)
Definition transcript (h : t) : bytes :=
  let peer := default [] (peer_hello_raw h) in
  match role h with Initiator => my_hello_raw h ++ peer | Responder => peer ++ my_hello_raw h end.

(** The message [Handshake::auth_mac] authenticates, and the MAC. *)
Definition mac_input (label n : bytes) (h : t) : bytes := label ++ n ++ transcript h.
Definition auth_mac (label : bytes) (h : t) : option bytes :=
  n ← nonce h; Some (hmac (lc_secret (cfg h)) (mac_input label n h)).

(** [Handshake::validate_peer_hello]. *)
Definition validate_peer_hello (body : bytes) (h : t) : Negotiated + RefuseReason :=
  match HelloBody.decode body with
  | inr HelloBody.BadMagic => inr NotMeshPeer
  | inr e => inr (MalformedHello e)
  | inl hello =>
      let c := cfg h in
      if negb (bool_decide (HelloBody.cluster_name hello = lc_cluster_name c))
        then inr (ClusterMismatch (lc_cluster_name c) (HelloBody.cluster_name hello))
      else if HelloBody.node_id hello =? lc_node_id c then inr (NodeIdCollision (HelloBody.node_id hello))
      else
        let local := lc_protocol_version c in
        let peer := HelloBody.protocol_version hello in
        if 1 <? Z.abs (local - peer) then inr (IncompatibleVersion local peer)
        else
          let max_frame := Z.min (lc_max_frame c) (HelloBody.max_frame hello) in
          if max_frame <? MIN_FRAME_FLOOR then inr (MaxFrameTooSmall max_frame MIN_FRAME_FLOOR)
          else inl {| n_protocol_version := Z.min local peer;
                      n_features := Z.land (lc_features c) (HelloBody.features hello);
                      n_max_frame := max_frame; n_role := role h;
                      n_peer_node_id := HelloBody.node_id hello;
                      n_peer_incarnation := HelloBody.incarnation hello |}
  end.

Definition set_state (s : HState) (h : t) : t :=
  {| role := role h; cfg := cfg h; state := s; my_hello_raw := my_hello_raw h; peer_hello_raw := peer_hello_raw h;
     nonce := nonce h; negotiated := negotiated h |}.

(** [Handshake::refuse]. *)
Definition refuse (reason : RefuseReason) (h : t) : option (HandshakeStep * t) :=
  Some (Refuse reason, set_state HRefused h).

(** [Handshake::on_hello]; [rnd] is the [random_nonce()] the responder draws. *)
Definition on_hello (rnd : bytes) (frame : Frame.t) (h : t) : option (HandshakeStep * t) :=
  if negb (bool_decide (Frame.kind frame = Hello)) then refuse (ProtocolViolation (str "expected HELLO")) h
  else
    let h := {| role := role h; cfg := cfg h; state := state h; my_hello_raw := my_hello_raw h;
                peer_hello_raw := Some (Frame.body frame); nonce := nonce h; negotiated := negotiated h |} in
    match validate_peer_hello (Frame.body frame) h with
    | inr reason => refuse reason h
    | inl n =>
        match role h with
        | Responder =>
            Some (Continue [Frame.new Challenge rnd],
              {| role := role h; cfg := cfg h; state := AwaitingAuth; my_hello_raw := my_hello_raw h;
                 peer_hello_raw := peer_hello_raw h; nonce := Some rnd; negotiated := Some n |})
        | Initiator =>
            Some (Continue [],
              {| role := role h; cfg := cfg h; state := AwaitingChallenge; my_hello_raw := my_hello_raw h;
                 peer_hello_raw := peer_hello_raw h; nonce := nonce h; negotiated := Some n |})
        end
    end.

(** [Handshake::on_challenge]. *)
Definition on_challenge (frame : Frame.t) (h : t) : option (HandshakeStep * t) :=
  if negb (bool_decide (Frame.kind frame = Challenge)) then refuse (ProtocolViolation (str "expected CHALLENGE")) h
  else if negb (length (Frame.body frame) =? 32)%nat
    then refuse (ProtocolViolation (str "CHALLENGE nonce must be 32 bytes")) h
  else
    let h := {| role := role h; cfg := cfg h; state := state h; my_hello_raw := my_hello_raw h;
                peer_hello_raw := peer_hello_raw h; nonce := Some (Frame.body frame); negotiated := negotiated h |} in
    mac ← auth_mac (my_label (role h)) h;
    Some (Continue [Frame.new Auth mac], set_state AwaitingAuth h).

(** [Handshake::on_auth]. *)
Definition on_auth (frame : Frame.t) (h : t) : option (HandshakeStep * t) :=
  if negb (bool_decide (Frame.kind frame = Auth)) then refuse (ProtocolViolation (str "expected AUTH")) h
  else if negb (length (Frame.body frame) =? 32)%nat then refuse (ProtocolViolation (str "AUTH MAC must be 32 bytes")) h
  else
    expected ← auth_mac (peer_label (role h)) h;
    if negb (constant_time_eq (Frame.body frame) expected) then refuse AuthFailed h
    else
      n ← negotiated h;
      match role h with
      | Responder =>
          mac ← auth_mac RESPONDER_LABEL (set_state HDone h);
          Some (Established [Frame.new Auth mac] n, set_state HDone h)
      | Initiator => Some (Established [] n, set_state HDone h)
      end.

(** [Handshake::on_frame]. *)
Definition on_frame (rnd : bytes) (frame : Frame.t) (h : t) : option (HandshakeStep * t) :=
  match state h with
  | AwaitingHello => on_hello rnd frame h
  | AwaitingChallenge => on_challenge frame h
  | AwaitingAuth => on_auth frame h
  | HDone | HRefused => refuse (ProtocolViolation (str "frame after handshake terminal")) h
  end.

(** A machine that has sent its HELLO. *)
Definition opened (r : Role) (c : LinkConfig) (fresh : bytes) : t := (start fresh (new r c)).2.

(** Feed frames until one does not [Continue]; what was sent along the way. *)
Fixpoint feed (rnd : bytes) (frames : list Frame.t) (h : t) : option (list Frame.t * HandshakeStep * t) :=
  match frames with
  | [] => Some ([], Continue [], h)
  | f :: frames =>
      '(step, h') ← on_frame rnd f h;
      match step with
      | Continue send => '(sent, step, h'') ← feed rnd frames h'; Some (send ++ sent, step, h'')
      | _ => Some ([], step, h')
      end
  end.

End Handshake.
End Handshake.

(** [fn ping_frame]. *)
Definition ping_frame (is_pong : bool) : Frame.t :=
  Frame.with_flags Ping (if is_pong then FLAGS_PONG else FLAGS_NONE) [].

(** ** Comparing MACs *)

Lemma diff_zero l d :
  foldl (fun diff '(x, y) => Z.lor diff (Z.lxor x y)) d l = 0 <-> d = 0 /\ Forall (fun p => p.1 = p.2) l.
Proof.
  revert d. induction l as [|[x y] l IH]; intros d; simpl; [split; [auto|by intros []]|].
  rewrite IH, Z.lor_eq_0_iff, Z.lxor_eq_0_iff, Forall_cons. naive_solver.
Qed.

Lemma constant_time_eq_spec a b : constant_time_eq a b = true <-> a = b.
Proof.
  unfold constant_time_eq. destruct (Nat.eqb_spec (length a) (length b)) as [Hl|Hl]; simpl.
  - rewrite Z.eqb_eq, diff_zero. split.
    + intros [_ Hf]. revert b Hl Hf. induction a as [|x a IH]; intros [|y b] Hl Hf; try done.
      apply Forall_cons in Hf as [Hxy Hf]. simpl in *. subst. f_equal. apply IH; [lia|done].
    + intros <-. split; [done|]. clear. induction a; simpl; constructor; done.
  - split; [done|congruence].
Qed.

Section HandshakeFacts.
Context (hmac : bytes -> bytes -> bytes) (hmac_len : forall k m, length (hmac k m) = 32%nat).
Import Handshake.

(** Two nodes that are configured to link up. *)
Record compatible (a b : LinkConfig) : Prop := {
  cp_name : lc_cluster_name a = lc_cluster_name b;
  cp_secret : lc_secret a = lc_secret b;
  cp_ids : lc_node_id a <> lc_node_id b;
  cp_version : Z.abs (lc_protocol_version a - lc_protocol_version b) <= 1;
  cp_frame : MIN_FRAME_FLOOR <= Z.min (lc_max_frame a) (lc_max_frame b);
}.

Lemma compatible_sym a b : compatible a b -> compatible b a.
Proof. intros [H1 H2 H3 H4 H5]. split; [done|done|congruence|lia|lia]. Qed.

(** What a node negotiates with the peer it heard. *)
Definition negotiate (r : Role) (c : LinkConfig) (p : HelloBody.t) : Negotiated :=
  {| n_protocol_version := Z.min (lc_protocol_version c) (HelloBody.protocol_version p);
     n_features := Z.land (lc_features c) (HelloBody.features p);
     n_max_frame := Z.min (lc_max_frame c) (HelloBody.max_frame p); n_role := r;
     n_peer_node_id := HelloBody.node_id p; n_peer_incarnation := HelloBody.incarnation p |}.

Lemma validate_compatible h c' fresh tail :
  compatible (cfg h) c' -> hello_ok (hello_of c' fresh) ->
  validate_peer_hello (HelloBody.encode (hello_of c' fresh) ++ tail) h = inl (negotiate (role h) (cfg h) (hello_of c' fresh)).
Proof.
  intros [H1 H2 H3 H4 H5] Hok. unfold validate_peer_hello. rewrite decode_encode by done. cbn.
  rewrite bool_decide_true by done. cbn.
  destruct (Z.eqb_spec (lc_node_id c') (lc_node_id (cfg h))); [congruence|].
  destruct (Z.ltb_spec 1 (Z.abs (lc_protocol_version (cfg h) - lc_protocol_version c'))); [lia|].
  destruct (Z.ltb_spec (Z.min (lc_max_frame (cfg h)) (lc_max_frame c')) MIN_FRAME_FLOOR); [lia|]. done.
Qed.

(** A machine in the middle of the exchange. *)
Definition mid (r : Role) (c : LinkConfig) (st : HState) (raw peer : bytes) (n : option bytes) (neg : Negotiated) : t :=
  {| role := r; cfg := c; state := st; my_hello_raw := raw; peer_hello_raw := Some peer; nonce := n; negotiated := Some neg |}.

(** The two HELLO bodies in transcript order, and the AUTH a role must send. *)
Definition ordered (r : Role) (mine peer : bytes) : bytes := match r with Initiator => mine ++ peer | Responder => peer ++ mine end.
Definition auth_by (c : LinkConfig) (label n tr : bytes) : Frame.t := Frame.new Auth (hmac (lc_secret c) (label ++ n ++ tr)).

Lemma feed_continue rnd f fs h send h' :
  on_frame hmac rnd f h = Some (Continue send, h') ->
  feed hmac rnd (f :: fs) h = '(sent, step, h'') ← feed hmac rnd fs h'; Some (send ++ sent, step, h'').
Proof. intros E. cbn [feed]. by rewrite E. Qed.

Lemma feed_established rnd f fs h s n h' :
  on_frame hmac rnd f h = Some (Established s n, h') -> feed hmac rnd (f :: fs) h = Some ([], Established s n, h').
Proof. intros E. cbn [feed]. by rewrite E. Qed.

Lemma on_frame_hello rnd r c fresh a neg :
  validate_peer_hello a (opened r c fresh) = inl neg ->
  on_frame hmac rnd (Frame.new Hello a) (opened r c fresh) =
    let raw := HelloBody.encode (hello_of c fresh) in
    Some (match r with
          | Responder => (Continue [Frame.new Challenge rnd], mid r c AwaitingAuth raw a (Some rnd) neg)
          | Initiator => (Continue [], mid r c AwaitingChallenge raw a None neg)
          end).
Proof.
  intros Hv. unfold on_frame. change (state (opened r c fresh)) with AwaitingHello. cbv iota.
  unfold on_hello. change (Frame.kind (Frame.new Hello a)) with Hello. rewrite bool_decide_true by done. cbn [negb].
  change (Frame.body (Frame.new Hello a)) with a.
  change (validate_peer_hello a _) with (validate_peer_hello a (opened r c fresh)). rewrite Hv. by destruct r.
Qed.

Lemma on_frame_challenge rnd c raw b n neg :
  length n = 32%nat ->
  on_frame hmac rnd (Frame.new Challenge n) (mid Initiator c AwaitingChallenge raw b None neg) =
    Some (Continue [auth_by c INITIATOR_LABEL n (raw ++ b)], mid Initiator c AwaitingAuth raw b (Some n) neg).
Proof. intros Hn. unfold on_frame. cbn [state mid]. unfold on_challenge. cbn [Frame.kind Frame.new Frame.body]. by rewrite Hn. Qed.

Lemma on_frame_auth rnd r c raw peer n neg body :
  on_frame hmac rnd (Frame.new Auth body) (mid r c AwaitingAuth raw peer (Some n) neg) =
    if decide (length body = 32%nat) then
      if decide (body = hmac (lc_secret c) (peer_label r ++ n ++ ordered r raw peer)) then
        Some (Established (match r with Responder => [auth_by c RESPONDER_LABEL n (ordered r raw peer)] | Initiator => [] end) neg,
              mid r c HDone raw peer (Some n) neg)
      else Some (Refuse AuthFailed, mid r c HRefused raw peer (Some n) neg)
    else Some (Refuse (ProtocolViolation (str "AUTH MAC must be 32 bytes")), mid r c HRefused raw peer (Some n) neg).
Proof.
  unfold on_frame. cbn [state mid]. unfold on_auth. cbn [Frame.kind Frame.new Frame.body].
  rewrite bool_decide_true by done. cbn [negb].
  destruct (Nat.eqb_spec (length body) 32) as [Hl|Hl]; [rewrite decide_True by done|rewrite decide_False by done; done]. cbn [negb].
  unfold auth_mac, mac_input, transcript. cbn [nonce mid mbind option_bind role cfg my_hello_raw peer_hello_raw default].
  change (match r with Initiator => raw ++ peer | Responder => peer ++ raw end) with (ordered r raw peer).
  destruct (constant_time_eq body _) eqn:E.
  - apply constant_time_eq_spec in E. rewrite decide_True by done. by destruct r.
  - rewrite decide_False; [done|]. intros Eq. apply constant_time_eq_spec in Eq. exact (eq_true_false_abs _ Eq E).
Qed.

Lemma responder_accepts c fresh n a neg :
  validate_peer_hello a (opened Responder c fresh) = inl neg ->
  let tr := a ++ HelloBody.encode (hello_of c fresh) in
  feed hmac n [Frame.new Hello a; auth_by c INITIATOR_LABEL n tr] (opened Responder c fresh) =
    Some ([Frame.new Challenge n], Established [auth_by c RESPONDER_LABEL n tr] neg,
          mid Responder c HDone (HelloBody.encode (hello_of c fresh)) a (Some n) neg).
Proof.
  intros Hv tr. rewrite (feed_continue _ _ _ _ _ _ (on_frame_hello n Responder c fresh a neg Hv)).
  erewrite feed_established; [done|]. unfold auth_by at 1. rewrite on_frame_auth.
  rewrite decide_True by apply hmac_len. by rewrite decide_True.
Qed.

Lemma initiator_accepts c fresh rnd n b neg :
  length n = 32%nat -> validate_peer_hello b (opened Initiator c fresh) = inl neg ->
  let tr := HelloBody.encode (hello_of c fresh) ++ b in
  feed hmac rnd [Frame.new Hello b; Frame.new Challenge n; auth_by c RESPONDER_LABEL n tr] (opened Initiator c fresh) =
    Some ([auth_by c INITIATOR_LABEL n tr], Established [] neg,
          mid Initiator c HDone (HelloBody.encode (hello_of c fresh)) b (Some n) neg).
Proof.
  intros Hn Hv tr. rewrite (feed_continue _ _ _ _ _ _ (on_frame_hello rnd Initiator c fresh b neg Hv)).
  rewrite (feed_continue _ _ _ _ _ _ (on_frame_challenge rnd c _ b n neg Hn)).
  erewrite feed_established; [done|]. unfold auth_by at 1. rewrite on_frame_auth.
  rewrite decide_True by apply hmac_len. by rewrite decide_True.
Qed.

(** Both sides' views of the link agree. *)
Record agree (cI cR : LinkConfig) (nI nR : Negotiated) : Prop := {
  ag_version : n_protocol_version nI = n_protocol_version nR;
  ag_features : n_features nI = n_features nR;
  ag_frame : n_max_frame nI = n_max_frame nR;
  ag_peers : n_peer_node_id nI = lc_node_id cR /\ n_peer_node_id nR = lc_node_id cI;
}.

Lemma negotiate_agree cI cR fI fR :
  agree cI cR (negotiate Initiator cI (hello_of cR fR)) (negotiate Responder cR (hello_of cI fI)).
Proof. split; cbn; [lia|apply Z.land_comm|lia|done]. Qed.

Lemma validate_plain r c c' fresh fresh' :
  compatible c c' -> hello_ok (hello_of c' fresh') ->
  validate_peer_hello (HelloBody.encode (hello_of c' fresh')) (opened r c fresh) = inl (negotiate r c (hello_of c' fresh')).
Proof. intros Hc Hok. rewrite <-(app_nil_r (HelloBody.encode _)). by apply validate_compatible. Qed.

(** The handshake completes and the ends agree: for every pair of compatible
    nodes, feeding each the frames the other sends (HELLO, CHALLENGE, AUTH,
    AUTH) establishes both, with the same version, features and maximum frame,
    and each naming the other's id. *)
Lemma handshake_completes cI cR fI fR n rnd :
  compatible cI cR -> hello_ok (hello_of cI fI) -> hello_ok (hello_of cR fR) -> length n = 32%nat ->
  exists auth_i auth_r nI nR hI hR,
    feed hmac n [(start fI (new Initiator cI)).1; auth_i] (opened Responder cR fR) =
      Some ([Frame.new Challenge n], Established [auth_r] nR, hR) /\
    feed hmac rnd [(start fR (new Responder cR)).1; Frame.new Challenge n; auth_r] (opened Initiator cI fI) =
      Some ([auth_i], Established [] nI, hI) /\
    agree cI cR nI nR.
Proof.
  intros Hc HokI HokR Hn. cbn [start fst new cfg].
  pose proof (validate_plain Responder cR cI fR fI (compatible_sym _ _ Hc) HokI) as VR.
  pose proof (validate_plain Initiator cI cR fI fR Hc HokR) as VI.
  pose proof (responder_accepts cR fR n _ _ VR) as ER. pose proof (initiator_accepts cI fI rnd n _ _ Hn VI) as EI.
  cbv zeta in ER, EI. unfold auth_by in *. rewrite <-(cp_secret _ _ Hc) in ER.
  eexists _, _, _, _, _, _. split; [exact ER|]. split; [exact EI|]. apply negotiate_agree.
Qed.

(** [hmac] has no collision among the messages [ms]. *)
Definition collision_free (k : bytes) (ms : list bytes) : Prop :=
  forall m m', m ∈ ms -> m' ∈ ms -> hmac k m = hmac k m' -> m = m'.

(** A HELLO body with nothing after its cluster name. *)
Definition no_trailing (body : bytes) : Prop :=
  length body = (FIXED_PREFIX + Z.to_nat (from_le_bytes (HelloBody.range body 56 58)))%nat.

Lemma hello_no_trailing h : hello_ok h -> no_trailing (HelloBody.encode h).
Proof.
  intros Hok. unfold no_trailing. rewrite (hello_length h Hok). f_equal.
  pose proof (ho_name _ Hok) as Hn. unfold MAX_CLUSTER_NAME_LEN in Hn. rewrite <-(app_nil_r (HelloBody.encode h)).
  rewrite (hello_field h [] 7 56 58 (to_le_bytes 2 (Z.of_nat (length (HelloBody.cluster_name h)))));
    [|done|done|unfold hello_fields; cbn [take concat]; rewrite !length_app, !length_to_le_bytes, (ho_fresh _ Hok); reflexivity|by rewrite length_to_le_bytes].
  rewrite from_to_le_bytes by lia. lia.
Qed.

(** Two bodies that start a common string, neither with trailing bytes, are the
    same body. *)
Lemma no_trailing_prefix a a' x x' :
  no_trailing a -> no_trailing a' -> a ++ x = a' ++ x' -> a = a' /\ x = x'.
Proof.
  intros Ha Ha' E. apply app_inj_1; [|done].
  assert (L : (58 <= length a)%nat /\ (58 <= length a')%nat) by (unfold no_trailing, FIXED_PREFIX in *; lia).
  assert (R : forall b y, (58 <= length b)%nat -> HelloBody.range (b ++ y) 56 58 = HelloBody.range b 56 58).
  { intros b y Hb. unfold HelloBody.range. rewrite drop_app_le, take_app_le by (rewrite ?length_drop; lia). done. }
  unfold no_trailing in *. rewrite Ha, Ha', <-(R a x), <-(R a' x'), E by lia. done.
Qed.

Lemma feed_hello_inv rnd r c fresh a fs out :
  feed hmac rnd (Frame.new Hello a :: fs) (opened r c fresh) = Some out ->
  (exists reason, out.1.2 = Refuse reason) \/ exists neg, validate_peer_hello a (opened r c fresh) = inl neg.
Proof.
  destruct (validate_peer_hello a (opened r c fresh)) as [neg|reason] eqn:Hv; [eauto|].
  intros Hf. left. cbn [feed] in Hf. unfold on_frame in Hf. change (state (opened r c fresh)) with AwaitingHello in Hf.
  cbv iota in Hf. unfold on_hello in Hf. change (Frame.kind (Frame.new Hello a)) with Hello in Hf.
  rewrite bool_decide_true in Hf by done. cbn [negb] in Hf. change (Frame.body (Frame.new Hello a)) with a in Hf.
  change (validate_peer_hello a _) with (validate_peer_hello a (opened r c fresh)) in Hf. rewrite Hv in Hf.
  injection Hf as <-. by eexists.
Qed.

Lemma labels_differ x y : INITIATOR_LABEL ++ x <> RESPONDER_LABEL ++ y.
Proof. discriminate. Qed.

#[local] Opaque INITIATOR_LABEL RESPONDER_LABEL HelloBody.encode.

(** A body the decoder accepts is at least as long as its name field says. *)
Lemma validate_long a h neg : validate_peer_hello a h = inl neg ->
  (FIXED_PREFIX + Z.to_nat (from_le_bytes (HelloBody.range a 56 58)) <= length a)%nat.
Proof.
  unfold validate_peer_hello. destruct (HelloBody.decode a) as [hb|err] eqn:E; [intros _|by destruct err].
  unfold HelloBody.decode in E. repeat (case_match; try discriminate E). lia.
Qed.

(** Against a body without trailing bytes, such a body is that body with bytes
    appended when the two start a common string. *)
Lemma long_prefix a b x y : no_trailing a -> (FIXED_PREFIX + Z.to_nat (from_le_bytes (HelloBody.range b 56 58)) <= length b)%nat ->
  a ++ x = b ++ y -> exists extra, b = a ++ extra /\ x = extra ++ y.
Proof.
  intros Ha Hb E. assert (L : (58 <= length a)%nat /\ (58 <= length b)%nat) by (unfold no_trailing, FIXED_PREFIX in *; lia).
  assert (R : forall c z, (58 <= length c)%nat -> HelloBody.range (c ++ z) 56 58 = HelloBody.range c 56 58).
  { intros c z Hc. unfold HelloBody.range. rewrite drop_app_le, take_app_le by (rewrite ?length_drop; lia). done. }
  assert (Hl : (length a <= length b)%nat) by (unfold no_trailing in Ha; rewrite Ha, <-(R a x), E, R by lia; exact Hb).
  exists (drop (length a) b). assert (Eb : b = a ++ drop (length a) b).
  { rewrite <-(take_drop (length a) b) at 1. f_equal. apply (f_equal (take (length a))) in E. rewrite take_app_length, take_app_le in E by lia. done. }
  split; [done|]. rewrite Eb, <-app_assoc in E at 1. by apply app_inv_head in E.
Qed.

(** C11. Authentication against an active attacker: suppose the responder accepts
    an AUTH that an initiator with the same secret produced in some run, where
    the attacker chose every HELLO and CHALLENGE body delivered, and HMAC has no
    collision on the authenticated messages.  Then the challenge is the
    responder's own nonce, and the responder's view of the initiator is genuine:
    it negotiated with exactly the initiator's HELLO.  All an attacker can have
    done is to append bytes to that HELLO which the initiator received before the
    responder's.  If nothing was appended, each side received exactly the HELLO
    the other sent and the negotiated parameters agree.  A node's own AUTH
    reflected back at it is refused. *)
Theorem handshake_authentic cI cR fI fR n m rnd A B mac sent s nR hR hI :
  lc_secret cI = lc_secret cR -> hello_ok (hello_of cI fI) -> length n = 32%nat ->
  let rawI := HelloBody.encode (hello_of cI fI) in
  let rawR := HelloBody.encode (hello_of cR fR) in
  collision_free (lc_secret cR)
    [INITIATOR_LABEL ++ n ++ A ++ rawR; RESPONDER_LABEL ++ n ++ A ++ rawR; INITIATOR_LABEL ++ m ++ rawI ++ B] ->
  feed hmac n [Frame.new Hello A; Frame.new Auth mac] (opened Responder cR fR) = Some (sent, Established s nR, hR) ->
  feed hmac rnd [Frame.new Hello B; Frame.new Challenge m] (opened Initiator cI fI) =
    Some ([Frame.new Auth mac], Continue [], hI) ->
  m = n /\ nR = negotiate Responder cR (hello_of cI fI) /\
  (exists extra, A = rawI ++ extra /\ B = extra ++ rawR) /\
  (no_trailing A -> A = rawI /\ B = rawR /\
     (hello_ok (hello_of cR fR) -> exists nI, negotiated hI = Some nI /\ agree cI cR nI nR)) /\
  (forall s', feed hmac n [Frame.new Hello A; auth_by cR RESPONDER_LABEL n (A ++ rawR)] (opened Responder cR fR) = Some s' ->
     s'.1.2 = Refuse AuthFailed).
Proof.
  intros Hsec HokI Hn rawI rawR Hcf HR HI.
  destruct (feed_hello_inv _ _ _ _ _ _ _ HR) as [[? ?]|[neg Hv]]; [done|].
  destruct (feed_hello_inv _ _ _ _ _ _ _ HI) as [[? ?]|[nI Hv']]; [done|].
  rewrite (feed_continue _ _ _ _ _ _ (on_frame_hello n Responder cR fR A neg Hv)) in HR.
  rewrite (feed_continue _ _ _ _ _ _ (on_frame_hello rnd Initiator cI fI B nI Hv')) in HI.
  cbn [feed] in HR. rewrite on_frame_auth in HR. case_decide as Hml; [|done]. case_decide as Hmac; [|done].
  assert (Hm : length m = 32%nat).
  { cbn [feed] in HI. unfold on_frame in HI. cbn [state mid] in HI. unfold on_challenge in HI.
    cbn [Frame.kind Frame.new Frame.body] in HI. rewrite bool_decide_true in HI by done. cbn [negb] in HI.
    destruct (Nat.eqb_spec (length m) 32); [done|]. done. }
  rewrite (feed_continue _ _ _ _ _ _ (on_frame_challenge rnd cI rawI B m nI Hm)) in HI.
  cbn [feed mbind option_bind app] in HI. injection HI as HI <-.
  cbn [mbind option_bind] in HR. injection HR as <- <- <- <-. cbn [ordered peer_label] in Hmac.
  rewrite <-HI, Hsec in Hmac. apply Hcf in Hmac; [|set_solver|set_solver].
  apply app_inv_head in Hmac. apply app_inj_1 in Hmac as [-> E]; [|congruence].
  destruct (long_prefix rawI A B rawR (hello_no_trailing _ HokI) (validate_long _ _ _ Hv) E) as (extra & EA & EB).
  assert (EnR : neg = negotiate Responder cR (hello_of cI fI)).
  { pose proof (decode_encode _ extra HokI) as Hd. fold rawI in Hd. rewrite <-EA in Hd. unfold validate_peer_hello in Hv.
    rewrite Hd in Hv. repeat (case_match; try discriminate Hv). by injection Hv as <-. }
  split; [done|]. split; [exact EnR|]. split; [by exists extra|]. split.
  - intros Htr. destruct (no_trailing_prefix rawI A B rawR (hello_no_trailing _ HokI) Htr E) as [HA ->]. split_and!; [done..|].
    intros HokR. exists nI. split; [done|].
    assert (EnI : nI = negotiate Initiator cI (hello_of cR fR)).
    { pose proof (decode_encode _ [] HokR) as Hd. rewrite app_nil_r in Hd. unfold validate_peer_hello in Hv'.
      fold rawR in Hd. rewrite Hd in Hv'. repeat (case_match; try discriminate Hv'). by injection Hv' as <-. }
    subst neg nI. apply negotiate_agree.
  - intros s' Hs'. rewrite (feed_continue _ _ _ _ _ _ (on_frame_hello n Responder cR fR A neg Hv)) in Hs'.
    cbn [feed] in Hs'. unfold auth_by in Hs'. rewrite on_frame_auth in Hs'. rewrite decide_True in Hs' by apply hmac_len.
    case_decide as Hbad; [|by injection Hs' as <-]. cbn [ordered peer_label] in Hbad.
    apply Hcf in Hbad; [|set_solver|set_solver]. by apply eq_sym, labels_differ in Hbad.
Qed.
#[local] Transparent INITIATOR_LABEL RESPONDER_LABEL HelloBody.encode.
End HandshakeFacts.

(** ** Concrete links *)

Section HandshakeWitness.
Import Handshake.

(** A keyed checksum in place of HMAC, for concrete runs. *)
Definition hmac_demo (k m : bytes) : bytes :=
  foldl (fun a x => (a * 257 + x + 1) mod 2 ^ 256) 7 (k ++ m) :: replicate 31 0.

Lemma hmac_demo_len k m : length (hmac_demo k m) = 32%nat.
Proof. reflexivity. Qed.

Definition demo_cfg (id feat : Z) : LinkConfig :=
  {| lc_protocol_version := 1; lc_node_id := id; lc_incarnation := 1; lc_cluster_name := str "c";
     lc_secret := str "s3cret"; lc_max_frame := 4096; lc_features := feat; lc_auth_timeout := 5000;
     lc_idle_ping_interval := 15000; lc_idle_dead_after := 45000; lc_queue_hwm_bytes := 65536 |}.

Definition demo_nonce (b : Z) : bytes := replicate 32 b.

Lemma demo_cfg_ok id feat b :
  u16_ok id -> u32_ok feat -> hello_ok (hello_of (demo_cfg id feat) (demo_nonce b)).
Proof. intros Hid Hf. split; try done; try (split; vm_compute; congruence). Qed.

Lemma demo_compatible i j f g : i <> j -> compatible (demo_cfg i f) (demo_cfg j g).
Proof. intros Hne. split; cbn; try done. Qed.

Lemma handshake_completes_witness :
  exists nI nR, agree (demo_cfg 1 3) (demo_cfg 2 1) nI nR /\
    exists auth_i auth_r hI hR,
      feed hmac_demo (demo_nonce 9) [(start (demo_nonce 7) (new Initiator (demo_cfg 1 3))).1; auth_i]
        (opened Responder (demo_cfg 2 1) (demo_nonce 8)) =
        Some ([Frame.new Challenge (demo_nonce 9)], Established [auth_r] nR, hR) /\
      feed hmac_demo [] [(start (demo_nonce 8) (new Responder (demo_cfg 2 1))).1; Frame.new Challenge (demo_nonce 9); auth_r]
        (opened Initiator (demo_cfg 1 3) (demo_nonce 7)) = Some ([auth_i], Established [] nI, hI).
Proof.
  destruct (handshake_completes hmac_demo hmac_demo_len (demo_cfg 1 3) (demo_cfg 2 1) (demo_nonce 7) (demo_nonce 8)
    (demo_nonce 9) []) as (ai & ar & nI & nR & hI & hR & E1 & E2 & Ha).
  - apply demo_compatible. lia.
  - apply demo_cfg_ok; split; vm_compute; congruence.
  - apply demo_cfg_ok; split; vm_compute; congruence.
  - reflexivity.
  - exists nI, nR. split; [exact Ha|]. exists ai, ar, hI, hR. split; [exact E1|exact E2].
Defined.

Definition demo_raw_i : bytes := HelloBody.encode (hello_of (demo_cfg 1 3) (demo_nonce 7)).
Definition demo_raw_r : bytes := HelloBody.encode (hello_of (demo_cfg 2 1) (demo_nonce 8)).
Definition demo_mac : bytes :=
  hmac_demo (str "s3cret") (INITIATOR_LABEL ++ demo_nonce 9 ++ demo_raw_i ++ demo_raw_r).

Lemma demo_collision_free :
  collision_free hmac_demo (str "s3cret")
    [INITIATOR_LABEL ++ demo_nonce 9 ++ demo_raw_i ++ demo_raw_r;
     RESPONDER_LABEL ++ demo_nonce 9 ++ demo_raw_i ++ demo_raw_r;
     INITIATOR_LABEL ++ demo_nonce 9 ++ demo_raw_i ++ demo_raw_r].
Proof.
  set (x := INITIATOR_LABEL ++ _). set (y := RESPONDER_LABEL ++ _).
  assert (Hd : hmac_demo (str "s3cret") x <> hmac_demo (str "s3cret") y) by (vm_compute; discriminate).
  clearbody x y. intros m m'. rewrite !elem_of_cons, !elem_of_nil.
  intros [->|[->|[->|[]]]] [->|[->|[->|[]]]] E; try done; exfalso; auto.
Qed.

Lemma handshake_authentic_witness :
  exists nI hI, negotiated hI = Some nI /\
    feed hmac_demo [] [Frame.new Hello demo_raw_r; Frame.new Challenge (demo_nonce 9)]
      (opened Initiator (demo_cfg 1 3) (demo_nonce 7)) = Some ([Frame.new Auth demo_mac], Continue [], hI) /\
    agree (demo_cfg 1 3) (demo_cfg 2 1) nI
      (negotiate Responder (demo_cfg 2 1) (hello_of (demo_cfg 1 3) (demo_nonce 7))).
Proof.
  assert (HokI : hello_ok (hello_of (demo_cfg 1 3) (demo_nonce 7))) by (apply demo_cfg_ok; split; vm_compute; congruence).
  assert (HokR : hello_ok (hello_of (demo_cfg 2 1) (demo_nonce 8))) by (apply demo_cfg_ok; split; vm_compute; congruence).
  assert (HI : feed hmac_demo [] [Frame.new Hello demo_raw_r; Frame.new Challenge (demo_nonce 9)]
    (opened Initiator (demo_cfg 1 3) (demo_nonce 7)) = Some ([Frame.new Auth demo_mac], Continue [],
      mid Initiator (demo_cfg 1 3) AwaitingAuth demo_raw_i demo_raw_r (Some (demo_nonce 9))
        (negotiate Initiator (demo_cfg 1 3) (hello_of (demo_cfg 2 1) (demo_nonce 8))))) by (vm_compute; reflexivity).
  assert (HR : feed hmac_demo (demo_nonce 9) [Frame.new Hello demo_raw_i; Frame.new Auth demo_mac]
    (opened Responder (demo_cfg 2 1) (demo_nonce 8)) = Some ([Frame.new Challenge (demo_nonce 9)],
      Established [auth_by hmac_demo (demo_cfg 2 1) RESPONDER_LABEL (demo_nonce 9) (demo_raw_i ++ demo_raw_r)]
        (negotiate Responder (demo_cfg 2 1) (hello_of (demo_cfg 1 3) (demo_nonce 7))),
      mid Responder (demo_cfg 2 1) HDone demo_raw_r demo_raw_i (Some (demo_nonce 9))
        (negotiate Responder (demo_cfg 2 1) (hello_of (demo_cfg 1 3) (demo_nonce 7))))) by (vm_compute; reflexivity).
  destruct (handshake_authentic hmac_demo hmac_demo_len (demo_cfg 1 3) (demo_cfg 2 1) (demo_nonce 7) (demo_nonce 8)
    (demo_nonce 9) (demo_nonce 9) [] demo_raw_i demo_raw_r demo_mac _ _ _ _ _ eq_refl HokI eq_refl
    demo_collision_free HR HI) as (_ & _ & _ & Ha & _).
  destruct (Ha (hello_no_trailing _ HokI)) as (_ & _ & Hag0). destruct (Hag0 HokR) as (nI & En & Hag). eexists nI, _. split; [exact En|]. split; [exact HI|exact Hag].
Defined.

(** The appended bytes are real. The transcript is the plain
    concatenation of the two HELLO bodies, and a body may carry trailing bytes
    that the decoder ignores, so an attacker without the secret can move a
    forged HELLO [x] from the front of what the initiator hears to the tail of
    what the responder hears: both ends accept, for every MAC function, and the
    initiator negotiates with the forged parameters. *)
Lemma transcript_splice (hmac : bytes -> bytes -> bytes) (Hlen : forall k m, length (hmac k m) = 32%nat) :
  let x := HelloBody.encode (hello_of (demo_cfg 99 0) (demo_nonce 5)) in
  exists auth_i auth_r nI nR hI hR,
    feed hmac (demo_nonce 9) [Frame.new Hello (demo_raw_i ++ x); auth_i] (opened Responder (demo_cfg 2 1) (demo_nonce 8)) =
      Some ([Frame.new Challenge (demo_nonce 9)], Established [auth_r] nR, hR) /\
    feed hmac [] [Frame.new Hello (x ++ demo_raw_r); Frame.new Challenge (demo_nonce 9); auth_r]
      (opened Initiator (demo_cfg 1 3) (demo_nonce 7)) = Some ([auth_i], Established [] nI, hI) /\
    n_features nR = 1 /\ n_features nI = 0 /\ n_peer_node_id nI = 99.
Proof.
  intros x.
  assert (VR : validate_peer_hello (demo_raw_i ++ x) (opened Responder (demo_cfg 2 1) (demo_nonce 8)) =
    inl (negotiate Responder (demo_cfg 2 1) (hello_of (demo_cfg 1 3) (demo_nonce 7)))).
  { apply validate_compatible; [apply demo_compatible; lia|apply demo_cfg_ok; split; vm_compute; congruence]. }
  assert (VI : validate_peer_hello (x ++ demo_raw_r) (opened Initiator (demo_cfg 1 3) (demo_nonce 7)) =
    inl (negotiate Initiator (demo_cfg 1 3) (hello_of (demo_cfg 99 0) (demo_nonce 5)))).
  { apply validate_compatible; [apply demo_compatible; lia|apply demo_cfg_ok; split; vm_compute; congruence]. }
  pose proof (responder_accepts hmac Hlen (demo_cfg 2 1) (demo_nonce 8) (demo_nonce 9) _ _ VR) as ER.
  pose proof (initiator_accepts hmac Hlen (demo_cfg 1 3) (demo_nonce 7) [] (demo_nonce 9) _ _ eq_refl VI) as EI.
  cbv zeta in ER, EI. fold demo_raw_r in ER. fold demo_raw_i in EI. rewrite <-app_assoc in ER.
  eexists _, _, _, _, _, _. split; [exact ER|]. split; [exact EI|]. vm_compute. done.
Qed.
End HandshakeWitness.
