(* ===== verification/PeerQueue.v ===== *)
(** * The per-peer outbound queue and the link counters
      (crates/mesh/src/queue.rs, counters.rs, and [writer_loop] of link.rs)

    A [PeerQueue] is bounded in bytes, never blocks its producers, sheds the
    newest frame and counts it.  The writer task coalesces what is queued into
    one write per batch.  The mutex makes the locked part of [push] and
    [drain_coalesced] one step each; [notify_one] runs after the lock is
    released and is a step of its own. *)

From S2P Require Import Prelude Runtime.

(** ** counters.rs *)

Module LinkCounters.

(** [struct LinkCounters]. *)
Record t := {
  bytes_in : Z; bytes_out : Z; frames_in : Z; frames_out : Z; unknown_frames : Z;
  auth_failures : Z; auth_timeouts : Z; suppressed_emits : Z; pings_sent : Z; pongs_recv : Z;
  oversize_closes : Z;
}.

(** The name of one counter. *)
Inductive counter :=
  | BytesIn | BytesOut | FramesIn | FramesOut | UnknownFrames | AuthFailures | AuthTimeouts
  | SuppressedEmits | PingsSent | PongsRecv | OversizeCloses.

#[global] Instance link_counter_eq_dec : EqDecision counter.
Proof. solve_decision. Defined.

(** [LinkCounters::default()]. *)
Definition default : t :=
  {| bytes_in := 0; bytes_out := 0; frames_in := 0; frames_out := 0; unknown_frames := 0;
     auth_failures := 0; auth_timeouts := 0; suppressed_emits := 0; pings_sent := 0; pongs_recv := 0;
     oversize_closes := 0 |}.

(** [LinkCounters::get]. *)
Definition get (c : counter) (m : t) : Z :=
  match c with
  | BytesIn => bytes_in m | BytesOut => bytes_out m | FramesIn => frames_in m | FramesOut => frames_out m
  | UnknownFrames => unknown_frames m | AuthFailures => auth_failures m | AuthTimeouts => auth_timeouts m
  | SuppressedEmits => suppressed_emits m | PingsSent => pings_sent m | PongsRecv => pongs_recv m
  | OversizeCloses => oversize_closes m
  end.

(** [LinkCounters::add]: a wrapping [fetch_add]. *)
Definition add (c : counter) (n : Z) (m : t) : t :=
  let at_ c' z := if decide (c = c') then wrap 64 (z + n) else z in
  {| bytes_in := at_ BytesIn (bytes_in m); bytes_out := at_ BytesOut (bytes_out m);
     frames_in := at_ FramesIn (frames_in m); frames_out := at_ FramesOut (frames_out m);
     unknown_frames := at_ UnknownFrames (unknown_frames m);
     auth_failures := at_ AuthFailures (auth_failures m);
     auth_timeouts := at_ AuthTimeouts (auth_timeouts m);
     suppressed_emits := at_ SuppressedEmits (suppressed_emits m);
     pings_sent := at_ PingsSent (pings_sent m); pongs_recv := at_ PongsRecv (pongs_recv m);
     oversize_closes := at_ OversizeCloses (oversize_closes m) |}.

End LinkCounters.

Lemma link_get_add c c' n m :
  LinkCounters.get c' (LinkCounters.add c n m) =
  if decide (c = c') then wrap 64 (LinkCounters.get c m + n) else LinkCounters.get c' m.
Proof. destruct c, c'; reflexivity. Qed.

(** ** queue.rs *)

Module PeerQueue.

(** [enum PushOutcome]. *)
Inductive PushOutcome := Enqueued | Dropped.

#[global] Instance queue_outcome_eq_dec : EqDecision PushOutcome.
Proof. solve_decision. Defined.

Section PeerQueue.
Context {N : Type} `{Notify N}.

(** [struct PeerQueue]. *)
Record t := {
  inner : list bytes;
  queued : Z;
  hwm : Z;
  drops : Z;
  notify : N;
  closed : bool;
}.

(** [PeerQueue::new]. *)
Definition new (hwm_bytes : Z) : t :=
  {| inner := []; queued := 0; hwm := hwm_bytes; drops := 0; notify := notify_new; closed := false |}.

Definition blen (b : bytes) : Z := Z.of_nat (length b).

(** The part of [PeerQueue::push] under the lock. *)
Definition push_locked (frame : bytes) (q : t) : PushOutcome * t :=
  if hwm q <? queued q + blen frame
  then (Dropped, {| inner := inner q; queued := queued q; hwm := hwm q; drops := wrap 64 (drops q + 1);
                    notify := notify q; closed := closed q |})
  else (Enqueued, {| inner := inner q ++ [frame]; queued := queued q + blen frame; hwm := hwm q;
                     drops := drops q; notify := notify q; closed := closed q |}).

(** [self.notify.notify_one()]. *)
Definition notify_one (q : t) : t :=
  {| inner := inner q; queued := queued q; hwm := hwm q; drops := drops q;
     notify := notify_store (notify q); closed := closed q |}.

(** [PeerQueue::push]. *)
Definition push (frame : bytes) (q : t) : PushOutcome * t :=
  match push_locked frame q with
  | (Dropped, q) => (Dropped, q)
  | (Enqueued, q) => (Enqueued, notify_one q)
  end.

(** The loop of [PeerQueue::drain_coalesced]: the remaining frames, the byte
    count, the output and how many frames were drained. *)
Fixpoint drain_loop (cap : Z) (fs : list bytes) (qd : Z) (out : bytes) (n : nat) : list bytes * Z * bytes * nat :=
  match fs with
  | [] => ([], qd, out, n)
  | front :: rest =>
      if negb (bool_decide (out = [])) && (cap <? blen out + blen front) then (fs, qd, out, n)
      else drain_loop cap rest (qd - blen front) (out ++ front) (S n)
  end.

(** [PeerQueue::drain_coalesced]. *)
Definition drain_coalesced (out : bytes) (cap : Z) (q : t) : nat * bytes * t :=
  let '(fs, qd, out, n) := drain_loop cap (inner q) (queued q) out 0 in
  (n, out, {| inner := fs; queued := qd; hwm := hwm q; drops := drops q; notify := notify q; closed := closed q |}).

(** [PeerQueue::close], its store and its wake-up. *)
Definition set_closed (q : t) : t :=
  {| inner := inner q; queued := queued q; hwm := hwm q; drops := drops q; notify := notify q; closed := true |}.
Definition close (q : t) : t := notify_one (set_closed q).

(** [PeerQueue::is_empty], [is_closed] and [queued_bytes]. *)
Definition is_empty (q : t) : bool := queued q =? 0.
Definition is_closed (q : t) : bool := closed q.
Definition queued_bytes (q : t) : Z := queued q.

(** The end of [PeerQueue::wait]: the stored permit is consumed. *)
Definition take_permit (q : t) : t :=
  {| inner := inner q; queued := queued q; hwm := hwm q; drops := drops q;
     notify := notify_take (notify q); closed := closed q |}.

End PeerQueue.
#[global] Arguments t : clear implicits.
End PeerQueue.

Section QueueFacts.
Context {N : Type} `{Notify N}.
Import PeerQueue.

(** The byte count is exact and within the high-water mark. *)
Record peer_queue_wf (q : PeerQueue.t N) : Prop := {
  pq_bytes : queued q = zsum blen (inner q);
  pq_bound : queued q <= hwm q;
}.

Lemma blen_nonneg b : 0 <= blen b.
Proof. unfold blen. lia. Qed.

Lemma push_locked_wf f q o q' : peer_queue_wf q -> push_locked f q = (o, q') -> peer_queue_wf q'.
Proof.
  intros [Hb Hbd]. unfold push_locked. destruct (Z.ltb_spec (hwm q) (queued q + blen f)); intros [= <- <-]; split; simpl; try done.
  rewrite zsum_app, zsum_cons, zsum_nil. lia.
Qed.

(** Draining takes a prefix of whole frames; it takes at least one from a
    non-empty queue, and stays within the cap unless it took a single frame
    after empty ones. *)
Lemma drain_loop_spec cap fs qd out n fs' qd' out' n' :
  drain_loop cap fs qd out n = (fs', qd', out', n') ->
  exists took, fs = took ++ fs' /\ out' = out ++ concat took /\ qd' = qd - zsum blen took /\
    n' = (n + length took)%nat /\
    (fs' = [] \/ out' <> []) /\
    (out <> [] -> blen out <= cap -> blen out' <= cap).
Proof.
  revert qd out n. induction fs as [|f fs IH]; intros qd out n; cbn [drain_loop].
  - intros [= <- <- <- <-]. exists []. cbn [concat app length]. rewrite zsum_nil, app_nil_r. split_and!; [done|done|lia|lia|by left|done].
  - destruct (negb (bool_decide (out = [])) && (cap <? blen out + blen f)) eqn:E.
    + intros [= <- <- <- <-]. exists []. cbn [concat app length]. rewrite zsum_nil, app_nil_r.
      bool_facts. split_and!; [done|done|lia|lia|by right|done].
    + intros (took & -> & -> & -> & -> & Hne & Hcap)%IH. exists (f :: took). rewrite zsum_cons. cbn [concat app length].
      split_and!; [done|by rewrite app_assoc|lia|lia|done|].
      intros Ho Hle. apply Hcap; [by destruct out|]. apply andb_false_iff in E as [E|E]; [by bool_facts|].
      unfold blen in *. rewrite length_app. blia.
Qed.

Lemma drain_wf out cap q n out' q' : peer_queue_wf q -> drain_coalesced out cap q = (n, out', q') -> peer_queue_wf q'.
Proof.
  intros [Hb Hbd]. unfold drain_coalesced. destruct (drain_loop _ _ _ _ _) as [[[fs qd] o] k] eqn:E. intros [= <- <- <-].
  apply drain_loop_spec in E as (took & Hin & -> & -> & -> & _). rewrite Hin, zsum_app in Hb.
  pose proof (zsum_nonneg blen took blen_nonneg). split; simpl; lia.
Qed.

End QueueFacts.

#[export] Hint Resolve push_locked_wf drain_wf : beam.

(** ** The writer task and its producers *)

Definition COALESCE_CAP_BYTES : Z := 128 * 1024.

(** Where [writer_loop] stands: draining, at the check after a drain that found
    nothing, parked in [wait], at the check after a wake-up, returned after
    [shutdown], returned after a failed write. *)
Inductive link_writer_pc := WDrain | WCheck | WPark | WWoken | WShutdown | WFailed.

#[global] Instance link_writer_pc_eq_dec : EqDecision link_writer_pc.
Proof. solve_decision. Defined.

Section WriterTask.
Context {N : Type} `{Notify N}.
Import PeerQueue.

(** The queue, the writer, the bytes it put on the socket and its counters. *)
Record writer_sys := {
  ws_q : PeerQueue.t N;
  ws_pc : link_writer_pc;
  ws_wire : bytes;
  ws_ctrs : LinkCounters.t;
}.

(** [link::writer_loop], one step; [fails] is the number of bytes written when
    [write_all] fails, [None] when it succeeds.  Parked without a permit, the
    writer does not move. *)
Definition writer_step (fails : option nat) (s : writer_sys) : writer_sys :=
  match ws_pc s with
  | WDrain =>
      let '(n, scratch, q) := drain_coalesced [] COALESCE_CAP_BYTES (ws_q s) in
      match n with
      | O => {| ws_q := q; ws_pc := WCheck; ws_wire := ws_wire s; ws_ctrs := ws_ctrs s |}
      | S _ =>
          match fails with
          | Some k => {| ws_q := q; ws_pc := WFailed; ws_wire := ws_wire s ++ take k scratch; ws_ctrs := ws_ctrs s |}
          | None =>
              {| ws_q := q; ws_pc := WDrain; ws_wire := ws_wire s ++ scratch;
                 ws_ctrs := LinkCounters.add LinkCounters.FramesOut (Z.of_nat n)
                   (LinkCounters.add LinkCounters.BytesOut (blen scratch) (ws_ctrs s)) |}
          end
      end
  | WCheck | WWoken =>
      {| ws_q := ws_q s;
         ws_pc := if is_closed (ws_q s) && is_empty (ws_q s) then WShutdown
                  else if decide (ws_pc s = WCheck) then WPark else WDrain;
         ws_wire := ws_wire s; ws_ctrs := ws_ctrs s |}
  | WPark =>
      if notify_permit (notify (ws_q s))
      then {| ws_q := take_permit (ws_q s); ws_pc := WWoken; ws_wire := ws_wire s; ws_ctrs := ws_ctrs s |}
      else s
  | WShutdown | WFailed => s
  end.

(** The system with its producers: [sy_owed] counts the [notify_one] calls
    whose lock is already released, [sy_accepted] the frames enqueued so far and
    [sy_offered]/[sy_dropped] how many were offered and shed. *)
Record link_queue_sys := {
  sy_w : writer_sys;
  sy_owed : nat;
  sy_accepted : list bytes;
  sy_offered : Z;
}.

Inductive queue_event := QPush (frame : bytes) | QNotify | QClose | QWriter (fails : option nat).

Definition with_q (q : PeerQueue.t N) (w : writer_sys) : writer_sys :=
  {| ws_q := q; ws_pc := ws_pc w; ws_wire := ws_wire w; ws_ctrs := ws_ctrs w |}.

Definition queue_step (s : link_queue_sys) (e : queue_event) : link_queue_sys :=
  match e with
  | QPush f =>
      let '(o, q) := push_locked f (ws_q (sy_w s)) in
      {| sy_w := with_q q (sy_w s);
         sy_owed := if decide (o = Enqueued) then S (sy_owed s) else sy_owed s;
         sy_accepted := if decide (o = Enqueued) then sy_accepted s ++ [f] else sy_accepted s;
         sy_offered := sy_offered s + 1 |}
  | QNotify =>
      match sy_owed s with
      | O => s
      | S k => {| sy_w := with_q (notify_one (ws_q (sy_w s))) (sy_w s); sy_owed := k;
                  sy_accepted := sy_accepted s; sy_offered := sy_offered s |}
      end
  | QClose =>
      {| sy_w := with_q (set_closed (ws_q (sy_w s))) (sy_w s); sy_owed := S (sy_owed s);
         sy_accepted := sy_accepted s; sy_offered := sy_offered s |}
  | QWriter fails =>
      {| sy_w := writer_step fails (sy_w s); sy_owed := sy_owed s;
         sy_accepted := sy_accepted s; sy_offered := sy_offered s |}
  end.

Definition queue_init (hwm : Z) : link_queue_sys :=
  {| sy_w := {| ws_q := PeerQueue.new hwm; ws_pc := WDrain; ws_wire := []; ws_ctrs := LinkCounters.default |};
     sy_owed := 0; sy_accepted := []; sy_offered := 0 |}.

Definition queue_run (hwm : Z) (es : list queue_event) : link_queue_sys := foldl queue_step (queue_init hwm) es.

(** Nothing left for the writer to see. *)
Definition quiet (q : PeerQueue.t N) : Prop := inner q = [].

Record queue_inv (h : Z) (s : link_queue_sys) : Prop := {
  qi_wf : peer_queue_wf (ws_q (sy_w s));
  qi_hwm : hwm (ws_q (sy_w s)) = h;
  qi_wire : exists done, sy_accepted s = done ++ inner (ws_q (sy_w s)) /\
    (if decide (ws_pc (sy_w s) = WFailed) then ws_wire (sy_w s) `prefix_of` concat done
     else ws_wire (sy_w s) = concat done /\
       LinkCounters.frames_out (ws_ctrs (sy_w s)) = wrap 64 (Z.of_nat (length done)));
  qi_drops : drops (ws_q (sy_w s)) = wrap 64 (sy_offered s - Z.of_nat (length (sy_accepted s)));
  qi_awake : notify_permit (notify (ws_q (sy_w s))) = false -> sy_owed s = O ->
    match ws_pc (sy_w s) with
    | WCheck => quiet (ws_q (sy_w s))
    | WPark => quiet (ws_q (sy_w s)) /\ closed (ws_q (sy_w s)) = false
    | _ => True
    end;
}.
End WriterTask.
#[global] Arguments writer_sys : clear implicits.
#[global] Arguments link_queue_sys : clear implicits.

Section WriterFacts.
Context {N : Type} `{Notify N}.
Import PeerQueue.

Lemma frames_out_add c n m k :
  LinkCounters.frames_out m = wrap 64 (Z.of_nat k) ->
  LinkCounters.frames_out (LinkCounters.add LinkCounters.FramesOut (Z.of_nat n) (LinkCounters.add LinkCounters.BytesOut c m)) =
  wrap 64 (Z.of_nat (k + n)).
Proof.
  intros E. change LinkCounters.frames_out with (LinkCounters.get LinkCounters.FramesOut) in *.
  rewrite !link_get_add, decide_True, decide_False, E by done. unfold wrap.
  by rewrite Zplus_mod_idemp_l, <-Nat2Z.inj_add.
Qed.

Lemma drain_step_inv h fails (s : link_queue_sys N) :
  ws_pc (sy_w s) = WDrain -> queue_inv h s -> queue_inv h (queue_step s (QWriter fails)).
Proof.
  destruct s as [[q pc wire ctrs] owed acc off]. intros Hpc [Hwf Hh (done & Hacc & Hw) Hd Haw]. cbn in Hpc, Hwf, Hh, Hacc, Hw, Hd, Haw. subst pc.
  cbn [queue_step sy_w]. unfold writer_step. cbn [ws_pc ws_q].
  destruct (drain_coalesced [] COALESCE_CAP_BYTES q) as [[n scratch] q'] eqn:Ed.
  pose proof (drain_wf _ _ _ _ _ _ Hwf Ed) as Hwf'. unfold drain_coalesced in Ed.
  destruct (drain_loop _ _ _ _ _) as [[[fs qd] o] k] eqn:El. injection Ed as <- <- <-.
  apply drain_loop_spec in El as (took & Hin & -> & -> & -> & Hne & _). rewrite app_nil_l in Hne |- *. rewrite Hin in Hacc.
  destruct Hw as [-> Hf]. destruct took as [|f took]; cbn [length Nat.add].
  - split; cbn; [done|done| |done|]; [by exists done|]. intros _ _. destruct Hne as [->|Hne]; [by unfold quiet|by cbn in Hne].
  - assert (Hacc' : acc = (done ++ f :: took) ++ fs) by (by rewrite <-app_assoc).
    destruct fails as [j|]; (split; cbn; [done|done| |done|done]); exists (done ++ f :: took).
    + split; [done|]. rewrite concat_app. cbn [concat]. apply prefix_app. by exists (drop j (f ++ concat took)); rewrite take_drop.
    + split; [done|]. split; [by rewrite concat_app|].
      rewrite length_app. cbn [length]. by apply (frames_out_add (blen (f ++ concat took)) (S (length took))).
Qed.

Lemma writer_step_inv h fails (s : link_queue_sys N) : queue_inv h s -> queue_inv h (queue_step s (QWriter fails)).
Proof.
  destruct (decide (ws_pc (sy_w s) = WDrain)) as [E|Hpc]; [by apply drain_step_inv|].
  destruct s as [[q pc wire ctrs] owed acc off]. intros [Hwf Hh (done & Hacc & Hw) Hd Haw]. cbn in *.
  unfold writer_step. cbn. assert (Hempty : quiet q -> is_empty q = true).
  { unfold quiet, is_empty. intros E. rewrite (pq_bytes _ Hwf), E. done. }
  destruct pc; try done.
  - split; cbn; [done|done| |done|].
    + exists done. destruct (is_closed q && is_empty q); done.
    + intros Hp Ho. specialize (Haw Hp Ho). rewrite (Hempty Haw), andb_true_r. unfold is_closed. by destruct (closed q) eqn:?.
  - destruct (notify_permit (notify q)) eqn:Ep; [|split; [done|done|by exists done|done|cbn; intros _; by apply Haw]]. split; cbn; [by destruct Hwf|done|by exists done|done|done].
  - split; cbn; [done|done| |done|].
    + exists done. destruct (is_closed q && is_empty q); done.
    + intros _ _. by destruct (is_closed q && is_empty q).
  - split; [done|done|by exists done|done|done].
  - split; [done|done|by exists done|done|done].
Qed.

Lemma queue_step_inv h (s : link_queue_sys N) e : queue_inv h s -> queue_inv h (queue_step s e).
Proof.
  destruct e as [f| | |fails]; [| | |apply writer_step_inv].
  all: destruct s as [[q pc wire ctrs] owed acc off]; intros [Hwf Hh (done & Hacc & Hw) Hd Haw]; cbn in *.
  - destruct (push_locked f q) as [o q'] eqn:Ep. pose proof (push_locked_wf _ _ _ _ Hwf Ep) as Hwf'.
    unfold push_locked in Ep. destruct (hwm q <? queued q + blen f); injection Ep as <- <-; cbn.
    + rewrite !decide_False by done. split; cbn; [done|done|by exists done| |done].
      rewrite Hd. unfold wrap. rewrite Zplus_mod_idemp_l. replace (off + 1 - Z.of_nat (length acc)) with (off - Z.of_nat (length acc) + 1) by lia. done.
    + rewrite !decide_True by done. split; cbn; [done|done| |by rewrite Hd, length_app; cbn; f_equal; lia|done].
      exists done. rewrite Hacc, app_assoc. done.
  - destruct owed as [|k]; cbn; [split; [done|done|by exists done|done|done]|].
    split; cbn; [by destruct Hwf|done|by exists done|done|]. by rewrite notify_permit_store.
  - split; cbn; [by destruct Hwf|done|by exists done|done|done].
Qed.

Lemma queue_run_inv h es : 0 <= h -> queue_inv h (queue_run (N := N) h es).
Proof.
  intros Hh. unfold queue_run. assert (Hi : queue_inv h (queue_init (N := N) h)).
  { split; cbn; [by split|done|by exists []|done|done]. }
  revert Hi. generalize (queue_init (N := N) h). induction es as [|e es IH]; intros s Hs; [done|].
  apply IH. by apply queue_step_inv.
Qed.

(** C31. The per-peer queue is bounded, ordered and honest: under any
    interleaving of pushes, wake-ups, close and the writer, the queued bytes are
    counted exactly and never exceed the high-water mark; the frames accepted
    are the frames written (in order, each whole, exactly once) followed by the
    frames queued, or, after a failed write, the wire is a prefix of them; and
    the drop counter is the number of pushes that were refused. *)
Theorem peer_queue_bounded_fifo_counted h es :
  0 <= h ->
  let s := queue_run (N := N) h es in
  let q := ws_q (sy_w s) in
  queued_bytes q = zsum blen (inner q) /\ queued_bytes q <= h /\
  (exists done, sy_accepted s = done ++ inner q /\
     (if decide (ws_pc (sy_w s) = WFailed) then ws_wire (sy_w s) `prefix_of` concat done
      else ws_wire (sy_w s) = concat done /\
        LinkCounters.frames_out (ws_ctrs (sy_w s)) = wrap 64 (Z.of_nat (length done)))) /\
  drops q = wrap 64 (sy_offered s - Z.of_nat (length (sy_accepted s))).
Proof.
  intros Hh s q. destruct (queue_run_inv h es Hh) as [[Hb Hbd] Hhwm Hw Hd _].
  fold s in Hb, Hbd, Hhwm, Hw, Hd. fold q in Hb, Hbd, Hhwm, Hw, Hd.
  split_and!; [exact Hb|by rewrite <-Hhwm|exact Hw|exact Hd].
Qed.

(** The link writer never sleeps on work: in every reachable state in which
    it is parked with no permit stored and no wake-up still owed by a producer,
    the queue is empty and open and everything accepted so far is on the wire. *)
Lemma link_writer_no_lost_wakeup h es :
  let s := queue_run (N := N) h es in
  0 <= h -> ws_pc (sy_w s) = WPark -> notify_permit (notify (ws_q (sy_w s))) = false -> sy_owed s = O ->
  inner (ws_q (sy_w s)) = [] /\ is_closed (ws_q (sy_w s)) = false /\ ws_wire (sy_w s) = concat (sy_accepted s).
Proof.
  intros s Hh Hpc Hp Ho. destruct (queue_run_inv h es Hh) as [_ _ (done & Hacc & Hw) _ Haw].
  fold s in Hacc, Hw, Haw. specialize (Haw Hp Ho). rewrite Hpc in Haw, Hw. destruct Haw as [Hq Hc].
  unfold quiet in Hq. split_and!; [done|done|]. rewrite Hacc, Hq, app_nil_r. by destruct Hw.
Qed.

(** Each batch the writer takes from a queue of non-empty frames has at least
    one frame, and more than one only if they fit the coalescing cap. *)
Lemma drain_progress cap (q : PeerQueue.t N) n out q' :
  Forall (fun f => f <> []) (inner q) -> inner q <> [] -> drain_coalesced [] cap q = (n, out, q') ->
  out = concat (take n (inner q)) /\ inner q' = drop n (inner q) /\ (0 < n)%nat /\ (n = 1%nat \/ blen out <= cap).
Proof.
  intros Hne Hq. unfold drain_coalesced. destruct (inner q) as [|f fs]; [done|]. cbn.
  destruct (drain_loop cap fs _ f 1) as [[[fs' qd] o] k] eqn:E. intros [= <- <- <-]. cbn.
  apply Forall_cons in Hne as [Hf _]. pose proof E as E2.
  apply drain_loop_spec in E as (took & -> & -> & _ & -> & _ & Hcap). cbn [Nat.add].
  rewrite firstn_cons, skipn_cons, take_app_length, drop_app_length. split_and!; [done|done|lia|].
  destruct (decide (blen f <= cap)); [right; by apply Hcap|]. left.
  destruct took as [|g took]; [done|]. cbn [app drain_loop] in E2. pose proof (blen_nonneg g).
  rewrite (bool_decide_false _ Hf) in E2. destruct (Z.ltb_spec cap (blen f + blen g)); [|lia].
  cbn [negb andb] in E2. simplify_eq.
Qed.

End WriterFacts.

Definition queue_demo : list queue_event :=
  [QPush [1; 2; 3]; QWriter None; QPush [4; 5]; QPush [6; 7; 8; 9]; QNotify; QNotify; QWriter None; QWriter None; QWriter None;
   QNotify; QWriter None; QWriter None; QWriter None; QWriter None; QWriter None; QWriter None; QWriter None; QWriter None].

Lemma peer_queue_bounded_fifo_counted_witness :
  PeerQueue.queued_bytes (ws_q (sy_w (queue_run (N := bool) 5 queue_demo))) <= 5 /\
  ws_wire (sy_w (queue_run (N := bool) 5 queue_demo)) = [1; 2; 3; 4; 5].
Proof.
  destruct (peer_queue_bounded_fifo_counted (N := bool) 5 queue_demo ltac:(lia)) as (_ & Hb & _ & _).
  split; [exact Hb|]. vm_compute. reflexivity.
Defined.

Lemma link_writer_no_lost_wakeup_witness :
  ws_wire (sy_w (queue_run (N := bool) 9 queue_demo)) = concat (sy_accepted (queue_run (N := bool) 9 queue_demo)).
Proof. apply (link_writer_no_lost_wakeup (N := bool) 9 queue_demo); vm_compute; congruence. Defined.
