(* ===== verification/Link.v ===== *)
(** * A mesh link over a byte stream (crates/mesh/src/link.rs)

    What a link does with its socket: the framed reads and writes, the handshake
    driver, suppression on send, dispatch on receive, the reader and keepalive
    tasks.  The socket's read half is the bytes that have arrived and whether it
    has ended; the hooks are the list of calls made to them.  Durations and the
    idle clock are milliseconds since the link started. *)

From S2P Require Import Prelude Wire Runtime Frame Handshake PeerQueue.

(** [enum LinkState] and [LinkState::from_u8]. *)
Inductive LinkState := Up | Closing | LClosed | LRefused.
Definition link_state_as_u8 (s : LinkState) : Z :=
  match s with Up => 1 | Closing => 2 | LClosed => 3 | LRefused => 4 end.
Definition link_state_from_u8 (v : Z) : LinkState :=
  match v with 1 => Up | 2 => Closing | 4 => LRefused | _ => LClosed end.

(** [enum LinkError]. *)
Inductive LinkError :=
  | IoError | Refused (reason : RefuseReason) | AuthTimeout | LinkOversize (len max : Z)
  | Protocol (what : rstring) | Eof.

(** ** Reading the stream *)

(** How the read half ended. *)
Inductive StreamEnd := AtEof | AtIoError.

(** The read half of the socket: bytes not yet read, and its end if known. *)
Record Stream := { avail : bytes; ended : option StreamEnd }.

Definition advance (n : nat) (s : Stream) : Stream := {| avail := drop n (avail s); ended := ended s |}.

(** [rd.read_exact(buf)]: the bytes, not there yet, or the error. *)
Definition read_exact (n : nat) (s : Stream) : option (bytes * Stream + LinkError) :=
  if decide (n <= length (avail s))%nat then Some (inl (take n (avail s), advance n s))
  else match ended s with
       | None => None
       | Some AtEof => Some (inr Eof)
       | Some AtIoError => Some (inr IoError)
       end.

(** [link::read_raw_frame]: kind byte, flags and body. *)
Definition read_raw_frame (max_frame : Z) (s : Stream) : option (Z * Z * bytes * Stream + LinkError) :=
  r ← read_exact 4 s;
  match r with
  | inr e => Some (inr e)
  | inl (len4, s) =>
      match Frame.decode_len (from_le_bytes len4) max_frame with
      | inr (Frame.Oversize len max) => Some (inr (LinkOversize len max))
      | inr _ => Some (inr (Protocol (str "malformed length prefix")))
      | inl body_len =>
          r ← read_exact body_len s;
          match r with
          | inr e => Some (inr e)
          | inl (buf, s) => Some (inl (nth 0 buf 0, nth 1 buf 0, drop 2 buf, s))
          end
      end
  end.

(** ** The handshake driver *)

(** The write half: what was written, and after how many more writes it fails. *)
Record Sink := { written : bytes; budget : option nat }.

(** [link::write_frame]. *)
Definition write_frame (f : Frame.t) (w : Sink) : Sink + LinkError :=
  match budget w with
  | Some O => inr IoError
  | Some (S k) => inl {| written := written w ++ Frame.encode f; budget := Some k |}
  | None => inl {| written := written w ++ Frame.encode f; budget := None |}
  end.

(** [for f in send { write_frame(wr, &f).await?; }]. *)
Fixpoint write_frames (fs : list Frame.t) (w : Sink) : Sink + LinkError :=
  match fs with
  | [] => inl w
  | f :: fs => match write_frame f w with inl w => write_frames fs w | inr e => inr e end
  end.

(** What [run_handshake] comes to: still reading, an error, or a link. *)
Inductive HsResult :=
  | HsWait
  | HsPanic
  | HsErr (e : LinkError) (c : LinkCounters.t)
  | HsOk (n : Negotiated) (rd : Stream) (wr : Sink) (c : LinkCounters.t).

Section RunHandshake.
Context (hmac : bytes -> bytes -> bytes).

(** The loop of [link::run_handshake]; each turn reads a frame of at least six
    bytes, so the bytes available bound the turns. *)
Fixpoint handshake_loop (fuel : nat) (rnd : bytes) (max : Z) (hs : Handshake.t) (rd : Stream) (wr : Sink)
    (c : LinkCounters.t) : HsResult :=
  match fuel with
  | O => HsWait
  | S fuel =>
      match read_raw_frame max rd with
      | None => HsWait
      | Some (inr e) => HsErr e c
      | Some (inl (kind_byte, flags, body, rd)) =>
          match from_u8 kind_byte with
          | None => HsErr (Protocol (str "unknown frame kind during handshake")) c
          | Some kind =>
              match Handshake.on_frame hmac rnd (Frame.with_flags kind flags body) hs with
              | None => HsPanic
              | Some (Continue send, hs) =>
                  match write_frames send wr with
                  | inr e => HsErr e c
                  | inl wr => handshake_loop fuel rnd max hs rd wr c
                  end
              | Some (Established send negotiated, hs) =>
                  match write_frames send wr with
                  | inr e => HsErr e c
                  | inl wr => HsOk negotiated rd wr c
                  end
              | Some (Refuse reason, hs) =>
                  HsErr (Refused reason)
                    (match reason with AuthFailed => LinkCounters.add LinkCounters.AuthFailures 1 c | _ => c end)
              end
          end
      end
  end.

(** [link::run_handshake]; [fresh] and [rnd] are the two [random_nonce()]s. *)
Definition run_handshake (role : Role) (cfg : LinkConfig) (fresh rnd : bytes) (rd : Stream) (wr : Sink)
    (c : LinkCounters.t) : HsResult :=
  let '(opening, hs) := Handshake.start fresh (Handshake.new role cfg) in
  match write_frame opening wr with
  | inr e => HsErr e c
  | inl wr => handshake_loop (S (length (avail rd))) rnd (lc_max_frame cfg) hs rd wr c
  end.

End RunHandshake.

(** [link::is_feature_gated]. *)
Definition is_feature_gated (kind : FrameKind) : bool :=
  match kind with
  | Interest | InterestDigest | RelayRoom | RelayUser | RelayAll | RelaySocket => true
  | _ => false
  end.

(** A call to one of the [LinkHooks]. *)
Inductive HookCall := CallInbound (peer : Z) (f : Frame.t) | CallClose (peer : Z).

(** Which hooks are wired ([struct LinkHooks]). *)
Record LinkHooks := { has_inbound : bool; has_on_close : bool }.

(** Where [reader_loop] stands: in its [select!] (with the shutdown notification
    received or not), handling a frame it has read, or returned. *)
Inductive reader_pc := RSelect (woken : bool) | RBusy (kind flags : Z) (body : bytes) | RReturned.

(** Where [keepalive_loop] stands. *)
Inductive keepalive_pc := KSelect (woken : bool) | KReturned.

Module Link.
Section Link.
Context {N : Type} `{Notify N}.
Import PeerQueue.

(** The shared state of a live link: [struct LinkHandle], [struct ReaderCtx],
    [struct IdleClock] and the two tasks that wait on [shutdown]. *)
Record t := {
  negotiated : Negotiated;
  hooks : LinkHooks;
  queue : PeerQueue.t N;
  counters : LinkCounters.t;
  state : LinkState;
  last_in_ms : Z;
  reader : reader_pc;
  keepalive : keepalive_pc;
}.

Definition set_queue (q : PeerQueue.t N) (l : t) : t :=
  {| negotiated := negotiated l; hooks := hooks l; queue := q; counters := counters l; state := state l;
     last_in_ms := last_in_ms l; reader := reader l; keepalive := keepalive l |}.
Definition count (c : LinkCounters.counter) (n : Z) (l : t) : t :=
  {| negotiated := negotiated l; hooks := hooks l; queue := queue l; counters := LinkCounters.add c n (counters l);
     state := state l; last_in_ms := last_in_ms l; reader := reader l; keepalive := keepalive l |}.
Definition set_reader (r : reader_pc) (l : t) : t :=
  {| negotiated := negotiated l; hooks := hooks l; queue := queue l; counters := counters l; state := state l;
     last_in_ms := last_in_ms l; reader := r; keepalive := keepalive l |}.
Definition set_keepalive (k : keepalive_pc) (l : t) : t :=
  {| negotiated := negotiated l; hooks := hooks l; queue := queue l; counters := counters l; state := state l;
     last_in_ms := last_in_ms l; reader := reader l; keepalive := k |}.
Definition set_state (s : LinkState) (l : t) : t :=
  {| negotiated := negotiated l; hooks := hooks l; queue := queue l; counters := counters l; state := s;
     last_in_ms := last_in_ms l; reader := reader l; keepalive := keepalive l |}.

(** The steady state [establish] sets up after the handshake. *)
Definition established (cfg : LinkConfig) (n : Negotiated) (h : LinkHooks) (c : LinkCounters.t) : t :=
  {| negotiated := n; hooks := h; queue := PeerQueue.new (lc_queue_hwm_bytes cfg); counters := c; state := Up;
     last_in_ms := 0; reader := RSelect false; keepalive := KSelect false |}.

(** [LinkHandle::try_send_encoded]; [inr] is [Err(Suppressed(kind))]. *)
Definition try_send_encoded (kind : FrameKind) (frame : bytes) (l : t) : (PushOutcome + FrameKind) * t :=
  if negb (may_emit (negotiated l) kind) then (inr kind, count LinkCounters.SuppressedEmits 1 l)
  else let '(o, q) := push frame (queue l) in (inl o, set_queue q l).

(** [LinkHandle::try_send]. *)
Definition try_send (frame : Frame.t) (l : t) : (PushOutcome + FrameKind) * t :=
  if negb (may_emit (negotiated l) (Frame.kind frame))
  then (inr (Frame.kind frame), count LinkCounters.SuppressedEmits 1 l)
  else let '(o, q) := push (Frame.encode frame) (queue l) in (inl o, set_queue q l).

(** [LinkHandle::send] in a release build. *)
Definition send (frame : Frame.t) (l : t) : PushOutcome * t :=
  match try_send frame l with
  | (inl o, l) => (o, l)
  | (inr _, l) => (Dropped, l)
  end.

(** [shutdown.notify_waiters()]: only tasks in their [select!] are woken; no
    permit is stored. *)
Definition notify_waiters (l : t) : t :=
  let l := match reader l with RSelect _ => set_reader (RSelect true) l | _ => l end in
  match keepalive l with KSelect _ => set_keepalive (KSelect true) l | _ => l end.

(** [LinkHandle::close]. *)
Definition close (l : t) : t :=
  let l := notify_waiters (set_state Closing l) in set_queue (PeerQueue.close (queue l)) l.

(** [link::dispatch]. *)
Definition dispatch (kind_byte flags : Z) (body : bytes) (l : t) : list HookCall * t :=
  match from_u8 kind_byte with
  | None => ([], count LinkCounters.UnknownFrames 1 l)
  | Some kind =>
      if is_feature_gated kind && negb (may_emit (negotiated l) kind)
      then ([], count LinkCounters.UnknownFrames 1 l)
      else
        let l := count LinkCounters.FramesIn 1 l in
        match kind with
        | Ping =>
            if flags_has flags FLAGS_PONG then ([], count LinkCounters.PongsRecv 1 l)
            else let '(_, q) := push (Frame.encode (ping_frame true)) (queue l) in ([], set_queue q l)
        | Membership | Interest | InterestDigest | RelayRoom | RelayUser | RelayAll | RelaySocket =>
            (if has_inbound (hooks l)
             then [CallInbound (n_peer_node_id (negotiated l)) (Frame.with_flags kind flags body)] else [], l)
        | Hello | Challenge | Auth => ([], l)
        end
  end.

(** The end of [reader_loop]. *)
Definition reader_exit (l : t) : list HookCall * t :=
  let l := set_state LClosed l in
  let l := set_queue (PeerQueue.close (queue l)) l in
  (if has_on_close (hooks l) then [CallClose (n_peer_node_id (negotiated l))] else [], set_reader RReturned l).

(** [link::reader_loop], one step at time [now]: resolve the [select!]
    (shutdown first), or handle the frame it resolved with. *)
Definition reader_step (now : Z) (rd : Stream) (l : t) : list HookCall * Stream * t :=
  match reader l with
  | RReturned => ([], rd, l)
  | RSelect true => let '(calls, l) := reader_exit l in (calls, rd, l)
  | RSelect false =>
      match read_raw_frame (n_max_frame (negotiated l)) rd with
      | None => ([], rd, l)
      | Some (inl (kind, flags, body, rd)) => ([], rd, set_reader (RBusy kind flags body) l)
      | Some (inr (LinkOversize _ _)) =>
          let '(calls, l) := reader_exit (count LinkCounters.OversizeCloses 1 l) in (calls, rd, l)
      | Some (inr _) => let '(calls, l) := reader_exit l in (calls, rd, l)
      end
  | RBusy kind flags body =>
      let l := {| negotiated := negotiated l; hooks := hooks l; queue := queue l; counters := counters l;
                  state := state l; last_in_ms := now; reader := reader l; keepalive := keepalive l |} in
      let l := count LinkCounters.BytesIn (Z.of_nat HEADER_LEN + Z.of_nat (length body)) l in
      let '(calls, l) := dispatch kind flags body l in (calls, rd, set_reader (RSelect false) l)
  end.

(** [IdleClock::idle_ms]. *)
Definition idle_ms (now : Z) (l : t) : Z := Z.max 0 (now - last_in_ms l).

(** [link::keepalive_loop], one turn: woken by shutdown, or a tick at [now]. *)
Definition keepalive_step (now : Z) (cfg : LinkConfig) (l : t) : t :=
  match keepalive l with
  | KReturned => l
  | KSelect true => set_keepalive KReturned l
  | KSelect false =>
      if is_closed (queue l) then set_keepalive KReturned l
      else if lc_idle_dead_after cfg <? idle_ms now l then
        let l := notify_waiters (set_keepalive KReturned (set_state LClosed l)) in
        set_queue (PeerQueue.close (queue l)) l
      else
        let '(o, q) := push (Frame.encode (ping_frame false)) (queue l) in
        let l := set_queue q l in
        match o with Enqueued => count LinkCounters.PingsSent 1 l | Dropped => l end
  end.

End Link.
#[global] Arguments t : clear implicits.
End Link.

(** What [establish] returns. *)
Inductive Establish (N : Type) :=
  | EstWait
  | EstPanic
  | EstErr (e : LinkError) (c : LinkCounters.t)
  | EstUp (l : Link.t N) (rd : Stream) (wr : Sink).
#[global] Arguments EstWait {N}.
#[global] Arguments EstPanic {N}.
#[global] Arguments EstErr {N} _ _.
#[global] Arguments EstUp {N} _ _ _.

(** [link::establish]; [elapsed] says whether [auth_timeout] has passed. *)
Definition establish {N : Type} `{Notify N} (hmac : bytes -> bytes -> bytes) (role : Role) (cfg : LinkConfig)
    (h : LinkHooks) (fresh rnd : bytes) (elapsed : bool) (rd : Stream) (wr : Sink) : Establish N :=
  match run_handshake hmac role cfg fresh rnd rd wr LinkCounters.default with
  | HsOk n rd wr c => EstUp (Link.established cfg n h c) rd wr
  | HsErr e c => EstErr e c
  | HsPanic => EstPanic
  | HsWait => if elapsed then EstErr AuthTimeout (LinkCounters.add LinkCounters.AuthTimeouts 1 LinkCounters.default)
              else EstWait
  end.

(** ** Framed reads *)

Definition encode_all (fs : list Frame.t) : bytes := concat (map Frame.encode fs).

#[global] Arguments Frame.encode : simpl never.
#[local] Arguments str : simpl never.

Lemma encode_all_app fs gs : encode_all (fs ++ gs) = encode_all fs ++ encode_all gs.
Proof. unfold encode_all. by rewrite map_app, concat_app. Qed.

Lemma read_exact_app xs rest e : read_exact (length xs) {| avail := xs ++ rest; ended := e |} = Some (inl (xs, {| avail := rest; ended := e |})).
Proof.
  unfold read_exact, advance. cbn [avail ended]. rewrite decide_True by (rewrite length_app; lia).
  by rewrite take_app_length, drop_app_length.
Qed.

(** A frame that fits is read back whole, and nothing past it. *)
Lemma read_raw_frame_encode max f rest e :
  fits max f -> max < 2 ^ 32 ->
  read_raw_frame max {| avail := Frame.encode f ++ rest; ended := e |} =
    Some (inl (as_u8 (Frame.kind f), Frame.flags f, Frame.body f, {| avail := rest; ended := e |})).
Proof.
  intros Hf Hm. unfold fits in Hf. unfold Frame.encode. rewrite wrap_small by lia. rewrite <-app_assoc.
  set (len := 2 + Z.of_nat (length (Frame.body f))) in *.
  unfold read_raw_frame. pose proof (read_exact_app (to_le_bytes 4 len)) as R4. rewrite length_to_le_bytes in R4. rewrite R4.
  cbn [mbind option_bind]. rewrite from_to_le_bytes by lia. unfold Frame.decode_len.
  destruct (Z.ltb_spec len 2); [lia|]. destruct (Z.ltb_spec max len); [lia|].
  pose proof (read_exact_app ([as_u8 (Frame.kind f)] ++ [Frame.flags f] ++ Frame.body f) rest e) as Rb.
  cbn [app length] in Rb. replace (S (S (length (Frame.body f)))) with (Z.to_nat len) in Rb by lia.
  cbn [app]. by rewrite Rb.
Qed.

Lemma write_frames_ok fs w : budget w = None -> write_frames fs w = inl {| written := written w ++ encode_all fs; budget := None |}.
Proof.
  revert w. induction fs as [|f fs IH]; intros [x b] Hb; cbn [budget] in Hb; subst b; [unfold encode_all; cbn; by rewrite app_nil_r|].
  cbn [write_frames]. unfold write_frame. cbn [budget written]. rewrite (IH {| written := x ++ Frame.encode f; budget := None |} eq_refl).
  cbn [written]. unfold encode_all. cbn. by rewrite app_assoc.
Qed.

(** ** The handshake over the stream *)

Section Establish.
Context (hmac : bytes -> bytes -> bytes) (hmac_len : forall k m, length (hmac k m) = 32%nat).
Import Handshake.

(** The machine is established by exactly the frames [fs], sending [sent]. *)
Inductive hs_run (rnd : bytes) : Handshake.t -> list Frame.t -> list Frame.t -> Negotiated -> Prop :=
  | hs_last f h s n h' :
      on_frame hmac rnd f h = Some (Established s n, h') -> hs_run rnd h [f] s n
  | hs_more f fs h s h' sent n :
      on_frame hmac rnd f h = Some (Continue s, h') -> hs_run rnd h' fs sent n -> hs_run rnd h (f :: fs) (s ++ sent) n.

Lemma frame_eta f : Frame.with_flags (Frame.kind f) (Frame.flags f) (Frame.body f) = f.
Proof. by destruct f. Qed.

Lemma handshake_loop_run rnd h fs sent n max rest e w c fuel :
  hs_run rnd h fs sent n -> Forall (fits max) fs -> max < 2 ^ 32 -> budget w = None -> (length fs <= fuel)%nat ->
  handshake_loop hmac fuel rnd max h {| avail := encode_all fs ++ rest; ended := e |} w c =
    HsOk n {| avail := rest; ended := e |} {| written := written w ++ encode_all sent; budget := None |} c.
Proof.
  intros Hr. revert w fuel. induction Hr as [f h s n h' E|f fs h s h' sent n E Hr IH]; intros w fuel Hfit Hm Hw Hfuel;
    apply Forall_cons in Hfit as [Hf Hfs]; (destruct fuel as [|fuel]; [simpl in Hfuel; lia|]); cbn [handshake_loop];
    unfold encode_all at 1; cbn [map concat]; rewrite <-app_assoc, (read_raw_frame_encode _ _ _ _ Hf Hm), from_as_u8, frame_eta, E.
  - rewrite write_frames_ok by done. done.
  - rewrite write_frames_ok by done. change (concat (map Frame.encode fs)) with (encode_all fs).
    rewrite IH; [|done..|simpl in Hfuel; lia]. cbn [written]. by rewrite encode_all_app, app_assoc.
Qed.

Lemma length_encode_all fs : (length fs <= length (encode_all fs))%nat.
Proof.
  induction fs as [|f fs IH]; [done|]. unfold encode_all in *. cbn [map concat length]. rewrite length_app.
  unfold Frame.encode at 1. rewrite length_app, length_to_le_bytes. lia.
Qed.

Lemma run_handshake_run r c fresh rnd fs sent n rest e w ctr :
  hs_run rnd (opened r c fresh) fs sent n -> Forall (fits (lc_max_frame c)) fs -> lc_max_frame c < 2 ^ 32 -> budget w = None ->
  run_handshake hmac r c fresh rnd {| avail := encode_all fs ++ rest; ended := e |} w ctr =
    HsOk n {| avail := rest; ended := e |}
      {| written := written w ++ encode_all ((start fresh (new r c)).1 :: sent); budget := None |} ctr.
Proof.
  intros Hr Hfit Hm Hw. unfold run_handshake. change (start fresh (new r c)) with ((start fresh (new r c)).1, opened r c fresh).
  cbn [fst]. unfold write_frame. rewrite Hw.
  rewrite (handshake_loop_run rnd _ fs sent n); [|done..|].
  - cbn [written]. unfold encode_all. cbn [map concat]. by rewrite <-app_assoc.
  - cbn [avail]. rewrite length_app. pose proof (length_encode_all fs). lia.
Qed.

Lemma responder_run c fresh n a neg :
  validate_peer_hello a (opened Responder c fresh) = inl neg ->
  let tr := a ++ HelloBody.encode (hello_of c fresh) in
  hs_run n (opened Responder c fresh) [Frame.new Hello a; auth_by hmac c INITIATOR_LABEL n tr]
    [Frame.new Challenge n; auth_by hmac c RESPONDER_LABEL n tr] neg.
Proof.
  intros Hv tr. apply (hs_more n _ _ _ [Frame.new Challenge n] _ [auth_by hmac c RESPONDER_LABEL n tr] _ (on_frame_hello hmac n Responder c fresh a neg Hv)).
  eapply hs_last. unfold auth_by at 1. rewrite on_frame_auth, decide_True by apply hmac_len. by rewrite decide_True.
Qed.

Lemma initiator_run c fresh rnd n b neg :
  length n = 32%nat -> validate_peer_hello b (opened Initiator c fresh) = inl neg ->
  let tr := HelloBody.encode (hello_of c fresh) ++ b in
  hs_run rnd (opened Initiator c fresh) [Frame.new Hello b; Frame.new Challenge n; auth_by hmac c RESPONDER_LABEL n tr]
    [auth_by hmac c INITIATOR_LABEL n tr] neg.
Proof.
  intros Hn Hv tr. apply (hs_more rnd _ _ _ [] _ [auth_by hmac c INITIATOR_LABEL n tr] _ (on_frame_hello hmac rnd Initiator c fresh b neg Hv)).
  apply (hs_more rnd _ _ _ [auth_by hmac c INITIATOR_LABEL n tr] _ [] _ (on_frame_challenge hmac rnd c _ b n neg Hn)).
  eapply hs_last. unfold auth_by at 1. rewrite on_frame_auth, decide_True by apply hmac_len. by rewrite decide_True.
Qed.

(** A link configuration whose largest frame holds every handshake frame. *)
Definition roomy (c : LinkConfig) : Prop := 2 + Z.of_nat FIXED_PREFIX + MAX_CLUSTER_NAME_LEN <= lc_max_frame c < 2 ^ 32.

Lemma fits_hello c h : roomy c -> hello_ok h -> fits (lc_max_frame c) (Frame.new Hello (HelloBody.encode h)).
Proof.
  intros [Hr _] Hok. unfold fits. cbn [Frame.body Frame.new]. rewrite (hello_length h Hok). pose proof (ho_name _ Hok). lia.
Qed.

Lemma fits_32 c k b : roomy c -> length b = 32%nat -> fits (lc_max_frame c) (Frame.new k b).
Proof. intros [Hr _] Hl. unfold fits. cbn [Frame.body Frame.new]. rewrite Hl. unfold MAX_CLUSTER_NAME_LEN in Hr. lia. Qed.

Context {N : Type} `{Notify N}.

(** C32. A link comes up over the socket: when each end of two compatible nodes
    reads the bytes the other writes (followed by whatever comes next on the
    stream), both [establish] calls return an [Up] link; the two ends agree on
    version, features, maximum frame and ids; each wrote exactly its handshake
    frames, and the reader starts at the first byte after the peer's. *)
Theorem link_establishes cI cR fI fR n rnd hkI hkR restI restR eI eR :
  compatible cI cR -> hello_ok (hello_of cI fI) -> hello_ok (hello_of cR fR) -> roomy cI -> roomy cR -> length n = 32%nat ->
  exists wireI wireR nI nR,
    establish (N := N) hmac Initiator cI hkI fI rnd false {| avail := wireR ++ restI; ended := eI |} {| written := []; budget := None |} =
      EstUp (Link.established cI nI hkI LinkCounters.default) {| avail := restI; ended := eI |} {| written := wireI; budget := None |} /\
    establish (N := N) hmac Responder cR hkR fR n false {| avail := wireI ++ restR; ended := eR |} {| written := []; budget := None |} =
      EstUp (Link.established cR nR hkR LinkCounters.default) {| avail := restR; ended := eR |} {| written := wireR; budget := None |} /\
    agree cI cR nI nR.
Proof.
  intros Hc HokI HokR RI RR Hn.
  pose proof (validate_plain Responder cR cI fR fI (compatible_sym _ _ Hc) HokI) as VR.
  pose proof (validate_plain Initiator cI cR fI fR Hc HokR) as VI.
  pose proof (responder_run cR fR n _ _ VR) as ER. pose proof (initiator_run cI fI rnd n _ _ Hn VI) as EI. cbv zeta in ER, EI.
  assert (Hauth : forall l t, auth_by hmac cR l n t = auth_by hmac cI l n t) by (intros; unfold auth_by; by rewrite (cp_secret _ _ Hc)).
  rewrite !Hauth in ER.
  eexists (encode_all [_; _]), (encode_all [_; _; _]), _, _. split_and!.
  - unfold establish. erewrite (run_handshake_run Initiator); [reflexivity|exact EI| |apply RI|done].
    repeat constructor; [by apply fits_hello|by apply fits_32|by apply fits_32, hmac_len].
  - unfold establish. erewrite (run_handshake_run Responder); [reflexivity|exact ER| |apply RR|done].
    repeat constructor; [by apply fits_hello|by apply fits_32, hmac_len].
  - apply negotiate_agree.
Qed.

End Establish.

(** ** Steady state: a sender and the reader at the other end *)

Section Steady.
Context {N : Type} `{Notify N}.
Import Link.

(** What happens at the sending end: its API, its keepalive ticks, the frames
    its own reader dispatches (which may answer with a PONG), and its writer. *)
Inductive link_op :=
  | LoSend (f : Frame.t) | LoSendEncoded (f : Frame.t) | LoTick (now : Z) | LoDispatch (kind flags : Z) (body : bytes)
  | LoWriter.

(** The sending end with its writer, the bytes on the wire and the frames its
    queue accepted. *)
Record sender := { s_link : Link.t N; s_pc : link_writer_pc; s_wire : bytes; s_frames : list Frame.t }.

(** [f] is recorded as accepted if the queue grew. *)
Definition sent_if_queued (s : sender) (l : Link.t N) (f : Frame.t) : sender :=
  {| s_link := l; s_pc := s_pc s; s_wire := s_wire s;
     s_frames := if decide (length (PeerQueue.inner (queue l)) = length (PeerQueue.inner (queue (s_link s))))
                 then s_frames s else s_frames s ++ [f] |}.

Definition sender_step (cfg : LinkConfig) (s : sender) (op : link_op) : sender :=
  match op with
  | LoSend f => sent_if_queued s (try_send f (s_link s)).2 f
  | LoSendEncoded f => sent_if_queued s (try_send_encoded (Frame.kind f) (Frame.encode f) (s_link s)).2 f
  | LoTick now => sent_if_queued s (keepalive_step now cfg (s_link s)) (ping_frame false)
  | LoDispatch k fl b => sent_if_queued s (dispatch k fl b (s_link s)).2 (ping_frame true)
  | LoWriter =>
      let w := writer_step None {| ws_q := queue (s_link s); ws_pc := s_pc s; ws_wire := s_wire s; ws_ctrs := counters (s_link s) |} in
      let l := s_link s in
      {| s_link := {| negotiated := negotiated l; hooks := hooks l; queue := ws_q w; counters := ws_ctrs w; state := state l;
                      last_in_ms := last_in_ms l; reader := reader l; keepalive := keepalive l |};
         s_pc := ws_pc w; s_wire := ws_wire w; s_frames := s_frames s |}
  end.

Definition sender_init (l : Link.t N) : sender := {| s_link := l; s_pc := WDrain; s_wire := []; s_frames := [] |}.
Definition sender_run (cfg : LinkConfig) (l : Link.t N) (ops : list link_op) : sender := foldl (sender_step cfg) (sender_init l) ops.

(** The frames an operation submits are within the negotiated maximum. *)
Definition op_fits (max : Z) (op : link_op) : Prop :=
  match op with LoSend f | LoSendEncoded f => fits max f | _ => True end.

(** A frame this end may put on the wire. *)
Definition sendable (n : Negotiated) (f : Frame.t) : Prop := may_emit n (Frame.kind f) = true /\ fits (n_max_frame n) f.

Record sender_inv (n : Negotiated) (s : sender) : Prop := {
  si_neg : negotiated (s_link s) = n;
  si_split : exists done pending, s_frames s = done ++ pending /\
    PeerQueue.inner (queue (s_link s)) = map Frame.encode pending /\ s_wire s = encode_all done;
  si_ok : Forall (sendable n) (s_frames s);
}.

(** A change to the link that leaves the queue's contents alone, or appends [f]. *)
Definition may_append (f : Frame.t) (l l' : Link.t N) : Prop :=
  negotiated l' = negotiated l /\
  (PeerQueue.inner (queue l') = PeerQueue.inner (queue l) \/
   PeerQueue.inner (queue l') = PeerQueue.inner (queue l) ++ [Frame.encode f]).

Lemma push_inner fr (q : PeerQueue.t N) o q' :
  PeerQueue.push fr q = (o, q') ->
  PeerQueue.inner q' = PeerQueue.inner q \/ PeerQueue.inner q' = PeerQueue.inner q ++ [fr].
Proof. unfold PeerQueue.push, PeerQueue.push_locked. destruct (_ <? _); intros [= <- <-]; [by left|by right]. Qed.

Lemma sent_if_queued_inv n s l f :
  sender_inv n s -> sendable n f \/ PeerQueue.inner (queue l) = PeerQueue.inner (queue (s_link s)) ->
  may_append f (s_link s) l -> sender_inv n (sent_if_queued s l f).
Proof.
  intros [Hn (done & pend & Hf & Hq & Hw) Hok] Hs [Hneg Hin]. unfold sent_if_queued. split; cbn.
  - congruence.
  - destruct Hin as [E|E]; rewrite E.
    + rewrite decide_True by done. by exists done, pend.
    + rewrite decide_False by (rewrite length_app; simpl; lia). exists done, (pend ++ [f]).
      rewrite Hf, Hq, map_app, <-app_assoc. done.
  - destruct (decide _) as [|Hne]; [done|]. apply Forall_app. split; [done|]. constructor; [|done].
    destruct Hs as [|E]; [done|]. by rewrite E in Hne.
Qed.

Lemma try_send_append f (l : Link.t N) : may_append f l (try_send f l).2.
Proof.
  unfold try_send. destruct (may_emit _ _); cbn; [|by split; [|left]].
  destruct (PeerQueue.push _ _) as [o q] eqn:E. apply push_inner in E. by split.
Qed.

Lemma try_send_suppressed kind fr (l : Link.t N) :
  may_emit (negotiated l) kind = false ->
  PeerQueue.inner (queue (try_send_encoded kind fr l).2) = PeerQueue.inner (queue l).
Proof. intros E. unfold try_send_encoded. by rewrite E. Qed.

Lemma try_send_is_encoded f (l : Link.t N) : try_send f l = try_send_encoded (Frame.kind f) (Frame.encode f) l.
Proof. reflexivity. Qed.

Lemma notify_waiters_same (l : Link.t N) : negotiated (notify_waiters l) = negotiated l /\ queue (notify_waiters l) = queue l.
Proof. unfold notify_waiters. by destruct l as [? ? ? ? ? ? [] []]. Qed.

Lemma keepalive_append now cfg (l : Link.t N) : may_append (ping_frame false) l (keepalive_step now cfg l).
Proof.
  unfold keepalive_step. destruct (keepalive l) as [[]|]; [by split; [|left]| |by split; [|left]].
  destruct (PeerQueue.is_closed _); [by split; [|left]|]. destruct (_ <? _).
  - cbn zeta. destruct (notify_waiters_same (set_keepalive KReturned (set_state LClosed l))) as [E1 E2].
    split; cbn [negotiated queue set_queue]; [by rewrite E1|]. left. rewrite E2. done.
  - destruct (PeerQueue.push _ _) as [o q] eqn:E. apply push_inner in E. by destruct o.
Qed.

Lemma dispatch_append k fl b (l : Link.t N) : may_append (ping_frame true) l (dispatch k fl b l).2.
Proof.
  unfold dispatch. destruct (from_u8 k) as [kd|]; [|by split; [|left]].
  destruct (_ && _); [by split; [|left]|]. cbn zeta.
  destruct kd; try (by split; [|left]). destruct (flags_has _ _); [by split; [|left]|].
  destruct (PeerQueue.push _ _) as [o q] eqn:E. apply push_inner in E. by split.
Qed.

Lemma ping_sendable n b : MIN_FRAME_FLOOR <= n_max_frame n -> sendable n (ping_frame b).
Proof. intros Hm. split; [done|]. unfold fits, MIN_FRAME_FLOOR in *. cbn. lia. Qed.

Lemma writer_drain_inv n cfg s : sender_inv n s -> sender_inv n (sender_step cfg s LoWriter).
Proof.
  intros [Hn (done & pend & Hf & Hq & Hw) Hok]. cbn [sender_step]. unfold writer_step. cbn [ws_pc ws_q ws_wire ws_ctrs].
  assert (Hsame : forall pc (q : PeerQueue.t N) c, PeerQueue.inner q = PeerQueue.inner (queue (s_link s)) -> sender_inv n
    {| s_link := {| negotiated := negotiated (s_link s); hooks := hooks (s_link s); queue := q; counters := c; state := state (s_link s);
         last_in_ms := last_in_ms (s_link s); reader := reader (s_link s); keepalive := keepalive (s_link s) |};
       s_pc := pc; s_wire := s_wire s; s_frames := s_frames s |}).
  { intros pc q c E. split; cbn; [done|exists done, pend; by rewrite E|done]. }
  destruct (s_pc s); try (by apply Hsame); [|by destruct (notify_permit _); apply Hsame].
  destruct (PeerQueue.drain_coalesced _ _ _) as [[k scratch] q'] eqn:E. unfold PeerQueue.drain_coalesced in E.
  destruct (PeerQueue.drain_loop _ _ _ _ _) as [[[fs qd] o] j] eqn:El. injection E as <- <- <-.
  apply drain_loop_spec in El as (took & Hin & -> & _ & -> & _). cbn [Nat.add app].
  destruct took as [|f took]; cbn [length].
  - apply Hsame. by rewrite Hin.
  - rewrite Hq in Hin. apply map_eq_app in Hin as (p1 & p2 & -> & Htook & Hfs).
    cbn [ws_q ws_pc ws_wire ws_ctrs]. split; cbn [s_link negotiated s_frames s_wire queue PeerQueue.inner]; [done| |done].
    exists (done ++ p1), p2. rewrite Hf, <-app_assoc, Hfs, encode_all_app, Hw, <-Htook. done.
Qed.

Lemma sender_step_inv n cfg s op :
  MIN_FRAME_FLOOR <= n_max_frame n -> op_fits (n_max_frame n) op -> sender_inv n s -> sender_inv n (sender_step cfg s op).
Proof.
  intros Hm Hfit Hs. pose proof (si_neg _ _ Hs) as Hn.
  assert (Hsend : forall f, fits (n_max_frame n) f -> sender_inv n (sent_if_queued s (try_send f (s_link s)).2 f)).
  { intros f Hf. apply sent_if_queued_inv; [done| |apply try_send_append].
    destruct (may_emit n (Frame.kind f)) eqn:E; [by left; split|right].
    rewrite try_send_is_encoded. apply try_send_suppressed. by rewrite Hn. }
  destruct op as [f|f|now|k fl b|]; [by apply Hsend|by apply Hsend| | |by apply writer_drain_inv]; cbn [sender_step];
    (apply sent_if_queued_inv; [done|left; by apply ping_sendable|]).
  - apply keepalive_append.
  - apply dispatch_append.
Qed.

Lemma sender_run_inv n cfg l ops :
  negotiated l = n -> PeerQueue.inner (queue l) = [] -> MIN_FRAME_FLOOR <= n_max_frame n ->
  Forall (op_fits (n_max_frame n)) ops -> sender_inv n (sender_run cfg l ops).
Proof.
  intros Hn Hq Hm Hops. unfold sender_run.
  assert (Hi : sender_inv n (sender_init l)) by (split; [done|by exists [], []|constructor]).
  revert Hi. generalize (sender_init l). induction Hops as [|op ops Hop _ IH]; intros s Hs; [done|].
  apply IH. by apply sender_step_inv.
Qed.

(** The reader task at the other end, polled at the times [nows]. *)
Fixpoint reader_run (nows : list Z) (rd : Stream) (l : Link.t N) : list HookCall * Stream * Link.t N :=
  match nows with
  | [] => ([], rd, l)
  | now :: nows =>
      let '(c1, rd, l) := reader_step now rd l in
      let '(c2, rd, l) := reader_run nows rd l in (c1 ++ c2, rd, l)
  end.

(** The hook calls the frames [fs] lead to: one per data-plane frame. *)
Definition is_data_plane (k : FrameKind) : bool :=
  match k with Hello | Challenge | Auth | Ping => false | _ => true end.
Definition inbound_calls (l : Link.t N) (fs : list Frame.t) : list HookCall :=
  if has_inbound (hooks l)
  then map (CallInbound (n_peer_node_id (negotiated l))) (filter (fun f => is_data_plane (Frame.kind f) = true) fs) else [].

(** What the reader leaves as it was. *)
Record read_ok (k : Z) (l l' : Link.t N) : Prop := {
  ro_neg : negotiated l' = negotiated l;
  ro_hooks : hooks l' = hooks l;
  ro_reader : reader l' = RSelect false;
  ro_unknown : LinkCounters.get LinkCounters.UnknownFrames (counters l') = LinkCounters.get LinkCounters.UnknownFrames (counters l);
  ro_frames : LinkCounters.get LinkCounters.FramesIn (counters l') = wrap 64 (LinkCounters.get LinkCounters.FramesIn (counters l) + k);
}.

Lemma dispatch_known f l :
  may_emit (negotiated l) (Frame.kind f) = true ->
  let '(calls, l') := dispatch (as_u8 (Frame.kind f)) (Frame.flags f) (Frame.body f) l in
  calls = inbound_calls l [f] /\ read_ok 1 l (set_reader (RSelect false) l').
Proof.
  intros He. unfold dispatch. rewrite from_as_u8, He, andb_false_r.
  assert (Hc : forall (q : PeerQueue.t N), read_ok 1 l (set_reader (RSelect false) (set_queue q (count LinkCounters.FramesIn 1 l)))).
  { intros q. split; try done; cbn [counters set_reader set_queue count]; by rewrite link_get_add. }
  assert (Hd : inbound_calls l [f] = if has_inbound (hooks l) && is_data_plane (Frame.kind f)
    then [CallInbound (n_peer_node_id (negotiated l)) f] else []).
  { unfold inbound_calls. rewrite filter_cons, filter_nil. by destruct (has_inbound _), (is_data_plane _). }
  rewrite Hd. pose proof (Hc (queue l)) as Hc0. destruct f as [kd fl b]; cbn [Frame.kind Frame.flags Frame.body] in *.
  destruct kd; cbn [is_data_plane]; rewrite ?andb_false_r, ?andb_true_r; try (by split).
  destruct (flags_has fl FLAGS_PONG).
  - split; [done|]. destruct Hc0 as [? ? ? Hu Hf]. split; try done; cbn [counters set_reader count];
      rewrite link_get_add, decide_False by done; done.
  - destruct (PeerQueue.push _ _) as [o q]. split; [done|]. apply Hc.
Qed.

Lemma read_ok_trans j k l1 l2 l3 : read_ok j l1 l2 -> read_ok k l2 l3 -> read_ok (j + k) l1 l3.
Proof.
  intros [A1 A2 A3 A4 A5] [B1 B2 B3 B4 B5]. split; [congruence|congruence|done|congruence|].
  rewrite B5, A5. unfold wrap. rewrite Zplus_mod_idemp_l. f_equal. lia.
Qed.

Lemma reader_run_app xs ys rd l :
  reader_run (xs ++ ys) rd l =
    let '(c1, rd, l) := reader_run xs rd l in let '(c2, rd, l) := reader_run ys rd l in (c1 ++ c2, rd, l).
Proof.
  revert rd l. induction xs as [|x xs IH]; intros rd l; cbn [app reader_run]; [by destruct (reader_run ys rd l) as [[]]|].
  destruct (reader_step x rd l) as [[c0 rd0] l0]. rewrite IH. destruct (reader_run xs rd0 l0) as [[c1 rd1] l1].
  destruct (reader_run ys rd1 l1) as [[c2 rd2] l2]. by rewrite app_assoc.
Qed.

Lemma reader_reads now f rest e l :
  reader l = RSelect false -> sendable (negotiated l) f -> n_max_frame (negotiated l) < 2 ^ 32 ->
  reader_step now {| avail := Frame.encode f ++ rest; ended := e |} l =
    ([], {| avail := rest; ended := e |}, set_reader (RBusy (as_u8 (Frame.kind f)) (Frame.flags f) (Frame.body f)) l).
Proof. intros Hr [_ Hfit] Hm. unfold reader_step. by rewrite Hr, (read_raw_frame_encode _ _ _ _ Hfit Hm). Qed.

(** One frame takes the reader two steps: the read and its handling. *)
Lemma reader_one now now' f rest e l :
  reader l = RSelect false -> sendable (negotiated l) f -> n_max_frame (negotiated l) < 2 ^ 32 ->
  exists l', read_ok 1 l l' /\
    reader_run [now; now'] {| avail := Frame.encode f ++ rest; ended := e |} l =
      (inbound_calls l [f], {| avail := rest; ended := e |}, l').
Proof.
  intros Hr Hs Hm. cbn [reader_run]. rewrite reader_reads by done. destruct Hs as [He _].
  cbn [reader_step reader set_reader negotiated hooks queue counters state last_in_ms keepalive].
  set (l2 := count _ _ _). pose proof (dispatch_known f l2 He) as Hd. destruct (dispatch _ _ _ l2) as [calls l'].
  destruct Hd as [-> Hok]. exists (set_reader (RSelect false) l'). split; [|by rewrite app_nil_r].
  destruct Hok as [O1 O2 O3 O4 O5]. unfold l2 in O4, O5. cbn [counters count] in O4, O5.
  rewrite link_get_add, decide_False in O4 by done. rewrite link_get_add, decide_False in O5 by done. by split.
Qed.

Lemma reader_all nows fs rest e l :
  length nows = (2 * length fs)%nat -> reader l = RSelect false -> Forall (sendable (negotiated l)) fs ->
  n_max_frame (negotiated l) < 2 ^ 32 -> u64_ok (LinkCounters.get LinkCounters.FramesIn (counters l)) ->
  exists l', read_ok (Z.of_nat (length fs)) l l' /\
    reader_run nows {| avail := encode_all fs ++ rest; ended := e |} l = (inbound_calls l fs, {| avail := rest; ended := e |}, l').
Proof.
  revert nows l. induction fs as [|f fs IH]; intros nows l Hlen Hr Hok Hm Hu.
  - destruct nows; [|done]. exists l. split; [|unfold inbound_calls; cbn; by destruct (has_inbound _)].
    split; try done. cbn [length]. rewrite Z.add_0_r, wrap_small; done.
  - destruct nows as [|a [|b nows]]; [simpl in Hlen; lia..|]. apply Forall_cons in Hok as [Hf Hfs].
    unfold encode_all. cbn [map concat]. rewrite <-app_assoc. change (concat (map Frame.encode fs)) with (encode_all fs).
    destruct (reader_one a b f (encode_all fs ++ rest) e l Hr Hf Hm) as (l1 & Hok1 & E1).
    destruct (IH nows l1) as (l2 & Hok2 & E2); [simpl in Hlen; lia|apply Hok1|by rewrite (ro_neg _ _ _ Hok1)
      |by rewrite (ro_neg _ _ _ Hok1)|rewrite (ro_frames _ _ _ Hok1); apply wrap_range; lia|].
    exists l2. split; [replace (Z.of_nat (length (f :: fs))) with (1 + Z.of_nat (length fs)) by (simpl; lia); by eapply read_ok_trans|].
    change (reader_run (a :: b :: nows)) with (reader_run ([a; b] ++ nows)). rewrite reader_run_app, E1, E2. f_equal. f_equal.
    unfold inbound_calls. rewrite (ro_neg _ _ _ Hok1), (ro_hooks _ _ _ Hok1). destruct (has_inbound (hooks l)); [|done].
    by rewrite <-map_app, <-filter_app.
Qed.

(** C19. A link is a faithful frame channel: whatever the sending end submits
    (within the negotiated maximum), ticks and dispatches, the frames its queue
    accepted are those written followed by those queued; no frame whose kind was
    not negotiated is ever written; and a peer that negotiated the same features
    and maximum, reading the bytes written so far, hands exactly the data-plane
    frames among them to its hook in order, counts each frame once, counts no
    unknown frame, keeps the link up and stops at the first byte it has not
    been sent yet. *)
Theorem link_stream_faithful cfgA cfgB nA nB hkA hkB ops nows later e :
  n_features nA = n_features nB -> n_max_frame nA = n_max_frame nB ->
  MIN_FRAME_FLOOR <= n_max_frame nA < 2 ^ 32 -> Forall (op_fits (n_max_frame nA)) ops ->
  let s := sender_run cfgA (established cfgA nA hkA LinkCounters.default) ops in
  let r := established cfgB nB hkB LinkCounters.default in
  exists done pending,
    s_frames s = done ++ pending /\ s_wire s = encode_all done /\
    PeerQueue.inner (queue (s_link s)) = map Frame.encode pending /\
    Forall (fun f => may_emit nA (Frame.kind f) = true) (s_frames s) /\
    (length nows = (2 * length done)%nat ->
     exists r', read_ok (Z.of_nat (length done)) r r' /\
       reader_run nows {| avail := s_wire s ++ later; ended := e |} r =
         (inbound_calls r done, {| avail := later; ended := e |}, r')).
Proof.
  intros Hfeat Hmax Hm Hops s r.
  destruct (sender_run_inv nA cfgA (established cfgA nA hkA LinkCounters.default) ops) as [_ (dn & pend & Hf & Hq & Hw) Hok];
    [done|done|lia|done|]. fold s in Hf, Hq, Hw, Hok.
  assert (Hsame : forall f, sendable nA f -> sendable nB f).
  { intros f. unfold sendable, may_emit. by rewrite Hfeat, Hmax. }
  exists dn, pend. split_and!; [done|done|done|by eapply Forall_impl; [exact Hok|intros ? []]|]. intros Hlen. rewrite Hw.
  rewrite Hf in Hok. apply Forall_app in Hok as [Hok _].
  apply reader_all; [done|done|by eapply Forall_impl|cbn; lia|split; vm_compute; congruence].
Qed.

End Steady.

Section LinkWitness.

Definition demo_hooks : LinkHooks := {| has_inbound := true; has_on_close := true |}.
Definition demo_link_cfg (id feat : Z) : LinkConfig :=
  let c := LinkConfig_new id (str "prod") (str "secret") in
  {| lc_protocol_version := 1; lc_node_id := id; lc_incarnation := 0; lc_cluster_name := lc_cluster_name c; lc_secret := lc_secret c;
     lc_max_frame := lc_max_frame c; lc_features := feat; lc_auth_timeout := 5000; lc_idle_ping_interval := 15000;
     lc_idle_dead_after := 45000; lc_queue_hwm_bytes := 65536 |}.

Lemma link_establishes_witness :
  exists wireI wireR nI nR,
    establish (N := bool) hmac_demo Initiator (demo_link_cfg 1 3) demo_hooks (demo_nonce 7) [] false
      {| avail := wireR ++ [1; 2]; ended := None |} {| written := []; budget := None |} =
      EstUp (Link.established (demo_link_cfg 1 3) nI demo_hooks LinkCounters.default) {| avail := [1; 2]; ended := None |}
        {| written := wireI; budget := None |} /\
    establish (N := bool) hmac_demo Responder (demo_link_cfg 2 1) demo_hooks (demo_nonce 8) (demo_nonce 9) false
      {| avail := wireI ++ []; ended := None |} {| written := []; budget := None |} =
      EstUp (Link.established (demo_link_cfg 2 1) nR demo_hooks LinkCounters.default) {| avail := []; ended := None |}
        {| written := wireR; budget := None |} /\
    agree (demo_link_cfg 1 3) (demo_link_cfg 2 1) nI nR.
Proof.
  apply (link_establishes hmac_demo hmac_demo_len (demo_link_cfg 1 3) (demo_link_cfg 2 1) (demo_nonce 7) (demo_nonce 8) (demo_nonce 9)
    [] demo_hooks demo_hooks [1; 2] [] None None).
  - by split.
  - split; try done; split; vm_compute; congruence.
  - split; try done; split; vm_compute; congruence.
  - split; vm_compute; congruence.
  - split; vm_compute; congruence.
  - reflexivity.
Defined.

Definition demo_neg (feat : Z) : Negotiated :=
  {| n_protocol_version := 1; n_features := feat; n_max_frame := 64; n_role := Initiator; n_peer_node_id := 2; n_peer_incarnation := 0 |}.
Definition demo_ops : list link_op :=
  [LoSend (Frame.new RelayAll [1; 2]); LoSend (Frame.new Interest [3]); LoWriter; LoTick 10; LoDispatch 11 0 [];
   LoSendEncoded (Frame.new Membership [4]); LoWriter; LoSend (Frame.new Interest [5])].

(** RELAY is not negotiated here: the first send is suppressed. *)
Lemma link_stream_faithful_witness :
  exists done pending,
    s_frames (sender_run (N := bool) (demo_link_cfg 1 1) (Link.established (demo_link_cfg 1 1) (demo_neg 1) demo_hooks LinkCounters.default) demo_ops)
      = done ++ pending /\ length done = 4%nat /\ length pending = 1%nat.
Proof.
  destruct (link_stream_faithful (N := bool) (demo_link_cfg 1 1) (demo_link_cfg 2 1) (demo_neg 1) (demo_neg 1) demo_hooks demo_hooks
    demo_ops [] [] None) as (dn & pend & Hf & Hw & Hq & _).
  - reflexivity.
  - reflexivity.
  - vm_compute. split; congruence.
  - repeat constructor; vm_compute; congruence.
  - exists dn, pend. split; [exact Hf|]. apply (f_equal length) in Hf, Hq. rewrite length_app in Hf. rewrite length_map in Hq.
    match type of Hf with ?x = _ => assert (H5 : x = 5%nat) by (vm_compute; reflexivity) end.
    match type of Hq with ?x = _ => assert (H1 : x = 1%nat) by (vm_compute; reflexivity) end.
    rewrite H5 in Hf. rewrite H1 in Hq. lia.
Defined.

(** The smallest maximum frame that validates cannot carry a HELLO with a
    cluster name of five bytes or more: such a link is refused as oversize. *)
Lemma floor_below_hello :
  let cfg := {| lc_protocol_version := 1; lc_node_id := 1; lc_incarnation := 0; lc_cluster_name := str "cluster"; lc_secret := str "s";
    lc_max_frame := MIN_FRAME_FLOOR; lc_features := 0; lc_auth_timeout := 5000; lc_idle_ping_interval := 15000;
    lc_idle_dead_after := 45000; lc_queue_hwm_bytes := 65536 |} in
  LinkConfig_validate cfg = None /\
  run_handshake hmac_demo Responder cfg (demo_nonce 1) (demo_nonce 2)
    {| avail := Frame.encode (Frame.new Hello (HelloBody.encode (Handshake.hello_of cfg (demo_nonce 3)))); ended := None |}
    {| written := []; budget := None |} LinkCounters.default = HsErr (LinkOversize 67 64) LinkCounters.default.
Proof. split; vm_compute; reflexivity. Qed.

(** A [close] that lands while the reader handles a frame does not stop it: the
    notification finds no waiter, and the reader goes back to reading. *)
Lemma close_missed_while_busy :
  let l := Link.set_reader (RBusy 4 0 []) (Link.established (N := bool) (demo_link_cfg 1 1) (demo_neg 1) demo_hooks LinkCounters.default) in
  Link.reader (Link.reader_step 5 {| avail := []; ended := None |} (Link.close l)).2 = RSelect false /\
  Link.state (Link.close l) = Closing.
Proof. split; reflexivity. Qed.

End LinkWitness.
