(* ===== verification/Swim.v ===== *)
(** * SWIM membership (crates/mesh/src/swim.rs)

    The member table of one node: precedence and merge, refutation, the bounded
    gossip list, suspicion, and the probe scheduler.  Times are milliseconds;
    [Instant::now()] is an argument.  A [HashMap] is a finite map; where the code
    iterates over it, the order is that of [map_to_list], and the theorems do not
    depend on it. *)

From S2P Require Import Prelude Config.

(** [struct SwimParams] with [tuned] (the default) and [literature]. *)
Record SwimParams := {
  period : Z; probe_timeout : Z; indirect_k : nat; suspicion_timeout : Z; gossip_max : nat; retransmit : Z;
}.
Definition tuned : SwimParams :=
  {| period := 500; probe_timeout := 250; indirect_k := 3; suspicion_timeout := 2500; gossip_max := 8; retransmit := 8 |}.
Definition literature : SwimParams :=
  {| period := 1000; probe_timeout := 500; indirect_k := 3; suspicion_timeout := 5000; gossip_max := 8; retransmit := 8 |}.

(** [enum MState] and [fn precedence]. *)
Inductive MState := Alive | Suspect | Dead.

#[global] Instance MState_eq_dec : EqDecision MState.
Proof. solve_decision. Defined.

Definition precedence (s : MState) : Z := match s with Alive => 0 | Suspect => 1 | Dead => 2 end.

(** [struct Update], [struct Member], [struct MembershipCounters]. *)
Record Update := { u_id : Z; u_addr : SocketAddr; u_state : MState; u_inc : Z }.
Record Member := { m_addr : SocketAddr; m_state : MState; m_inc : Z; m_since : Z }.
Record MembershipCounters := { joined : Z; suspected : Z; dead : Z; refuted : Z; revived : Z }.

(** [struct MemberInfo]. *)
Record MemberInfo := { i_id : Z; i_addr : SocketAddr; i_state : MState; i_inc : Z }.

Definition GOSSIP_CAP : nat := 256.

(** ** The xorshift generator *)

Module Rng.

(** [Rng::next]: the new state and the output. *)
Definition next (x : Z) : Z * Z :=
  let x := Z.lxor x (Z.shiftr x 12) in
  let x := Z.lxor x (wrap 64 (Z.shiftl x 25)) in
  let x := Z.lxor x (Z.shiftr x 27) in
  (x, wrap 64 (x * 2685821657736338717)).

(** [v.swap(i, j)]. *)
Definition swap {A} (i j : nat) (v : list A) : list A :=
  match v !! i, v !! j with Some x, Some y => <[j := x]> (<[i := y]> v) | _, _ => v end.

(** The Fisher-Yates loop of [Rng::shuffle], from index [i] down to 1. *)
Fixpoint shuffle_from {A} (i : nat) (x : Z) (v : list A) : Z * list A :=
  match i with
  | O => (x, v)
  | S i' =>
      let '(x, r) := next x in
      shuffle_from i' x (swap i (Z.to_nat (r mod (Z.of_nat i + 1))) v)
  end.

(** [Rng::shuffle]. *)
Definition shuffle {A} (x : Z) (v : list A) : Z * list A := shuffle_from (length v - 1) x v.

End Rng.

(** ** The table *)

Module Membership.

(** [struct Membership]. *)
Record t := {
  self_id : Z;
  self_addr : SocketAddr;
  self_inc : Z;
  members : gmap Z Member;
  gossip : list (Update * Z);
  counters : MembershipCounters;
  probe_order : list Z;
  probe_idx : nat;
  rng : Z;
}.

(** [Membership::new]; [seed] is what [Rng::seeded] draws. *)
Definition new (id : Z) (addr : SocketAddr) (seed : Z) : t :=
  {| self_id := id; self_addr := addr; self_inc := 1; members := ∅; gossip := [];
     counters := {| joined := 0; suspected := 0; dead := 0; refuted := 0; revived := 0 |};
     probe_order := []; probe_idx := 0; rng := Z.lor seed 1 |}.

Definition set_members (ms : gmap Z Member) (m : t) : t :=
  {| self_id := self_id m; self_addr := self_addr m; self_inc := self_inc m; members := ms; gossip := gossip m;
     counters := counters m; probe_order := probe_order m; probe_idx := probe_idx m; rng := rng m |}.
Definition set_gossip (g : list (Update * Z)) (m : t) : t :=
  {| self_id := self_id m; self_addr := self_addr m; self_inc := self_inc m; members := members m; gossip := g;
     counters := counters m; probe_order := probe_order m; probe_idx := probe_idx m; rng := rng m |}.
Definition set_counters (c : MembershipCounters) (m : t) : t :=
  {| self_id := self_id m; self_addr := self_addr m; self_inc := self_inc m; members := members m; gossip := gossip m;
     counters := c; probe_order := probe_order m; probe_idx := probe_idx m; rng := rng m |}.
Definition set_inc (i : Z) (m : t) : t :=
  {| self_id := self_id m; self_addr := self_addr m; self_inc := i; members := members m; gossip := gossip m;
     counters := counters m; probe_order := probe_order m; probe_idx := probe_idx m; rng := rng m |}.
Definition set_probe (o : list Z) (i : nat) (r : Z) (m : t) : t :=
  {| self_id := self_id m; self_addr := self_addr m; self_inc := self_inc m; members := members m; gossip := gossip m;
     counters := counters m; probe_order := o; probe_idx := i; rng := r |}.

(** [Membership::alive_count] and [has_non_alive]. *)
Definition alive_count (m : t) : nat := length (filter (fun kv => m_state kv.2 = Alive) (map_to_list (members m))).
Definition has_non_alive (m : t) : bool :=
  existsb (fun kv : Z * Member => bool_decide (m_state kv.2 <> Alive)) (map_to_list (members m)).

(** [Membership::self_update]. *)
Definition self_update (m : t) : Update :=
  {| u_id := self_id m; u_addr := self_addr m; u_state := Alive; u_inc := self_inc m |}.

Definition as_update (kv : Z * Member) : Update :=
  {| u_id := kv.1; u_addr := m_addr kv.2; u_state := m_state kv.2; u_inc := m_inc kv.2 |}.

(** [Membership::full_state]. *)
Definition full_state (m : t) : list Update := map as_update (map_to_list (members m)) ++ [self_update m].

(** [Membership::enqueue]. *)
Definition enqueue (u : Update) (rt : Z) (m : t) : t :=
  let g := filter (fun e => u_id e.1 <> u_id u) (gossip m) ++ [(u, rt)] in
  set_gossip (drop (length g - GOSSIP_CAP) g) m.

(** The loop of [Membership::take_piggyback]. *)
Fixpoint piggyback (max : nat) (g : list (Update * Z)) (out : list Update) (still : list (Update * Z))
    : list Update * list (Update * Z) :=
  match g with
  | [] => (out, still)
  | (u, n) :: g =>
      if decide (length out < max)%nat
      then piggyback max g (out ++ [u]) (if 1 <? n then still ++ [(u, n - 1)] else still)
      else piggyback max g out (still ++ [(u, n)])
  end.

(** [Membership::take_piggyback]. *)
Definition take_piggyback (max : nat) (m : t) : list Update * t :=
  let '(out, still) := piggyback max (gossip m) [self_update m] [] in (out, set_gossip still m).

Definition bump_counter (f : MState) (revival : bool) (c : MembershipCounters) : MembershipCounters :=
  let inc := wrap 64 in
  match f, revival with
  | Alive, false => {| joined := inc (joined c + 1); suspected := suspected c; dead := dead c; refuted := refuted c; revived := revived c |}
  | Alive, true => {| joined := joined c; suspected := suspected c; dead := dead c; refuted := refuted c; revived := inc (revived c + 1) |}
  | Suspect, _ => {| joined := joined c; suspected := inc (suspected c + 1); dead := dead c; refuted := refuted c; revived := revived c |}
  | Dead, _ => {| joined := joined c; suspected := suspected c; dead := inc (dead c + 1); refuted := refuted c; revived := revived c |}
  end.

(** [Membership::count_transition]. *)
Definition count_transition (prev : option MState) (next : MState) (c : MembershipCounters) : MembershipCounters :=
  match prev with
  | None => bump_counter next false c
  | Some p => if decide (p = next) then c else bump_counter next true c
  end.

Definition count_refuted (c : MembershipCounters) : MembershipCounters :=
  {| joined := joined c; suspected := suspected c; dead := dead c; refuted := wrap 64 (refuted c + 1); revived := revived c |}.

(** The acceptance test of [Membership::merge]. *)
Definition supersedes (u : Update) (m : Member) : bool :=
  (m_inc m <? u_inc u) || ((u_inc u =? m_inc m) && (precedence (m_state m) <? precedence (u_state u))).

(** [Membership::merge] at time [now]. *)
Definition merge (now : Z) (u : Update) (rt : Z) (m : t) : bool * t :=
  if u_id u =? self_id m then
    if negb (bool_decide (u_state u = Alive)) && (self_inc m <=? u_inc u) then
      let m := set_counters (count_refuted (counters m)) (set_inc (wrap 32 (u_inc u + 1)) m) in
      (true, enqueue (self_update m) rt m)
    else (false, m)
  else
    let cur := members m !! u_id u in
    if match cur with None => true | Some mb => supersedes u mb end then
      let m := set_members (<[u_id u := {| m_addr := u_addr u; m_state := u_state u; m_inc := u_inc u; m_since := now |}]> (members m)) m in
      let m := set_counters (count_transition (m_state <$> cur) (u_state u) (counters m)) m in
      (true, enqueue u rt m)
    else (false, m).

(** [Membership::note_direct_ack]. *)
Definition note_direct_ack (now from rt : Z) (m : t) : bool * t :=
  match members m !! from with
  | Some mb =>
      if decide (m_state mb = Suspect) then
        let m := set_members (<[from := {| m_addr := m_addr mb; m_state := Alive; m_inc := m_inc mb; m_since := now |}]> (members m)) m in
        let m := set_counters (bump_counter Alive true (counters m)) m in
        (true, enqueue {| u_id := from; u_addr := m_addr mb; u_state := Alive; u_inc := m_inc mb |} rt m)
      else (false, m)
  | None => (false, m)
  end.

(** [Membership::suspect]. *)
Definition suspect (now target rt : Z) (m : t) : bool * t :=
  match members m !! target with
  | None => (false, m)
  | Some mb =>
      if decide (m_state mb = Alive)
      then merge now {| u_id := target; u_addr := m_addr mb; u_state := Suspect; u_inc := m_inc mb |} rt m
      else (false, m)
  end.

(** The loop of [Membership::expire_suspects]. *)
Fixpoint evict_all (now rt : Z) (expired : list (Z * Member)) (m : t) : list Z * t :=
  match expired with
  | [] => ([], m)
  | (id, mb) :: rest =>
      let '(ok, m) := merge now {| u_id := id; u_addr := m_addr mb; u_state := Dead; u_inc := m_inc mb |} rt m in
      let '(ids, m) := evict_all now rt rest m in
      (if ok : bool then id :: ids else ids, m)
  end.

(** A suspect past its timeout. *)
Definition overdue (now timeout : Z) (mb : Member) : Prop := m_state mb = Suspect /\ timeout < Z.max 0 (now - m_since mb).
#[global] Instance overdue_dec now timeout mb : Decision (overdue now timeout mb).
Proof. unfold overdue. apply _. Defined.

(** [Membership::expire_suspects]. *)
Definition expire_suspects (now timeout rt : Z) (m : t) : list Z * t :=
  evict_all now rt (filter (fun kv => overdue now timeout kv.2) (map_to_list (members m))) m.

Definition live_ids (m : t) : list Z := (filter (fun kv : Z * Member => m_state kv.2 <> Dead) (map_to_list (members m))).*1.

(** [Membership::next_probe_target]; the outer [None] is an index panic. *)
Definition next_probe_target (m : t) : option (option (Z * SocketAddr) * t) :=
  let live := live_ids m in
  if decide (live = []) then Some (None, m)
  else
    let order := filter (fun id => id ∈ live) (probe_order m) in
    let '(order, idx, r) :=
      if decide (length order <= probe_idx m)%nat
      then let '(r, order) := Rng.shuffle (rng m) live in (order, O, r)
      else (order, probe_idx m, rng m) in
    id ← order !! idx;
    Some ((fun mb => (id, m_addr mb)) <$> members m !! id, set_probe order (S idx) r m).

(** [Membership::indirect_helpers]. *)
Definition indirect_helpers (exclude : Z) (k : nat) (m : t) : list (Z * SocketAddr) * t :=
  let hs := map (fun kv : Z * Member => (kv.1, m_addr kv.2))
    (filter (fun kv : Z * Member => kv.1 <> exclude /\ m_state kv.2 = Alive) (map_to_list (members m))) in
  let '(r, hs) := Rng.shuffle (rng m) hs in
  (take k hs, set_probe (probe_order m) (probe_idx m) r m).

(** [Membership::addr_of]. *)
Definition addr_of (id : Z) (m : t) : option SocketAddr := m_addr <$> members m !! id.

End Membership.

(** [Membership::table], sorted by id. *)
Definition info_le (a b : MemberInfo) : Prop := i_id a <= i_id b.
#[global] Instance info_le_dec a b : Decision (info_le a b).
Proof. unfold info_le. apply _. Defined.
Definition table (m : Membership.t) : list MemberInfo :=
  merge_sort info_le (map (fun kv : Z * Member => {| i_id := kv.1; i_addr := m_addr kv.2; i_state := m_state kv.2; i_inc := m_inc kv.2 |})
    (map_to_list (Membership.members m))).

(** ** The shuffle is a permutation *)

Lemma swap_perm {A} i j (v : list A) : Rng.swap i j v ≡ₚ v.
Proof.
  unfold Rng.swap. destruct (v !! i) as [x|] eqn:Ei; [|done]. destruct (v !! j) as [y|] eqn:Ej; [|done].
  destruct (decide (i = j)) as [->|Hne].
  - assert (x = y) as -> by congruence. rewrite !list_insert_id; [done|done|by rewrite list_insert_id].
  - rewrite Permutation_inj. split; [by rewrite !length_insert|].
    exists (fun k => if decide (k = i) then j else if decide (k = j) then i else k). split.
    + intros a b. repeat case_decide; congruence.
    + intros k. pose proof (lookup_lt_Some _ _ _ Ei). pose proof (lookup_lt_Some _ _ _ Ej).
      destruct (decide (k = i)) as [->|Hi].
      * rewrite list_lookup_insert_ne, list_lookup_insert_eq by done. done.
      * destruct (decide (k = j)) as [->|Hj]; [by rewrite list_lookup_insert_eq by (by rewrite length_insert)|].
        by rewrite !list_lookup_insert_ne.
Qed.

Lemma shuffle_perm {A} x (v : list A) : (Rng.shuffle x v).2 ≡ₚ v.
Proof.
  unfold Rng.shuffle. generalize (length v - 1)%nat. intros n. revert x v. induction n as [|n IH]; intros x v; cbn [Rng.shuffle_from]; [done|].
  destruct (Rng.next x) as [x' r]. rewrite IH. apply swap_perm.
Qed.

(** ** The merge order *)

Section MergeOrder.
Import Membership.

(** Incarnation first, then precedence. *)
Definition rank (s : MState) (inc : Z) : Z := inc * 3 + precedence s.

Lemma rank_inj s i s' i' : rank s i = rank s' i' -> s = s' /\ i = i'.
Proof. unfold rank, precedence. destruct s, s'; intros; split; (done || lia). Qed.

(** What a node believes of [id]. *)
Definition known (id : Z) (m : Membership.t) : option (MState * Z) := (fun mb => (m_state mb, m_inc mb)) <$> members m !! id.
Definition krank (id : Z) (m : Membership.t) : option Z := (fun mb => rank (m_state mb) (m_inc mb)) <$> members m !! id.

Lemma known_krank id m m' : krank id m = krank id m' -> known id m = known id m'.
Proof.
  unfold known, krank. destruct (members m !! id) as [a|], (members m' !! id) as [b|]; cbn; try done.
  intros [= E]. apply rank_inj in E as [-> ->]. done.
Qed.

Lemma supersedes_rank u mb : supersedes u mb = true <-> rank (m_state mb) (m_inc mb) < rank (u_state u) (u_inc u).
Proof.
  unfold supersedes, rank. rewrite orb_true_iff, andb_true_iff, !Z.ltb_lt, Z.eqb_eq.
  destruct (m_state mb), (u_state u); cbn; lia.
Qed.

Lemma enqueue_members u rt m : members (enqueue u rt m) = members m.
Proof. done. Qed.
Lemma enqueue_self u rt m : self_id (enqueue u rt m) = self_id m /\ self_inc (enqueue u rt m) = self_inc m.
Proof. done. Qed.

Lemma merge_self_id now u rt m : self_id (merge now u rt m).2 = self_id m.
Proof. unfold merge. repeat case_match; done. Qed.

(** A merge raises the belief about [id] to the rank of the fact. *)
Lemma merge_krank now u rt m id :
  id <> self_id m ->
  krank id (merge now u rt m).2 =
    if decide (u_id u = id)
    then Some (match krank id m with None => rank (u_state u) (u_inc u) | Some r => Z.max r (rank (u_state u) (u_inc u)) end)
    else krank id m.
Proof.
  intros Hid. unfold merge. destruct (Z.eqb_spec (u_id u) (self_id m)) as [E|Hne].
  - rewrite decide_False by congruence. destruct (_ && _); done.
  - destruct (decide (u_id u = id)) as [->|Hu].
    + unfold krank. destruct (members m !! id) as [mb|] eqn:Em; cbn.
      * destruct (supersedes u mb) eqn:Es.
        -- apply supersedes_rank in Es. cbn. rewrite lookup_insert_eq. cbn. f_equal. lia.
        -- cbn. rewrite Em. cbn. f_equal. destruct (decide (rank (m_state mb) (m_inc mb) < rank (u_state u) (u_inc u))) as [Hr|Hr]; [|lia].
           apply supersedes_rank in Hr. congruence.
      * by rewrite lookup_insert_eq.
    + unfold krank. case_match; cbn; [|done]. by rewrite lookup_insert_ne.
Qed.

(** Merging a sequence of facts, each at its own time. *)
Definition merge_all (rt : Z) (us : list (Z * Update)) (m : Membership.t) : Membership.t :=
  foldl (fun m '(now, u) => (merge now u rt m).2) m us.

Lemma merge_all_self rt us m : self_id (merge_all rt us m) = self_id m.
Proof.
  unfold merge_all. revert m. induction us as [|[now u] us IH]; intros m; cbn; [done|]. by rewrite IH, merge_self_id.
Qed.

(** The ranks claimed for [id], by the table or by the facts. *)
Definition claims (id : Z) (m : Membership.t) (us : list (Z * Update)) (r : Z) : Prop :=
  krank id m = Some r \/ exists now u, (now, u) ∈ us /\ u_id u = id /\ r = rank (u_state u) (u_inc u).

Lemma merge_all_max rt us m id :
  id <> self_id m ->
  match krank id (merge_all rt us m) with
  | Some r => claims id m us r /\ forall r', claims id m us r' -> r' <= r
  | None => forall r, ~ claims id m us r
  end.
Proof.
  unfold merge_all. revert m. induction us as [|[now u] us IH]; intros m Hid; cbn [foldl].
  - destruct (krank id m) as [r|] eqn:E; [split; [by left|]|]; intros r' [Hr|(? & ? & []%not_elem_of_nil & _)]; rewrite E in Hr; by simplify_eq.
  - specialize (IH (merge now u rt m).2). rewrite merge_self_id in IH. specialize (IH Hid).
    assert (Hc : forall r, claims id m ((now, u) :: us) r <-> krank id m = Some r \/ (u_id u = id /\ r = rank (u_state u) (u_inc u)) \/
        exists now u, (now, u) ∈ us /\ u_id u = id /\ r = rank (u_state u) (u_inc u)).
    { intros r. unfold claims. setoid_rewrite elem_of_cons. naive_solver. }
    assert (Hc' : forall r, claims id (merge now u rt m).2 us r <-> krank id (merge now u rt m).2 = Some r \/
        exists now u, (now, u) ∈ us /\ u_id u = id /\ r = rank (u_state u) (u_inc u)) by done.
    rewrite (merge_krank now u rt m id Hid) in Hc'.
    destruct (krank id (foldl _ _ us)) as [r|].
    + destruct IH as [Hin Hmax]. apply Hc' in Hin. split.
      * apply Hc. destruct Hin as [Hin|Hin]; [|by right; right]. case_decide; [|by left].
        destruct (krank id m) as [r0|]; simplify_eq; [|by right; left].
        destruct (Z.max_spec r0 (rank (u_state u) (u_inc u))) as [[_ ->]|[_ ->]]; [by right; left|by left].
      * intros r' [Hr|[[Hu ->]|Hr]]%Hc.
        -- case_decide as Hd.
           ++ rewrite Hr in Hc', Hin. etrans; [|apply Hmax, Hc'; left; reflexivity]. lia.
           ++ apply Hmax, Hc'. by left.
        -- rewrite decide_True in Hc' by done. etrans; [|apply Hmax, Hc'; left; reflexivity]. destruct (krank id m); lia.
        -- apply Hmax, Hc'. by right.
    + intros r [Hr|[[Hu ->]|Hr]]%Hc.
      * case_decide; [rewrite Hr in Hc'|]; eapply IH, Hc'; by left.
      * rewrite decide_True in Hc' by done. eapply IH, Hc'. by left.
      * eapply IH, Hc'. by right.
Qed.

(** The beliefs about [id] a node starts with or is told. *)
Definition told (id : Z) (m : Membership.t) (us : list (Z * Update)) (st : MState) (inc : Z) : Prop :=
  known id m = Some (st, inc) \/ exists u, u ∈ us.*2 /\ u_id u = id /\ u_state u = st /\ u_inc u = inc.

Lemma told_claims id m us r : claims id m us r <-> exists st inc, told id m us st inc /\ r = rank st inc.
Proof.
  unfold claims, told, krank, known. split.
  - intros [(mb & Hm & ->)%fmap_Some|(now & u & Hin & Hu & ->)]; [exists (m_state mb), (m_inc mb); rewrite Hm; auto|].
    exists (u_state u), (u_inc u). split; [|done]. right. exists u. split; [|done]. by apply (list_elem_of_fmap_2 snd) in Hin.
  - intros (st & inc & [(mb & Hm & E)%fmap_Some|(u & Hin & Hu & <- & <-)] & ->); [left; rewrite Hm; cbn; by simplify_eq|right].
    apply list_elem_of_fmap in Hin as ([now u'] & -> & Hin). by exists now, u'.
Qed.

(** A node ends with the greatest of the beliefs it had or was told. *)
Lemma merge_all_greatest rt us m id : id <> self_id m ->
  match known id (merge_all rt us m) with
  | Some (st, inc) => told id m us st inc /\ forall st' inc', told id m us st' inc' -> rank st' inc' <= rank st inc
  | None => forall st inc, ~ told id m us st inc
  end.
Proof.
  intros Hid. pose proof (merge_all_max rt us m id Hid) as Hm. unfold known. unfold krank in Hm. destruct (members (merge_all rt us m) !! id) as [mb|]; cbn in *.
  - destruct Hm as [Hin Hmax]. split.
    + apply told_claims in Hin as (st & inc & Ht & E). apply rank_inj in E as [-> ->]. done.
    + intros st' inc' Ht. apply Hmax, told_claims. by exists st', inc'.
  - intros st inc Ht. apply (Hm (rank st inc)), told_claims. by exists st, inc.
Qed.

(** C12. Membership converges: two nodes that start from the same belief about a
    third (or none) and receive the same set of facts about it, in any order and
    any number of times, end with the same state and incarnation; and what each
    ends with is one of the beliefs it had or was told, the greatest of them
    (incarnation first, then Dead over Suspect over Alive), so a node's belief is
    never invented and only moves forward. *)
Theorem swim_merge_converges rt us vs a b id :
  id <> self_id a -> id <> self_id b -> known id a = known id b ->
  (forall u, u_id u = id -> u ∈ us.*2 <-> u ∈ vs.*2) ->
  known id (merge_all rt us a) = known id (merge_all rt vs b) /\
  match known id (merge_all rt us a) with
  | Some (st, inc) => told id a us st inc /\ forall st' inc', told id a us st' inc' -> rank st' inc' <= rank st inc
  | None => forall st inc, ~ told id a us st inc
  end.
Proof.
  intros Ha Hb Hk Hset. pose proof (merge_all_greatest rt us a id Ha) as HA. pose proof (merge_all_greatest rt vs b id Hb) as HB. split; [|exact HA].
  assert (Ht : forall st inc, told id a us st inc <-> told id b vs st inc).
  { intros st inc. unfold told. rewrite Hk. split; (intros [?|(u & Hin & Hu & Hs)]; [by left|right; exists u; split; [by apply Hset|done]]). }
  destruct (known id (merge_all rt us a)) as [[s1 i1]|], (known id (merge_all rt vs b)) as [[s2 i2]|]; [|destruct HA as [HA _]; by apply Ht, HB in HA|destruct HB as [HB _]; by apply Ht, HA in HB|done].
  destruct HA as [HA1 HA2], HB as [HB1 HB2]. pose proof (HB2 _ _ (proj1 (Ht _ _) HA1)). pose proof (HA2 _ _ (proj2 (Ht _ _) HB1)).
  destruct (rank_inj s1 i1 s2 i2) as [-> ->]; [lia|done].
Qed.

End MergeOrder.

(** ** Invariants of the table *)

Section TableInvariant.
Import Membership.

(** A node never lists itself, keeps at most one gossip entry per member, never
    more than the cap, and each with a remaining budget within [rt]. *)
Record swim_wf (rt : Z) (m : Membership.t) : Prop := {
  sw_self : members m !! self_id m = None;
  sw_ids : NoDup (map (fun e => u_id e.1) (gossip m));
  sw_cap : (length (gossip m) <= GOSSIP_CAP)%nat;
  sw_budget : Forall (fun e => 1 <= e.2 <= rt) (gossip m);
}.

Lemma filter_ids_subset (P : Update * Z -> Prop) `{!forall e, Decision (P e)} g :
  map (fun e => u_id e.1) (filter P g) `sublist_of` map (fun e => u_id e.1) g.
Proof.
  induction g as [|e g IH]; [done|]. rewrite filter_cons. case_decide; cbn.
  - by apply sublist_skip.
  - by apply sublist_cons.
Qed.

Lemma enqueue_wf rt u m : 1 <= rt -> swim_wf rt m -> swim_wf rt (enqueue u rt m).
Proof.
  intros Hrt [Hs Hids Hcap Hb]. unfold enqueue. set (g := filter _ (gossip m) ++ [(u, rt)]).
  assert (Hg : NoDup (map (fun e => u_id e.1) g)).
  { unfold g. rewrite map_app. apply NoDup_app. split_and!.
    - eapply sublist_NoDup; [exact Hids|]. apply filter_ids_subset.
    - intros x (e & -> & [He _]%list_elem_of_filter)%list_elem_of_fmap. cbn. by intros ?%list_elem_of_singleton.
    - apply NoDup_singleton. }
  assert (Hf : Forall (fun e => 1 <= e.2 <= rt) g).
  { unfold g. apply Forall_app. split; [|constructor; [cbn; lia|constructor]].
    apply Forall_forall. intros e [_ He]%list_elem_of_filter. by eapply Forall_forall in Hb. }
  split; cbn; [done| | |by apply Forall_drop].
  - eapply sublist_NoDup; [exact Hg|]. rewrite <-skipn_map. apply sublist_drop.
  - rewrite length_drop. lia.
Qed.

Lemma merge_wf rt now u m : 1 <= rt -> swim_wf rt m -> swim_wf rt (merge now u rt m).2.
Proof.
  intros Hrt Hwf. unfold merge. destruct (Z.eqb_spec (u_id u) (self_id m)) as [E|Hne].
  - destruct (_ && _); [|done]. cbn. apply enqueue_wf; [done|]. by destruct Hwf.
  - case_match; [|done]. cbn. apply enqueue_wf; [done|]. destruct Hwf as [Hs ? ? ?]. split; cbn; [|done..].
    by rewrite lookup_insert_ne.
Qed.

Lemma note_direct_ack_wf rt now from m : 1 <= rt -> swim_wf rt m -> swim_wf rt (note_direct_ack now from rt m).2.
Proof.
  intros Hrt Hwf. unfold note_direct_ack. destruct (members m !! from) as [mb|] eqn:E; [|done].
  case_decide; [|done]. cbn. apply enqueue_wf; [done|]. destruct Hwf as [Hs ? ? ?]. split; cbn; [|done..].
  rewrite lookup_insert_ne; [done|]. intros ->. congruence.
Qed.

Lemma suspect_wf rt now target m : 1 <= rt -> swim_wf rt m -> swim_wf rt (suspect now target rt m).2.
Proof. intros Hrt Hwf. unfold suspect. destruct (members m !! target); [|done]. case_decide; [|done]. by apply merge_wf. Qed.

Lemma evict_all_wf rt now l m : 1 <= rt -> swim_wf rt m -> swim_wf rt (evict_all now rt l m).2.
Proof.
  intros Hrt. revert m. induction l as [|[id mb] l IH]; intros m Hwf; cbn [evict_all]; [done|].
  pose proof (merge_wf rt now {| u_id := id; u_addr := m_addr mb; u_state := Dead; u_inc := m_inc mb |} m Hrt Hwf) as Hm.
  destruct (merge _ _ _ _) as [ok m1]. specialize (IH m1 Hm). by destruct (evict_all _ _ _ m1).
Qed.

(** What a piggyback round keeps: a subsequence, with every budget lowered or kept. *)
Lemma piggyback_spec max g out still out' still' rt :
  piggyback max g out still = (out', still') -> Forall (fun e => 1 <= e.2 <= rt) g -> Forall (fun e => 1 <= e.2 <= rt) still ->
  map (fun e => u_id e.1) still' `sublist_of` map (fun e => u_id e.1) (still ++ g) /\
  Forall (fun e => 1 <= e.2 <= rt) still' /\
  (exists sent, out' = out ++ sent /\ sent `sublist_of` g.*1) /\ (length out' <= Nat.max (length out) max)%nat.
Proof.
  revert out still. induction g as [|[u n] g IH]; intros out still; cbn [piggyback].
  - intros [= <- <-] _ Hs. rewrite app_nil_r. split_and!; [done|done|exists []; by rewrite app_nil_r|lia].
  - intros E Hg Hs. apply Forall_cons in Hg as [Hn Hg]. cbn in Hn. case_decide as Hd.
    + assert (Hst : Forall (fun e => 1 <= e.2 <= rt) (if 1 <? n then still ++ [(u, n - 1)] else still)).
      { destruct (Z.ltb_spec 1 n); [|done]. apply Forall_app. split; [done|]. constructor; [cbn; lia|constructor]. }
      apply IH in E as (Hsub & Hf & (sent & -> & Hsent) & Hl); [|done|done]. split_and!; [|done| |].
      * etrans; [exact Hsub|]. rewrite !map_app. cbn. destruct (1 <? n).
        -- rewrite map_app. cbn. by rewrite <-app_assoc.
        -- apply sublist_app; [done|]. by apply sublist_cons.
      * exists (u :: sent). rewrite <-app_assoc. split; [done|]. cbn. by apply sublist_skip.
      * rewrite !length_app in Hl |- *. cbn in Hl |- *. lia.
    + apply IH in E as (Hsub & Hf & (sent & -> & Hsent) & Hl); [|done|]. 2:{ apply Forall_app. split; [done|]. constructor; [done|constructor]. }
      split_and!; [by rewrite <-app_assoc in Hsub|done| |done]. exists sent. split; [done|]. cbn. by apply sublist_cons.
Qed.

Lemma take_piggyback_wf rt max m out m' :
  swim_wf rt m -> take_piggyback max m = (out, m') ->
  swim_wf rt m' /\ members m' = members m /\
  (exists sent, out = self_update m :: sent /\ sent `sublist_of` (gossip m).*1) /\ (length out <= Nat.max 1 max)%nat.
Proof.
  intros [Hs Hids Hcap Hb]. unfold take_piggyback. destruct (piggyback _ _ _ _) as [o st] eqn:E. intros [= <- <-].
  apply (piggyback_spec _ _ _ _ _ _ rt) in E as (Hsub & Hf & (sent & -> & Hsent) & Hl); [|done|constructor].
  cbn [app] in *. split; [|split_and!; [done|by exists sent|exact Hl]]. split; cbn; [done|by eapply sublist_NoDup| |done].
  apply sublist_length in Hsub. rewrite !length_map in Hsub. lia.
Qed.

(** The operations of the two planes, in the order they lock the table. *)
Inductive swim_op :=
  | SoMerge (now : Z) (u : Update) | SoAck (now from : Z) | SoSuspect (now target : Z) | SoExpire (now timeout : Z)
  | SoProbe | SoHelpers (exclude : Z) (k : nat) | SoPiggyback (max : nat).

Definition swim_step (rt : Z) (m : Membership.t) (op : swim_op) : Membership.t :=
  match op with
  | SoMerge now u => (merge now u rt m).2
  | SoAck now from => (note_direct_ack now from rt m).2
  | SoSuspect now target => (suspect now target rt m).2
  | SoExpire now timeout => (expire_suspects now timeout rt m).2
  | SoProbe => match next_probe_target m with Some (_, m) => m | None => m end
  | SoHelpers e k => (indirect_helpers e k m).2
  | SoPiggyback max => (take_piggyback max m).2
  end.

Lemma next_probe_same m r m' : next_probe_target m = Some (r, m') -> members m' = members m /\ gossip m' = gossip m /\ self_id m' = self_id m.
Proof.
  unfold next_probe_target. case_decide; [by intros [= _ <-]|]. destruct (if decide _ then _ else _) as [[order idx] rr].
  destruct (order !! idx); [|done]. cbn. by intros [= _ <-].
Qed.

Lemma swim_step_wf rt m op : 1 <= rt -> swim_wf rt m -> swim_wf rt (swim_step rt m op).
Proof.
  intros Hrt Hwf. destruct op as [now u|now from|now t|now to| |e k|max]; cbn [swim_step].
  - by apply merge_wf.
  - by apply note_direct_ack_wf.
  - by apply suspect_wf.
  - by apply evict_all_wf.
  - destruct (next_probe_target m) as [[r m']|] eqn:E; [|done]. apply next_probe_same in E as (E1 & E2 & E3).
    destruct Hwf. split; by rewrite ?E1, ?E2, ?E3.
  - unfold indirect_helpers. destruct (Rng.shuffle _ _). by destruct Hwf.
  - destruct (take_piggyback max m) as [out m'] eqn:E. by apply (take_piggyback_wf rt) in E as [? _].
Qed.

Definition swim_run (rt : Z) (m : Membership.t) (ops : list swim_op) : Membership.t := foldl (swim_step rt) m ops.

Lemma swim_run_wf rt m ops : 1 <= rt -> swim_wf rt m -> swim_wf rt (swim_run rt m ops).
Proof. intros Hrt. revert m. induction ops as [|op ops IH]; intros m Hwf; [done|]. apply IH. by apply swim_step_wf. Qed.

Lemma swim_new_wf rt id addr seed : swim_wf rt (new id addr seed).
Proof. split; cbn; [done|constructor|lia|constructor]. Qed.

(** The member table stays well formed under any sequence of operations of
    the probe and dissemination planes: a node never holds itself as a member,
    the gossip list has one entry per member and at most 256, and each has
    between 1 and [retransmit] transmissions left; a piggyback round sends our
    own Alive first, then a subsequence of the gossip list, within its maximum. *)
Lemma membership_table_invariant rt id addr seed ops max out m' :
  1 <= rt ->
  let m := swim_run rt (new id addr seed) ops in
  swim_wf rt m /\
  (take_piggyback max m = (out, m') ->
   (exists sent, out = self_update m :: sent /\ sent `sublist_of` (gossip m).*1) /\
   (length out <= Nat.max 1 max)%nat /\ swim_wf rt m').
Proof.
  intros Hrt m. assert (Hwf : swim_wf rt m) by (apply swim_run_wf, swim_new_wf; done). split; [done|].
  intros E. apply (take_piggyback_wf rt) in E as (Hwf' & _ & Hs & Hl); done.
Qed.

(** ** Suspicion *)

(** The table after eviction. *)
Definition evicted (now timeout : Z) (mb : Member) : Member :=
  if decide (overdue now timeout mb) then {| m_addr := m_addr mb; m_state := Dead; m_inc := m_inc mb; m_since := now |} else mb.

Lemma evict_all_members now rt l m :
  NoDup l.*1 -> (forall id mb, (id, mb) ∈ l -> members m !! id = Some mb /\ m_state mb = Suspect /\ id <> self_id m) ->
  (evict_all now rt l m).1 = l.*1 /\ self_id (evict_all now rt l m).2 = self_id m /\
  forall id, members (evict_all now rt l m).2 !! id =
    if decide (id ∈ l.*1) then (fun mb => {| m_addr := m_addr mb; m_state := Dead; m_inc := m_inc mb; m_since := now |}) <$> members m !! id
    else members m !! id.
Proof.
  revert m. induction l as [|[id mb] l IH]; intros m Hnd Hl; cbn [evict_all].
  { split_and!; [done|done|]. intros id. rewrite decide_False; [done|]. by intros ?%not_elem_of_nil. }
  apply NoDup_cons in Hnd as [Hni Hnd]. destruct (Hl id mb) as (Hm & Hs & Hself); [by left|].
  unfold merge. cbn [u_id u_state u_inc]. destruct (Z.eqb_spec id (self_id m)); [done|]. rewrite Hm.
  assert (Hsup : supersedes {| u_id := id; u_addr := m_addr mb; u_state := Dead; u_inc := m_inc mb |} mb = true).
  { apply supersedes_rank. cbn. rewrite Hs. unfold rank. cbn. lia. }
  rewrite Hsup. set (m1 := enqueue _ _ _). destruct (IH m1 Hnd) as (E1 & E2 & E3).
  { intros id' mb' Hin. destruct (Hl id' mb') as (Hm' & ? & ?); [by right|]. split_and!; [|done|done]. cbn.
    rewrite lookup_insert_ne; [done|]. intros ->. apply Hni. by apply (list_elem_of_fmap_2 fst) in Hin. }
  destruct (evict_all now rt l m1) as [ids m2]. cbn in E1, E2, E3 |- *. split_and!; [by rewrite E1|done|].
  intros id'. rewrite E3. destruct (decide (id' = id)) as [->|Hne].
  - rewrite decide_False by done. rewrite lookup_insert_eq, decide_True by (by left). by rewrite Hm.
  - rewrite lookup_insert_ne by done. destruct (decide (id' ∈ l.*1)); [rewrite decide_True by (by right)|rewrite decide_False by (by intros [?|?]%elem_of_cons)]; done.
Qed.

(** Suspicion expires exactly: [expire_suspects] evicts the suspects whose
    timeout has passed, each once, and nobody else; an evicted member is Dead at
    its own incarnation, every other entry is untouched.  In particular a member
    that is suspected now and neither acknowledges nor refutes survives every
    sweep up to the timeout and is Dead after the first sweep past it. *)
Lemma suspects_expire_exactly rt now timeout m ids m' :
  swim_wf rt m -> expire_suspects now timeout rt m = (ids, m') ->
  NoDup ids /\
  (forall id, id ∈ ids <-> exists mb, members m !! id = Some mb /\ overdue now timeout mb) /\
  (forall id, members m' !! id = evicted now timeout <$> members m !! id) /\
  (forall t target mb, 0 <= timeout -> members m !! target = Some mb -> m_state mb = Alive ->
     let m1 := (suspect t target rt m).2 in
     known target m1 = Some (Suspect, m_inc mb) /\
     (t <= now -> known target (expire_suspects now timeout rt m1).2 = Some (if decide (timeout < now - t) then Dead else Suspect, m_inc mb))).
Proof.
  assert (Hexp : forall m ids m', members m !! self_id m = None -> expire_suspects now timeout rt m = (ids, m') ->
    ids = (filter (fun kv => overdue now timeout kv.2) (map_to_list (members m))).*1 /\
    forall id, members m' !! id = evicted now timeout <$> members m !! id).
  { clear. intros m ids m' Hwf E. unfold expire_suspects in E. set (l := filter _ _) in E.
    assert (Hl : forall id mb, (id, mb) ∈ l <-> members m !! id = Some mb /\ overdue now timeout mb).
    { intros id mb. unfold l. rewrite list_elem_of_filter, elem_of_map_to_list. cbn. naive_solver. }
    destruct (evict_all_members now rt l m) as (E1 & _ & E3).
    - unfold l. eapply sublist_NoDup; [apply (NoDup_fst_map_to_list (members m))|apply fmap_sublist, sublist_filter].
    - intros id mb [Hm [Hs _]]%Hl. split_and!; [done|done|]. intros ->. by rewrite Hwf in Hm.
    - rewrite E in E1, E3. cbn in E1, E3. split; [done|]. intros id. rewrite E3. unfold evicted.
      destruct (members m !! id) as [mb|] eqn:Em; [|by case_decide]. cbn. destruct (decide (overdue now timeout mb)) as [Ho|Ho].
      + rewrite decide_True; [done|]. change id with (id, mb).1. apply list_elem_of_fmap_2, Hl. done.
      + rewrite decide_False; [done|]. intros ([i mb'] & -> & [Hm' Ho']%Hl)%list_elem_of_fmap. cbn in Em. by simplify_eq. }
  intros Hwf E. destruct (Hexp m ids m' (sw_self _ _ Hwf) E) as [-> Hm]. split_and!; [| |done|].
  - eapply sublist_NoDup; [apply (NoDup_fst_map_to_list (members m))|apply fmap_sublist, sublist_filter].
  - intros id. rewrite list_elem_of_fmap. setoid_rewrite list_elem_of_filter. split.
    + intros ([i mb] & -> & Ho & Hin%elem_of_map_to_list). by exists mb.
    + intros (mb & Hin & Ho). exists (id, mb). by rewrite elem_of_map_to_list.
  - intros t target mb Hto Ht Ha. cbn zeta. assert (Hns : target <> self_id m) by (intros ->; by rewrite (sw_self _ _ Hwf) in Ht).
    unfold suspect. rewrite Ht, decide_True by done. unfold merge. cbn [u_id u_state u_inc u_addr].
    destruct (Z.eqb_spec target (self_id m)); [done|]. rewrite Ht.
    assert (Hsup : supersedes {| u_id := target; u_addr := m_addr mb; u_state := Suspect; u_inc := m_inc mb |} mb = true).
    { apply supersedes_rank. cbn. rewrite Ha. unfold rank. cbn. lia. }
    rewrite Hsup. cbn [snd]. set (m1 := enqueue _ _ _).
    assert (Hm1 : members m1 !! target = Some {| m_addr := m_addr mb; m_state := Suspect; m_inc := m_inc mb; m_since := t |}) by (apply lookup_insert_eq).
    split; [unfold known; by rewrite Hm1|]. intros Hle. destruct (expire_suspects now timeout rt m1) as [ids2 m2] eqn:E2.
    destruct (Hexp m1 ids2 m2) as [_ Hm2]; [|done|].
    + cbn. rewrite lookup_insert_ne by done. apply Hwf.
    + cbn. unfold known. rewrite Hm2, Hm1. cbn. unfold evicted, overdue. cbn. repeat case_decide; try done; naive_solver lia.
Qed.

End TableInvariant.

(** ** The probe order *)

Section ProbeOrder.
Import Membership.

(** [n] consecutive calls of [next_probe_target]. *)
Fixpoint probe_n (n : nat) (m : Membership.t) : option (list (option (Z * SocketAddr)) * Membership.t) :=
  match n with
  | O => Some ([], m)
  | S n => '(r, m) ← next_probe_target m; '(rs, m) ← probe_n n m; Some (r :: rs, m)
  end.

Definition target_of (m : Membership.t) (id : Z) : option (Z * SocketAddr) := (fun mb => (id, m_addr mb)) <$> members m !! id.

Lemma live_lookup m id : id ∈ live_ids m <-> exists mb, members m !! id = Some mb /\ m_state mb <> Dead.
Proof.
  unfold live_ids. rewrite list_elem_of_fmap. setoid_rewrite list_elem_of_filter. split.
  - intros ([i mb] & -> & Hd & Hin%elem_of_map_to_list). by exists mb.
  - intros (mb & Hin & Hd). exists (id, mb). by rewrite elem_of_map_to_list.
Qed.

Lemma filter_all (l live : list Z) : (forall x, x ∈ l -> x ∈ live) -> filter (fun x => x ∈ live) l = l.
Proof.
  induction l as [|x l IH]; intros Hl; [done|]. rewrite filter_cons, decide_True by (apply Hl; by left).
  rewrite IH; [done|]. intros y Hy. apply Hl. by right.
Qed.

(** In the middle of a round the call returns the next entry of the order. *)
Lemma probe_mid m i id :
  live_ids m <> [] -> (forall x, x ∈ probe_order m -> x ∈ live_ids m) -> probe_order m !! i = Some id -> probe_idx m = i ->
  next_probe_target m = Some (target_of m id, set_probe (probe_order m) (S i) (rng m) m).
Proof.
  intros Hne Hl Hi <-. unfold next_probe_target. rewrite decide_False by done. rewrite filter_all by done.
  pose proof (lookup_lt_Some _ _ _ Hi). rewrite decide_False by lia. by rewrite Hi.
Qed.

Lemma probe_rest k m :
  live_ids m <> [] -> (forall x, x ∈ probe_order m -> x ∈ live_ids m) -> (probe_idx m + k = length (probe_order m))%nat ->
  probe_n k m = Some (map (target_of m) (drop (probe_idx m) (probe_order m)),
                      set_probe (probe_order m) (length (probe_order m)) (rng m) m).
Proof.
  revert m. induction k as [|k IH]; intros m Hne Hl Hk; cbn [probe_n].
  - rewrite drop_ge by lia. rewrite <-Hk, Nat.add_0_r. by destruct m.
  - destruct (lookup_lt_is_Some_2 (probe_order m) (probe_idx m)) as [id Hid]; [lia|].
    rewrite (probe_mid m _ id Hne Hl Hid eq_refl). cbn [mbind option_bind].
    rewrite IH; [|done|done|cbn; lia]. cbn [mbind option_bind]. rewrite (drop_S _ _ _ Hid). done.
Qed.

(** Probing is a round robin over the live members: a call never panics;
    and when a round starts, the next calls, one per live member, return each
    member that is not Dead exactly once, at its current address, before any is
    probed again. *)
Lemma probe_round_covers m :
  (forall m0, next_probe_target m0 <> None) /\
  (live_ids m <> [] -> (length (filter (fun id => id ∈ live_ids m) (probe_order m)) <= probe_idx m)%nat ->
   exists order m', order ≡ₚ live_ids m /\ NoDup order /\
     probe_n (length (live_ids m)) m = Some (map (target_of m) order, m') /\
     (forall id, id ∈ order -> exists mb, members m !! id = Some mb /\ m_state mb <> Dead /\ target_of m id = Some (id, m_addr mb)) /\
     members m' = members m /\ (length (filter (fun id => id ∈ live_ids m') (probe_order m')) <= probe_idx m')%nat).
Proof.
  split.
  - intros m0. unfold next_probe_target. case_decide as Hd; [done|]. case_decide as Hr.
    + pose proof (shuffle_perm (rng m0) (live_ids m0)) as Hp. destruct (Rng.shuffle _ _) as [r order]. cbn in Hp.
      destruct order as [|x order]; [by apply Permutation_nil_l in Hp|]. done.
    + destruct (lookup_lt_is_Some_2 (filter (fun id => id ∈ live_ids m0) (probe_order m0)) (probe_idx m0)) as [id ->]; [lia|]. done.
  - intros Hne Hstart. pose proof (shuffle_perm (rng m) (live_ids m)) as Hp.
    destruct (Rng.shuffle (rng m) (live_ids m)) as [r order] eqn:Es. cbn [snd] in Hp.
    assert (Hnd : NoDup order). { rewrite Hp. unfold live_ids. eapply sublist_NoDup; [apply (NoDup_fst_map_to_list (members m))|apply fmap_sublist, sublist_filter]. }
    destruct order as [|x order]; [by apply Permutation_nil_l in Hp|].
    set (m1 := set_probe (x :: order) 1 r m).
    assert (E1 : next_probe_target m = Some (target_of m x, m1)).
    { unfold next_probe_target. rewrite decide_False, decide_True by done. by rewrite Es. }
    assert (Hin : forall y, y ∈ x :: order -> y ∈ live_ids m) by (intros y; by rewrite Hp).
    pose proof (probe_rest (length order) m1 Hne Hin eq_refl) as E2.
    exists (x :: order), (set_probe (x :: order) (length (x :: order)) r m). split_and!; [done|done| | |done|].
    + rewrite <-(Permutation_length Hp). cbn [length probe_n]. rewrite E1. cbn [mbind option_bind].
      rewrite E2. done.
    + intros id Hid. apply Hin, live_lookup in Hid as (mb & Hm & Hd). exists mb. unfold target_of. by rewrite Hm.
    + cbn [probe_order probe_idx set_probe]. rewrite filter_all; [done|]. exact Hin.
Qed.

End ProbeOrder.

(** ** Witnesses *)

Section SwimWitness.
Import Membership.

Definition demo_addr (p : Z) : SocketAddr := {| ip := V4 2130706433; port := p |}.
Definition demo_fact (id inc : Z) (s : MState) : Update := {| u_id := id; u_addr := demo_addr (7000 + id); u_state := s; u_inc := inc |}.
Definition demo_table : Membership.t :=
  merge_all 8 [(0, demo_fact 2 1 Alive); (0, demo_fact 3 1 Alive); (0, demo_fact 4 1 Dead)] (new 1 (demo_addr 7001) 5).

Lemma swim_merge_converges_witness :
  let us := [(1, demo_fact 2 1 Suspect); (2, demo_fact 2 2 Alive); (3, demo_fact 2 1 Dead)] in
  let vs := [(1, demo_fact 2 1 Dead); (1, demo_fact 2 2 Alive); (4, demo_fact 2 1 Suspect); (5, demo_fact 2 1 Dead)] in
  known 2 (merge_all 8 us (new 8 (demo_addr 7008) 1)) = known 2 (merge_all 8 vs (new 9 (demo_addr 7009) 3)).
Proof.
  apply (swim_merge_converges 8); [vm_compute; congruence|vm_compute; congruence|vm_compute; reflexivity|].
  intros u _. cbn. set_solver.
Defined.

Lemma membership_table_invariant_witness :
  swim_wf 8 (swim_run 8 (new 1 (demo_addr 7001) 5) [SoMerge 0 (demo_fact 2 1 Alive); SoSuspect 1 2; SoExpire 4000 2500; SoPiggyback 8]) .
Proof. apply (membership_table_invariant 8 1 (demo_addr 7001) 5 _ 8 [] demo_table). lia. Defined.

Lemma suspects_expire_exactly_witness :
  (expire_suspects 3000 2500 8 (suspect 100 2 8 demo_table).2).1 = [2] /\
  NoDup (expire_suspects 3000 2500 8 (suspect 100 2 8 demo_table).2).1.
Proof.
  split; [vm_compute; reflexivity|].
  destruct (suspects_expire_exactly 8 3000 2500 (suspect 100 2 8 demo_table).2
    (expire_suspects 3000 2500 8 (suspect 100 2 8 demo_table).2).1 (expire_suspects 3000 2500 8 (suspect 100 2 8 demo_table).2).2) as [H _].
  - apply suspect_wf; [lia|]. apply (swim_run_wf 8 _ [SoMerge 0 (demo_fact 2 1 Alive); SoMerge 0 (demo_fact 3 1 Alive); SoMerge 0 (demo_fact 4 1 Dead)]);
      [lia|apply swim_new_wf].
  - by destruct (expire_suspects _ _ _ _).
  - exact H.
Defined.

Lemma probe_round_covers_witness :
  exists order m', order ≡ₚ live_ids demo_table /\ probe_n 2 demo_table = Some (map (target_of demo_table) order, m').
Proof.
  destruct (proj2 (probe_round_covers demo_table)) as (order & m' & Hp & _ & E & _); [vm_compute; congruence|vm_compute; lia|].
  exists order, m'. split; [exact Hp|exact E].
Defined.

End SwimWitness.
