(* ===== verification/Secrets.v ===== *)
(** * Randomness and secrets of the mesh (nonces of crates/mesh/src/crypto.rs, the
      seed of the generator in swim.rs, [Debug for LinkConfig] in config.rs)

    The challenge nonce with its fallback, the seeding of the xorshift generator
    that orders the probes, and the text a configuration prints.  SHA-256 and the
    keyed hasher of the standard library's [RandomState] are parameters; a reading
    of /dev/urandom and of the clock is an input. *)

From S2P Require Import Prelude Text Wire Addr Frame Handshake Swim.

(** ** Nonces *)

Section Nonce.
Context (sha256 : bytes -> bytes) (hasher : Z -> list Z -> Z).

(** The 32 bytes [fallback_nonce] hashes: [n] is the counter, [t] the clock, the
    two hashers have the keys [k] and [k']. *)
Definition nonce_material (k k' n t : Z) : bytes :=
  let seed_a := hasher k [n; t] in
  let seed_b := hasher k' [seed_a] in
  to_le_bytes 8 n ++ to_le_bytes 8 t ++ to_le_bytes 8 seed_a ++ to_le_bytes 8 seed_b.

(** [fallback_nonce]; the clock is the nanoseconds since the epoch, or [None]
    before it.  The counter is [NONCE_COUNTER]. *)
Definition fallback_nonce (k k' : Z) (clock : option Z) (counter : Z) : bytes * Z :=
  let t := match clock with Some ns => wrap 64 ns | None => 0 end in
  (sha256 (nonce_material k k' counter t), wrap 64 (counter + 1)).

(** [random_nonce]; [urandom] is the result of [read_exact], if any. *)
Definition random_nonce (urandom : option bytes) (k k' : Z) (clock : option Z) (counter : Z) : bytes * Z :=
  match urandom with Some buf => (buf, counter) | None => fallback_nonce k k' clock counter end.

(** A call of [random_nonce] with what it reads, and the nonces of a run. *)
Record Draw := { d_urandom : option bytes; d_key : Z; d_key' : Z; d_clock : option Z }.
Fixpoint draw_all (ds : list Draw) (counter : Z) : list bytes :=
  match ds with
  | [] => []
  | d :: ds => let '(x, counter) := random_nonce (d_urandom d) (d_key d) (d_key' d) (d_clock d) counter in x :: draw_all ds counter
  end.

Definition collision : Prop := exists x y, x <> y /\ sha256 x = sha256 y.

Lemma material_counter k1 k1' n1 t1 k2 k2' n2 t2 : u64_ok n1 -> u64_ok n2 ->
  nonce_material k1 k1' n1 t1 = nonce_material k2 k2' n2 t2 -> n1 = n2.
Proof.
  intros H1 H2 E. apply app_inj_1 in E as [E _]; [|by rewrite !length_to_le_bytes]. by apply (to_le_bytes_inj 8).
Qed.

Lemma wrap_shift_inj c i j : 0 <= i < 2 ^ 64 -> 0 <= j < 2 ^ 64 -> wrap 64 (c + i) = wrap 64 (c + j) -> i = j.
Proof.
  intros Hi Hj E. unfold wrap in E. assert (Hd : (i - j) mod 2 ^ 64 = 0).
  { replace (i - j) with ((c + i) - (c + j)) by lia. rewrite Zminus_mod, E, Z.sub_diag. done. }
  apply Z.mod_divide in Hd as [q Hq]; [|done]. lia.
Qed.

(** The counter runs through different values until it wraps. *)
Lemma draw_all_nth ds counter i x : Forall (fun d => d_urandom d = None) ds -> u64_ok counter -> draw_all ds counter !! i = Some x ->
  exists k k' t, x = sha256 (nonce_material k k' (wrap 64 (counter + Z.of_nat i)) t).
Proof.
  intros Hd. revert counter i. induction Hd as [|d ds Hd _ IH]; intros counter i Hc; [done|]. cbn [draw_all]. unfold random_nonce. rewrite Hd. cbn [fallback_nonce].
  destruct i as [|i]; cbn [lookup list_lookup].
  - intros [= <-]. eexists _, _, _. rewrite Z.add_0_r, wrap_small by exact Hc. done.
  - intros Hx. apply IH in Hx as (k & k' & t & ->); [|by apply wrap_range]. exists k, k', t. do 2 f_equal. unfold wrap. rewrite Zplus_mod_idemp_l. f_equal. lia.
Qed.

(** The fallback does not repeat a nonce within 2^64 calls, whatever the clock
    and the hashers give, unless SHA-256 has a collision. *)
Lemma fallback_never_repeats ds counter i j x :
  Forall (fun d => d_urandom d = None) ds -> u64_ok counter -> Z.of_nat (length ds) <= 2 ^ 64 ->
  draw_all ds counter !! i = Some x -> draw_all ds counter !! j = Some x -> i = j \/ collision.
Proof.
  intros Hd Hc Hl Hi Hj.
  assert (Hlen : length (draw_all ds counter) = length ds).
  { clear. revert counter. induction ds as [|d ds IH]; intros c; [done|]. cbn [draw_all]. destruct (random_nonce _ _ _ _ c). cbn. by rewrite IH. }
  pose proof (lookup_lt_Some _ _ _ Hi) as Li. pose proof (lookup_lt_Some _ _ _ Hj) as Lj.
  destruct (draw_all_nth _ _ _ _ Hd Hc Hi) as (k1 & k1' & t1 & ->), (draw_all_nth _ _ _ _ Hd Hc Hj) as (k2 & k2' & t2 & E).
  destruct (decide (nonce_material k1 k1' (wrap 64 (counter + Z.of_nat i)) t1 = nonce_material k2 k2' (wrap 64 (counter + Z.of_nat j)) t2)) as [Em|Hne];
    [|right; by eexists _, _]. left. apply material_counter in Em; [|by apply wrap_range..]. apply wrap_shift_inj in Em; lia.
Qed.

(** [Rng::seeded]. *)
Definition seeded (nonce : bytes) : Z := Z.lor (from_le_bytes (take 8 nonce)) 1.

End Nonce.

(** ** The generator never stops *)

(** A zero state would stay zero, and every shuffle would be the same. *)
Lemma shiftr_xor_zero x k : 0 < k -> 0 <= x -> Z.lxor x (Z.shiftr x k) = 0 -> x = 0.
Proof.
  intros Hk Hx E%Z.lxor_eq. rewrite Z.shiftr_div_pow2 in E by lia. destruct (decide (x = 0)); [done|].
  assert (x / 2 ^ k < x); [|lia]. apply Z.div_lt; [lia|]. apply (Z.pow_gt_1 2); lia.
Qed.

Lemma shiftl_xor_zero x : 0 <= x < 2 ^ 64 -> Z.lxor x (wrap 64 (Z.shiftl x 25)) = 0 -> x = 0.
Proof.
  intros Hx E%Z.lxor_eq. rewrite Z.shiftl_mul_pow2 in E by lia. unfold wrap in E.
  assert (Hs : forall m, 0 <= m -> m + 25 <= 64 -> (2 ^ m | x) -> (2 ^ (m + 25) | x)).
  { intros m Hm Hm' [q Hq]. rewrite E. apply Z.mod_divide; [lia|]. rewrite Z.mod_mod_divide by (exists (2 ^ (64 - (m + 25))); rewrite <-Z.pow_add_r by lia; f_equal; lia).
    rewrite Hq, <-Z.mul_assoc, <-Z.pow_add_r by lia. apply Z.mod_mul. lia. }
  assert (H50 : (2 ^ 50 | x)) by (apply (Hs 25); [lia|lia|]; apply (Hs 0); [lia|lia|]; exists x; lia).
  destruct H50 as [q Hq]. rewrite Hq, <-Z.mul_assoc, <-Z.pow_add_r in E by lia. change (50 + 25) with (11 + 64) in E.
  rewrite Z.pow_add_r, Z.mul_assoc, Z.mod_mul in E by lia. lia.
Qed.

Lemma u64_log2 x : 0 <= x -> u64_ok x <-> Z.log2 x < 64.
Proof.
  intros Hx. destruct (decide (x = 0)) as [->|]; [done|]. unfold u64_ok. rewrite <-Z.log2_lt_pow2 by lia. lia.
Qed.

Lemma lxor_u64 a b : u64_ok a -> u64_ok b -> u64_ok (Z.lxor a b).
Proof.
  intros Ha Hb. pose proof (Z.lxor_nonneg a b). pose proof (Z.log2_lxor a b). destruct Ha as [Ha ?], Hb as [Hb ?].
  apply u64_log2; [lia|]. pose proof (proj1 (u64_log2 a Ha)). pose proof (proj1 (u64_log2 b Hb)). unfold u64_ok in *. lia.
Qed.

Lemma lor_u64 a b : u64_ok a -> u64_ok b -> u64_ok (Z.lor a b).
Proof.
  intros Ha Hb. pose proof (Z.lor_nonneg a b). pose proof (Z.log2_lor a b). destruct Ha as [Ha ?], Hb as [Hb ?].
  apply u64_log2; [lia|]. pose proof (proj1 (u64_log2 a Ha)). pose proof (proj1 (u64_log2 b Hb)). unfold u64_ok in *. lia.
Qed.

Lemma shiftr_u64 x k : 0 <= k -> u64_ok x -> u64_ok (Z.shiftr x k).
Proof.
  intros Hk [Hx Hx']. rewrite Z.shiftr_div_pow2 by done. pose proof (Z.pow_pos_nonneg 2 k). split; [apply Z.div_pos; lia|].
  eapply Z.le_lt_trans; [|exact Hx']. apply Z.div_le_upper_bound; nia.
Qed.

(** A state the generator can work with. *)
Definition rng_live (x : Z) : Prop := u64_ok x /\ x <> 0.

Lemma next_live x : rng_live x -> rng_live (Rng.next x).1.
Proof.
  intros [Hx Hn]. cbn [Rng.next fst]. set (a := Z.lxor x (Z.shiftr x 12)). set (b := Z.lxor a (wrap 64 (Z.shiftl a 25))).
  assert (Ha : u64_ok a) by (apply lxor_u64; [done|by apply shiftr_u64]). assert (Hb : u64_ok b) by (apply lxor_u64; [done|by apply wrap_range]).
  split; [apply lxor_u64; [done|by apply shiftr_u64]|]. intros E%shiftr_xor_zero; [|lia|apply Hb]. apply shiftl_xor_zero in E; [|exact Ha].
  apply shiftr_xor_zero in E; [done|lia|apply Hx].
Qed.

(** The generator is seeded with a live state and every shuffle leaves it live. *)
Lemma seeded_live nonce : Forall byte_ok nonce -> rng_live (seeded nonce).
Proof.
  intros Hb. unfold seeded. set (x := from_le_bytes (take 8 nonce)).
  split; [|intros [_ E]%Z.lor_eq_0_iff; done]. apply lor_u64; [|done].
  pose proof (from_le_bytes_bound (take 8 nonce) (Forall_take _ _ _ Hb)) as [H0 H1]. split; [done|]. eapply Z.lt_le_trans; [exact H1|].
  apply Z.pow_le_mono_r; [lia|]. rewrite length_take. lia.
Qed.

Lemma shuffle_live {A} x (v : list A) : rng_live x -> rng_live (Rng.shuffle x v).1.
Proof.
  unfold Rng.shuffle. generalize (length v - 1)%nat. intros i. revert x v. induction i as [|i IH]; intros x v Hx; [done|]. cbn [Rng.shuffle_from].
  pose proof (next_live x Hx) as Hn. destruct (Rng.next x) as [x' r]. by apply IH.
Qed.

(** ** What a configuration prints *)

Section Debug.
(** The standard library's [Debug] of strings and durations, and of the backoff. *)
Context (debug_str : rstring -> rstring) (debug_duration : Z -> rstring) (debug_backoff : rstring).

(** [{:#010x}]: eight digits after [0x]. *)
Definition hex32 (v : Z) : rstring := str "0x" ++ map (fun i => hex_digit (Z.shiftr v (4 * i) mod 16)) [7; 6; 5; 4; 3; 2; 1; 0].

Fixpoint join_with (sep : rstring) (parts : list rstring) : rstring :=
  match parts with [] => [] | [p] => p | p :: parts => p ++ sep ++ join_with sep parts end.

(** [debug_struct] with its fields, on one line. *)
Definition debug_struct (name : rstring) (fields : list (rstring * rstring)) : rstring :=
  name ++ str " { " ++ join_with (str ", ") (map (fun f : rstring * rstring => f.1 ++ str ": " ++ f.2) fields) ++ str " }".

(** [Debug for LinkConfig]. *)
Definition debug_link_config (c : LinkConfig) : rstring :=
  debug_struct (str "LinkConfig")
    [(str "protocol_version", dec (lc_protocol_version c)); (str "node_id", dec (lc_node_id c)); (str "incarnation", dec (lc_incarnation c));
     (str "cluster_name", debug_str (lc_cluster_name c));
     (str "secret", str "<" ++ dec (Z.of_nat (length (lc_secret c))) ++ str " bytes redacted>");
     (str "max_frame", dec (lc_max_frame c)); (str "features", hex32 (lc_features c)); (str "auth_timeout", debug_duration (lc_auth_timeout c));
     (str "idle_ping_interval", debug_duration (lc_idle_ping_interval c)); (str "idle_dead_after", debug_duration (lc_idle_dead_after c));
     (str "queue_hwm_bytes", dec (lc_queue_hwm_bytes c)); (str "backoff", debug_backoff)].

Definition with_secret (secret : bytes) (c : LinkConfig) : LinkConfig :=
  {| lc_protocol_version := lc_protocol_version c; lc_node_id := lc_node_id c; lc_incarnation := lc_incarnation c; lc_cluster_name := lc_cluster_name c;
     lc_secret := secret; lc_max_frame := lc_max_frame c; lc_features := lc_features c; lc_auth_timeout := lc_auth_timeout c;
     lc_idle_ping_interval := lc_idle_ping_interval c; lc_idle_dead_after := lc_idle_dead_after c; lc_queue_hwm_bytes := lc_queue_hwm_bytes c |}.

(** The text depends on the secret through its length only. *)
Lemma debug_hides_secret c secret : length secret = length (lc_secret c) -> debug_link_config (with_secret secret c) = debug_link_config c.
Proof. intros E. unfold debug_link_config. cbn [with_secret lc_secret lc_protocol_version lc_node_id lc_incarnation lc_cluster_name lc_max_frame lc_features
  lc_auth_timeout lc_idle_ping_interval lc_idle_dead_after lc_queue_hwm_bytes]. by rewrite E. Qed.

End Debug.

Example debug_text :
  debug_link_config (fun s => s) (fun d => dec d ++ str "ms") (str "B") (LinkConfig_new 7 (str "prod") (str "hunter2")) =
    str "LinkConfig { protocol_version: 1, node_id: 7, incarnation: 0, cluster_name: prod, secret: <7 bytes redacted>, max_frame: 16777216, features: 0x00000000, auth_timeout: 5000ms, idle_ping_interval: 15000ms, idle_dead_after: 45000ms, queue_hwm_bytes: 1048576, backoff: B }".
Proof. vm_compute. reflexivity. Qed.

(** Without the operating system's source the counter keeps the nonces apart, here
    with a hasher and a clock that give the same value every time. *)
Example fallback_draws :
  let d := {| d_urandom := None; d_key := 0; d_key' := 0; d_clock := None |} in
  map (take 8) (draw_all (fun b => b) (fun _ _ => 5) [d; d; d] u64_max) = [to_le_bytes 8 u64_max; to_le_bytes 8 0; to_le_bytes 8 1].
Proof. vm_compute. reflexivity. Qed.
