(* ===== verification/MeshWire.v ===== *)
(** * The field codecs the mesh messages share
      ([put_addr]/[get_addr] of crates/mesh/src/probe.rs, [put_str]/[get_str] and
      [put_strs]/[get_strs] of crates/mesh/src/interest.rs)

    Each pair is an instance of [WireCodec]: what is appended is what is read
    back, and the offset moves exactly past it. *)

From S2P Require Import Prelude Wire Config.

(** [ip.octets()] and [IpAddr::from(octets)]: network byte order. *)
Definition octets (n : nat) (z : Z) : bytes := rev (to_le_bytes n z).
Definition from_octets (bs : bytes) : Z := from_le_bytes (rev bs).

(** [probe::put_addr]. *)
Definition put_addr (a : SocketAddr) : bytes :=
  match ip a with V4 z => 4 :: octets 4 z | V6 z => 6 :: octets 16 z end ++ to_le_bytes 2 (port a).

(** [probe::get_addr]. *)
Definition get_addr (buf : bytes) (off : nat) : option (SocketAddr * nat) :=
  '(fam, off) ← get_u8 buf off;
  '(i, off) ← (match fam with
               | 4 => o ← slice buf off 4; Some (V4 (from_octets o), off + 4)%nat
               | 6 => o ← slice buf off 16; Some (V6 (from_octets o), off + 16)%nat
               | _ => None
               end);
  '(p, off) ← get_le 2 buf off;
  Some ({| ip := i; port := p |}, off).

(** [interest::put_str] and [get_str]. *)
Definition put_str (s : rstring) : bytes := to_le_bytes 2 (wrap 16 (Z.of_nat (length s))) ++ s.
Definition get_str (buf : bytes) (off : nat) : option (rstring * nat) :=
  '(len, off) ← get_le 2 buf off;
  bs ← slice buf off (Z.to_nat len);
  s ← from_utf8 bs;
  Some (s, off + Z.to_nat len)%nat.

(** [interest::put_strs] and [get_strs]. *)
Definition put_strs (items : list rstring) : bytes := put_list16 put_str items.
Definition get_strs (buf : bytes) (off : nat) : option (list rstring * nat) := get_list16 get_str buf off.

(** ** They round-trip *)

Definition ip_ok (i : IpAddr) : Prop := match i with V4 z => 0 <= z < 2 ^ 32 | V6 z => 0 <= z < 2 ^ 128 end.
Definition addr_ok (a : SocketAddr) : Prop := ip_ok (ip a) /\ u16_ok (port a).
Definition str_ok (s : rstring) : Prop := Z.of_nat (length s) < 2 ^ 16 /\ utf8_valid s = true.

Lemma length_octets n z : length (octets n z) = n.
Proof. unfold octets. by rewrite length_rev, length_to_le_bytes. Qed.

Lemma from_octets_octets n z : 0 <= z < 2 ^ (8 * Z.of_nat n) -> from_octets (octets n z) = z.
Proof. intros Hz. unfold from_octets, octets. by rewrite rev_involutive, from_to_le_bytes. Qed.

Lemma slice_octets n z buf off rest :
  At buf off (octets n z ++ rest) -> slice buf off n = Some (octets n z) /\ At buf (off + n) rest.
Proof. intros [Hs HA]%At_slice. by rewrite length_octets in Hs, HA. Qed.

#[global] Instance addr_codec : WireCodec SocketAddr.
Proof.
  refine {| wput := put_addr; wget := get_addr; wok := addr_ok |}.
  intros buf off [i p] rest [Hi Hp] HA. unfold put_addr in HA. cbn [ip port] in *. unfold u16_ok in Hp.
  unfold get_addr. destruct i as [z|z]; cbn [app] in HA; rewrite <-app_assoc in HA;
    apply get_u8_At in HA as [-> HA]; apply slice_octets in HA as [Es HA]; cbn [mbind option_bind];
    rewrite Es; cbn [mbind option_bind]; rewrite from_octets_octets by exact Hi;
    apply get_le_At in HA as [-> HA]; [|exact Hp| |exact Hp]; cbn [mbind option_bind]; eexists; split; [reflexivity|exact HA|reflexivity|exact HA].
Defined.

#[global] Instance str_codec : WireCodec rstring.
Proof.
  refine {| wput := put_str; wget := get_str; wok := str_ok |}.
  intros buf off s rest [Hl Hu] HA. unfold put_str in HA. rewrite wrap_small, <-app_assoc in HA by lia.
  apply get_le_At in HA as [E HA]; [|lia]. apply At_slice in HA as [Es HA]. unfold get_str. rewrite E.
  cbn [mbind option_bind]. rewrite Nat2Z.id, Es. cbn [mbind option_bind]. unfold from_utf8. rewrite Hu. cbn [mbind option_bind].
  eexists. split; [reflexivity|exact HA].
Defined.

Lemma get_put_addr buf off a rest :
  addr_ok a -> At buf off (put_addr a ++ rest) -> exists off', get_addr buf off = Some (a, off') /\ At buf off' rest.
Proof. exact (wget_wput (WireCodec := addr_codec) buf off a rest). Qed.

Lemma get_put_str buf off s rest :
  str_ok s -> At buf off (put_str s ++ rest) -> exists off', get_str buf off = Some (s, off') /\ At buf off' rest.
Proof. exact (wget_wput (WireCodec := str_codec) buf off s rest). Qed.

Lemma get_put_strs buf off ss rest :
  Forall str_ok ss -> Z.of_nat (length ss) < 2 ^ 16 -> At buf off (put_strs ss ++ rest) ->
  exists off', get_strs buf off = Some (ss, off') /\ At buf off' rest.
Proof. intros Hok Hl HA. by apply (get_list16_put_list16 put_str get_str str_ok get_put_str). Qed.
