(* ===== verification/MembershipSync.v ===== *)
(** * Membership dissemination over TCP (crates/mesh/src/membership_sync.rs)

    The codec of MEMBERSHIP bodies and [apply], which merges an inbound message
    into the table and builds the answer. *)

From S2P Require Import Prelude Wire Config Swim MeshWire.

Definition SUB_SYNC : Z := 1.
Definition SUB_GOSSIP : Z := 2.
Definition SUB_DIGEST : Z := 3.

(** [enum MembershipMsg]. *)
Inductive MembershipMsg :=
  | Sync (reply : bool) (updates : list Update)
  | Gossip (updates : list Update)
  | Digest (entries : list (Z * Z)).

(** [fn state_u8] and [fn u8_state]. *)
Definition state_u8 (s : MState) : Z := match s with Alive => 0 | Suspect => 1 | Dead => 2 end.
Definition u8_state (b : Z) : option MState :=
  match b with 0 => Some Alive | 1 => Some Suspect | 2 => Some Dead | _ => None end.

(** [fn put_update] and [fn get_update]. *)
Definition put_update (u : Update) : bytes :=
  to_le_bytes 2 (u_id u) ++ [state_u8 (u_state u)] ++ to_le_bytes 4 (u_inc u) ++ put_addr (u_addr u).
Definition get_update (buf : bytes) (off : nat) : option (Update * nat) :=
  '(id, off) ← get_le 2 buf off;
  '(b, off) ← get_u8 buf off;
  state ← u8_state b;
  '(inc, off) ← get_le 4 buf off;
  '(addr, off) ← get_addr buf off;
  Some ({| u_id := id; u_addr := addr; u_state := state; u_inc := inc |}, off).

(** [fn put_updates] and [fn get_updates]. *)
Definition put_updates (us : list Update) : bytes := put_list16 put_update us.
Definition get_updates (buf : bytes) (off : nat) : option (list Update * nat) := get_list16 get_update buf off.

(** One [(id, inc)] of a digest. *)
Definition put_entry (e : Z * Z) : bytes := to_le_bytes 2 e.1 ++ to_le_bytes 4 e.2.
Definition get_entry (buf : bytes) (off : nat) : option ((Z * Z) * nat) :=
  '(id, off) ← get_le 2 buf off; '(inc, off) ← get_le 4 buf off; Some ((id, inc), off).

Module MembershipSync.

(** [MembershipMsg::encode]. *)
Definition encode (msg : MembershipMsg) : bytes :=
  match msg with
  | Sync reply us => [SUB_SYNC] ++ [Z.b2z reply] ++ put_updates us
  | Gossip us => [SUB_GOSSIP] ++ put_updates us
  | Digest es => [SUB_DIGEST] ++ put_list16 put_entry es
  end.

(** [MembershipMsg::decode]. *)
Definition decode (body : bytes) : option MembershipMsg :=
  '(sub, off) ← get_u8 body 0;
  if sub =? SUB_SYNC then
    '(r, off) ← get_u8 body off;
    '(us, _) ← get_updates body off; Some (Sync (negb (r =? 0)) us)
  else if sub =? SUB_GOSSIP then '(us, _) ← get_updates body off; Some (Gossip us)
  else if sub =? SUB_DIGEST then '(es, _) ← get_list16 get_entry body off; Some (Digest es)
  else None.

(** [for u in &updates { membership.merge(u, retransmit); }]. *)
Definition merge_updates (now rt : Z) (us : list Update) (m : Membership.t) : Membership.t :=
  merge_all rt (map (pair now) us) m.

(** What the peer's digest says of [id]: a [HashMap] collected from the entries,
    later ones replacing earlier ones. *)
Definition peer_map (es : list (Z * Z)) : gmap Z Z := foldl (fun m '(id, inc) => <[id := inc]> m) ∅ es.

(** The digest shows [u] missing or stale at the peer. *)
Definition is_newer (peer : gmap Z Z) (u : Update) : bool :=
  match peer !! u_id u with Some pi => pi <? u_inc u | None => true end.

(** [membership_sync::apply] at time [now]. *)
Definition apply (now : Z) (msg : MembershipMsg) (rt : Z) (m : Membership.t) : option MembershipMsg * Membership.t :=
  match msg with
  | Sync reply us =>
      let m := merge_updates now rt us m in
      (if reply then Some (Sync false (Membership.full_state m)) else None, m)
  | Gossip us => (None, merge_updates now rt us m)
  | Digest es =>
      let peer := peer_map es in
      let newer := filter (fun u => is_newer peer u = true) (Membership.full_state m) in
      (match newer with [] => None | _ => Some (Gossip newer) end, m)
  end.

(** [membership_sync::build_digest]. *)
Definition build_digest (m : Membership.t) : MembershipMsg :=
  Digest (map (fun u => (u_id u, u_inc u)) (Membership.full_state m)).

End MembershipSync.

(** ** Round trip *)

Definition update_ok (u : Update) : Prop := u16_ok (u_id u) /\ u32_ok (u_inc u) /\ addr_ok (u_addr u).

Lemma get_put_update buf off u rest :
  update_ok u -> At buf off (put_update u ++ rest) -> exists off', get_update buf off = Some (u, off') /\ At buf off' rest.
Proof.
  intros (Hid & Hinc & Haddr) HA. unfold put_update in HA. rewrite <-!app_assoc in HA. unfold get_update.
  apply get_le_At in HA as [-> HA]; [|exact Hid]. cbn [mbind option_bind app] in *.
  apply get_u8_At in HA as [-> HA]. cbn [mbind option_bind].
  assert (E : u8_state (state_u8 (u_state u)) = Some (u_state u)) by (by destruct (u_state u)). rewrite E. cbn [mbind option_bind].
  apply get_le_At in HA as [-> HA]; [|exact Hinc]. cbn [mbind option_bind].
  destruct (get_put_addr _ _ _ _ Haddr HA) as (o & -> & HA'). cbn [mbind option_bind]. exists o. by destruct u.
Qed.

Lemma get_put_entry buf off e rest :
  u16_ok e.1 /\ u32_ok e.2 -> At buf off (put_entry e ++ rest) -> exists off', get_entry buf off = Some (e, off') /\ At buf off' rest.
Proof.
  intros (Hid & Hinc) HA. unfold put_entry in HA. rewrite <-!app_assoc in HA. unfold get_entry.
  apply get_le_At in HA as [-> HA]; [|exact Hid]. cbn [mbind option_bind].
  apply get_le_At in HA as [-> HA]; [|exact Hinc]. cbn [mbind option_bind]. destruct e. by eexists.
Qed.

(** The messages the encoding is faithful on: Rust's widths, and counts that
    fit the two-byte prefix. *)
Definition msg_ok (msg : MembershipMsg) : Prop :=
  match msg with
  | Sync _ us | Gossip us => Forall update_ok us /\ Z.of_nat (length us) < 2 ^ 16
  | Digest es => Forall (fun e => u16_ok e.1 /\ u32_ok e.2) es /\ Z.of_nat (length es) < 2 ^ 16
  end.

(** MEMBERSHIP bodies round-trip: decoding an encoded message, with anything
    appended, gives the message back. *)
Lemma membership_msg_roundtrip msg extra :
  msg_ok msg -> MembershipSync.decode (MembershipSync.encode msg ++ extra) = Some msg.
Proof.
  intros Hok. pose proof (At_start (MembershipSync.encode msg ++ extra)) as HA. revert HA.
  generalize (MembershipSync.encode msg ++ extra) at 1 3. intros buf HA. unfold MembershipSync.decode.
  destruct msg as [reply us|us|es]; cbn [MembershipSync.encode app] in HA; apply get_u8_At in HA as [-> HA]; cbn [mbind option_bind];
    [change (SUB_SYNC =? SUB_SYNC) with true|change (SUB_GOSSIP =? SUB_SYNC) with false; change (SUB_GOSSIP =? SUB_GOSSIP) with true
    |change (SUB_DIGEST =? SUB_SYNC) with false; change (SUB_DIGEST =? SUB_GOSSIP) with false; change (SUB_DIGEST =? SUB_DIGEST) with true];
    cbv iota; destruct Hok as [Hok Hlen].
  - apply get_u8_At in HA as [-> HA]. cbn [mbind option_bind].
    destruct (get_list16_put_list16 put_update get_update update_ok get_put_update us _ _ _ Hok Hlen HA) as (o & E & _).
    unfold get_updates. rewrite E. cbn [mbind option_bind]. by destruct reply.
  - destruct (get_list16_put_list16 put_update get_update update_ok get_put_update us _ _ _ Hok Hlen HA) as (o & E & _).
    unfold get_updates. by rewrite E.
  - destruct (get_list16_put_list16 put_entry get_entry _ get_put_entry es _ _ _ Hok Hlen HA) as (o & E & _). by rewrite E.
Qed.

(** ** Push-pull heals *)

Section Heal.
Import Membership MembershipSync.

(** Merging only raises our own incarnation, past every claim that we are not
    alive. *)
Lemma merge_refutes now u rt m :
  u_inc u < u32_max -> u_state u <> Alive -> u_id u = self_id m -> 0 <= self_inc m ->
  self_inc m <= self_inc (merge now u rt m).2 /\ u_inc u < self_inc (merge now u rt m).2.
Proof.
  intros Hu Hs Hid H0. unfold merge. rewrite Hid, Z.eqb_refl, bool_decide_false by done. cbn [negb andb].
  destruct (Z.leb_spec (self_inc m) (u_inc u)); cbn; [|lia]. unfold u32_max in Hu. rewrite wrap_small; lia.
Qed.

Lemma merge_keeps_inc now u rt m :
  u_inc u < u32_max -> 0 <= self_inc m -> self_inc m <= self_inc (merge now u rt m).2.
Proof.
  intros Hu H0. destruct (decide (u_id u = self_id m /\ u_state u <> Alive)) as [[? ?]|Hn]; [by apply merge_refutes|].
  unfold merge. destruct (Z.eqb_spec (u_id u) (self_id m)) as [E|Hne].
  - rewrite bool_decide_true; [done|]. destruct (decide (u_state u = Alive)); [done|]. by destruct Hn.
  - case_match; done.
Qed.

Lemma merge_updates_refutes now rt us m :
  Forall (fun u => u_inc u < u32_max) us -> 0 <= self_inc m ->
  self_inc m <= self_inc (merge_updates now rt us m) /\
  forall u, u ∈ us -> u_id u = self_id m -> u_state u <> Alive -> u_inc u < self_inc (merge_updates now rt us m).
Proof.
  unfold merge_updates, merge_all. revert m. induction us as [|v us IH]; intros m Hf H0; cbn [map foldl].
  - split; [lia|]. by intros u ?%not_elem_of_nil.
  - apply Forall_cons in Hf as [Hv Hf]. pose proof (merge_keeps_inc now v rt m Hv H0) as Hk.
    destruct (IH (merge now v rt m).2 Hf ltac:(lia)) as [H1 H2]. rewrite merge_self_id in H2. split; [lia|].
    intros u [->|Hin]%elem_of_cons Hid Hs; [|by apply H2]. pose proof (merge_refutes now v rt m Hv Hs Hid H0). lia.
Qed.

Lemma merge_updates_run now rt us m : merge_updates now rt us m = swim_run rt m (map (SoMerge now) us).
Proof. unfold merge_updates, merge_all. revert m. induction us as [|u us IH]; intros m; [done|]. cbn. apply IH. Qed.

Lemma merge_updates_wf rt now us m : 1 <= rt -> swim_wf rt m -> swim_wf rt (merge_updates now rt us m).
Proof.
  intros Hrt. unfold merge_updates, merge_all. revert m. induction us as [|u us IH]; intros m Hm; [done|]. cbn. apply IH. by apply merge_wf.
Qed.

Lemma full_state_about m u :
  u ∈ full_state m <-> u = self_update m \/ exists mb, members m !! u_id u = Some mb /\ u = as_update (u_id u, mb).
Proof.
  unfold full_state. rewrite elem_of_app, list_elem_of_singleton, list_elem_of_fmap. split.
  - intros [([i mb] & -> & Hin%elem_of_map_to_list)| ->]; [right; by exists mb|by left].
  - intros [->|(mb & Hm & ->)]; [by right|left]. exists (u_id u, mb). by rewrite elem_of_map_to_list.
Qed.

(** After merging [a]'s full state, the belief about [a] is the greater of the
    old one and [a]'s own Alive. *)
Lemma merge_full_state now rt a b :
  members a !! self_id a = None -> self_id a <> self_id b ->
  krank (self_id a) (merge_updates now rt (full_state a) b) =
    Some (match krank (self_id a) b with None => rank Alive (self_inc a) | Some r => Z.max r (rank Alive (self_inc a)) end).
Proof.
  intros Hself Hne. pose proof (merge_all_max rt (map (pair now) (full_state a)) b (self_id a) Hne) as Hmax.
  assert (Hc : forall r, claims (self_id a) b (map (pair now) (full_state a)) r <-> krank (self_id a) b = Some r \/ r = rank Alive (self_inc a)).
  { intros r. unfold claims. split; (intros [?|Hr]; [by left|right]).
    - destruct Hr as (n & u & Hin & Hid & ->). apply list_elem_of_fmap in Hin as (u' & [= -> ->] & Hin).
      apply full_state_about in Hin as [-> |(mb & Hm & _)]; [done|]. rewrite Hid in Hm. congruence.
    - subst r. exists now, (self_update a). split_and!; [|done|done]. apply list_elem_of_fmap. exists (self_update a).
      split; [done|]. apply full_state_about. by left. }
  change (merge_updates now rt (full_state a) b) with (merge_all rt (map (pair now) (full_state a)) b).
  destruct (krank (self_id a) (merge_all _ _ b)) as [r|].
  - destruct Hmax as [Hin Hmax]. apply Hc in Hin. f_equal.
    pose proof (Hmax (rank Alive (self_inc a)) ltac:(apply Hc; by right)).
    destruct (krank (self_id a) b) as [r0|].
    + pose proof (Hmax r0 ltac:(apply Hc; by left)). destruct Hin as [[= ->]| ->]; lia.
    + by destruct Hin.
  - exfalso. eapply Hmax, Hc. by right.
Qed.

(** Told by [a] itself that it is alive, past every other claim, [b] believes it. *)
Lemma told_alive now rt a b :
  members a !! self_id a = None -> self_id a <> self_id b ->
  (forall mb, members b !! self_id a = Some mb -> m_state mb <> Alive -> m_inc mb < self_inc a) ->
  exists inc, known (self_id a) (merge_updates now rt (full_state a) b) = Some (Alive, inc) /\ self_inc a <= inc.
Proof.
  intros Hself Hne Hlt. pose proof (merge_full_state now rt a b Hself Hne) as Hk. set (b1 := merge_updates now rt (full_state a) b) in *.
  assert (Hrank : exists inc, krank (self_id a) b1 = Some (rank Alive inc) /\ self_inc a <= inc).
  { rewrite Hk. unfold krank. destruct (members b !! self_id a) as [mb|] eqn:Em; cbn; [|by exists (self_inc a)].
    destruct (decide (m_state mb = Alive)) as [->|Hs].
    - exists (Z.max (m_inc mb) (self_inc a)). unfold rank. cbn. split; [f_equal|]; lia.
    - exists (self_inc a). split; [|lia]. f_equal. unfold rank. specialize (Hlt mb eq_refl Hs). destruct (m_state mb); cbn; lia. }
  destruct Hrank as (inc & Hr & Hle). exists inc. split; [|done].
  unfold known, krank in *. destruct (members b1 !! self_id a) as [mb|]; [|done]. cbn in *.
  injection Hr as Hr. by apply rank_inj in Hr as [-> ->].
Qed.

(** C33. A push-pull heals a false death: when node [b] pushes its full state to
    [a] and merges the state [a] answers with, [b] believes [a] Alive, whatever
    it believed before (Suspect or Dead included) and whatever else either table
    holds, because [a] sees the claim first and answers with a higher
    incarnation; incarnations below the [u32] limit. *)
Theorem push_pull_heals now now' rt a b :
  1 <= rt -> swim_wf rt a -> swim_wf rt b -> self_id a <> self_id b -> 0 <= self_inc a ->
  Forall (fun u => u_inc u < u32_max) (full_state b) ->
  exists a1 answer b1 inc,
    apply now (Sync true (full_state b)) rt a = (Some answer, a1) /\
    apply now' answer rt b = (None, b1) /\
    known (self_id a) b1 = Some (Alive, inc) /\ self_inc a <= self_inc a1 /\ self_inc a1 <= inc.
Proof.
  intros Hrt Ha Hb Hne H0 Hf. set (a1 := merge_updates now rt (full_state b) a).
  pose proof (merge_updates_wf rt now (full_state b) a Hrt Ha) as Ha1. fold a1 in Ha1.
  destruct (merge_updates_refutes now rt (full_state b) a Hf H0) as [Hmono Href]. fold a1 in Hmono, Href.
  assert (Hid : self_id a1 = self_id a) by apply merge_all_self.
  destruct (told_alive now' rt a1 b (sw_self _ _ Ha1)) as (inc & Hk & Hle); [by rewrite Hid| |].
  { rewrite Hid. intros mb Em Hs. apply (Href (as_update (self_id a, mb))); [|done|done]. apply full_state_about. right. by exists mb. }
  rewrite Hid in Hk. by exists a1, (Sync false (full_state a1)), (merge_updates now' rt (full_state a1) b), inc.
Qed.

(** The digest compares incarnations only: two tables that disagree on a member's
    state at the same incarnation exchange nothing. *)
Lemma digest_blind_to_state :
  let a := merge_all 8 [(0, demo_fact 3 1 Dead)] (new 1 (demo_addr 7001) 1) in
  let b := merge_all 8 [(0, demo_fact 1 1 Alive); (0, demo_fact 3 1 Alive)] (new 2 (demo_addr 7002) 1) in
  let a' := merge_all 8 [(0, demo_fact 2 1 Alive)] a in
  known 3 a' = Some (Dead, 1) /\ known 3 b = Some (Alive, 1) /\
  (apply 9 (build_digest b) 8 a').1 = None /\ (apply 9 (build_digest a') 8 b).1 = None.
Proof. vm_compute. done. Qed.

End Heal.

Section SyncWitness.
Import Membership MembershipSync.

(** A node that was marked Dead at its own incarnation comes back. *)
Lemma push_pull_heals_witness :
  exists a1 answer b1 inc,
    apply 5 (Sync true (full_state (merge_all 8 [(0, demo_fact 1 1 Dead)] (new 2 (demo_addr 7002) 1)))) 8 (new 1 (demo_addr 7001) 1) = (Some answer, a1) /\
    apply 6 answer 8 (merge_all 8 [(0, demo_fact 1 1 Dead)] (new 2 (demo_addr 7002) 1)) = (None, b1) /\
    known 1 b1 = Some (Alive, inc) /\ 1 <= self_inc a1 /\ self_inc a1 <= inc.
Proof.
  apply (push_pull_heals 5 6 8 (new 1 (demo_addr 7001) 1) (merge_all 8 [(0, demo_fact 1 1 Dead)] (new 2 (demo_addr 7002) 1))).
  - lia.
  - apply swim_new_wf.
  - apply (swim_run_wf 8 _ [SoMerge 0 (demo_fact 1 1 Dead)]); [lia|apply swim_new_wf].
  - vm_compute. congruence.
  - vm_compute. congruence.
  - apply (bool_decide_unpack _). vm_compute. exact I.
Defined.

End SyncWitness.
