(* ===== verification/ProtoSwim.v ===== *)
(** * The prototype membership plane (src/spike/mesh/src/swim.rs, and lib.rs)

    The prototype the mesh's failure detector grew from: the same member table,
    with addresses kept as text in the facts it gossips, packets over UDP and
    three loops.  serde_json and rand are third-party: a datagram is the packet it
    decodes to, if any, and a shuffle or a random index is an argument. *)

From S2P Require Import Prelude Text Float Wire Config Limits Addr Swim MembershipSync.
From Stdlib Require Import SpecFloat.

(** ** lib.rs *)

(** [SwimParams::by_name]; the two rows are those of the production crate. *)
Definition by_name (name : rstring) : SwimParams := if decide (name = str "literature") then literature else tuned.

(** The port layout, in a release build. *)
Definition swim_port (base id : Z) : Z := wrap 16 (base + wrap 16 (id * 10)).
Definition relay_port (base id : Z) : Z := wrap 16 (base + wrap 16 (id * 10) + 1).
Definition admin_port (base id : Z) : Z := wrap 16 (base + wrap 16 (id * 10) + 2).

Module Reservoir.

(** [struct Reservoir] and its operations; [draw] is [rand::random::<u64>()]. *)
Record t := { cap : Z; seen : Z; samples : list Z }.
Definition new (cap : Z) : t := {| cap := cap; seen := 0; samples := [] |}.
Definition push (draw v : Z) (r : t) : t :=
  let seen := wrap 64 (seen r + 1) in
  if Z.of_nat (length (samples r)) <? cap r then {| cap := cap r; seen := seen; samples := samples r ++ [v] |}
  else
    let j := draw mod seen in
    {| cap := cap r; seen := seen; samples := if j <? cap r then <[Z.to_nat j := v]> (samples r) else samples r |}.
Definition count (r : t) : Z := seen r.

(** [v.round() as usize]: half away from zero, saturating. *)
Definition round_usize (v : f64) : Z :=
  match v with
  | S754_finite false m e => Z.min u64_max (if 0 <=? e then Z.shiftl (Z.pos m) e else (Z.shiftl (Z.pos m) 1 + 2 ^ (- e)) / 2 ^ (1 - e))
  | S754_infinity false => u64_max
  | _ => 0
  end.
(** [Reservoir::percentile]; [None] is an index panic. *)
Definition percentile (p : f64) (r : t) : option Z * t :=
  if decide (samples r = []) then (Some 0, r)
  else
    let sorted := merge_sort Z.le (samples r) in
    let idx := round_usize (fmul (fsub (f64_of (Z.of_nat (length sorted))) f1) p) in
    (sorted !! Z.to_nat idx, {| cap := cap r; seen := seen r; samples := sorted |}).
Definition P50 : f64 := S754_finite false 4503599627370496 (-53).
Definition P99 : f64 := S754_finite false 8917127262193582 (-53).

End Reservoir.

Example percentile_demo :
  let r := {| Reservoir.cap := 5; Reservoir.seen := 5; Reservoir.samples := [40; 10; 30; 20; 50] |} in
  (Reservoir.percentile Reservoir.P50 r).1 = Some 30 /\ (Reservoir.percentile Reservoir.P99 r).1 = Some 50.
Proof. vm_compute. done. Qed.

(** The sampler never holds more than its capacity. *)
Lemma reservoir_bounded draw v r : Z.of_nat (length (Reservoir.samples r)) <= Reservoir.cap r ->
  Z.of_nat (length (Reservoir.samples (Reservoir.push draw v r))) <= Reservoir.cap (Reservoir.push draw v r).
Proof.
  intros Hl. unfold Reservoir.push. destruct (Z.ltb_spec (Z.of_nat (length (Reservoir.samples r))) (Reservoir.cap r)); cbn [Reservoir.samples Reservoir.cap].
  - rewrite length_app. cbn. lia.
  - destruct (_ <? _); [by rewrite length_insert|done].
Qed.

(** ** swim.rs *)

Module Proto.

(** [struct Update], [enum Packet], [struct Event]; [MState] and [Member] are as
    in production. *)
Record Update := { u_id : Z; u_addr : rstring; u_state : MState; u_inc : Z }.
Inductive Packet :=
  | Ping (from seq : Z) (reply_to : option (Z * rstring)) (updates : list Update)
  | Ack (from seq : Z) (updates : list Update)
  | PingReq (from : Z) (from_addr : rstring) (seq target : Z) (target_addr : rstring) (updates : list Update)
  | Join (from : Z) (addr : rstring) (inc : Z) (state : list Update)
  | JoinReply (from : Z) (members : list Update).
Record Event := { t_ms : Z; peer : Z; event_state : rstring }.

(** [format!("{:?}", state).to_lowercase()]. *)
Definition state_name (s : MState) : rstring :=
  match s with Alive => str "alive" | Suspect => str "suspect" | Dead => str "dead" end.

Definition GOSSIP_MAX_LEN : nat := 64.

(** [struct Membership]. *)
Record t := {
  self_id : Z;
  self_addr : rstring;
  self_inc : Z;
  members : gmap Z Member;
  gossip : list (Update * Z);
  events : list Event;
  refutations : Z;
  probe_order : list Z;
  probe_idx : nat;
}.

(** [Membership::new]. *)
Definition new (id : Z) (addr : rstring) : t :=
  {| self_id := id; self_addr := addr; self_inc := 1; members := ∅; gossip := []; events := []; refutations := 0;
     probe_order := []; probe_idx := 0 |}.

Definition set_gossip (g : list (Update * Z)) (m : t) : t :=
  {| self_id := self_id m; self_addr := self_addr m; self_inc := self_inc m; members := members m; gossip := g; events := events m;
     refutations := refutations m; probe_order := probe_order m; probe_idx := probe_idx m |}.
Definition set_members (ms : gmap Z Member) (ev : list Event) (m : t) : t :=
  {| self_id := self_id m; self_addr := self_addr m; self_inc := self_inc m; members := ms; gossip := gossip m; events := ev;
     refutations := refutations m; probe_order := probe_order m; probe_idx := probe_idx m |}.
Definition set_inc (i r : Z) (m : t) : t :=
  {| self_id := self_id m; self_addr := self_addr m; self_inc := i; members := members m; gossip := gossip m; events := events m;
     refutations := r; probe_order := probe_order m; probe_idx := probe_idx m |}.
Definition set_probe (o : list Z) (i : nat) (m : t) : t :=
  {| self_id := self_id m; self_addr := self_addr m; self_inc := self_inc m; members := members m; gossip := gossip m; events := events m;
     refutations := refutations m; probe_order := o; probe_idx := i |}.

(** [Membership::enqueue]. *)
Definition enqueue (u : Update) (retransmit : Z) (m : t) : t :=
  let g := filter (fun e => u_id e.1 <> u_id u) (gossip m) ++ [(u, retransmit)] in
  set_gossip (if (GOSSIP_MAX_LEN <? length g)%nat then tail g else g) m.

(** [Membership::take_piggyback]. *)
Fixpoint take_loop (max : nat) (g : list (Update * Z)) (out : list Update) (still : list (Update * Z)) : list Update * list (Update * Z) :=
  match g with
  | [] => (out, still)
  | (u, n) :: g =>
      if (length out <? max)%nat
      then take_loop max g (out ++ [u]) (if 1 <? n then still ++ [(u, n - 1)] else still)
      else take_loop max g out (still ++ [(u, n)])
  end.
Definition take_piggyback (max : nat) (m : t) : list Update * t :=
  let '(out, still) := take_loop max (gossip m) [] [] in (out, set_gossip still m).

(** [Membership::self_update] and [full_state]. *)
Definition self_update (m : t) : Update := {| u_id := self_id m; u_addr := self_addr m; u_state := Alive; u_inc := self_inc m |}.
Definition as_update (kv : Z * Member) : Update :=
  {| u_id := kv.1; u_addr := print_socket_addr (m_addr kv.2); u_state := m_state kv.2; u_inc := m_inc kv.2 |}.
Definition full_state (m : t) : list Update := map as_update (map_to_list (members m)) ++ [self_update m].

(** [Membership::merge] at time [now]. *)
Definition merge (now : Z) (u : Update) (retransmit : Z) (m : t) : bool * t :=
  if u_id u =? self_id m then
    if negb (bool_decide (u_state u = Alive)) && (self_inc m <=? u_inc u) then
      let m := set_inc (wrap 32 (u_inc u + 1)) (wrap 64 (refutations m + 1)) m in
      (true, enqueue (self_update m) retransmit m)
    else (false, m)
  else
    match parse_socket_addr (u_addr u) with
    | None => (false, m)
    | Some addr =>
        let accept := match members m !! u_id u with
                      | None => true
                      | Some mb => (m_inc mb <? u_inc u) || ((u_inc u =? m_inc mb) && (precedence (m_state mb) <? precedence (u_state u)))
                      end in
        if accept then
          let changed_state := match members m !! u_id u with Some mb => negb (bool_decide (m_state mb = u_state u)) | None => true end in
          let ev := if changed_state then events m ++ [{| t_ms := now; peer := u_id u; event_state := state_name (u_state u) |}] else events m in
          let m := set_members (<[u_id u := {| m_addr := addr; m_state := u_state u; m_inc := u_inc u; m_since := now |}]> (members m)) ev m in
          (true, enqueue u retransmit m)
        else (false, m)
    end.
Definition merge_list (now : Z) (us : list Update) (retransmit : Z) (m : t) : t := foldl (fun m u => (merge now u retransmit m).2) m us.

Definition live_ids (m : t) : list Z := (filter (fun kv : Z * Member => m_state kv.2 <> Dead) (map_to_list (members m))).*1.

(** [Membership::next_probe_target]; [shuffle] is the shuffle of the thread's
    generator, the outer [None] an index panic. *)
Definition next_probe_target (shuffle : list Z -> list Z) (m : t) : option (option (Z * SocketAddr) * t) :=
  let live := live_ids m in
  if decide (live = []) then Some (None, m)
  else
    let order := filter (fun id => id ∈ live) (probe_order m) in
    let '(order, idx) := if (length order <=? probe_idx m)%nat then (shuffle live, O) else (order, probe_idx m) in
    id ← order !! idx;
    Some ((fun mb => (id, m_addr mb)) <$> members m !! id, set_probe order (S idx) m).

End Proto.

Module ProtoSwim.
Import Proto.

(** [struct Swim]. *)
Record t := { params : SwimParams; membership : Proto.t; deny : gset Z; seeds : list SocketAddr; seq : Z; pending : gmap Z Z }.
Definition start (id : Z) (bind : SocketAddr) (seeds : list SocketAddr) (params : SwimParams) : t :=
  {| params := params; membership := Proto.new id (print_socket_addr bind); deny := ∅; seeds := seeds; seq := 1; pending := ∅ |}.

Definition set_membership (m : Proto.t) (s : t) : t :=
  {| params := params s; membership := m; deny := deny s; seeds := seeds s; seq := seq s; pending := pending s |}.
Definition set_pending (n : Z) (p : gmap Z Z) (s : t) : t :=
  {| params := params s; membership := membership s; deny := deny s; seeds := seeds s; seq := n; pending := p |}.
Definition set_deny (d : gset Z) (s : t) : t :=
  {| params := params s; membership := membership s; deny := d; seeds := seeds s; seq := seq s; pending := pending s |}.

(** [Swim::piggyback]. *)
Definition piggyback (s : t) : list Update * t :=
  let '(ups, m) := take_piggyback (gossip_max (params s)) (membership s) in (ups ++ [self_update m], set_membership m s).

Definition merge_updates (now : Z) (us : list Update) (s : t) : t := set_membership (merge_list now us (retransmit (params s)) (membership s)) s.

(** The direct evidence of life in [Swim::handle]. *)
Definition revive (now from : Z) (s : t) : t :=
  let m := membership s in
  match members m !! from with
  | Some mb =>
      if decide (m_state mb = Suspect) then
        let m := set_members (<[from := {| m_addr := m_addr mb; m_state := Alive; m_inc := m_inc mb; m_since := now |}]> (members m))
                   (events m ++ [{| t_ms := now; peer := from; event_state := str "alive" |}]) m in
        set_membership (enqueue {| u_id := from; u_addr := print_socket_addr (m_addr mb); u_state := Alive; u_inc := m_inc mb |} (retransmit (params s)) m) s
      else s
  | None => s
  end.

(** [Swim::handle]: the packets sent, and the new state. *)
Definition handle (now : Z) (src : SocketAddr) (pkt : Packet) (s : t) : list (SocketAddr * Packet) * t :=
  match pkt with
  | Ping _ sq reply_to updates =>
      let s := merge_updates now updates s in
      let '(ups, s) := piggyback s in
      let dest := match reply_to with Some (_, a) => default src (parse_socket_addr a) | None => src end in
      ([(dest, Ack (self_id (membership s)) sq ups)], s)
  | Ack from sq updates =>
      let direct := bool_decide (pending s !! sq = Some from) in
      let s := set_pending (seq s) (delete sq (pending s)) s in
      let s := merge_updates now updates s in
      ([], if direct then revive now from s else s)
  | PingReq from from_addr sq target target_addr updates =>
      let s := merge_updates now updates s in
      match parse_socket_addr target_addr with
      | Some taddr =>
          let '(ups, s) := piggyback s in ([(taddr, Ping (self_id (membership s)) sq (Some (from, from_addr)) ups)], s)
      | None => ([], s)
      end
  | Join from a inc state =>
      let s := merge_updates now (state ++ [{| u_id := from; u_addr := a; u_state := Alive; u_inc := inc |}]) s in
      ([(src, JoinReply (self_id (membership s)) (full_state (membership s)))], s)
  | JoinReply _ ms => ([], merge_updates now ms s)
  end.

Definition packet_from (pkt : Packet) : Z :=
  match pkt with Ping f _ _ _ | Ack f _ _ | PingReq f _ _ _ _ _ | Join f _ _ _ | JoinReply f _ => f end.

(** One turn of [Swim::recv_loop]; [None] is a datagram that is no packet. *)
Definition recv (now : Z) (src : SocketAddr) (pkt : option Packet) (s : t) : list (SocketAddr * Packet) * t :=
  match pkt with
  | None => ([], s)
  | Some pkt => if bool_decide (packet_from pkt ∈ deny s) then ([], s) else handle now src pkt s
  end.

(** The turn of [Swim::probe_loop], between its sleeps: eviction, the direct
    probe, the indirect probes and the verdict. *)
Definition expired (now : Z) (s : t) : list (Z * Member) :=
  filter (fun kv : Z * Member => m_state kv.2 = Suspect /\ suspicion_timeout (params s) < Z.max 0 (now - m_since kv.2)) (map_to_list (members (membership s))).
Definition evict (now : Z) (s : t) : t :=
  merge_updates now (map (fun kv : Z * Member => {| u_id := kv.1; u_addr := print_socket_addr (m_addr kv.2); u_state := Dead; u_inc := m_inc kv.2 |}) (expired now s)) s.

Record probe := { p_target : Z; p_addr : SocketAddr; p_seq : Z }.
Definition probe_send (shuffle : list Z -> list Z) (s : t) : option (option (probe * Packet) * t) :=
  '(r, m) ← next_probe_target shuffle (membership s);
  let s := set_membership m s in
  match r with
  | None => Some (None, s)
  | Some (target, taddr) =>
      let sq := seq s in
      let s := set_pending (wrap 64 (sq + 1)) (<[sq := target]> (pending s)) s in
      let id := self_id (membership s) in
      let '(ups, s) := piggyback s in
      Some (Some ({| p_target := target; p_addr := taddr; p_seq := sq |}, Ping id sq None ups), s)
  end.

Fixpoint ask_helpers (hs : list SocketAddr) (pr : probe) (s : t) : list (SocketAddr * Packet) * t :=
  match hs with
  | [] => ([], s)
  | h :: hs =>
      let m := membership s in
      let '(ups, s) := piggyback s in
      let '(sent, s) := ask_helpers hs pr s in
      ((h, PingReq (self_id m) (self_addr m) (p_seq pr) (p_target pr) (print_socket_addr (p_addr pr)) ups) :: sent, s)
  end.
Definition helpers (shuffle : list SocketAddr -> list SocketAddr) (target : Z) (s : t) : list SocketAddr :=
  take (indirect_k (params s))
    (shuffle (map (fun kv : Z * Member => m_addr kv.2)
      (filter (fun kv : Z * Member => kv.1 <> target /\ m_state kv.2 = Alive) (map_to_list (members (membership s)))))).
Definition probe_indirect (shuffle : list SocketAddr -> list SocketAddr) (pr : probe) (s : t) : list (SocketAddr * Packet) * t :=
  match pending s !! p_seq pr with Some _ => ask_helpers (helpers shuffle (p_target pr) s) pr s | None => ([], s) end.

Definition probe_verdict (now : Z) (pr : probe) (s : t) : t :=
  match pending s !! p_seq pr with
  | None => s
  | Some _ =>
      let s := set_pending (seq s) (delete (p_seq pr) (pending s)) s in
      match members (membership s) !! p_target pr with
      | Some mb =>
          if decide (m_state mb = Alive)
          then merge_updates now [{| u_id := p_target pr; u_addr := print_socket_addr (m_addr mb); u_state := Suspect; u_inc := m_inc mb |}] s
          else s
      | None => s
      end
  end.

(** The join one turn of [Swim::reseed_loop] sends; [draw] is [rand::random]. *)
Definition reseed (draw : Z) (s : t) : option (SocketAddr * Packet) :=
  let m := membership s in
  seed ← seeds s !! Z.to_nat (draw mod Z.of_nat (length (seeds s)));
  Some (seed, Join (self_id m) (self_addr m) (self_inc m) (full_state m)).

End ProtoSwim.

(** ** The prototype's beliefs are the production table's *)

Section Simulation.
Import Proto ProtoSwim.

(** What the prototype and the production table share: who the node is, its
    incarnation, what it believes of the others, and how often it refuted. *)
Record sim (m : Proto.t) (p : Membership.t) : Prop := {
  sim_id : Membership.self_id p = self_id m;
  sim_inc : Membership.self_inc p = self_inc m;
  sim_members : Membership.members p = members m;
  sim_refuted : refuted (Membership.counters p) = refutations m;
}.

(** An address that survives being printed and parsed. *)
Definition v4_addr (a : SocketAddr) : Prop := match ip a with V4 x => 0 <= x < 2 ^ 32 /\ u16_ok (port a) | V6 _ => False end.
Lemma v4_text a : v4_addr a -> parse_socket_addr (print_socket_addr a) = Some a.
Proof. destruct a as [[x|x] p]; [|done]. intros [Hx Hp]. by apply parse_print_v4. Qed.

Definition v4_update (u : Update) : Prop := forall a, parse_socket_addr (u_addr u) = Some a -> v4_addr a.
Definition v4_table (m : Proto.t) : Prop := map_Forall (fun _ mb => v4_addr (m_addr mb)) (members m).

(** The production fact an update stands for, and the merge of it; an update whose
    address is no address is a fact only about the node itself. *)
Definition fact_of (a : SocketAddr) (u : Update) : Swim.Update := {| Swim.u_id := u_id u; Swim.u_addr := a; Swim.u_state := u_state u; Swim.u_inc := u_inc u |}.
Definition NO_ADDR : SocketAddr := {| ip := V4 0; port := 0 |}.
Definition merge_op (now self : Z) (u : Update) : list swim_op :=
  match parse_socket_addr (u_addr u) with
  | Some a => [SoMerge now (fact_of a u)]
  | None => if u_id u =? self then [SoMerge now (fact_of NO_ADDR u)] else []
  end.
Definition merge_ops (now self : Z) (us : list Update) : list swim_op := flat_map (merge_op now self) us.

Lemma proto_merge_id now u rt m : self_id (merge now u rt m).2 = self_id m.
Proof. unfold merge. repeat case_match; done. Qed.
Lemma merge_list_id now us rt m : self_id (merge_list now us rt m) = self_id m.
Proof. unfold merge_list. revert m. induction us as [|u us IH]; intros m; [done|]. cbn. by rewrite IH, proto_merge_id. Qed.

Lemma merge_sim now a u rt m p : sim m p -> parse_socket_addr (u_addr u) = Some a \/ u_id u = self_id m ->
  sim (merge now u rt m).2 (Membership.merge now (fact_of a u) rt p).2.
Proof.
  intros [S1 S2 S3 S4] Hp. unfold merge, Membership.merge. cbn [fact_of Swim.u_id Swim.u_state Swim.u_inc Swim.u_addr]. rewrite S1, S2, S3.
  destruct (Z.eqb_spec (u_id u) (self_id m)) as [E|Hne].
  - destruct (_ && _); [|by split]. split; cbn; try done. by rewrite S4.
  - destruct Hp as [->|?]; [|done]. unfold Membership.supersedes. cbn [Swim.u_state Swim.u_inc].
    set (acc := match members m !! u_id u with Some _ => _ | None => true end). destruct acc eqn:Ea; [|by split].
    split; cbn; [done|done|done|]. rewrite <-S4. unfold Membership.count_transition.
    destruct (members m !! u_id u) as [mb|]; cbn; [case_decide; [done|]|]; by destruct (u_state u).
Qed.

Lemma merge_op_sim now u rt m p : sim m p -> sim (merge now u rt m).2 (swim_run rt p (merge_op now (self_id m) u)).
Proof.
  intros Hs. unfold merge_op. destruct (parse_socket_addr (u_addr u)) as [a|] eqn:Ea; [by apply merge_sim; [|left]|].
  destruct (Z.eqb_spec (u_id u) (self_id m)) as [E|Hne]; [by apply merge_sim; [|right]|].
  cbn. unfold merge. destruct (Z.eqb_spec (u_id u) (self_id m)); [done|]. by rewrite Ea.
Qed.

Lemma swim_run_app rt p xs ys : swim_run rt p (xs ++ ys) = swim_run rt (swim_run rt p xs) ys.
Proof. unfold swim_run. apply foldl_app. Qed.

Lemma merge_list_sim now us rt m p : sim m p -> sim (merge_list now us rt m) (swim_run rt p (merge_ops now (self_id m) us)).
Proof.
  revert m p. induction us as [|u us IH]; intros m p Hs; [done|]. cbn [merge_ops flat_map]. rewrite swim_run_app.
  rewrite <-(proto_merge_id now u rt m). apply IH. rewrite proto_merge_id. by apply merge_op_sim.
Qed.

(** The table keeps IPv4 addresses. *)
Lemma merge_v4 now u rt m : v4_update u -> v4_table m -> v4_table (merge now u rt m).2.
Proof.
  intros Hu Hm. unfold merge. destruct (_ =? _); [by destruct (_ && _)|]. destruct (parse_socket_addr (u_addr u)) as [a|] eqn:Ea; [|done].
  case_match; [|done]. intros k mb. cbn. rewrite lookup_insert. case_decide; [intros [= <-]; by apply Hu|apply Hm].
Qed.
Lemma merge_list_v4 now us rt m : Forall v4_update us -> v4_table m -> v4_table (merge_list now us rt m).
Proof. unfold merge_list. revert m. induction us as [|u us IH]; intros m Hf Hm; [done|]. apply Forall_cons in Hf as [Hu Hf]. apply IH; [done|]. by apply merge_v4. Qed.

Lemma printed_v4 id a st inc : v4_addr a -> v4_update {| u_id := id; u_addr := print_socket_addr a; u_state := st; u_inc := inc |}.
Proof. intros Ha b. cbn. rewrite v4_text by done. by intros [= <-]. Qed.

(** What a node does: a datagram, the phases of its probe loop, a partition
    injected or healed; [shuffle] and the probe concluded are any. *)
Inductive act :=
  | ARecv (now : Z) (src : SocketAddr) (pkt : option Packet)
  | AEvict (now : Z)
  | AProbe (shuffle : list Z -> list Z)
  | AIndirect (shuffle : list SocketAddr -> list SocketAddr) (pr : probe)
  | AVerdict (now : Z) (pr : probe)
  | ADeny (d : gset Z).

Definition do_act (a : act) (s : ProtoSwim.t) : ProtoSwim.t :=
  match a with
  | ARecv now src pkt => (recv now src pkt s).2
  | AEvict now => evict now s
  | AProbe shuffle => match probe_send shuffle s with Some (_, s) => s | None => s end
  | AIndirect shuffle pr => (probe_indirect shuffle pr s).2
  | AVerdict now pr => probe_verdict now pr s
  | ADeny d => set_deny d s
  end.
Definition proto_run (acts : list act) (s : ProtoSwim.t) : ProtoSwim.t := foldl (fun s a => do_act a s) s acts.

(** The production operations an act amounts to. *)
Definition packet_ops (now : Z) (pkt : Packet) (s : ProtoSwim.t) : list swim_op :=
  let self := self_id (membership s) in
  match pkt with
  | Ping _ _ _ us | PingReq _ _ _ _ _ us | JoinReply _ us => merge_ops now self us
  | Ack from sq us => merge_ops now self us ++ (if bool_decide (pending s !! sq = Some from) then [SoAck now from] else [])
  | Join from a inc us => merge_ops now self (us ++ [{| u_id := from; u_addr := a; u_state := Alive; u_inc := inc |}])
  end.
Definition act_ops (a : act) (s : ProtoSwim.t) : list swim_op :=
  match a with
  | ARecv now _ (Some pkt) => if bool_decide (packet_from pkt ∈ deny s) then [] else packet_ops now pkt s
  | AEvict now => [SoExpire now (suspicion_timeout (params s))]
  | AVerdict now pr => match pending s !! p_seq pr with Some _ => [SoSuspect now (p_target pr)] | None => [] end
  | _ => []
  end.
Fixpoint replay (acts : list act) (s : ProtoSwim.t) : list swim_op :=
  match acts with [] => [] | a :: acts => act_ops a s ++ replay acts (do_act a s) end.

(** The addresses named in a packet are IPv4, as on the loopback interface. *)
Definition packet_updates (pkt : Packet) : list Update :=
  match pkt with
  | Ping _ _ _ us | Ack _ _ us | PingReq _ _ _ _ _ us | JoinReply _ us => us
  | Join from a inc us => us ++ [{| u_id := from; u_addr := a; u_state := Alive; u_inc := inc |}]
  end.
Definition v4_act (a : act) : Prop := match a with ARecv _ _ (Some pkt) => Forall v4_update (packet_updates pkt) | _ => True end.

Lemma piggyback_same s : membership (piggyback s).2 = set_gossip (gossip (membership (piggyback s).2)) (membership s) /\ params (piggyback s).2 = params s /\
  pending (piggyback s).2 = pending s.
Proof. unfold piggyback, take_piggyback. by destruct (take_loop _ _ _ _). Qed.
Lemma piggyback_sim s p : sim (membership s) p -> sim (membership (piggyback s).2) p.
Proof. intros [? ? ? ?]. destruct (piggyback_same s) as (-> & _ & _). by split. Qed.
Lemma piggyback_v4 s : v4_table (membership s) -> v4_table (membership (piggyback s).2).
Proof. by destruct (piggyback_same s) as (-> & _ & _). Qed.

Lemma ask_helpers_same hs pr s : exists g, membership (ask_helpers hs pr s).2 = set_gossip g (membership s) /\ params (ask_helpers hs pr s).2 = params s.
Proof.
  revert s. induction hs as [|h hs IH]; intros s; cbn [ask_helpers]; [exists (gossip (membership s)); by destruct s as [? []]|].
  destruct (piggyback_same s) as (E1 & E2 & _). destruct (piggyback s) as [ups s1]. cbn [snd] in *.
  destruct (IH s1) as (g & E3 & E4). destruct (ask_helpers hs pr s1) as [sent s2]. cbn [snd] in *. exists g. by rewrite E3, E4, E1.
Qed.

Lemma revive_sim now from s p : sim (membership s) p -> sim (membership (revive now from s)) (Membership.note_direct_ack now from (retransmit (params s)) p).2.
Proof.
  intros [S1 S2 S3 S4]. unfold revive, Membership.note_direct_ack. rewrite S3. destruct (members (membership s) !! from) as [mb|]; [|by split].
  case_decide; [|by split]. by split.
Qed.
Lemma revive_v4 now from s : v4_table (membership s) -> v4_table (membership (revive now from s)).
Proof.
  intros Hm. unfold revive. destruct (members (membership s) !! from) as [mb|] eqn:E; [|done]. case_decide; [|done].
  intros k mb'. cbn. rewrite lookup_insert. case_decide; [intros [= <-]; cbn; by apply (Hm from)|apply Hm].
Qed.

(** Eviction: the same suspects, merged in the same order. *)
Lemma evict_sim now rt l m p : sim m p -> Forall (fun kv : Z * Member => v4_addr (m_addr kv.2)) l ->
  sim (merge_list now (map (fun kv : Z * Member => {| u_id := kv.1; u_addr := print_socket_addr (m_addr kv.2); u_state := Dead; u_inc := m_inc kv.2 |}) l) rt m)
    (Membership.evict_all now rt l p).2.
Proof.
  revert m p. induction l as [|[id mb] l IH]; intros m p Hs Hf; [done|]. apply Forall_cons in Hf as [Hmb Hf]. cbn [map Membership.evict_all].
  pose proof (merge_sim now (m_addr mb) {| u_id := id; u_addr := print_socket_addr (m_addr mb); u_state := Dead; u_inc := m_inc mb |} rt m p Hs
    (or_introl (v4_text _ Hmb))) as Hm. unfold fact_of in Hm. cbn [u_id u_state u_inc] in Hm.
  destruct (Membership.merge _ _ _ _) as [ok p1]. specialize (IH _ p1 Hm Hf). cbn in IH. by destruct (Membership.evict_all _ _ _ p1).
Qed.

Lemma handle_sim now src pkt s p : sim (membership s) p -> v4_table (membership s) -> Forall v4_update (packet_updates pkt) ->
  sim (membership (handle now src pkt s).2) (swim_run (retransmit (params s)) p (packet_ops now pkt s)) /\
  v4_table (membership (handle now src pkt s).2) /\ params (handle now src pkt s).2 = params s.
Proof.
  intros Hs Hv Hu.
  assert (Hm : forall us, Forall v4_update us -> let s' := merge_updates now us s in
    sim (membership s') (swim_run (retransmit (params s)) p (merge_ops now (self_id (membership s)) us)) /\ v4_table (membership s') /\ params s' = params s).
  { intros us Hf. split; [by apply merge_list_sim|]. split; [by apply merge_list_v4|done]. }
  destruct pkt as [from sq rp us|from sq us|from fa sq tg ta us|from a inc us|from us]; cbn [handle packet_ops packet_updates] in *; destruct (Hm _ Hu) as (H1 & H2 & H3).
  - pose proof (piggyback_sim _ _ H1) as P1. pose proof (piggyback_v4 _ H2) as P2. destruct (piggyback_same (merge_updates now us s)) as (_ & P3 & _).
    destruct (piggyback _) as [ups s2]. cbn [snd] in *. split_and!; [done|done|congruence].
  - rewrite swim_run_app. cbn [snd]. destruct (bool_decide _); [|by split_and!]. cbn [swim_run foldl swim_step].
    split_and!; [by apply (revive_sim now from (merge_updates now us (set_pending (seq s) (delete sq (pending s)) s)))|by apply revive_v4|].
    unfold revive. cbn. destruct (members _ !! from); [|done]. by case_decide.
  - destruct (parse_socket_addr ta); [|by split_and!]. pose proof (piggyback_sim _ _ H1) as P1. pose proof (piggyback_v4 _ H2) as P2.
    destruct (piggyback_same (merge_updates now us s)) as (_ & P3 & _). destruct (piggyback _) as [ups s2]. cbn [snd] in *. split_and!; [done|done|congruence].
  - by split_and!.
  - by split_and!.
Qed.

Lemma verdict_sim now pr s p : sim (membership s) p -> v4_table (membership s) ->
  sim (membership (probe_verdict now pr s)) (swim_run (retransmit (params s)) p (act_ops (AVerdict now pr) s)) /\
  v4_table (membership (probe_verdict now pr s)) /\ params (probe_verdict now pr s) = params s.
Proof.
  intros Hs Hv. unfold probe_verdict. cbn [act_ops]. destruct (pending s !! p_seq pr); [|done]. cbn [swim_run foldl swim_step]. unfold Membership.suspect.
  rewrite (sim_members _ _ Hs). cbn [membership set_pending]. destruct (members (membership s) !! p_target pr) as [mb|] eqn:Em; [|done].
  case_decide; [|done]. pose proof (Hv _ _ Em) as Hmb. split_and!; [| |done].
  - by apply (merge_sim now (m_addr mb) {| u_id := p_target pr; u_addr := print_socket_addr (m_addr mb); u_state := Suspect; u_inc := m_inc mb |}); [|left; apply v4_text].
  - apply merge_list_v4; [|done]. apply Forall_singleton. by apply printed_v4.
Qed.

Lemma act_sim a s p : sim (membership s) p -> v4_table (membership s) -> v4_act a ->
  sim (membership (do_act a s)) (swim_run (retransmit (params s)) p (act_ops a s)) /\ v4_table (membership (do_act a s)) /\ params (do_act a s) = params s.
Proof.
  intros Hs Hv Ha. destruct a as [now src [pkt|]|now|sh|sh pr|now pr|d]; cbn [do_act act_ops recv]; [| | | | |by apply verdict_sim|]; try by split_and!.
  - destruct (bool_decide _); [by split_and!|]. by apply handle_sim.
  - assert (Hf : Forall (fun kv : Z * Member => v4_addr (m_addr kv.2)) (expired now s)).
    { apply Forall_forall. intros [k mb] (_ & Hin%elem_of_map_to_list)%list_elem_of_filter. by apply (Hv k). }
    split_and!; [| |done].
    + pose proof (evict_sim now (retransmit (params s)) (expired now s) _ _ Hs Hf) as He. cbn [swim_run foldl swim_step]. unfold Membership.expire_suspects.
      rewrite (sim_members _ _ Hs). exact He.
    + apply merge_list_v4; [|done]. apply Forall_map. eapply Forall_impl; [exact Hf|]. intros [k mb] Hk. by apply printed_v4.
  - unfold probe_send, next_probe_target. destruct (decide _); [cbn; by destruct s as [? []]|]. destruct (if (_ <=? _)%nat then _ else _) as [o i].
    destruct (o !! i) as [id|]; [|done]. cbn [mbind option_bind]. destruct (_ <$> _) as [[tg ta]|]; cbn [mbind option_bind].
    + match goal with |- context [piggyback ?s1] => pose proof (piggyback_sim s1 p) as P1; pose proof (piggyback_v4 s1) as P2; destruct (piggyback_same s1) as (_ & P3 & _) end.
      destruct (piggyback _) as [ups s2]. cbn [snd] in *. split_and!; [apply P1; by destruct Hs|by apply P2|done].
    + split_and!; [by destruct Hs|done|done].
  - unfold probe_indirect. destruct (pending s !! p_seq pr); [|by split_and!]. destruct (ask_helpers_same (helpers sh (p_target pr) s) pr s) as (g & E1 & E2).
    rewrite E1, E2. split_and!; [by destruct Hs|done|done].
Qed.

(** C39. The prototype believes what production would: whatever datagrams arrive
    (forged or malformed ones included), and however its probe, eviction and
    partition steps interleave, the prototype's member table, its incarnation and
    its count of refutations are those of the production table after the merges,
    direct acks, suspicions and evictions the same acts amount to, in their order. *)
Theorem prototype_believes_as_production id bind seeds params seed acts :
  Forall v4_act acts ->
  sim (membership (proto_run acts (start id bind seeds params)))
    (swim_run (retransmit params) (Membership.new id bind seed) (replay acts (start id bind seeds params))).
Proof.
  intros Hf. assert (Hgen : forall s p, sim (membership s) p -> v4_table (membership s) -> ProtoSwim.params s = params ->
    sim (membership (proto_run acts s)) (swim_run (retransmit params) p (replay acts s))).
  { revert Hf. induction acts as [|a acts IH]; intros Hf s p Hs Hv Hp; [done|]. apply Forall_cons in Hf as [Ha Hf].
    destruct (act_sim a s p Hs Hv Ha) as (S1 & S2 & S3). cbn [proto_run foldl replay]. rewrite swim_run_app. rewrite Hp in S1. apply IH; [done|done|done|congruence]. }
  apply Hgen; [by split|done|done].
Qed.
End Simulation.

(** ** Joins heal a partition *)

Section Joins.
Import Proto ProtoSwim.

(** The join of [a] to [b], and the reply to [a]: both ends afterwards. *)
Definition join_packet (m : Proto.t) : Packet := Join (self_id m) (self_addr m) (self_inc m) (full_state m).
Definition exchange (now now' : Z) (addr_a addr_b : SocketAddr) (a b : ProtoSwim.t) : ProtoSwim.t * ProtoSwim.t :=
  let '(sent, b) := recv now addr_a (Some (join_packet (membership a))) b in
  (foldl (fun a reply => (recv now' addr_b (Some reply.2) a).2) a sent, b).

(** What a node believes of [id]. *)
Definition knows (id : Z) (m : Proto.t) : option (MState * Z) := (fun mb => (m_state mb, m_inc mb)) <$> members m !! id.

(** The production table with the same beliefs. *)
Definition view (addr : SocketAddr) (m : Proto.t) : Membership.t :=
  {| Membership.self_id := self_id m; Membership.self_addr := addr; Membership.self_inc := self_inc m; Membership.members := members m;
     Membership.gossip := []; Membership.counters := {| joined := 0; suspected := 0; dead := 0; refuted := refutations m; revived := 0 |};
     Membership.probe_order := []; Membership.probe_idx := 0; Membership.rng := 1 |}.
Lemma view_sim addr m : sim m (view addr m).
Proof. by split. Qed.

(** A node as its peers rely on it: IPv4 addresses, not in its own table. *)
Record node_ok (addr : SocketAddr) (m : Proto.t) : Prop := {
  no_addr : parse_socket_addr (self_addr m) = Some addr;
  no_v4 : v4_addr addr;
  no_table : v4_table m;
  no_self : members m !! self_id m = None;
}.

Lemma full_state_ops now self addr m : node_ok addr m ->
  merge_ops now self (full_state m) = map (SoMerge now) (Membership.full_state (view addr m)).
Proof.
  intros [Ha _ Ht _]. unfold full_state, Membership.full_state, merge_ops. rewrite flat_map_app, map_app. f_equal.
  - cbn [Membership.members view]. assert (Hf : Forall (fun kv : Z * Member => v4_addr (m_addr kv.2)) (map_to_list (members m))).
    { apply Forall_forall. intros [k mb] Hin%elem_of_map_to_list. by apply (Ht k). }
    induction Hf as [|kv l Hkv _ IH]; [done|]. cbn [map flat_map]. rewrite IH. unfold merge_op. cbn [as_update u_addr]. by rewrite v4_text.
  - cbn. unfold merge_op. cbn [self_update u_addr]. by rewrite Ha.
Qed.

Lemma merge_full_sim now rt addr a b p : node_ok addr a -> sim b p ->
  sim (merge_list now (full_state a) rt b) (MembershipSync.merge_updates now rt (Membership.full_state (view addr a)) p).
Proof. intros Ha Hs. rewrite MembershipSync.merge_updates_run, <-(full_state_ops now (self_id b)) by done. by apply merge_list_sim. Qed.

Lemma full_state_v4 addr m : node_ok addr m -> Forall v4_update (full_state m).
Proof.
  intros [Ha Hv Ht _]. unfold full_state. apply Forall_app. split.
  - apply Forall_map, Forall_forall. intros [k mb] Hin%elem_of_map_to_list. apply printed_v4. by apply (Ht k).
  - apply Forall_singleton. intros a. cbn. rewrite Ha. by intros [= <-].
Qed.

Lemma proto_merge_self now u rt m : members m !! self_id m = None -> members (merge now u rt m).2 !! self_id m = None.
Proof.
  intros Hn. unfold merge. destruct (Z.eqb_spec (u_id u) (self_id m)); [by destruct (_ && _)|]. destruct (parse_socket_addr _); [|done].
  case_match; [|done]. cbn. by rewrite lookup_insert_ne.
Qed.
Lemma merge_list_ok now us rt addr m : Forall v4_update us -> node_ok addr m -> node_ok addr (merge_list now us rt m).
Proof.
  unfold merge_list. revert m. induction us as [|u us IH]; intros m Hf Hm; [done|]. apply Forall_cons in Hf as [Hu Hf]. apply IH; [done|].
  destruct Hm as [H1 H2 H3 H4]. split; [|done|by apply merge_v4|rewrite proto_merge_id; by apply proto_merge_self].
  rewrite <-H1. f_equal. unfold merge. repeat case_match; done.
Qed.

(** A fact merged already changes nothing. *)
Lemma merge_again now rt addr a b : node_ok addr a -> self_id a <> self_id b ->
  (merge now (self_update a) rt (merge_list now (full_state a) rt b)).2 = merge_list now (full_state a) rt b.
Proof.
  intros Ha Hne. set (b1 := merge_list now (full_state a) rt b). pose proof (merge_full_sim now rt addr a b (view addr b) Ha (view_sim addr b)) as Hs. fold b1 in Hs.
  pose proof (merge_full_state now rt (view addr a) (view addr b) (no_self _ _ Ha) Hne) as Hk. unfold krank in Hk. rewrite (sim_members _ _ Hs) in Hk.
  cbn [Membership.self_id Membership.self_inc view] in Hk.
  unfold merge. cbn [self_update u_id]. assert (Hid : self_id b1 = self_id b) by apply merge_list_id. rewrite Hid.
  destruct (Z.eqb_spec (self_id a) (self_id b)); [done|]. cbn [self_update u_addr u_id u_inc u_state]. rewrite (no_addr _ _ Ha).
  destruct (members b1 !! self_id a) as [mb|]; [|done]. cbn in Hk. injection Hk as Hk. cbn [u_inc u_state].
  assert (Hr : rank Alive (self_inc a) <= rank (m_state mb) (m_inc mb)) by (rewrite Hk; destruct (members b !! self_id a); cbn; lia).
  destruct (_ || _) eqn:E; [|done]. exfalso. unfold rank in Hr. destruct (m_state mb); cbn in *; bool_facts; lia.
Qed.

(** Incarnations below a bound stay there, but for our own, one above. *)
Definition incs_below (k : Z) (m : Proto.t) : Prop := map_Forall (fun _ mb => m_inc mb < k) (members m) /\ 0 <= self_inc m < k.

Lemma merge_list_incs k now us rt m : k <= u32_max -> Forall (fun u => u_inc u < k) us -> map_Forall (fun _ mb => m_inc mb < k) (members m) -> 0 <= self_inc m <= k ->
  map_Forall (fun _ mb => m_inc mb < k) (members (merge_list now us rt m)) /\ 0 <= self_inc (merge_list now us rt m) <= k.
Proof.
  intros Hk. unfold merge_list, u32_max in *. revert m. induction us as [|u us IH]; intros m Hf Hm Hi; [done|]. apply Forall_cons in Hf as [Hu Hf]. cbn [foldl].
  apply IH; [done| |]; unfold merge; destruct (_ =? _).
  - by destruct (_ && _).
  - destruct (parse_socket_addr _); [|done]. case_match; [|done]. cbn. by apply map_Forall_insert_2.
  - destruct (negb _); [|done]. cbn [andb]. destruct (Z.leb_spec (self_inc m) (u_inc u)); [|done]. cbn. rewrite wrap_small; lia.
  - destruct (parse_socket_addr _); [|done]. by case_match.
Qed.

Lemma full_state_incs k addr m : map_Forall (fun _ mb => m_inc mb < k) (members m) -> self_inc m < k -> Forall (fun u => Swim.u_inc u < k) (Membership.full_state (view addr m)).
Proof.
  intros Hm Hi. unfold Membership.full_state. apply Forall_app. split; [|by apply Forall_singleton].
  apply Forall_map, Forall_forall. intros [i mb] Hin%elem_of_map_to_list. by apply (Hm i).
Qed.
Lemma full_state_incs' k m : map_Forall (fun _ mb => m_inc mb < k) (members m) -> self_inc m < k -> Forall (fun u => u_inc u < k) (full_state m).
Proof.
  intros Hm Hi. unfold full_state. apply Forall_app. split; [|by apply Forall_singleton].
  apply Forall_map, Forall_forall. intros [i mb] Hin%elem_of_map_to_list. by apply (Hm i).
Qed.

(** Both ends see each other. *)
Definition connected (a b : ProtoSwim.t) : Prop :=
  (self_id (membership a) ∉ deny b) /\ (self_id (membership b) ∉ deny a) /\ self_id (membership a) <> self_id (membership b).

Lemma exchange_spec now now' aa ab a b : node_ok aa (membership a) -> connected a b ->
  let mb := merge_list now (full_state (membership a)) (retransmit (params b)) (membership b) in
  exchange now now' aa ab a b =
    (set_membership (merge_list now' (full_state mb) (retransmit (params a)) (membership a)) a, set_membership mb b).
Proof.
  intros Ha (Hd & Hd' & Hne) mb. unfold exchange, recv. unfold join_packet. cbn [packet_from]. rewrite bool_decide_false by done. cbn [handle].
  assert (Em : merge_updates now (full_state (membership a) ++ [{| u_id := self_id (membership a); u_addr := self_addr (membership a); u_state := Alive;
    u_inc := self_inc (membership a) |}]) b = set_membership mb b).
  { unfold merge_updates, merge_list. f_equal. rewrite foldl_app. cbn [foldl]. by apply (merge_again now (retransmit (params b)) aa (membership a) (membership b)). }
  rewrite Em. cbn [membership set_membership foldl snd recv packet_from]. rewrite bool_decide_false; [done|]. unfold mb. by rewrite merge_list_id.
Qed.

(** Telling a peer that believes otherwise. *)
Lemma told_knows now rt addr a b : node_ok addr a -> self_id a <> self_id b ->
  (forall mb, members b !! self_id a = Some mb -> m_state mb <> Alive -> m_inc mb < self_inc a) ->
  exists inc, knows (self_id a) (merge_list now (full_state a) rt b) = Some (Alive, inc).
Proof.
  intros Ha Hne Hlt. pose proof (merge_full_sim now rt addr a b (view addr b) Ha (view_sim addr b)) as Hs.
  destruct (told_alive now rt (view addr a) (view addr b) (no_self _ _ Ha) Hne Hlt) as (inc & Hk & _). exists inc.
  unfold knows. rewrite <-(sim_members _ _ Hs). exact Hk.
Qed.

(** Merging a peer's state puts our incarnation past its claims against us. *)
Lemma told_refutes now rt addr a b mb : node_ok addr a -> Forall (fun u => Swim.u_inc u < u32_max) (Membership.full_state (view addr a)) -> 0 <= self_inc b ->
  members a !! self_id b = Some mb -> m_state mb <> Alive -> m_inc mb < self_inc (merge_list now (full_state a) rt b).
Proof.
  intros Ha Hf H0 Hm Hs. pose proof (merge_full_sim now rt addr a b (view addr b) Ha (view_sim addr b)) as Hsim.
  destruct (merge_updates_refutes now rt (Membership.full_state (view addr a)) (view addr b) Hf H0) as [_ Href]. rewrite (sim_inc _ _ Hsim) in Href.
  apply (Href (Membership.as_update (self_id b, mb))); [|done|done]. apply full_state_about. right. exists mb. done.
Qed.

(** A partition heals: whatever two nodes of the prototype believe of each
    other, each possibly having declared the other dead, two joins of one to the
    other (the push-pull of the re-seed loop) leave each believing the other
    Alive, once their packets pass; for incarnations below the [u32] limit. *)
Lemma joins_heal_partition now1 now2 now3 now4 aa ab a b :
  node_ok aa (membership a) -> node_ok ab (membership b) -> connected a b ->
  incs_below (u32_max - 1) (membership a) -> incs_below (u32_max - 1) (membership b) ->
  let '(a1, b1) := exchange now1 now2 aa ab a b in
  let '(a2, b2) := exchange now3 now4 aa ab a1 b1 in
  (exists i, knows (self_id (membership b)) (membership a2) = Some (Alive, i)) /\
  (exists j, knows (self_id (membership a)) (membership b2) = Some (Alive, j)).
Proof.
  intros Ha Hb Hc [Ia1 Ia2] [Ib1 Ib2]. rewrite exchange_spec by done. destruct Hc as (Hd & Hd' & Hne).
  set (ma := membership a) in *. set (mb := membership b) in *. set (b1 := merge_list now1 (full_state ma) _ mb). set (a1 := merge_list now2 (full_state b1) _ ma).
  assert (Hidb : self_id b1 = self_id mb) by apply merge_list_id. assert (Hida : self_id a1 = self_id ma) by apply merge_list_id.
  assert (Hb1 : node_ok ab b1) by (apply merge_list_ok; [by eapply full_state_v4|done]).
  assert (Ha1 : node_ok aa a1) by (apply merge_list_ok; [by eapply full_state_v4|done]).
  destruct (merge_list_incs (u32_max - 1) now1 (full_state ma) (retransmit (params b)) mb) as [Jb1 Jb2];
    [lia|apply full_state_incs'; [done|lia]|done|lia|]. fold b1 in Jb1, Jb2.
  assert (Hfb : Forall (fun u => Swim.u_inc u < u32_max) (Membership.full_state (view ab b1))).
  { apply full_state_incs; [|lia]. eapply map_Forall_impl; [exact Jb1|]. intros ? ? Hx. cbn in Hx. lia. }
  destruct (told_knows now2 (retransmit (params a)) ab b1 ma Hb1) as (i1 & Hk1); [congruence| |].
  { rewrite Hidb. intros m Em Hs. apply (told_refutes now1 (retransmit (params b)) aa ma mb m Ha); [|lia|done|done]. apply full_state_incs; [|lia].
    eapply map_Forall_impl; [exact Ia1|]. intros ? ? Hx. cbn in Hx. lia. }
  rewrite exchange_spec; [|exact Ha1|by split_and!; cbn; rewrite ?Hida, ?Hidb]. cbn [membership set_membership params].
  set (b2 := merge_list now3 (full_state a1) _ b1). assert (Hidb2 : self_id b2 = self_id mb) by (unfold b2; by rewrite merge_list_id).
  split.
  - rewrite <-Hidb2. apply (told_knows now4 _ ab); [apply merge_list_ok; [by eapply full_state_v4|done]|congruence|].
    rewrite Hidb2. intros m Em Hs. exfalso. apply Hs. unfold knows in Hk1. rewrite Hidb in Hk1. fold a1 in Hk1. rewrite Em in Hk1. cbn in Hk1. congruence.
  - rewrite <-Hida. apply (told_knows now3 _ aa); [done|congruence|]. rewrite Hida. intros m Em Hs.
    by apply (told_refutes now2 (retransmit (params a)) ab b1 ma m Hb1 Hfb); [lia|done|done].
Qed.
End Joins.

Section ProtoWitness.
Import Proto ProtoSwim.

Definition loopback (p : Z) : SocketAddr := {| ip := V4 2130706433; port := p |}.
Definition demo_member (p : Z) (st : MState) (inc : Z) : Member := {| m_addr := loopback p; m_state := st; m_inc := inc; m_since := 0 |}.
Definition demo_join (id p : Z) : act := ARecv 0 (loopback p) (Some (Join id (print_socket_addr (loopback p)) 1 [])).
Definition demo_acts : list act :=
  [demo_join 1 47010; demo_join 2 47020; AProbe (fun l => l); AIndirect (fun l => l) {| p_target := 1; p_addr := loopback 47010; p_seq := 1 |};
   AVerdict 500 {| p_target := 1; p_addr := loopback 47010; p_seq := 1 |}; AEvict 4000; ARecv 4001 (loopback 47020) None].

(** The unanswered node is suspected, then evicted. *)
Lemma prototype_believes_witness :
  knows 1 (membership (proto_run demo_acts (start 0 (loopback 47000) [] tuned))) = Some (Dead, 1) /\
  sim (membership (proto_run demo_acts (start 0 (loopback 47000) [] tuned)))
    (swim_run 8 (Membership.new 0 (loopback 47000) 5) (replay demo_acts (start 0 (loopback 47000) [] tuned))).
Proof.
  split; [vm_compute; reflexivity|]. apply (prototype_believes_as_production 0 (loopback 47000) [] tuned 5 demo_acts).
  assert (Hj : forall id p, u16_ok p -> v4_act (demo_join id p)).
  { intros id p Hp. apply Forall_singleton. apply printed_v4. by split. }
  constructor; [apply Hj; split; vm_compute; congruence|]. constructor; [apply Hj; split; vm_compute; congruence|]. by repeat constructor.
Defined.

(** Two nodes that declared each other dead. *)
Definition demo_island (self other : Z) (p q : Z) : ProtoSwim.t :=
  set_membership {| self_id := self; self_addr := print_socket_addr (loopback p); self_inc := 1; members := {[other := demo_member q Dead 1]};
    gossip := []; events := []; refutations := 0; probe_order := []; probe_idx := 0 |} (start self (loopback p) [] tuned).

Lemma demo_island_ok self other p q : self <> other -> u16_ok p -> u16_ok q ->
  node_ok (loopback p) (membership (demo_island self other p q)) /\ incs_below (u32_max - 1) (membership (demo_island self other p q)).
Proof.
  intros Hne Hp Hq. split; split.
  - by apply parse_print_v4.
  - by split.
  - by apply map_Forall_singleton.
  - by apply lookup_singleton_ne.
  - apply map_Forall_singleton. vm_compute. reflexivity.
  - split; vm_compute; congruence.
Qed.

Lemma joins_heal_partition_witness :
  knows 2 (membership (demo_island 1 2 47010 47020)) = Some (Dead, 1) /\
  let '(a1, b1) := exchange 1 2 (loopback 47010) (loopback 47020) (demo_island 1 2 47010 47020) (demo_island 2 1 47020 47010) in
  let '(a2, b2) := exchange 3 4 (loopback 47010) (loopback 47020) a1 b1 in
  (exists i, knows 2 (membership a2) = Some (Alive, i)) /\ (exists j, knows 1 (membership b2) = Some (Alive, j)).
Proof.
  split; [reflexivity|].
  assert (Hp : u16_ok 47010) by (split; vm_compute; congruence). assert (Hq : u16_ok 47020) by (split; vm_compute; congruence).
  destruct (demo_island_ok 1 2 47010 47020) as [Ha Ia]; [done..|]. destruct (demo_island_ok 2 1 47020 47010) as [Hb Ib]; [done..|].
  apply (joins_heal_partition 1 2 3 4 (loopback 47010) (loopback 47020) (demo_island 1 2 47010 47020) (demo_island 2 1 47020 47010) Ha Hb); [|done|done].
  split; [apply not_elem_of_empty|]. split; [apply not_elem_of_empty|done].
Defined.

(** A probe is forgotten when any node answers its sequence number: an ack from
    node 3 saves the silent node 1 from suspicion. *)
Lemma foreign_ack_cancels_probe :
  let s := proto_run [demo_join 1 47010; demo_join 3 47030; AProbe (fun l => l)] (start 0 (loopback 47000) [] tuned) in
  let pr := {| p_target := 1; p_addr := loopback 47010; p_seq := 1 |} in
  knows 1 (membership (do_act (AVerdict 900 pr) s)) = Some (Suspect, 1) /\
  knows 1 (membership (do_act (AVerdict 900 pr) (do_act (ARecv 800 (loopback 47030) (Some (Ack 3 1 []))) s))) = Some (Alive, 1).
Proof. vm_compute. done. Qed.
End ProtoWitness.
