(* ===== verification/ProtoRelay.v ===== *)
(** * The prototype relay links (src/spike/mesh/src/relay.rs)

    One TCP link per pair of nodes, length-prefixed frames, a byte-capped queue
    per peer and a reader that dispatches frames.  [mono_ns] and the draws of the
    reservoirs are arguments; a socket is the bytes it delivers before it ends. *)

From S2P Require Import Prelude Wire Config Swim ProtoSwim.

(** [LINK_HWM_BYTES], the coalescing target of the writer, the frame limit. *)
Definition LINK_HWM_BYTES : Z := 1048576.
Definition COALESCE_TARGET : Z := 131072.
Definition FRAME_LIMIT : Z := 33554432.

Definition zlen (bs : bytes) : Z := Z.of_nat (length bs).

Module Relay.

(** [struct PeerLink] with the queue behind [tx]; [rx_alive] while the writer
    holds the receiver. *)
Record PeerLink := { chan : list bytes; rx_alive : bool; queued_bytes : Z }.

(** [struct Counters], [struct BenchState], [struct Relay]. *)
Record Counters := { bytes_out : Z; bytes_in : Z; frames_out : Z; frames_in : Z; drops : Z }.
Record BenchState := { hop : Reservoir.t; rtt : Reservoir.t; acked : Z; sent : Z; done : bool }.
Record t := {
  self_id : Z;
  peers : gmap Z PeerLink;
  counters : Counters;
  deny : gset Z;
  slow_ms : Z;
  interest : gmap Z (gset Z);
  bench : BenchState;
}.

(** [Relay::start], the shared state. *)
Definition start (id : Z) (deny : gset Z) : t :=
  {| self_id := id; peers := ∅; counters := {| bytes_out := 0; bytes_in := 0; frames_out := 0; frames_in := 0; drops := 0 |};
     deny := deny; slow_ms := 0; interest := ∅;
     bench := {| hop := Reservoir.new 100000; rtt := Reservoir.new 100000; acked := 0; sent := 0; done := true |} |}.

Definition set_peers (ps : gmap Z PeerLink) (c : Counters) (r : t) : t :=
  {| self_id := self_id r; peers := ps; counters := c; deny := deny r; slow_ms := slow_ms r; interest := interest r; bench := bench r |}.
Definition set_interest (i : gmap Z (gset Z)) (r : t) : t :=
  {| self_id := self_id r; peers := peers r; counters := counters r; deny := deny r; slow_ms := slow_ms r; interest := i; bench := bench r |}.
Definition set_bench (b : BenchState) (r : t) : t :=
  {| self_id := self_id r; peers := peers r; counters := counters r; deny := deny r; slow_ms := slow_ms r; interest := interest r; bench := b |}.
Definition set_inject (d : gset Z) (slow : Z) (r : t) : t :=
  {| self_id := self_id r; peers := peers r; counters := counters r; deny := d; slow_ms := slow; interest := interest r; bench := bench r |}.

Definition count_drop (c : Counters) : Counters :=
  {| bytes_out := bytes_out c; bytes_in := bytes_in c; frames_out := frames_out c; frames_in := frames_in c; drops := wrap 64 (drops c + 1) |}.
Definition count_out (n : Z) (c : Counters) : Counters :=
  {| bytes_out := wrap 64 (bytes_out c + n); bytes_in := bytes_in c; frames_out := wrap 64 (frames_out c + 1); frames_in := frames_in c; drops := drops c |}.
Definition count_in (n : Z) (c : Counters) : Counters :=
  {| bytes_out := bytes_out c; bytes_in := wrap 64 (bytes_in c + n); frames_out := frames_out c; frames_in := wrap 64 (frames_in c + 1); drops := drops c |}.

(** [Relay::frame], [echo_req] and [room_frame]; [now] is [mono_ns()]. *)
Definition frame (kind : Z) (body : bytes) : bytes := to_le_bytes 4 (wrap 32 (1 + wrap 32 (zlen body))) ++ [kind] ++ body.
Definition echo_req (now sq : Z) (payload_len : nat) : bytes := frame 2 (to_le_bytes 8 sq ++ to_le_bytes 8 now ++ replicate payload_len 66).
Definition room_frame (room : Z) (payload_len : nat) : bytes := frame 4 (to_le_bytes 4 room ++ replicate payload_len 66).

(** [Relay::push]. *)
Definition push (peer : Z) (f : bytes) (r : t) : bool * t :=
  match peers r !! peer with
  | None => (false, set_peers (peers r) (count_drop (counters r)) r)
  | Some l =>
      if LINK_HWM_BYTES <? queued_bytes l + zlen f then (false, set_peers (peers r) (count_drop (counters r)) r)
      else
        let l' := {| chan := if rx_alive l then chan l ++ [f] else chan l; rx_alive := rx_alive l; queued_bytes := wrap 64 (queued_bytes l + zlen f) |} in
        (rx_alive l, set_peers (<[peer := l']> (peers r)) (count_out (zlen f) (counters r)) r)
  end.

(** The coalescing of the writer task, and one turn of it: what it writes.  When
    the write fails the task returns and the receiver goes with it. *)
Fixpoint coalesce (out : bytes) (fs : list bytes) : bytes * list bytes :=
  match fs with
  | f :: rest => if zlen out <? COALESCE_TARGET then coalesce (out ++ f) rest else (out, fs)
  | [] => (out, [])
  end.
Definition writer_turn (fails : bool) (l : PeerLink) : bytes * PeerLink :=
  match chan l with
  | [] => ([], l)
  | f :: fs =>
      let '(out, rest) := coalesce f fs in
      let queued := wrap 64 (queued_bytes l - zlen out) in
      if fails then ([], {| chan := []; rx_alive := false; queued_bytes := queued |})
      else (out, {| chan := rest; rx_alive := rx_alive l; queued_bytes := queued |})
  end.

(** [Relay::peers_up]. *)
Definition peers_up (r : t) : list Z := (map_to_list (peers r)).*1.

(** The targets of a turn of [Relay::dial_loop]. *)
Definition dial_targets (ms : gmap Z Member) (r : t) : list (Z * SocketAddr) :=
  filter (fun t : Z * SocketAddr => peers r !! t.1 = None /\ (t.1 ∉ deny r))
    (map (fun kv : Z * Member => (kv.1, {| ip := ip (m_addr kv.2); port := wrap 16 (port (m_addr kv.2) + 1) |}))
      (filter (fun kv : Z * Member => kv.1 < self_id r /\ m_state kv.2 <> Dead) (map_to_list ms))).

(** [frame[a..b]]: [None] is a panic. *)
Definition bytes_at (a n : nat) (f : bytes) : option bytes := slice f a n.

(** The rooms of an INTEREST frame; [count] entries from offset 5. *)
Fixpoint read_rooms (count : nat) (off : nat) (f : bytes) : list Z :=
  match count with
  | O => []
  | S count => match slice f off 4 with
               | Some bs => from_le_bytes bs :: read_rooms count (off + 4) f
               | None => read_rooms count (off + 4) f
               end
  end.
Definition add_interest (peer : Z) (rooms : list Z) (i : gmap Z (gset Z)) : gmap Z (gset Z) :=
  foldl (fun i r => <[r := {[peer]} ∪ default ∅ (i !! r)]> i) i rooms.

(** [Relay::dispatch] at time [now]; [None] is a panic. *)
Definition dispatch (now : Z) (draws : Z * Z) (peer : Z) (f : bytes) (r : t) : option t :=
  kind ← f !! 0%nat;
  if kind =? 2 then
    sq ← bytes_at 1 8 f; send_ns ← bytes_at 9 8 f;
    Some (push peer (frame 3 (sq ++ send_ns ++ to_le_bytes 8 now)) r).2
  else if kind =? 3 then
    send_ns ← bytes_at 9 8 f; recv_ns ← bytes_at 17 8 f;
    let send_ns := from_le_bytes send_ns in
    let recv_ns := from_le_bytes recv_ns in
    let b := bench r in
    Some (set_bench {| hop := Reservoir.push draws.1 (Z.max 0 (recv_ns - send_ns)) (hop b); rtt := Reservoir.push draws.2 (Z.max 0 (now - send_ns)) (rtt b);
                       acked := wrap 64 (acked b + 1); sent := sent b; done := done b |} r)
  else if kind =? 5 then
    count ← bytes_at 1 4 f;
    Some (set_interest (add_interest peer (read_rooms (Z.to_nat (from_le_bytes count)) 5 f) (interest r)) r)
  else Some r.

(** [rd.read_exact] on a stream that ends after [bs]. *)
Definition take_exact (n : nat) (bs : bytes) : option (bytes * bytes) := if decide (n <= length bs)%nat then Some (take n bs, drop n bs) else None.

(** [fn read_hello]. *)
Definition read_hello (bs : bytes) : option (Z * bytes) :=
  '(len4, bs) ← take_exact 4 bs;
  if from_le_bytes len4 =? 3 then
    '(body, bs) ← take_exact 3 bs;
    if decide (body !! 0%nat = Some 1) then Some (from_le_bytes (drop 1 body), bs) else None
  else None.

(** How a link ends. *)
Inductive link_end := LinkRefused | LinkClosed | LinkPanicked (f : bytes).

(** The reader loop of [Relay::run_link]; each turn consumes four bytes or more,
    so the length of the stream bounds the turns.  [clock] and [draw] give the
    time and the random draws of the turn with the number it is given. *)
Fixpoint reader_loop (fuel : nat) (clock : Z -> Z) (draw : Z -> Z * Z) (peer : Z) (bs : bytes) (r : t) : link_end * t :=
  match fuel with
  | O => (LinkClosed, r)
  | S fuel =>
      match take_exact 4 bs with
      | None => (LinkClosed, r)
      | Some (len4, bs) =>
          let len := from_le_bytes len4 in
          if (len =? 0) || (FRAME_LIMIT <? len) then (LinkClosed, r)
          else
            match take_exact (Z.to_nat len) bs with
            | None => (LinkClosed, r)
            | Some (f, bs) =>
                if bool_decide (peer ∈ deny r) then (LinkClosed, r)
                else
                  let k := frames_in (counters r) in
                  let r := set_peers (peers r) (count_in (4 + len) (counters r)) r in
                  match dispatch (clock k) (draw k) peer f r with
                  | None => (LinkPanicked f, r)
                  | Some r => reader_loop fuel clock draw peer bs r
                  end
            end
      end
  end.

(** [Relay::run_link] on a socket that delivers [bs]; what it writes first is its
    HELLO, and the entry of the peer goes when the loop ends. *)
Definition hello (r : t) : bytes := frame 1 (to_le_bytes 2 (self_id r)).
Definition run_link (clock : Z -> Z) (draw : Z -> Z * Z) (dialed : option Z) (bs : bytes) (r : t) : link_end * t :=
  match read_hello bs with
  | None => (LinkRefused, r)
  | Some (peer, bs) =>
      if match dialed with Some expect => negb (peer =? expect) | None => false end then (LinkRefused, r)
      else if bool_decide (peer ∈ deny r) then (LinkRefused, r)
      else match peers r !! peer with
           | Some _ => (LinkRefused, r)
           | None =>
               let r := set_peers (<[peer := {| chan := []; rx_alive := true; queued_bytes := 0 |}]> (peers r)) (counters r) r in
               match reader_loop (S (length bs)) clock draw peer bs r with
               | (LinkPanicked f, r) => (LinkPanicked f, r)
               | (e, r) => (e, set_peers (delete peer (peers r)) (counters r) r)
               end
           end
  end.

End Relay.

(** ** The queue of a link, step by step *)

Section Queue.

(** A push reads the gauge, adds to it and sends, in that order and under the
    lock of the table; the writer takes a frame and subtracts it, at any time. *)
Inductive push_pc := PIdle | PLoaded (f : bytes) (v : Z) | PAdded (f : bytes).
Record link_q := {
  lq_chan : list bytes; lq_queued : Z; lq_push : push_pc; lq_out : option bytes; lq_wire : bytes;
  lq_accepted : list bytes; lq_offered : Z; lq_dropped : Z;
}.
Definition lq_start : link_q :=
  {| lq_chan := []; lq_queued := 0; lq_push := PIdle; lq_out := None; lq_wire := []; lq_accepted := []; lq_offered := 0; lq_dropped := 0 |}.

Inductive lq_step (s : link_q) : link_q -> Prop :=
  | LqLoad f : lq_push s = PIdle ->
      lq_step s {| lq_chan := lq_chan s; lq_queued := lq_queued s; lq_push := PLoaded f (lq_queued s); lq_out := lq_out s; lq_wire := lq_wire s;
        lq_accepted := lq_accepted s; lq_offered := lq_offered s + 1; lq_dropped := lq_dropped s |}
  | LqDrop f v : lq_push s = PLoaded f v -> LINK_HWM_BYTES < v + zlen f ->
      lq_step s {| lq_chan := lq_chan s; lq_queued := lq_queued s; lq_push := PIdle; lq_out := lq_out s; lq_wire := lq_wire s;
        lq_accepted := lq_accepted s; lq_offered := lq_offered s; lq_dropped := lq_dropped s + 1 |}
  | LqAdd f v : lq_push s = PLoaded f v -> v + zlen f <= LINK_HWM_BYTES ->
      lq_step s {| lq_chan := lq_chan s; lq_queued := wrap 64 (lq_queued s + zlen f); lq_push := PAdded f; lq_out := lq_out s; lq_wire := lq_wire s;
        lq_accepted := lq_accepted s; lq_offered := lq_offered s; lq_dropped := lq_dropped s |}
  | LqSend f : lq_push s = PAdded f ->
      lq_step s {| lq_chan := lq_chan s ++ [f]; lq_queued := lq_queued s; lq_push := PIdle; lq_out := lq_out s; lq_wire := lq_wire s;
        lq_accepted := lq_accepted s ++ [f]; lq_offered := lq_offered s; lq_dropped := lq_dropped s |}
  | LqRecv f rest : lq_out s = None -> lq_chan s = f :: rest ->
      lq_step s {| lq_chan := rest; lq_queued := wrap 64 (lq_queued s - zlen f); lq_push := lq_push s; lq_out := Some f; lq_wire := lq_wire s;
        lq_accepted := lq_accepted s; lq_offered := lq_offered s; lq_dropped := lq_dropped s |}
  | LqMore out f rest : lq_out s = Some out -> zlen out < COALESCE_TARGET -> lq_chan s = f :: rest ->
      lq_step s {| lq_chan := rest; lq_queued := wrap 64 (lq_queued s - zlen f); lq_push := lq_push s; lq_out := Some (out ++ f); lq_wire := lq_wire s;
        lq_accepted := lq_accepted s; lq_offered := lq_offered s; lq_dropped := lq_dropped s |}
  | LqWrite out : lq_out s = Some out -> (COALESCE_TARGET <= zlen out \/ lq_chan s = []) ->
      lq_step s {| lq_chan := lq_chan s; lq_queued := lq_queued s; lq_push := lq_push s; lq_out := None; lq_wire := lq_wire s ++ out;
        lq_accepted := lq_accepted s; lq_offered := lq_offered s; lq_dropped := lq_dropped s |}.

Definition in_flight (s : link_q) : Z := match lq_push s with PAdded f => zlen f | _ => 0 end.

Record lq_inv (s : link_q) : Prop := {
  li_gauge : lq_queued s = zsum zlen (lq_chan s) + in_flight s;
  li_bound : lq_queued s <= LINK_HWM_BYTES;
  li_loaded : match lq_push s with PLoaded _ v => lq_queued s <= v | _ => True end;
  li_fifo : concat (lq_accepted s) = lq_wire s ++ default [] (lq_out s) ++ concat (lq_chan s);
  li_out : zlen (default [] (lq_out s)) <= COALESCE_TARGET + LINK_HWM_BYTES;
  li_count : lq_offered s = Z.of_nat (length (lq_accepted s)) + lq_dropped s + (match lq_push s with PIdle => 0 | _ => 1 end);
}.

Lemma zlen_nonneg bs : 0 <= zlen bs.
Proof. unfold zlen. lia. Qed.
Lemma zlen_app a b : zlen (a ++ b) = zlen a + zlen b.
Proof. unfold zlen. rewrite length_app. lia. Qed.

(** The writer takes the head of the queue into its buffer. *)
Lemma lq_take_inv s f rest out : lq_inv s -> lq_chan s = f :: rest -> default [] (lq_out s) = out -> zlen out <= COALESCE_TARGET ->
  lq_inv {| lq_chan := rest; lq_queued := wrap 64 (lq_queued s - zlen f); lq_push := lq_push s; lq_out := Some (out ++ f); lq_wire := lq_wire s;
    lq_accepted := lq_accepted s; lq_offered := lq_offered s; lq_dropped := lq_dropped s |}.
Proof.
  intros [I1 I2 I3 I4 I5 I6] Ec Eo Hb. rewrite Ec in I1, I4. rewrite Eo in I4. rewrite zsum_cons in I1. pose proof (zlen_nonneg f). pose proof (zsum_nonneg zlen rest zlen_nonneg).
  assert (Hfl : 0 <= in_flight s) by (unfold in_flight; destruct (lq_push s); [lia|lia|apply zlen_nonneg]).
  assert (Hw : wrap 64 (lq_queued s - zlen f) = lq_queued s - zlen f) by (apply wrap_small; unfold LINK_HWM_BYTES in *; lia).
  split; unfold in_flight in *; cbn; rewrite ?Hw; [lia|lia|destruct (lq_push s); [done|lia|done]| |rewrite zlen_app|done].
  - rewrite I4. cbn. by rewrite <-!app_assoc.
  - lia.
Qed.

Lemma lq_step_inv s s' : lq_step s s' -> lq_inv s -> lq_inv s'.
Proof.
  intros Hs Hi. pose proof Hi as [I1 I2 I3 I4 I5 I6]. unfold in_flight in *. pose proof (zsum_nonneg zlen (lq_chan s) zlen_nonneg) as Hnn.
  destruct Hs as [f E|f v E Hb|f v E Hb|f E|f rest E Ec|out f rest E Hb Ec|out E Hb].
  - rewrite E in I1, I3, I6. split; unfold in_flight; cbn; done || lia.
  - rewrite E in I1, I3, I6. split; unfold in_flight; cbn; done || lia.
  - rewrite E in I1, I3, I6. pose proof (zlen_nonneg f).
    assert (Hw : wrap 64 (lq_queued s + zlen f) = lq_queued s + zlen f) by (apply wrap_small; unfold LINK_HWM_BYTES in *; lia).
    split; unfold in_flight; cbn; rewrite ?Hw; done || lia.
  - rewrite E in I1, I3, I6. split; unfold in_flight; cbn; [rewrite zsum_app, zsum_cons, zsum_nil; lia|done|done| |done|rewrite length_app; cbn; lia].
    rewrite !concat_app, I4, <-!app_assoc. done.
  - by apply (lq_take_inv s f rest []); [|rewrite ?E..|].
  - apply (lq_take_inv s f rest out); [done|done|by rewrite E|lia].
  - rewrite E in I4, I5. split; unfold in_flight; cbn; [done|done|done|by rewrite I4, <-!app_assoc|vm_compute; congruence|done].
Qed.

(** The queue of a prototype link is bounded in bytes whatever the pushes
    and the writer interleave: the gauge is exactly the bytes queued (so a
    subtraction never underflows), never above the high-water mark; the writer's
    buffer is bounded; what reaches the socket is the accepted frames in their
    order; and every push is accounted as accepted or dropped. *)
Lemma prototype_queue_bounded s :
  rtc lq_step lq_start s ->
  zsum zlen (lq_chan s) <= lq_queued s <= LINK_HWM_BYTES /\ (lq_push s = PIdle -> lq_queued s = zsum zlen (lq_chan s)) /\
  zlen (default [] (lq_out s)) <= COALESCE_TARGET + LINK_HWM_BYTES /\
  (lq_wire s ++ default [] (lq_out s) `prefix_of` concat (lq_accepted s)) /\
  (lq_push s = PIdle -> lq_offered s = Z.of_nat (length (lq_accepted s)) + lq_dropped s).
Proof.
  intros Hr. assert (Hi : lq_inv s).
  { assert (H0 : lq_inv lq_start) by (split; cbn; done). revert H0. induction Hr as [|? ? ? Hs _ IH]; [done|]. intros H0. apply IH. by eapply lq_step_inv. }
  destruct Hi as [I1 I2 I3 I4 I5 I6]. unfold in_flight in *. split.
  { split; [|done]. rewrite I1. destruct (lq_push s) as [| |f]; [lia|lia|pose proof (zlen_nonneg f); lia]. }
  split; [intros E; rewrite E in I1; lia|]. split; [done|]. split; [|intros E; rewrite E in I6; lia].
  exists (concat (lq_chan s)). by rewrite I4, <-app_assoc.
Qed.

(** A whole push is the three steps, when nothing comes in between. *)
Lemma push_is_steps peer f (r : Relay.t) l : Relay.peers r !! peer = Some l -> Relay.rx_alive l = true ->
  forall s, lq_chan s = Relay.chan l -> lq_queued s = Relay.queued_bytes l -> lq_push s = PIdle ->
  exists s' l', rtc lq_step s s' /\ Relay.peers (Relay.push peer f r).2 !! peer = Some l' /\
    lq_chan s' = Relay.chan l' /\ lq_queued s' = Relay.queued_bytes l' /\ lq_push s' = PIdle.
Proof.
  intros Hl Hrx s Ec Eq Ep. unfold Relay.push. rewrite Hl, Hrx.
  destruct (Z.ltb_spec LINK_HWM_BYTES (Relay.queued_bytes l + zlen f)) as [Hgt|Hle].
  - eexists _, l. split; [eapply rtc_l; [by apply (LqLoad s f)|eapply rtc_l; [eapply LqDrop; [done|by rewrite Eq]|apply rtc_refl]]|]. by cbn.
  - eexists _, _. split; [eapply rtc_l; [by apply (LqLoad s f)|]; eapply rtc_l; [eapply LqAdd; [done|by rewrite Eq]|]; eapply rtc_l; [by eapply LqSend|apply rtc_refl]|].
    cbn. rewrite lookup_insert_eq. split; [done|]. cbn. by rewrite Ec, Eq.
Qed.
End Queue.

(** ** How a link ends *)

Section Reader.
Import Relay.

(** The frames [dispatch] cannot slice. *)
Definition short_frame (f : bytes) : Prop :=
  match f with
  | [] => True
  | k :: _ => (k = 2 /\ (length f < 17)%nat) \/ (k = 3 /\ (length f < 25)%nat) \/ (k = 5 /\ (length f < 5)%nat)
  end.

Lemma slice_some f a n : (a + n <= length f)%nat -> exists xs, slice f a n = Some xs.
Proof. intros Hl. unfold slice. rewrite decide_True by done. by eexists. Qed.
Lemma slice_none f a n : (length f < a + n)%nat -> slice f a n = None.
Proof. intros Hl. unfold slice. by rewrite decide_False by lia. Qed.

(** The reader dies exactly on those. *)
Lemma dispatch_panics now draws peer f r : dispatch now draws peer f r = None <-> short_frame f.
Proof.
  destruct f as [|k body]; [done|]. unfold dispatch, short_frame, bytes_at. cbn [lookup list_lookup mbind option_bind]. set (f := k :: body).
  destruct (Z.eqb_spec k 2) as [->|H2]; [|destruct (Z.eqb_spec k 3) as [->|H3]; [|destruct (Z.eqb_spec k 5) as [->|H5]]].
  - destruct (decide (length f < 17)%nat) as [Hs|Hl].
    + split; [by intros _; left|]. intros _. destruct (slice f 1 8); [|done]. cbn [mbind option_bind]. by rewrite slice_none by lia.
    + destruct (slice_some f 1 8) as [x ->]; [lia|]. destruct (slice_some f 9 8) as [y ->]; [lia|]. split; [done|]. intros [?|[?|?]]; lia.
  - destruct (decide (length f < 25)%nat) as [Hs|Hl].
    + split; [by intros _; right; left|]. intros _. destruct (slice f 9 8); [|done]. cbn [mbind option_bind]. by rewrite slice_none by lia.
    + destruct (slice_some f 9 8) as [x ->]; [lia|]. destruct (slice_some f 17 8) as [y ->]; [lia|]. split; [done|]. intros [?|[?|?]]; lia.
  - destruct (decide (length f < 5)%nat) as [Hs|Hl].
    + split; [by intros _; right; right|]. intros _. by rewrite slice_none by lia.
    + destruct (slice_some f 1 4) as [x ->]; [lia|]. split; [done|]. intros [?|[?|?]]; lia.
  - split; [done|]. intros [?|[?|?]]; lia.
Qed.

(** Dispatching keeps the table's peers and who the node is. *)
Lemma push_peers peer f r : dom (peers (push peer f r).2) = dom (peers r) /\ deny (push peer f r).2 = deny r.
Proof.
  unfold push. destruct (peers r !! peer) as [l|] eqn:E; [|done]. destruct (_ <? _); [done|]. cbn. split; [|done].
  apply dom_insert_lookup_L. by eexists.
Qed.
Lemma dispatch_peers now draws peer f r r' : dispatch now draws peer f r = Some r' -> dom (peers r') = dom (peers r) /\ deny r' = deny r.
Proof.
  unfold dispatch, bytes_at. destruct (f !! 0%nat) as [k|]; [|done]. cbn [mbind option_bind]. destruct (k =? 2); [|destruct (k =? 3); [|destruct (k =? 5)]].
  - destruct (slice f 1 8); [|done]. cbn [mbind option_bind]. destruct (slice f 9 8); [|done]. cbn [mbind option_bind]. intros [= <-]. apply push_peers.
  - destruct (slice f 9 8); [|done]. cbn [mbind option_bind]. destruct (slice f 17 8); [|done]. cbn [mbind option_bind]. by intros [= <-].
  - destruct (slice f 1 4); [|done]. cbn [mbind option_bind]. by intros [= <-].
  - by intros [= <-].
Qed.

Lemma reader_loop_ends fuel clock draw peer bs r e r' : reader_loop fuel clock draw peer bs r = (e, r') ->
  dom (peers r') = dom (peers r) /\ deny r' = deny r /\ e <> LinkRefused /\ forall f, e = LinkPanicked f -> short_frame f.
Proof.
  revert bs r. induction fuel as [|fuel IH]; intros bs r; cbn [reader_loop]; [by intros [= <- <-]|].
  destruct (take_exact 4 bs) as [[len4 bs1]|]; [|by intros [= <- <-]]. destruct (_ || _); [by intros [= <- <-]|].
  destruct (take_exact _ bs1) as [[f bs2]|]; [|by intros [= <- <-]]. case_bool_decide; [by intros [= <- <-]|]. cbn zeta.
  destruct (dispatch _ _ _ _ _) as [r1|] eqn:Ed.
  - intros E. apply IH in E as (E1 & E2 & E3). apply dispatch_peers in Ed as [D1 D2]. cbn in D1, D2. split; [congruence|]. split; [congruence|done].
  - intros [= <- <-]. split_and!; [done|done|done|]. intros f' [= <-]. by eapply dispatch_panics.
Qed.

(** How a prototype link ends, on every byte stream: it is refused before it
    is registered and the node is unchanged; or its reader stops and its peer is
    out of the table again; or, exactly when a frame is too short for its kind,
    the reader panics.  The other peers stay; but after a panic the peer stays
    registered too, and every later link to it is refused. *)
Lemma prototype_link_ends clock draw dialed bs r e r' :
  run_link clock draw dialed bs r = (e, r') ->
  match e with
  | LinkRefused => r' = r
  | LinkClosed => exists peer rest, read_hello bs = Some (peer, rest) /\ peers r !! peer = None /\ dom (peers r') = dom (peers r)
  | LinkPanicked f => exists peer rest, read_hello bs = Some (peer, rest) /\ short_frame f /\ dom (peers r') = {[peer]} ∪ dom (peers r) /\
      forall clock' draw' dialed' bs' rest', read_hello bs' = Some (peer, rest') -> run_link clock' draw' dialed' bs' r' = (LinkRefused, r')
  end.
Proof.
  unfold run_link at 1. destruct (read_hello bs) as [[peer rest]|] eqn:Eh; [|by intros [= <- <-]].
  destruct (match dialed with Some _ => _ | None => _ end); [by intros [= <- <-]|]. case_bool_decide as Hd; [by intros [= <- <-]|].
  destruct (peers r !! peer) as [l|] eqn:Ep; [by intros [= <- <-]|]. cbn zeta.
  match goal with |- context [reader_loop ?n clock draw peer rest ?r1] => destruct (reader_loop n clock draw peer rest r1) as [e1 r2] eqn:El end.
  apply reader_loop_ends in El as (D1 & D2 & Hne & Hs). cbn in D1. rewrite dom_insert_L in D1.
  assert (Hni : peer ∉ dom (peers r)) by (by apply not_elem_of_dom).
  destruct e1 as [| |f]; [done|intros [= <- <-]|intros [= <- <-]].
  - exists peer, rest. split_and!; [done|done|]. cbn. rewrite dom_delete_L, D1. set_solver.
  - exists peer, rest. split_and!; [done|by apply Hs|done|]. intros clock' draw' dialed' bs' rest' Eh'. unfold run_link. rewrite Eh'.
    destruct (match dialed' with Some _ => _ | None => _ end); [done|]. case_bool_decide; [done|].
    assert (is_Some (peers r2 !! peer)) as [l ->] by (apply elem_of_dom; rewrite D1; set_solver). done.
Qed.

(** ** Frames the node builds *)

Lemma take_exact_app xs rest : take_exact (length xs) (xs ++ rest) = Some (xs, rest).
Proof. unfold take_exact. rewrite decide_True by (rewrite length_app; lia). by rewrite take_app_length, drop_app_length. Qed.

(** One turn of the reader on a frame of the protocol. *)
Lemma reader_turn fuel clock draw peer k body rest r : zlen body < FRAME_LIMIT -> (peer ∉ deny r) ->
  reader_loop (S fuel) clock draw peer (frame k body ++ rest) r =
    let n := frames_in (counters r) in
    let r1 := set_peers (peers r) (count_in (5 + zlen body) (counters r)) r in
    match dispatch (clock n) (draw n) peer (k :: body) r1 with
    | None => (LinkPanicked (k :: body), r1)
    | Some r2 => reader_loop fuel clock draw peer rest r2
    end.
Proof.
  intros Hb Hd. unfold FRAME_LIMIT in Hb. pose proof (zlen_nonneg body) as H0. unfold frame.
  assert (Hw : wrap 32 (1 + wrap 32 (zlen body)) = 1 + zlen body) by (rewrite (wrap_small 32 (zlen body)), wrap_small; lia). rewrite Hw.
  cbn [reader_loop]. rewrite <-app_assoc. pose proof (take_exact_app (to_le_bytes 4 (1 + zlen body)) (([k] ++ body) ++ rest)) as E.
  rewrite length_to_le_bytes in E. rewrite E. rewrite from_to_le_bytes by lia.
  destruct (Z.eqb_spec (1 + zlen body) 0); [lia|]. destruct (Z.ltb_spec FRAME_LIMIT (1 + zlen body)); [unfold FRAME_LIMIT in *; lia|]. cbn [orb].
  pose proof (take_exact_app ([k] ++ body) rest) as E2. replace (Z.to_nat (1 + zlen body)) with (length ([k] ++ body)) by (cbn; unfold zlen; lia). rewrite E2.
  rewrite bool_decide_false by done. cbn zeta. replace (4 + (1 + zlen body)) with (5 + zlen body) by lia. done.
Qed.

(** A HELLO reads back. *)
Lemma read_hello_frame id rest : u16_ok id -> read_hello (frame 1 (to_le_bytes 2 id) ++ rest) = Some (id, rest).
Proof.
  intros Hid. unfold read_hello, frame. unfold zlen. rewrite length_to_le_bytes. change (wrap 32 (1 + wrap 32 (Z.of_nat 2))) with 3.
  rewrite <-app_assoc. pose proof (take_exact_app (to_le_bytes 4 3) (([1] ++ to_le_bytes 2 id) ++ rest)) as E. rewrite length_to_le_bytes in E. rewrite E.
  cbn [mbind option_bind]. rewrite from_to_le_bytes by (split; vm_compute; congruence). cbn [Z.eqb Pos.eqb].
  pose proof (take_exact_app ([1] ++ to_le_bytes 2 id) rest) as E2. rewrite length_app, length_to_le_bytes in E2. cbn [length Nat.add] in E2. rewrite E2.
  cbn [mbind option_bind app drop]. rewrite decide_True by done. do 2 f_equal. unfold u16_ok in Hid. by apply from_to_le_bytes.
Qed.
End Reader.

Section RelayWitness.
Import Relay.

(** Three pushes, the third over the mark, with the writer in between. *)
Definition demo_q : link_q :=
  {| lq_chan := []; lq_queued := 3; lq_push := PAdded (str "abc"); lq_out := Some (str "xy"); lq_wire := []; lq_accepted := [str "xy"]; lq_offered := 2; lq_dropped := 0 |}.

Lemma demo_q_run : rtc lq_step lq_start demo_q.
Proof.
  eapply rtc_l; [by apply (LqLoad lq_start (str "xy"))|]. eapply rtc_l; [by eapply LqAdd; [done|vm_compute; congruence]|].
  eapply rtc_l; [by eapply LqSend|]. eapply rtc_l; [by apply (LqLoad _ (str "abc"))|].
  eapply rtc_l; [by apply (LqRecv _ (str "xy") [])|]. eapply rtc_l; [by eapply LqAdd; [done|vm_compute; congruence]|]. apply rtc_refl.
Qed.

Lemma prototype_queue_bounded_witness :
  zsum zlen (lq_chan demo_q) <= lq_queued demo_q <= LINK_HWM_BYTES /\ lq_wire demo_q ++ str "xy" `prefix_of` concat (lq_accepted demo_q).
Proof.
  destruct (prototype_queue_bounded demo_q demo_q_run) as (H1 & _ & _ & H4 & _). split; [exact H1|exact H4].
Defined.

(** A one-byte ECHO_REQ from node 2 kills the reader of node 1. *)
Definition demo_bytes : bytes := frame 1 (to_le_bytes 2 2) ++ frame 2 [].
Definition demo_end : link_end * Relay.t := run_link (fun _ => 0) (fun _ => (0, 0)) None demo_bytes (start 1 ∅).

Lemma prototype_link_ends_witness :
  demo_end.1 = LinkPanicked [2] /\
  exists peer rest, read_hello demo_bytes = Some (peer, rest) /\ short_frame [2] /\ dom (peers demo_end.2) = {[peer]} ∪ dom (peers (start 1 ∅)) /\
    forall clock' draw' dialed' bs' rest', read_hello bs' = Some (peer, rest') -> run_link clock' draw' dialed' bs' demo_end.2 = (LinkRefused, demo_end.2).
Proof.
  split; [vm_compute; reflexivity|].
  apply (prototype_link_ends (fun _ => 0) (fun _ => (0, 0)) None demo_bytes (start 1 ∅) (LinkPanicked [2]) demo_end.2). vm_compute. reflexivity.
Defined.

(** After a failed write the receiver is gone, but the peer is registered until
    its reader ends: a push fails and is counted as sent, not as dropped. *)
Lemma failed_write_counts_as_sent :
  let l := (writer_turn true {| chan := [str "a"]; rx_alive := true; queued_bytes := 1 |}).2 in
  let r := set_peers {[2 := l]} (counters (start 1 ∅)) (start 1 ∅) in
  (push 2 (str "b") r).1 = false /\ frames_out (counters (push 2 (str "b") r).2) = 1 /\ drops (counters (push 2 (str "b") r).2) = 0.
Proof. vm_compute. done. Qed.
End RelayWitness.
