(* ===== verification/ProtoNode.v ===== *)
(** * The prototype node (src/spike/mesh/src/bin/node.rs)

    The admin commands of a prototype node over its membership and relay planes:
    views, fault injection, the paced bench and the routing cell.  A request is
    the command with the fields the code reads of it, each absent or of the type
    asked for; a response is the fields the code puts into it. *)

From S2P Require Import Prelude Text Float Wire Config Limits Addr Swim ProtoSwim ProtoRelay.

(** [fn hosted_rooms]; [None] is the remainder by zero. *)
Definition range (a b : Z) : list Z := seqZ a (b - a).
Definition hosted_rooms (id n per_node : Z) : option (list Z) :=
  if n =? 0 then None
  else
    let rooms := range (wrap 32 (id * per_node)) (wrap 32 (wrap 32 (id + 1) * per_node)) in
    let prev := wrap 16 (id + n - 1) mod n in
    Some (rooms ++ filter (fun r => r mod 10 = 0) (range (wrap 32 (prev * per_node)) (wrap 32 (wrap 32 (prev + 1) * per_node)))).

(** The body of an INTEREST frame. *)
Definition interest_body (rooms : list Z) : bytes := to_le_bytes 4 (wrap 32 (Z.of_nat (length rooms))) ++ concat (map (to_le_bytes 4) rooms).

(** Offering frames to peers, counting those taken. *)
Fixpoint push_all (offers : list (Z * bytes)) (r : Relay.t) : Z * Relay.t :=
  match offers with
  | [] => (0, r)
  | (p, f) :: offers =>
      let '(ok, r) := Relay.push p f r in
      let '(n, r) := push_all offers r in ((if ok : bool then 1 else 0) + n, r)
  end.

(** The peers a publish of [room] goes to. *)
Definition targets (flood : bool) (room : Z) (r : Relay.t) : list Z :=
  if flood then Relay.peers_up r else elements (default ∅ (Relay.interest r !! room)).
Definition publish_offers (flood : bool) (rooms : list Z) (msgs payload : nat) (r : Relay.t) : list (Z * bytes) :=
  flat_map (fun room => concat (replicate msgs (map (fun p => (p, Relay.room_frame room payload)) (targets flood room r)))) rooms.

(** [struct NodeCtx]; the deny set is one set shared by both planes. *)
Record NodeCtx := {
  swim : ProtoSwim.t; relay : Relay.t; load_on : bool; spinners : nat;
  bench_running : bool; bench_sent : Z; bench_dropped : Z;
}.
Definition with_relay (r : Relay.t) (c : NodeCtx) : NodeCtx :=
  {| swim := swim c; relay := r; load_on := load_on c; spinners := spinners c; bench_running := bench_running c; bench_sent := bench_sent c; bench_dropped := bench_dropped c |}.
Definition with_bench (running : bool) (sent dropped : Z) (c : NodeCtx) : NodeCtx :=
  {| swim := swim c; relay := relay c; load_on := load_on c; spinners := spinners c; bench_running := running; bench_sent := sent; bench_dropped := dropped |}.

(** The state [main] sets up: both planes on the loopback ports of the id, one
    empty deny set, nothing running. *)
Definition on_loopback (p : Z) : SocketAddr := {| ip := V4 2130706433; port := p |}.
Definition boot (id base : Z) (seeds : list SocketAddr) (params : rstring) : NodeCtx :=
  {| swim := ProtoSwim.start id (on_loopback (swim_port base id)) seeds (by_name params); relay := Relay.start id ∅; load_on := false; spinners := 0;
     bench_running := false; bench_sent := 0; bench_dropped := 0 |}.

(** [from_str] of an unsigned integer up to [max]. *)
Definition parse_uint (max : Z) (s : rstring) : option Z :=
  let d := match s with b :: d => if b =? 43 then d else s | [] => [] end in
  match d, scan_dec 0 d with
  | [], _ => None
  | _, (v, []) => if v <=? max then Some v else None
  | _, _ => None
  end.
Definition parse_u16 : rstring -> option Z := parse_uint 65535.

(** The command line of [main]: a flag without its value, a number or an address
    that does not parse is a panic ([None]); other words are skipped. *)
Record Args := { a_id : Z; a_base : Z; a_seeds : list SocketAddr; a_params : rstring }.
Definition no_args : Args := {| a_id := 0; a_base := 47000; a_seeds := []; a_params := str "tuned" |}.
Definition read_seeds (v : rstring) : option (list SocketAddr) := mapM parse_socket_addr (filter (fun s => s <> []) (split 44 v)).
Fixpoint read_args (args : list rstring) (a : Args) : option Args :=
  match args with
  | [] => Some a
  | flag :: rest =>
      if decide (flag = str "--id") then
        match rest with
        | v :: rest => id ← parse_u16 v; read_args rest {| a_id := id; a_base := a_base a; a_seeds := a_seeds a; a_params := a_params a |}
        | [] => None
        end
      else if decide (flag = str "--base-port") then
        match rest with
        | v :: rest => base ← parse_u16 v; read_args rest {| a_id := a_id a; a_base := base; a_seeds := a_seeds a; a_params := a_params a |}
        | [] => None
        end
      else if decide (flag = str "--seeds") then
        match rest with
        | v :: rest => seeds ← read_seeds v; read_args rest {| a_id := a_id a; a_base := a_base a; a_seeds := seeds; a_params := a_params a |}
        | [] => None
        end
      else if decide (flag = str "--params") then
        match rest with
        | v :: rest => read_args rest {| a_id := a_id a; a_base := a_base a; a_seeds := a_seeds a; a_params := v |}
        | [] => None
        end
      else read_args rest a
  end.

Inductive request :=
  | CmdMembers | CmdEvents
  | CmdDeny (ids : option (list (option Z)))
  | CmdLoad (on : option bool)
  | CmdSlow (ms : option Z)
  | CmdPeers
  | CmdBenchStart (peer rate payload seconds : option Z)
  | CmdBenchResult
  | CmdAdvertise (nodes rooms_per_node : option Z)
  | CmdPublish (nodes rooms_per_node msgs payload : option Z) (flood : option bool)
  | CmdCounters | CmdAliveCount | CmdPing
  | CmdUnknown (cmd : rstring).

Inductive response :=
  | ROk | RBusy | RUnknown (cmd : rstring)
  | RMembers (self inc : Z) (members : gmap Z rstring) (refutations : Z)
  | REvents (events : list Proto.Event)
  | RPeers (peers : list Z)
  | RBench (done : bool) (sent dropped acked : Z) (hop50 hop99 rtt50 rtt99 : Z)
  | RAdvertised (hosted : Z)
  | RPublished (frames_sent : Z)
  | RCounters (c : Relay.Counters)
  | RAlive (alive : Z).

(** A bench under way: the peer, the payload and the number of requests left. *)
Record bench_plan := { b_peer : Z; b_payload : nat; b_left : nat }.
Definition plan (peer rate payload seconds : Z) : bench_plan :=
  {| b_peer := peer; b_payload := Z.to_nat payload; b_left := Z.to_nat (wrap 64 (seconds * 4000) * Z.max 1 (rate / 4000)) |}.

(** The four percentiles of the bench, in microseconds; [None] is a panic. *)
Definition bench_percentiles (b : Relay.BenchState) : option (Z * Z * Z * Z * Relay.BenchState) :=
  let '(h50, hop) := Reservoir.percentile Reservoir.P50 (Relay.hop b) in
  let '(h99, hop) := Reservoir.percentile Reservoir.P99 hop in
  let '(r50, rtt) := Reservoir.percentile Reservoir.P50 (Relay.rtt b) in
  let '(r99, rtt) := Reservoir.percentile Reservoir.P99 rtt in
  h50 ← h50; h99 ← h99; r50 ← r50; r99 ← r99;
  Some (h50 / 1000, h99 / 1000, r50 / 1000, r99 / 1000,
    {| Relay.hop := hop; Relay.rtt := rtt; Relay.acked := Relay.acked b; Relay.sent := Relay.sent b; Relay.done := Relay.done b |}).

(** [fn handle]: the response, the new state and a bench it starts; [None] is a
    panic of the admin task. *)
Definition handle (req : request) (c : NodeCtx) : option (response * NodeCtx * option bench_plan) :=
  let m := ProtoSwim.membership (swim c) in
  match req with
  | CmdMembers => Some (RMembers (Proto.self_id m) (Proto.self_inc m) ((fun mb => Proto.state_name (m_state mb)) <$> Proto.members m) (Proto.refutations m), c, None)
  | CmdEvents => Some (REvents (Proto.events m), c, None)
  | CmdDeny ids =>
      let d : gset Z := list_to_set (map (wrap 16) (omap id (default [] ids))) in
      Some (ROk, {| swim := ProtoSwim.set_deny d (swim c); relay := Relay.set_inject d (Relay.slow_ms (relay c)) (relay c); load_on := load_on c;
                    spinners := spinners c; bench_running := bench_running c; bench_sent := bench_sent c; bench_dropped := bench_dropped c |}, None)
  | CmdLoad on =>
      let on := default false on in
      Some (ROk, {| swim := swim c; relay := relay c; load_on := on; spinners := if on && negb (load_on c) then S (S (spinners c)) else spinners c;
                    bench_running := bench_running c; bench_sent := bench_sent c; bench_dropped := bench_dropped c |}, None)
  | CmdSlow ms => Some (ROk, with_relay (Relay.set_inject (Relay.deny (relay c)) (default 0 ms) (relay c)) c, None)
  | CmdPeers => Some (RPeers (Relay.peers_up (relay c)), c, None)
  | CmdBenchStart peer rate payload seconds =>
      if bench_running c then Some (RBusy, c, None)
      else
        let fresh := {| Relay.hop := Reservoir.new 100000; Relay.rtt := Reservoir.new 100000; Relay.acked := 0; Relay.sent := 0; Relay.done := false |} in
        Some (ROk, with_bench true 0 0 (with_relay (Relay.set_bench fresh (relay c)) c),
          Some (plan (wrap 16 (default 0 peer)) (default 100000 rate) (default 64 payload) (default 10 seconds)))
  | CmdBenchResult =>
      '(h50, h99, r50, r99, b) ← bench_percentiles (Relay.bench (relay c));
      Some (RBench (negb (bench_running c)) (bench_sent c) (bench_dropped c) (Relay.acked b) h50 h99 r50 r99, with_relay (Relay.set_bench b (relay c)) c, None)
  | CmdAdvertise nodes per =>
      mine ← hosted_rooms (Relay.self_id (relay c)) (wrap 16 (default 5 nodes)) (wrap 32 (default 50 per));
      let f := Relay.frame 5 (interest_body mine) in
      Some (RAdvertised (Z.of_nat (length mine)), with_relay (push_all (map (fun p => (p, f)) (Relay.peers_up (relay c))) (relay c)).2 c, None)
  | CmdPublish nodes per msgs payload flood =>
      mine ← hosted_rooms (Relay.self_id (relay c)) (wrap 16 (default 5 nodes)) (wrap 32 (default 50 per));
      let '(sent, r) := push_all (publish_offers (default false flood) mine (Z.to_nat (default 20 msgs)) (Z.to_nat (default 512 payload)) (relay c)) (relay c) in
      Some (RPublished sent, with_relay r c, None)
  | CmdCounters => Some (RCounters (Relay.counters (relay c)), c, None)
  | CmdAliveCount => Some (RAlive (Z.of_nat (length (filter (fun kv : Z * Member => m_state kv.2 = Alive) (map_to_list (Proto.members m))))), c, None)
  | CmdPing => Some (ROk, c, None)
  | CmdUnknown cmd => Some (RUnknown cmd, c, None)
  end.

(** An admin connection: [decode] and [encode] are serde_json on a line; a line
    that is no JSON is skipped, and [None] is the panic of the task. *)
Fixpoint serve (decode : bytes -> option request) (encode : response -> bytes) (lines : list bytes) (c : NodeCtx)
    : option (list bytes * list bench_plan * NodeCtx) :=
  match lines with
  | [] => Some ([], [], c)
  | line :: lines =>
      match decode line with
      | None => serve decode encode lines c
      | Some req =>
          '(resp, c, b) ← handle req c;
          '(out, bs, c) ← serve decode encode lines c;
          Some ((encode resp ++ [10]) :: out, match b with Some b => b :: bs | None => bs end, c)
      end
  end.

(** One request of [run_bench], and its end. *)
Definition bench_send (now sq : Z) (b : bench_plan) (c : NodeCtx) : NodeCtx :=
  let '(ok, r) := Relay.push (b_peer b) (Relay.echo_req now sq (b_payload b)) (relay c) in
  let c := with_relay r c in
  if ok then with_bench (bench_running c) (wrap 64 (bench_sent c + 1)) (bench_dropped c) c
  else with_bench (bench_running c) (bench_sent c) (wrap 64 (bench_dropped c + 1)) c.
Definition bench_end (c : NodeCtx) : NodeCtx :=
  let b := Relay.bench (relay c) in
  with_bench false (bench_sent c) (bench_dropped c)
    (with_relay (Relay.set_bench {| Relay.hop := Relay.hop b; Relay.rtt := Relay.rtt b; Relay.acked := Relay.acked b; Relay.sent := Relay.sent b; Relay.done := true |} (relay c)) c).

(** ** The routing cell *)

Section Routing.

(** The arguments a node is started with are read back. *)
Lemma parse_u16_dec n : u16_ok n -> parse_u16 (dec n) = Some n.
Proof.
  intros Hn. unfold u16_ok in Hn. pose proof (dec_scan n [] ltac:(lia) I) as Hs. rewrite app_nil_r in Hs.
  pose proof (dec_digits n ltac:(lia)) as [Hd Hne]. unfold parse_u16, parse_uint. destruct (dec n) as [|b d] eqn:Ed; [done|].
  apply Forall_cons in Hd as [Hb _]. unfold is_digit in Hb. bool_facts. rewrite (proj2 (Z.eqb_neq b 43)) by lia. rewrite Hs.
  rewrite (proj2 (Z.leb_le _ _)) by lia. done.
Qed.

Lemma node_args_read id base params : u16_ok id -> u16_ok base ->
  read_args [str "--id"; dec id; str "--base-port"; dec base; str "--seeds"; str "127.0.0.1:47000,127.0.0.1:47010"; str "--params"; params] no_args =
    Some {| a_id := id; a_base := base; a_seeds := [on_loopback 47000; on_loopback 47010]; a_params := params |}.
Proof.
  intros Hi%parse_u16_dec Hb%parse_u16_dec. revert Hi Hb. generalize (dec id), (dec base). intros x y Hx Hy.
  assert (Hs : read_seeds (str "127.0.0.1:47000,127.0.0.1:47010") = Some [on_loopback 47000; on_loopback 47010]) by (vm_compute; reflexivity).
  revert Hs. generalize (str "127.0.0.1:47000,127.0.0.1:47010"). intros v Hv.
  lazy -[parse_u16 read_seeds on_loopback]. rewrite Hx. lazy -[parse_u16 read_seeds on_loopback]. rewrite Hy. lazy -[read_seeds on_loopback]. by rewrite Hv.
Qed.

Definition peers_of (room : Z) (i : gmap Z (gset Z)) : gset Z := default ∅ (i !! room).

Lemma read_rooms_at rooms f off rest : Forall u32_ok rooms -> At f off (concat (map (to_le_bytes 4) rooms) ++ rest) ->
  Relay.read_rooms (length rooms) off f = rooms.
Proof.
  revert off. induction rooms as [|room rooms IH]; intros off Hf HA; [done|]. apply Forall_cons in Hf as [Hr Hf]. cbn [map concat length Relay.read_rooms] in *.
  rewrite <-app_assoc in HA. apply At_slice in HA as [Es HA]. rewrite length_to_le_bytes in Es, HA. rewrite Es, from_to_le_bytes by exact Hr. f_equal. by apply IH.
Qed.

Lemma add_interest_spec peer rooms i room :
  peers_of room (Relay.add_interest peer rooms i) = peers_of room i ∪ (if decide (room ∈ rooms) then {[peer]} else ∅).
Proof.
  unfold Relay.add_interest. revert i. induction rooms as [|x rooms IH]; intros i; cbn [foldl].
  - rewrite decide_False by (apply not_elem_of_nil). set_solver.
  - rewrite IH. unfold peers_of at 1. rewrite lookup_insert. destruct (decide (x = room)) as [->|Hne].
    + rewrite (decide_True (P := room ∈ room :: rooms)) by (by left). cbn. fold (peers_of room i). destruct (decide (room ∈ rooms)); set_solver.
    + fold (peers_of room i). destruct (decide (room ∈ rooms)) as [Hin|Hin].
      * by rewrite (decide_True (P := room ∈ x :: rooms)) by (by right).
      * rewrite (decide_False (P := room ∈ x :: rooms)); [done|]. intros [?|?]%elem_of_cons; done.
Qed.

(** An INTEREST frame teaches the receiver the sender's rooms. *)
Lemma dispatch_interest now draws peer rooms r : Forall u32_ok rooms -> Z.of_nat (length rooms) < 2 ^ 32 ->
  Relay.dispatch now draws peer (5 :: interest_body rooms) r = Some (Relay.set_interest (Relay.add_interest peer rooms (Relay.interest r)) r).
Proof.
  intros Hf Hl. unfold Relay.dispatch, Relay.bytes_at. cbn [lookup list_lookup mbind option_bind Z.eqb Pos.eqb].
  unfold interest_body. rewrite wrap_small by lia.
  pose proof (At_app [5] (to_le_bytes 4 (Z.of_nat (length rooms)) ++ concat (map (to_le_bytes 4) rooms))) as HA. cbn [length app] in HA.
  apply At_slice in HA as [Es HA]. rewrite length_to_le_bytes in Es, HA. rewrite Es. cbn [mbind option_bind]. rewrite from_to_le_bytes by lia. rewrite Nat2Z.id.
  cbn [Nat.add] in HA. epose proof (read_rooms_at rooms _ 5 [] Hf) as Hrr. rewrite app_nil_r in Hrr. by rewrite (Hrr HA).
Qed.

(** The adverts a node has read from its links. *)
Fixpoint hear (now : Z) (draws : Z * Z) (adverts : list (Z * list Z)) (r : Relay.t) : option Relay.t :=
  match adverts with
  | [] => Some r
  | (p, rooms) :: adverts => r ← Relay.dispatch now draws p (5 :: interest_body rooms) r; hear now draws adverts r
  end.

Lemma hear_spec now draws adverts r : Forall (fun a => Forall u32_ok a.2 /\ Z.of_nat (length a.2) < 2 ^ 32) adverts ->
  exists r', hear now draws adverts r = Some r' /\ Relay.peers r' = Relay.peers r /\
    forall room p, p ∈ peers_of room (Relay.interest r') <-> p ∈ peers_of room (Relay.interest r) \/ exists rooms, (p, rooms) ∈ adverts /\ room ∈ rooms.
Proof.
  revert r. induction adverts as [|[q rooms] adverts IH]; intros r Hf.
  - exists r. split_and!; [done|done|]. intros room p. split; [by left|]. by intros [?|(? & ?%not_elem_of_nil & _)].
  - apply Forall_cons in Hf as [[Hr Hl] Hf]. cbn [hear]. rewrite dispatch_interest by done. cbn [mbind option_bind].
    destruct (IH (Relay.set_interest (Relay.add_interest q rooms (Relay.interest r)) r) Hf) as (r' & E & Ep & Hm). exists r'. split_and!; [done|done|].
    intros room p. rewrite Hm. cbn [Relay.interest Relay.set_interest]. rewrite add_interest_spec, elem_of_union. split.
    + intros [[?|Hin]|(rs & Hin & Hr')]; [by left| |right; exists rs; split; [by right|done]].
      destruct (decide (room ∈ rooms)); [|done]. apply elem_of_singleton in Hin as ->. right. exists rooms. split; [by left|done].
    + intros [?|(rs & [[= -> ->]|Hin]%elem_of_cons & Hr')]; [by left; left| |right; by exists rs].
      left. right. rewrite decide_True by done. by apply elem_of_singleton.
Qed.

(** What a publish offers: every message of every hosted room, to its targets. *)
Lemma publish_offers_spec flood rooms msgs payload r p f : (p, f) ∈ publish_offers flood rooms (S msgs) payload r <->
  exists room, room ∈ rooms /\ f = Relay.room_frame room payload /\ p ∈ targets flood room r.
Proof.
  unfold publish_offers. rewrite list_elem_of_In, in_flat_map. setoid_rewrite <-list_elem_of_In. split.
  - intros (room & Hr & Hin). exists room. apply list_elem_of_concat in Hin as (l & Hin & Hl). apply elem_of_replicate_inv in Hl as ->.
    apply list_elem_of_fmap in Hin as (q & [= -> ->] & Hq). done.
  - intros (room & Hr & -> & Ht). exists room. split; [done|]. apply list_elem_of_concat. eexists. split; [|cbn; by left].
    apply list_elem_of_fmap. by exists p.
Qed.

(** The routing cell: after a node has heard its peers' adverts (the INTEREST
    frames they built from the rooms they host), an interest-routed publish offers
    each hosted room's messages to exactly the peers that advertised that room,
    each once per message, and a flooded one to every linked peer. *)
Lemma prototype_routing_exact now draws adverts r rooms msgs payload p f :
  Relay.interest r = ∅ -> Forall (fun a => Forall u32_ok a.2 /\ Z.of_nat (length a.2) < 2 ^ 32) adverts ->
  exists r', hear now draws adverts r = Some r' /\
    ((p, f) ∈ publish_offers false rooms (S msgs) payload r' <->
       exists room hosted, room ∈ rooms /\ f = Relay.room_frame room payload /\ (p, hosted) ∈ adverts /\ room ∈ hosted) /\
    ((p, f) ∈ publish_offers true rooms (S msgs) payload r' <->
       exists room, room ∈ rooms /\ f = Relay.room_frame room payload /\ is_Some (Relay.peers r !! p)) /\
    (forall room, NoDup (targets false room r') /\ NoDup (targets true room r')).
Proof.
  intros Hi Hf. destruct (hear_spec now draws adverts r Hf) as (r' & E & Ep & Hm). exists r'. rewrite !publish_offers_spec. split_and!; [done| | |].
  - unfold targets. split.
    + intros (room & Hr & -> & Ht). rewrite elem_of_elements in Ht. apply Hm in Ht as [Ht|(hosted & Ha & Hh)]; [by rewrite Hi in Ht|]. by exists room, hosted.
    + intros (room & hosted & Hr & -> & Ha & Hh). exists room. split_and!; [done|done|]. rewrite elem_of_elements. apply Hm. right. by exists hosted.
  - unfold targets, Relay.peers_up. rewrite Ep. split.
    + intros (room & Hr & -> & Ht). exists room. split_and!; [done|done|]. apply list_elem_of_fmap in Ht as ([q l] & -> & Hin%elem_of_map_to_list). by exists l.
    + intros (room & Hr & -> & [l Hl]). exists room. split_and!; [done|done|]. apply list_elem_of_fmap. exists (p, l). split; [done|]. by apply elem_of_map_to_list.
  - intros room. split; [apply NoDup_elements|apply NoDup_fst_map_to_list].
Qed.

(** Every request of a bench is counted, sent or dropped. *)
Lemma bench_send_counts now sq b c : u64_ok (bench_sent c + bench_dropped c + 1) -> 0 <= bench_sent c -> 0 <= bench_dropped c ->
  bench_sent (bench_send now sq b c) + bench_dropped (bench_send now sq b c) = bench_sent c + bench_dropped c + 1.
Proof.
  intros Hu Hs Hd. unfold u64_ok in Hu. unfold bench_send. destruct (Relay.push _ _ _) as [[] r]; cbn; rewrite wrap_small; lia.
Qed.
End Routing.

Section NodeCellWitness.

Definition demo_peer : Relay.PeerLink := {| Relay.chan := []; Relay.rx_alive := true; Relay.queued_bytes := 0 |}.
Definition demo_cell (id : Z) : Relay.t :=
  Relay.set_peers (list_to_map (map (fun p => (p, demo_peer)) (filter (fun p => p <> id) (seqZ 0 5)))) (Relay.counters (Relay.start id ∅)) (Relay.start id ∅).
Definition demo_hosted (id : Z) : list Z := default [] (hosted_rooms id 5 50).
Definition demo_adverts (id : Z) : list (Z * list Z) := map (fun p => (p, demo_hosted p)) (filter (fun p => p <> id) (seqZ 0 5)).

Lemma prototype_routing_exact_witness :
  exists r', hear 0 (0, 0) (demo_adverts 1) (demo_cell 1) = Some r' /\
    (((2, Relay.room_frame 60 512) : Z * bytes) ∈ publish_offers false (demo_hosted 1) 20 512 r' <->
       exists room hosted, room ∈ demo_hosted 1 /\ Relay.room_frame 60 512 = Relay.room_frame room 512 /\ (2, hosted) ∈ demo_adverts 1 /\ room ∈ hosted).
Proof.
  destruct (prototype_routing_exact 0 (0, 0) (demo_adverts 1) (demo_cell 1) (demo_hosted 1) 19 512 2 (Relay.room_frame 60 512)) as (r' & E & Hi & _).
  - reflexivity.
  - apply (bool_decide_unpack _). vm_compute. exact I.
  - exists r'. split; [exact E|exact Hi].
Defined.

(** The gate of the routing scenario on five nodes of fifty rooms: a flooded
    publish offers more than five times the frames of an interest-routed one. *)
Example flood_over_interest :
  let offers flood := match hear 0 (0, 0) (demo_adverts 1) (demo_cell 1) with
                      | Some r => Z.of_nat (length (publish_offers flood (demo_hosted 1) 20 0 r))
                      | None => 0
                      end in
  offers false = 200 /\ offers true = 4400.
Proof. vm_compute. done. Qed.
End NodeCellWitness.
