(* ===== verification/Interact.v ===== *)
(** * Interactive programs

    A program that talks to its surroundings and may poll for ever is an
    interaction tree over its events.  Here: what it means for a tree to run in a
    world that answers its events, a runner with fuel for concrete worlds, and the
    rules of a program logic for what holds when a run returns. *)

From ITree Require Export Core.ITreeDefinition.
From S2P Require Import Prelude.

(** Sequencing in the notation of the library: [x ← t; k] and [t ;; k]. *)
#[global] Instance itree_mret {E : Type -> Type} : MRet (itree E) := fun A (a : A) => Ret a.
#[global] Instance itree_mbind {E : Type -> Type} : MBind (itree E) := fun A B (k : A -> itree E B) t => ITree.bind t k.

Section Runs.
Context {E : Type -> Type} {W : Type}.
(** The world answers an event, moving on. *)
Context (answers : forall X, E X -> W -> X -> W -> Prop).

(** [runs_in n t w r w']: in at most [n] nodes the tree returns [r]. *)
Fixpoint runs_in {R} (n : nat) (t : itree' E R) (w : W) (r : R) (w' : W) : Prop :=
  match n with
  | O => False
  | S n =>
      match t with
      | RetF r0 => r0 = r /\ w' = w
      | TauF t => runs_in n (observe t) w r w'
      | VisF e k => exists a w1, answers _ e w a w1 /\ runs_in n (observe (k a)) w1 r w'
      end
  end.

Definition runs {R} (t : itree E R) (w : W) (r : R) (w' : W) : Prop := exists n, runs_in n (observe t) w r w'.

Lemma runs_ret {R} (r0 : R) w r w' : runs (Ret r0) w r w' -> r0 = r /\ w' = w.
Proof. by intros [[|n] Hr]. Qed.

Lemma runs_trigger {R} (e : E R) w r w' : runs (ITree.trigger e) w r w' -> answers _ e w r w'.
Proof. intros [[|[|n]] Hr]; [done|by destruct Hr as (? & ? & _ & [])|]. destruct Hr as (a & w1 & Ha & <- & ->). exact Ha. Qed.

Lemma observe_bind {A R} (t : itree E A) (k : A -> itree E R) :
  observe (ITree.bind t k) = match observe t with
                             | RetF a => observe (k a)
                             | TauF t => TauF (ITree.bind t k)
                             | VisF e ke => VisF e (fun x => ITree.bind (ke x) k)
                             end.
Proof.
  transitivity (observe (match observe t with RetF a => k a | TauF t => Tau (ITree.bind t k) | VisF e ke => Vis e (fun x => ITree.bind (ke x) k) end)); [reflexivity|].
  by destruct (observe t).
Qed.

Lemma runs_in_bind {A R} n (t : itree E A) (k : A -> itree E R) w r w' :
  runs_in n (observe (ITree.bind t k)) w r w' ->
  exists a w1 m, (m <= n)%nat /\ runs_in n (observe t) w a w1 /\ runs_in m (observe (k a)) w1 r w'.
Proof.
  revert t w. induction n as [|n IH]; intros t w Hr; [done|]. rewrite observe_bind in Hr. destruct (observe t) as [a|t0|X e k0] eqn:Et.
  - exists a, w, (S n). split; [done|]. split; [by cbn|exact Hr].
  - destruct (IH t0 w Hr) as (a & w1 & m & Hm & H1 & H2). exists a, w1, m. split; [lia|]. by split.
  - destruct Hr as (x & w0 & Ha & Hr). destruct (IH (k0 x) w0 Hr) as (a & w1 & m & Hm & H1 & H2). exists a, w1, m. split; [lia|]. split; [|done].
    cbn. by exists x, w0.
Qed.

Lemma runs_bind {A R} (t : itree E A) (k : A -> itree E R) w r w' :
  runs (ITree.bind t k) w r w' -> exists a w1, runs t w a w1 /\ runs (k a) w1 r w'.
Proof. intros [n Hr]. destruct (runs_in_bind _ _ _ _ _ _ Hr) as (a & w1 & m & _ & H1 & H2). exists a, w1. split; by eexists. Qed.

(** ** A program logic: [{P} t {Q}] for the runs that return *)

Definition hoare {R} (P : W -> Prop) (t : itree E R) (Q : R -> W -> Prop) : Prop := forall w r w', P w -> runs t w r w' -> Q r w'.

Lemma hoare_ret {R} (r : R) P : hoare P (Ret r) (fun r' w => r' = r /\ P w).
Proof. intros w r' w' Hp Hr. apply runs_ret in Hr as [<- ->]. done. Qed.

Lemma hoare_bind {A R} (t : itree E A) (k : A -> itree E R) P M Q : hoare P t M -> (forall a, hoare (M a) (k a) Q) -> hoare P (t ≫= k) Q.
Proof. intros Ht Hk w r w' Hp Hr. apply runs_bind in Hr as (a & w1 & H1 & H2). eapply Hk; [|exact H2]. by eapply Ht. Qed.

Lemma hoare_conseq {R} (t : itree E R) (P P' : W -> Prop) (Q Q' : R -> W -> Prop) :
  hoare P' t Q' -> (forall w, P w -> P' w) -> (forall r w, Q' r w -> Q r w) -> hoare P t Q.
Proof. intros Ht HP HQ w r w' Hp Hr. apply HQ. eapply Ht; [|exact Hr]. by apply HP. Qed.

Lemma hoare_trigger {R} (e : E R) (P : W -> Prop) Q : (forall w r w', P w -> answers _ e w r w' -> Q r w') -> hoare P (ITree.trigger e) Q.
Proof. intros Ha w r w' Hp Hr. eapply Ha; [done|]. by apply runs_trigger. Qed.

(** A loop keeps its invariant until it leaves. *)
Lemma hoare_iter {R I} (body : I -> itree E (I + R)) (Inv : I -> W -> Prop) Q :
  (forall i, hoare (Inv i) (body i) (fun x w => match x with inl j => Inv j w | inr r => Q r w end)) ->
  forall i, hoare (Inv i) (ITree.iter body i) Q.
Proof.
  intros Hb i w r w' Hp [n Hr]. revert i w Hp Hr. induction (lt_wf n) as [n _ IH]. intros i w Hp Hr.
  change (observe (ITree.iter body i)) with (observe (ITree.bind (body i) (fun lr => match lr with inl l => Tau (ITree.iter body l) | inr r => Ret r end))) in Hr.
  apply runs_in_bind in Hr as (x & w1 & m & Hm & H1 & H2). pose proof (Hb i w x w1 Hp (ex_intro _ n H1)) as Hq. destruct x as [j|r0].
  - destruct m as [|m]; [done|]. apply (IH m ltac:(lia) j w1 Hq). exact H2.
  - destruct m as [|m]; [done|]. destruct H2 as [<- ->]. exact Hq.
Qed.

(** ** Ending: whatever the world answers, the tree returns within [n] nodes *)

Fixpoint ends_in {R} (n : nat) (t : itree' E R) (Q : R -> W -> Prop) (w : W) : Prop :=
  match n with
  | O => False
  | S n =>
      match t with
      | RetF r => Q r w
      | TauF t => ends_in n (observe t) Q w
      | VisF e k => forall a w1, answers _ e w a w1 -> ends_in n (observe (k a)) Q w1
      end
  end.

Lemma ends_mono {R} n m (t : itree' E R) (Q Q' : R -> W -> Prop) w :
  ends_in n t Q w -> (n <= m)%nat -> (forall r w, Q r w -> Q' r w) -> ends_in m t Q' w.
Proof.
  intros He Hle HQ. revert m t w He Hle. induction n as [|n IH]; intros m t w He Hle; [done|]. destruct m as [|m]; [lia|]. cbn in *. destruct t as [r|t|X e k].
  - by apply HQ.
  - apply IH; [done|lia].
  - intros a w1 Ha. apply IH; [by apply He|lia].
Qed.

Lemma ends_bind {A R} n m (t : itree E A) (k : A -> itree E R) Q w :
  ends_in n (observe t) (fun a w1 => ends_in m (observe (k a)) Q w1) w -> ends_in (n + m) (observe (t ≫= k)) Q w.
Proof.
  revert t w. induction n as [|n IH]; intros t w He; [done|]. unfold mbind, itree_mbind. rewrite observe_bind. cbn in He. destruct (observe t) as [a|t0|X e k0].
  - eapply ends_mono; [exact He|lia|done].
  - by apply IH.
  - intros a w1 Ha. by apply IH, He.
Qed.

Lemma ends_ret {R} (r : R) (Q : R -> W -> Prop) w : Q r w -> ends_in 1 (observe (Ret r)) Q w.
Proof. done. Qed.

Lemma ends_trigger {R} (e : E R) (Q : R -> W -> Prop) w : (forall a w', answers _ e w a w' -> Q a w') -> ends_in 2 (observe (ITree.trigger e)) Q w.
Proof. intros Ha a w1 H1. by apply Ha. Qed.

(** A loop whose turns are bounded and decrease a measure ends. *)
Lemma ends_iter {R I} n (body : I -> itree E (I + R)) (V : I -> W -> nat) (Inv : I -> W -> Prop) (Q : R -> W -> Prop) :
  (forall i w, Inv i w -> ends_in n (observe (body i)) (fun x w' => match x with inl j => Inv j w' /\ (V j w' < V i w)%nat | inr r => Q r w' end) w) ->
  forall v i w, (V i w <= v)%nat -> Inv i w -> ends_in ((n + 1) * (v + 1)) (observe (ITree.iter body i)) Q w.
Proof.
  intros Hb v. induction v as [|v IH]; intros i w Hv Hi.
  all: change (observe (ITree.iter body i)) with (observe (body i ≫= (fun lr => match lr with inl l => Tau (ITree.iter body l) | inr r => Ret r end))).
  - replace ((n + 1) * (0 + 1))%nat with (n + 1)%nat by lia. apply ends_bind. eapply ends_mono; [by apply Hb|done|]. intros [j|r] w1; [lia|done].
  - replace ((n + 1) * (S v + 1))%nat with (n + (1 + (n + 1) * (v + 1)))%nat by lia. apply ends_bind. eapply ends_mono; [by apply Hb|done|].
    intros [j|r] w1; [|done]. intros [Hj Hlt]. cbn. apply IH; [lia|done].
Qed.

(** ** Running in a world that computes its answers *)

Context (answer : forall X, E X -> W -> option (X * W)).

Fixpoint exec {R} (n : nat) (t : itree' E R) (w : W) : option (R * W) :=
  match n with
  | O => None
  | S n =>
      match t with
      | RetF r => Some (r, w)
      | TauF t => exec n (observe t) w
      | VisF e k => match answer _ e w with Some (a, w) => exec n (observe (k a)) w | None => None end
      end
  end.

Lemma exec_runs {R} n (t : itree E R) w r w' : (forall X (e : E X) w a w', answer _ e w = Some (a, w') -> answers _ e w a w') ->
  exec n (observe t) w = Some (r, w') -> runs t w r w'.
Proof.
  intros Hsound. assert (Hgen : forall n (t : itree' E R) w, exec n t w = Some (r, w') -> runs_in n t w r w').
  { clear t w. induction n0 as [|n0 IH]; intros t w Ee; [done|]. cbn in Ee |- *. destruct t as [r0|t0|X e k]; [by injection Ee as -> ->|by apply IH|].
    destruct (answer X e w) as [[a w1]|] eqn:Ea; [|done]. exists a, w1. split; [by apply Hsound|by apply IH]. }
  intros Ee. exists n. by apply Hgen.
Qed.

End Runs.
