(* ===== verification/ProtoCoordinator.v ===== *)
(** * The scenario driver of the prototype (src/spike/mesh/src/bin/coordinator.rs)

    The driver spawns node processes, asks them over their admin ports, sleeps,
    and writes a verdict per scenario.  It is a program over those interactions:
    an interaction tree, with the polling loops as [ITree.iter].  The world that
    answers it holds the nodes of [ProtoNode], which move on between any two
    interactions; serde_json between the two is the identity on [response]. *)

From S2P Require Import Prelude Text Float Wire Config Limits Addr Swim ProtoSwim ProtoRelay ProtoNode Interact.

(** [BASE]. *)
Definition BASE : Z := 47000.

(** ** Verdicts and interactions *)

(** The values passed to [write_result], one per scenario. *)
Inductive Verdict :=
  | VConverge (nodes : Z) (params : rstring) (converged_ms : option Z) (pass_lt_2000 : bool)
  | VKill (nodes : Z) (params : rstring) (victim : Z) (per_survivor : list (Z * (option Z * option Z))) (max_detection_ms : option Z) (pass_lt_5000 : bool)
  | VSoak (nodes : Z) (params : rstring) (seconds false_positives suspicions refutations : Z) (pass_zero_fp : bool)
  | VRelay (params : rstring) (rate payload seconds : Z) (result : response) (pass_hop_p99_lt_1ms : bool)
  | VSlowpeer (params : rstring) (rate payload : Z) (healthy_before slow_link healthy_after : response) (probe_max_us : Z) (pass_drops_counted : bool)
  | VRouting (nodes interest_bytes flood_bytes : Z) (ratio : f64) (pass_gt_5x : bool)
  | VPartition (nodes : Z) (params : rstring) (island_a island_b : list Z) (islands_ms : Z) (heal_ms : option Z) (stuck refutations : Z) (pass_zero_stuck : bool).

(** What the driver asks of the system: processes, admin requests, clocks
    ([Instant] in nanoseconds), sleeps, files.  A panic ends the run; the drop of
    the cluster in its unwinding is not followed. *)
Inductive coordE : Type -> Type :=
  | Spawn (args : list rstring) : coordE bool
  | KillChild (id : Z) : coordE unit
  | Admin (port : Z) (req : request) : coordE (option response)
  | SleepMs (ms : Z) : coordE unit
  | Now : coordE Z
  | EpochMs : coordE Z
  | WriteResult (v : Verdict) : coordE unit
  | Panic (msg : rstring) : coordE Empty_set.

Abbreviation prog := (itree coordE).

Definition panic {A} (msg : rstring) : prog A := ITree.bind (ITree.trigger (Panic msg)) (fun x : Empty_set => match x with end).
Definition sleep (ms : Z) : prog unit := ITree.trigger (SleepMs ms).
Definition ms_of (ns : Z) : Z := ns / 1000000.
Definition secs (s : Z) : Z := s * 1000000000.

(** [for x in xs { .. }] with an accumulator, and [all]. *)
Fixpoint for_each {A S} (xs : list A) (body : A -> S -> prog S) (s : S) : prog S :=
  match xs with [] => Ret s | x :: xs => s ← body x s; for_each xs body s end.
Fixpoint all {A} (xs : list A) (test : A -> prog bool) : prog bool :=
  match xs with [] => Ret true | x :: xs => b ← test x; if b : bool then all xs test else Ret false end.

(** ** The cluster *)

(** [struct Cluster]: the ids of the children. *)
Record Cluster := { children : list Z; base : Z }.

Definition node_args (id : Z) (params : rstring) : list rstring :=
  [str "--id"; dec id; str "--base-port"; dec BASE; str "--seeds"; str "127.0.0.1:" ++ dec (swim_port BASE 0); str "--params"; params].

(** [Cluster::spawn], [kill], [ids] and [drop]. *)
Definition spawn (n : Z) (params : rstring) (stagger_ms : Z) : prog Cluster :=
  ids ← for_each (seqZ 0 n) (fun id ids =>
    ok ← ITree.trigger (Spawn (node_args id params));
    if ok : bool then sleep stagger_ms ;; Ret (ids ++ [id]) else panic (str "spawn node")) [];
  Ret {| children := ids; base := BASE |}.
Definition kill_child (id : Z) (c : Cluster) : prog Z :=
  t ← ITree.trigger EpochMs;
  (if bool_decide (id ∈ children c) then ITree.trigger (KillChild id) else Ret tt) ;;
  Ret t.
Definition cluster_ids (c : Cluster) : list Z := children c.
Definition drop_cluster (c : Cluster) : prog unit :=
  for_each (children c) (fun id _ => ITree.trigger (KillChild id)) tt ;; sleep 300.

(** [admin] and [admin_retry]. *)
Definition admin (base id : Z) (req : request) : prog (option response) := ITree.trigger (Admin (admin_port base id) req).
Fixpoint admin_retry (base id : Z) (req : request) (tries : nat) : prog response :=
  match tries with
  | O => panic (str "node " ++ dec id ++ str " admin unreachable")
  | S tries =>
      v ← admin base id req;
      match v with
      | Some v => Ret v
      | None => sleep 50 ;; admin_retry base id req tries
      end
  end.

(** The fields of a response; another response has none of them. *)
Definition members_of (v : response) : gmap Z rstring := match v with RMembers _ _ ms _ => ms | _ => ∅ end.
Definition refutations_of (v : response) : Z := match v with RMembers _ _ _ n => n | _ => 0 end.
Definition events_of (v : response) : list Proto.Event := match v with REvents es => es | _ => [] end.
Definition peers_in (v : response) : option (list Z) := match v with RPeers ps => Some ps | _ => None end.
Definition bytes_out_of (v : response) : Z := match v with RCounters c => Relay.bytes_out c | _ => 0 end.
Definition done_of (v : response) : bool := match v with RBench done _ _ _ _ _ _ _ => done | _ => false end.
Definition dropped_of (v : response) : Z := match v with RBench _ _ dropped _ _ _ _ _ => dropped | _ => 0 end.
Definition hop_p99_of (v : response) : Z := match v with RBench _ _ _ _ _ hop99 _ _ => hop99 | _ => u64_max end.

(** [wait_converged]: one poll of every live node, and the loop around it. *)
Definition sees_alive (live : list Z) (id : Z) (v : response) : bool :=
  forallb (fun other => (other =? id) || bool_decide (members_of v !! other = Some (str "alive"))) live.
Definition poll_converged (base : Z) (live : list Z) : prog bool :=
  all live (fun id =>
    v ← admin base id CmdMembers;
    Ret (match v with Some v => sees_alive live id v | None => false end)).
Definition wait_converged (c : Cluster) (live : list Z) (timeout : Z) : prog (option Z) :=
  t0 ← ITree.trigger Now;
  ITree.iter (fun _ : unit =>
    ok ← poll_converged (base c) live;
    now ← ITree.trigger Now;
    if ok : bool then Ret (inr (Some (ms_of (now - t0))))
    else if timeout <? now - t0 then Ret (inr None)
    else sleep 20 ;; Ret (inl tt)) tt.

(** [.expect(msg)]. *)
Definition expect {A} (msg : rstring) (r : option A) : prog A := match r with Some a => Ret a | None => panic msg end.

(** A polling loop with [pause] between: until [test], or until [limit] is over
    ([poll_until]), or else a failed assertion ([poll_assert]). *)
Definition poll_until (test : prog bool) (pause limit : Z) : prog unit :=
  t0 ← ITree.trigger Now;
  ITree.iter (fun _ : unit =>
    ok ← test;
    if ok : bool then Ret (inr tt)
    else
      now ← ITree.trigger Now;
      if limit <? now - t0 then Ret (inr tt) else sleep pause ;; Ret (inl tt)) tt.
Definition poll_assert (test : prog bool) (pause limit : Z) (msg : rstring) : prog unit :=
  t0 ← ITree.trigger Now;
  ITree.iter (fun _ : unit =>
    ok ← test;
    if ok : bool then Ret (inr tt)
    else
      now ← ITree.trigger Now;
      if now - t0 <? limit then sleep pause ;; Ret (inl tt) else panic msg) tt.

(** ** The scenarios *)

Definition below (limit : Z) (v : option Z) : bool := match v with Some m => m <? limit | None => false end.

(** Every scenario ends with [write_result] and the drop of its cluster. *)
Definition report (run : prog (Cluster * Verdict)) : prog unit :=
  r ← run;
  ITree.trigger (WriteResult r.2) ;;
  drop_cluster r.1.

(** [converge]. *)
Definition converge (n : Z) (params : rstring) : prog (Cluster * Verdict) :=
  c ← spawn n params 100;
  ms ← wait_converged c (cluster_ids c) (secs 10);
  Ret (c, VConverge n params ms (below 2000 ms)).

(** The first suspicion and the first death of [victim] since [t_kill]. *)
Definition detect (t_kill victim : Z) (evs : list Proto.Event) : option Z * option Z :=
  foldl (fun acc e =>
    if (Proto.peer e =? victim) && (t_kill <=? Proto.t_ms e) then
      if decide (Proto.event_state e = str "suspect") then (match acc.1 with None => Some (Proto.t_ms e - t_kill) | t => t end, acc.2)
      else if decide (Proto.event_state e = str "dead") then (acc.1, match acc.2 with None => Some (Proto.t_ms e - t_kill) | t => t end)
      else acc
    else acc) (None, None) evs.
Definition max_of (ts : list Z) : option Z := foldl (fun acc t => Some (match acc with Some m => Z.max m t | None => t end)) None ts.

Definition kill_verdict (n : Z) (params : rstring) (victim : Z) (detections : list (Z * (option Z * option Z))) : Verdict :=
  let max_dead := max_of (omap (fun d : Z * (option Z * option Z) => d.2.2) detections) in
  VKill n params victim detections max_dead (below 5000 max_dead).

(** [kill]. *)
Definition kill (n : Z) (params : rstring) : prog (Cluster * Verdict) :=
  c ← spawn n params 100;
  let live := cluster_ids c in
  r ← wait_converged c live (secs 10);
  expect (str "initial convergence") r ;;
  sleep 2000 ;;
  let victim := wrap 16 (n - 1) in
  t_kill ← kill_child victim c;
  let survivors := filter (fun i => i <> victim) live in
  poll_until (all survivors (fun id =>
    v ← admin (base c) id CmdMembers;
    Ret (match v with Some v => bool_decide (members_of v !! victim = Some (str "dead")) | None => false end))) 20 (secs 30) ;;
  detections ← for_each survivors (fun id acc =>
    ev ← admin_retry (base c) id CmdEvents 3;
    Ret (acc ++ [(id, detect t_kill victim (events_of ev))])) [];
  Ret (c, kill_verdict n params victim detections).

(** [soak]: the events since [t_start] that are deaths and suspicions. *)
Definition count_events (name : rstring) (t_start : Z) (evs : list Proto.Event) : Z :=
  Z.of_nat (length (filter (fun e => t_start <= Proto.t_ms e /\ Proto.event_state e = name) evs)).
Definition soak (n : Z) (params : rstring) (seconds : Z) : prog (Cluster * Verdict) :=
  c ← spawn n params 100;
  let live := cluster_ids c in
  r ← wait_converged c live (secs 10);
  expect (str "initial convergence") r ;;
  for_each live (fun id _ => admin_retry (base c) id (CmdLoad (Some true)) 3 ;; Ret tt) tt ;;
  for_each live (fun id _ =>
    admin_retry (base c) id (CmdBenchStart (Some (wrap 16 (id + 1) mod n)) (Some 20000) (Some 64) (Some seconds)) 3 ;; Ret tt) tt ;;
  t_start ← ITree.trigger EpochMs;
  sleep (seconds * 1000) ;;
  counts ← for_each live (fun id '(dead, suspect, refuted) =>
    ev ← admin_retry (base c) id CmdEvents 3;
    m ← admin_retry (base c) id CmdMembers 3;
    Ret (wrap 64 (dead + count_events (str "dead") t_start (events_of ev)),
         wrap 64 (suspect + count_events (str "suspect") t_start (events_of ev)),
         wrap 64 (refuted + refutations_of m))) (0, 0, 0);
  let '(false_positives, suspicions, refutations) := counts in
  Ret (c, VSoak n params seconds false_positives suspicions refutations (false_positives =? 0)).

(** The loop over [bench_result]: [wait_bench], and the one written out in [relay]. *)
Definition wait_bench (base id : Z) : prog response :=
  ITree.iter (fun _ : unit =>
    sleep 250 ;;
    r ← admin_retry base id CmdBenchResult 3;
    Ret (if done_of r then inr r else inl tt)) tt.

(** [relay]. *)
Definition has_peers (least : Z) (v : option response) : bool :=
  match v with Some v => match peers_in v with Some ps => least <=? Z.of_nat (length ps) | None => false end | None => false end.
Definition bench_start (c : Cluster) (id peer rate payload seconds : Z) : prog response :=
  admin_retry (base c) id (CmdBenchStart (Some peer) (Some rate) (Some payload) (Some seconds)) 3.
Definition relay_cell (params : rstring) (rate payload seconds : Z) : prog (Cluster * Verdict) :=
  c ← spawn 2 params 50;
  r ← wait_converged c (cluster_ids c) (secs 10);
  expect (str "convergence") r ;;
  poll_assert (v ← admin (base c) 1 CmdPeers; Ret (has_peers 1 v)) 50 (secs 10) (str "link never came up") ;;
  bench_start c 1 0 rate payload seconds ;;
  result ← wait_bench (base c) 1;
  Ret (c, VRelay params rate payload seconds result (hop_p99_of result <? 1000)).

(** [slowpeer]. *)
Definition slowpeer (params : rstring) (rate payload : Z) : prog (Cluster * Verdict) :=
  c ← spawn 3 params 50;
  r ← wait_converged c (cluster_ids c) (secs 10);
  expect (str "convergence") r ;;
  poll_assert (v ← admin (base c) 2 CmdPeers; Ret (has_peers 2 v)) 50 (secs 10) (str "links never came up") ;;
  bench_start c 2 1 rate payload 5 ;;
  healthy ← wait_bench (base c) 2;
  admin_retry (base c) 0 (CmdSlow (Some 5)) 3 ;;
  bench_start c 2 0 rate payload 5 ;;
  probe_max ← for_each (seqZ 0 10) (fun _ longest =>
    t ← ITree.trigger Now;
    admin_retry (base c) 2 CmdPing 3 ;;
    now ← ITree.trigger Now;
    sleep 300 ;;
    Ret (Z.max longest ((now - t) / 1000))) 0;
  slow ← wait_bench (base c) 2;
  let drops := dropped_of slow in
  bench_start c 2 1 rate payload 5 ;;
  healthy_after ← wait_bench (base c) 2;
  Ret (c, VSlowpeer params rate payload healthy slow healthy_after probe_max (0 <? drops)).

(** [routing]. *)
Definition sum_bytes (c : Cluster) : prog Z :=
  for_each (cluster_ids c) (fun id total => v ← admin_retry (base c) id CmdCounters 3; Ret (wrap 64 (total + bytes_out_of v))) 0.
Definition publish_all (c : Cluster) (n : Z) (flood : bool) : prog unit :=
  for_each (cluster_ids c) (fun id _ => admin_retry (base c) id (CmdPublish (Some n) (Some 50) (Some 20) (Some 512) (Some flood)) 3 ;; Ret tt) tt.
Definition routing (n : Z) (params : rstring) : prog (Cluster * Verdict) :=
  c ← spawn n params 100;
  let live := cluster_ids c in
  r ← wait_converged c live (secs 10);
  expect (str "convergence") r ;;
  poll_assert (all live (fun id =>
    v ← admin (base c) id CmdPeers;
    Ret (match v with Some v => match peers_in v with Some ps => wrap 16 (Z.of_nat (length ps)) =? wrap 16 (n - 1) | None => false end | None => false end)))
    100 (secs 15) (str "mesh never completed") ;;
  for_each live (fun id _ => admin_retry (base c) id (CmdAdvertise (Some n) (Some 50)) 3 ;; Ret tt) tt ;;
  sleep 500 ;;
  before_interest ← sum_bytes c;
  publish_all c n false ;;
  sleep 500 ;;
  after_interest ← sum_bytes c;
  publish_all c n true ;;
  sleep 500 ;;
  after_flood ← sum_bytes c;
  let interest_bytes := wrap 64 (after_interest - before_interest) in
  let flood_bytes := wrap 64 (after_flood - after_interest) in
  let ratio := fdiv (f64_of flood_bytes) (f64_of (Z.max interest_bytes 1)) in
  Ret (c, VRouting n interest_bytes flood_bytes ratio (fltb (f64_of 5) ratio)).

(** [partition]: a node that holds every other of an island dead; the entries
    that are not alive. *)
Definition sees_dead (others : list Z) (v : response) : bool := forallb (fun o => bool_decide (members_of v !! o = Some (str "dead"))) others.
Definition island_done (c : Cluster) (mine others : list Z) : prog bool :=
  all mine (fun id => v ← admin_retry (base c) id CmdMembers 3; Ret (sees_dead others v)).
Definition stuck_in (v : response) : Z :=
  Z.of_nat (length (filter (fun kv : Z * rstring => kv.2 <> str "alive") (map_to_list (members_of v)))).
Definition deny (c : Cluster) (at_nodes denied : list Z) : prog unit :=
  for_each at_nodes (fun id _ => admin_retry (base c) id (CmdDeny (Some (map Some denied))) 3 ;; Ret tt) tt.
Definition partition (n : Z) (params : rstring) : prog (Cluster * Verdict) :=
  c ← spawn n params 100;
  let live := cluster_ids c in
  r ← wait_converged c live (secs 10);
  expect (str "initial convergence") r ;;
  let island_a := filter (fun i => i < 2) live in
  let island_b := filter (fun i => 2 <= i) live in
  t_split ← ITree.trigger EpochMs;
  deny c island_a island_b ;;
  deny c island_b island_a ;;
  poll_assert (a_done ← island_done c island_a island_b; b_done ← island_done c island_b island_a; Ret (a_done && b_done))
    50 (secs 30) (str "islands never stabilized") ;;
  t_islands ← ITree.trigger EpochMs;
  sleep 2000 ;;
  t_heal ← ITree.trigger EpochMs;
  deny c live [] ;;
  healed ← wait_converged c live (secs 30);
  counts ← for_each live (fun id '(stuck, refuted) =>
    v ← admin_retry (base c) id CmdMembers 3;
    Ret (wrap 64 (stuck + stuck_in v), wrap 64 (refuted + refutations_of v))) (0, 0);
  let '(stuck, refutations) := counts in
  heal_ms ← match healed with Some _ => now ← ITree.trigger EpochMs; Ret (Some (wrap 64 (now - t_heal))) | None => Ret None end;
  Ret (c, VPartition n params island_a island_b (wrap 64 (t_islands - t_split)) heal_ms stuck refutations
    ((stuck =? 0) && bool_decide (is_Some healed))).

(** ** The command line *)

Record Opts := { o_scenario : rstring; o_nodes : Z; o_params : rstring; o_seconds : Z; o_rate : Z; o_payload : Z }.
Definition default_opts : Opts :=
  {| o_scenario := str "converge"; o_nodes := 5; o_params := str "tuned"; o_seconds := 30; o_rate := 100000; o_payload := 64 |}.
Definition set_opt (flag v : rstring) (o : Opts) : option (option Opts) :=
  let u64 := parse_uint u64_max v in
  if decide (flag = str "--scenario") then Some (Some {| o_scenario := v; o_nodes := o_nodes o; o_params := o_params o; o_seconds := o_seconds o; o_rate := o_rate o; o_payload := o_payload o |})
  else if decide (flag = str "--nodes") then Some ((fun x => {| o_scenario := o_scenario o; o_nodes := x; o_params := o_params o; o_seconds := o_seconds o; o_rate := o_rate o; o_payload := o_payload o |}) <$> parse_u16 v)
  else if decide (flag = str "--params") then Some (Some {| o_scenario := o_scenario o; o_nodes := o_nodes o; o_params := v; o_seconds := o_seconds o; o_rate := o_rate o; o_payload := o_payload o |})
  else if decide (flag = str "--seconds") then Some ((fun x => {| o_scenario := o_scenario o; o_nodes := o_nodes o; o_params := o_params o; o_seconds := x; o_rate := o_rate o; o_payload := o_payload o |}) <$> u64)
  else if decide (flag = str "--rate") then Some ((fun x => {| o_scenario := o_scenario o; o_nodes := o_nodes o; o_params := o_params o; o_seconds := o_seconds o; o_rate := x; o_payload := o_payload o |}) <$> u64)
  else if decide (flag = str "--payload") then Some ((fun x => {| o_scenario := o_scenario o; o_nodes := o_nodes o; o_params := o_params o; o_seconds := o_seconds o; o_rate := o_rate o; o_payload := x |}) <$> u64)
  else None.
(** [None] is a panic: a flag without a value, or one that does not parse. *)
Fixpoint read_opts (args : list rstring) (o : Opts) : option Opts :=
  match args with
  | [] => Some o
  | flag :: rest =>
      match set_opt flag [] o, rest with
      | None, _ => read_opts rest o
      | Some _, v :: rest => match set_opt flag v o with Some (Some o) => read_opts rest o | _ => None end
      | Some _, [] => None
      end
  end.

(** [main]; an unknown scenario only prints. *)
Definition main (args : list rstring) : prog unit :=
  match read_opts args default_opts with
  | None => panic (str "called `Option::unwrap()` on a `None` value")
  | Some o =>
      let named (name : string) := bool_decide (o_scenario o = str name) in
      if named "converge" then report (converge (o_nodes o) (o_params o))
      else if named "kill" then report (kill (o_nodes o) (o_params o))
      else if named "soak" then report (soak (o_nodes o) (o_params o) (o_seconds o))
      else if named "relay" then report (relay_cell (o_params o) (o_rate o) (o_payload o) (o_seconds o))
      else if named "slowpeer" then report (slowpeer (o_params o) (o_rate o) (o_payload o))
      else if named "routing" then report (routing (o_nodes o) (o_params o))
      else if named "partition" then report (partition (o_nodes o) (o_params o))
      else Ret tt
  end.

(** ** The world *)

(** What was answered, with the node that answered, and what was written. *)
Inductive Moment := Answered (port : Z) (req : request) (ctx : NodeCtx) | Wrote (v : Verdict).

Record World := { nodes : gmap Z NodeCtx; clock : Z; log : list Moment }.

(** Between two interactions a node does some of the acts of its membership and
    anything with its links, or dies; time passes. *)
Definition node_moves (c c' : NodeCtx) : Prop := exists acts, swim c' = proto_run acts (swim c).
Definition moves (w w' : World) : Prop :=
  clock w <= clock w' /\ log w' = log w /\
  forall port c', nodes w' !! port = Some c' -> exists c, nodes w !! port = Some c /\ node_moves c c'.

Definition with_nodes (ns : gmap Z NodeCtx) (w : World) : World := {| nodes := ns; clock := clock w; log := log w |}.
Definition note (m : Moment) (w : World) : World := {| nodes := nodes w; clock := clock w; log := log w ++ [m] |}.
Definition start_node (a : Args) (w : World) : World :=
  with_nodes (<[admin_port (a_base a) (a_id a) := boot (a_id a) (a_base a) (a_seeds a) (a_params a)]> (nodes w)) w.

(** How the world answers: a spawned process reads its command line and listens
    on its admin port, a request is handled by the node on the port or gets no
    answer (its effect may still happen), a sleep lasts at least as long. *)
Definition answer_step {X} (e : coordE X) : World -> X -> World -> Prop :=
  match e in coordE X return World -> X -> World -> Prop with
  | Spawn args => fun w ok w' => if ok : bool then exists a, read_args args no_args = Some a /\ w' = start_node a w else w' = w
  | KillChild id => fun w _ w' => w' = with_nodes (delete (admin_port BASE id) (nodes w)) w
  | Admin port req => fun w v w' =>
      match v with
      | None => w' = w \/ exists c resp c' b, nodes w !! port = Some c /\ handle req c = Some (resp, c', b) /\ w' = with_nodes (<[port := c']> (nodes w)) w
      | Some resp => exists c c' b, nodes w !! port = Some c /\ handle req c = Some (resp, c', b) /\
          w' = note (Answered port req c) (with_nodes (<[port := c']> (nodes w)) w)
      end
  | SleepMs ms => fun w _ w' => exists t, clock w + ms * 1000000 <= t /\ w' = {| nodes := nodes w; clock := t; log := log w |}
  | Now => fun w t w' => t = clock w /\ w' = w
  | EpochMs => fun w _ w' => w' = w
  | WriteResult v => fun w _ w' => w' = note (Wrote v) w
  | Panic _ => fun _ _ _ => False
  end.
Definition answers X (e : coordE X) (w : World) (a : X) (w' : World) : Prop := exists w1, moves w w1 /\ answer_step e w1 a w'.

(** ** What a verdict says about the nodes *)

Section Verdicts.

(** A program appends to the log; [Φ] relates its result to what it appended. *)
Definition spec {R} (t : prog R) (Φ : R -> list Moment -> Prop) : Prop :=
  forall w r w', runs answers t w r w' -> exists L, log w' = log w ++ L /\ Φ r L.

Lemma spec_conseq {R} (t : prog R) (Φ Ψ : R -> list Moment -> Prop) : spec t Φ -> (forall r L, Φ r L -> Ψ r L) -> spec t Ψ.
Proof. intros Ht Hi w r w' Hr. destruct (Ht w r w' Hr) as (L & El & HL). eauto. Qed.

Lemma spec_ret {R} (r : R) (Φ : R -> list Moment -> Prop) : Φ r [] -> spec (Ret r) Φ.
Proof. intros HΦ w r' w' Hr. apply runs_ret in Hr as [<- ->]. exists []. by rewrite app_nil_r. Qed.

Lemma spec_bind {A R} (t : prog A) (k : A -> prog R) (Φ : A -> list Moment -> Prop) (Ψ : R -> list Moment -> Prop) :
  spec t Φ -> (forall a L1, Φ a L1 -> spec (k a) (fun r L2 => Ψ r (L1 ++ L2))) -> spec (t ≫= k) Ψ.
Proof.
  intros Ht Hk w r w' Hr. apply runs_bind in Hr as (a & w1 & H1 & H2). destruct (Ht _ _ _ H1) as (L1 & E1 & HΦ).
  destruct (Hk a L1 HΦ _ _ _ H2) as (L2 & E2 & HΨ). exists (L1 ++ L2). by rewrite E2, E1, app_assoc.
Qed.

Lemma spec_iter {R I} (body : I -> prog (I + R)) (Ψ : R -> list Moment -> Prop) :
  (forall r L0 L, Ψ r L -> Ψ r (L0 ++ L)) -> (forall i, spec (body i) (fun x L => match x with inl _ => True | inr r => Ψ r L end)) ->
  forall i, spec (ITree.iter body i) Ψ.
Proof.
  intros Hmono Hb i w r w' Hr.
  apply (hoare_iter answers body (fun _ w1 => exists L, log w1 = log w ++ L) (fun r w1 => exists L, log w1 = log w ++ L /\ Ψ r L)) with (i := i) (w := w); [|by exists []; rewrite app_nil_r|done].
  clear i r w' Hr. intros i w1 x w2 (L1 & E1) Hr. destruct (Hb i _ _ _ Hr) as (L2 & E2 & Hx). rewrite E1, <-app_assoc in E2. destruct x as [j|r]; eauto.
Qed.

(** One event: the world moves on, which leaves the log alone, and answers. *)
Lemma spec_event {R} (e : coordE R) (Φ : R -> list Moment -> Prop) :
  (forall w a w', answer_step e w a w' -> exists L, log w' = log w ++ L /\ Φ a L) -> spec (ITree.trigger e) Φ.
Proof. intros He w a w' Hr. apply runs_trigger in Hr as (w1 & (_ & El & _) & Hs). rewrite <-El. by apply He. Qed.

Lemma spec_panic {R} msg (Φ : R -> list Moment -> Prop) : spec (panic msg) Φ.
Proof. intros w r w' Hr. apply runs_bind in Hr as ([] & _). Qed.

Definition silent {R} (r : R) (L : list Moment) : Prop := L = [].

Lemma spec_now : spec (ITree.trigger Now) silent.
Proof. apply spec_event. intros w a w' [_ ->]. exists []. by rewrite app_nil_r. Qed.
Lemma spec_epoch : spec (ITree.trigger EpochMs) silent.
Proof. apply spec_event. intros w a w' ->. exists []. by rewrite app_nil_r. Qed.
Lemma spec_sleep ms : spec (sleep ms) silent.
Proof. apply spec_event. intros w a w' (t & _ & ->). exists []. by rewrite app_nil_r. Qed.

(** A node's answer is what [handle] says of the node. *)
Definition answered_by (id : Z) (req : request) (v : response) (L : list Moment) : Prop :=
  exists c c' b, L = [Answered (admin_port BASE id) req c] /\ handle req c = Some (v, c', b).

Lemma spec_admin id req : spec (admin BASE id req) (fun v L => match v with Some v => answered_by id req v L | None => L = [] end).
Proof.
  apply spec_event. intros w [v|] w'; cbn [answer_step].
  - intros (c & c' & b & Hn & Hh & ->). eexists. split; [done|]. by exists c, c', b.
  - intros Hw. exists []. rewrite app_nil_r. split; [|done]. by destruct Hw as [->|(c & resp & c' & b & _ & _ & ->)].
Qed.

Lemma spec_admin_retry id req tries : spec (admin_retry BASE id req tries) (answered_by id req).
Proof.
  induction tries as [|tries IH]; [apply spec_panic|]. eapply spec_bind; [apply spec_admin|]. intros [v|] L1 HL; [apply spec_ret; by rewrite app_nil_r|].
  subst L1. eapply spec_bind; [apply spec_sleep|]. intros _ L2 ->. exact IH.
Qed.

(** Every element passed its test, each on its own part of the log. *)
Lemma spec_all {A} (xs : list A) (test : A -> prog bool) (Ok : A -> list Moment -> Prop) :
  (forall x L0 L L1, Ok x L -> Ok x (L0 ++ L ++ L1)) -> (forall x, spec (test x) (fun b L => b = true -> Ok x L)) ->
  spec (all xs test) (fun b L => b = true -> forall x, x ∈ xs -> Ok x L).
Proof.
  intros Hmono Ht. induction xs as [|x xs IH]; cbn [all]; [apply spec_ret; by intros _ x Hx%elem_of_nil|].
  eapply spec_bind; [apply Ht|]. intros [] L1 HL; [|by apply spec_ret]. eapply spec_conseq; [exact IH|].
  intros b L2 HL2 Hb y Hy. apply elem_of_cons in Hy as [->|Hy]; [apply (Hmono x []); by apply HL|].
  specialize (HL2 Hb y Hy). pose proof (Hmono y L1 L2 [] HL2) as Hm. by rewrite app_nil_r in Hm.
Qed.

(** A loop over a list that only asks. *)
Lemma spec_for_each {A S} (xs : list A) (body : A -> S -> prog S) (Inv : S -> list Moment -> list A -> Prop) s :
  Inv s [] [] -> (forall x s L done, Inv s L done -> spec (body x s) (fun s' L' => Inv s' (L ++ L') (done ++ [x]))) ->
  spec (for_each xs body s) (fun s' L => Inv s' L xs).
Proof.
  intros H0 Hb. assert (Hgen : forall xs done L s, Inv s L done -> spec (for_each xs body s) (fun s' L' => Inv s' (L ++ L') (done ++ xs))).
  { clear xs s H0. induction xs as [|x xs IH]; intros done L s Hi; cbn [for_each]; [apply spec_ret; by rewrite !app_nil_r|].
    eapply spec_bind; [by apply Hb|]. intros s' L1 Hs. eapply spec_conseq; [exact (IH _ _ _ Hs)|]. intros s2 L2 Hr. by rewrite <-!app_assoc in Hr. }
  apply (Hgen xs [] [] s H0).
Qed.


(** What a node believes of another. *)
Definition believes (c : NodeCtx) (o : Z) (s : MState) : Prop :=
  exists mb, Proto.members (ProtoSwim.membership (swim c)) !! o = Some mb /\ m_state mb = s.

Lemma state_name_inj s s' : Proto.state_name s = Proto.state_name s' -> s = s'.
Proof. by destruct s, s'. Qed.

Lemma members_answer c v c' b o s : handle CmdMembers c = Some (v, c', b) -> members_of v !! o = Some (Proto.state_name s) -> believes c o s.
Proof.
  cbn [handle]. intros [= <- _ _]. cbn [members_of]. rewrite lookup_fmap. intros (mb & Hs & Hm)%fmap_Some. exists mb. split; [done|].
  symmetry in Hs. by apply state_name_inj.
Qed.

(** A node was seen, in [L], that held every other of [others] in state [s]. *)
Definition saw (others : list Z) (s : MState) (id : Z) (L : list Moment) : Prop :=
  exists c, Answered (admin_port BASE id) CmdMembers c ∈ L /\ forall o, o ∈ others -> o <> id -> believes c o s.

Lemma saw_mono others s id L0 L L1 : saw others s id L -> saw others s id (L0 ++ L ++ L1).
Proof. intros (c & Hin & Hc). exists c. split; [set_solver|done]. Qed.

Lemma spec_poll_converged live : spec (poll_converged BASE live) (fun ok L => ok = true -> forall id, id ∈ live -> saw live Alive id L).
Proof.
  apply spec_all; [intros; by apply saw_mono|]. intros id. eapply spec_bind; [apply spec_admin|]. intros [v|] L1 HL; [|by apply spec_ret].
  destruct HL as (c & c' & b & -> & Hh). apply spec_ret. intros Hs. rewrite app_nil_r. exists c. split; [set_solver|]. intros o Ho Hne.
  unfold sees_alive in Hs. rewrite forallb_forall in Hs. specialize (Hs o). rewrite <-list_elem_of_In in Hs. specialize (Hs Ho).
  rewrite (proj2 (Z.eqb_neq _ _)) in Hs by done. cbn [orb] in Hs. apply bool_decide_eq_true in Hs. by eapply members_answer.
Qed.

Lemma spec_wait_converged c live timeout : base c = BASE ->
  spec (wait_converged c live timeout) (fun r L => forall ms, r = Some ms -> forall id, id ∈ live -> saw live Alive id L).
Proof.
  intros Hc. unfold wait_converged. rewrite Hc. eapply spec_bind; [apply spec_now|]. intros t0 L0 ->. cbn [app]. apply spec_iter.
  { intros r L0 L Hr ms -> id Hid. pose proof (saw_mono live Alive id L0 L [] (Hr ms eq_refl id Hid)) as Hm. by rewrite app_nil_r in Hm. }
  intros _. eapply spec_bind; [apply spec_poll_converged|]. intros ok L1 Hok. eapply spec_bind; [apply spec_now|]. intros now L2 ->.
  destruct ok; [apply spec_ret; rewrite !app_nil_r; intros ms _; by apply Hok|]. destruct (_ <? _); [by apply spec_ret|].
  eapply spec_bind; [apply spec_sleep|]. intros _ L3 _. by apply spec_ret.
Qed.

Lemma spec_spawn n params stagger : spec (spawn n params stagger) (fun c L => c = {| children := seqZ 0 n; base := BASE |} /\ L = []).
Proof.
  unfold spawn. eapply spec_bind; [apply (spec_for_each _ _ (fun ids L xs => ids = xs /\ L = [])); [done|]|].
  - intros id ids L xs [-> ->]. eapply spec_bind; [apply (spec_event _ silent)|].
    + intros w ok w' Hs. exists []. rewrite app_nil_r. split; [|done]. destruct ok; [by destruct Hs as (a & _ & ->)|by rewrite Hs].
    + intros [] L1 ->; [|apply spec_panic]. eapply spec_bind; [apply spec_sleep|]. intros _ L2 ->. by apply spec_ret.
  - intros ids L1 [-> ->]. by apply spec_ret.
Qed.

Lemma spec_expect {A} msg (r : option A) : spec (expect msg r) (fun a L => r = Some a /\ L = []).
Proof. destruct r; [by apply spec_ret|apply spec_panic]. Qed.

Lemma spec_deny c at_nodes denied : base c = BASE -> spec (deny c at_nodes denied) (fun _ _ => True).
Proof.
  intros Hc. unfold deny. rewrite Hc. eapply spec_conseq; [apply (spec_for_each _ _ (fun _ _ _ => True)); [done|]|done].
  intros id _ L xs _. eapply spec_bind; [apply spec_admin_retry|]. intros v L1 _. by apply spec_ret.
Qed.

(** The assertion loop leaves only when the test succeeded. *)
Lemma spec_poll_assert test pause limit msg (Ok : list Moment -> Prop) :
  (forall L0 L, Ok L -> Ok (L0 ++ L)) -> spec test (fun b L => b = true -> Ok L) -> spec (poll_assert test pause limit msg) (fun _ L => Ok L).
Proof.
  intros Hmono Ht. eapply spec_bind; [apply spec_now|]. intros t0 L0 ->. apply spec_iter; [intros _; apply Hmono|].
  intros _. eapply spec_bind; [exact Ht|]. intros [] L1 H1; [apply spec_ret; rewrite app_nil_r; by apply H1|].
  eapply spec_bind; [apply spec_now|]. intros now L2 ->. destruct (_ <? _); [|apply spec_panic]. eapply spec_bind; [apply spec_sleep|]. intros _ L3 _. by apply spec_ret.
Qed.

Lemma spec_island_done c mine others : base c = BASE -> spec (island_done c mine others) (fun b L => b = true -> forall id, id ∈ mine -> saw others Dead id L).
Proof.
  intros Hc. unfold island_done. rewrite Hc. apply spec_all; [intros; by apply saw_mono|]. intros id. eapply spec_bind; [apply spec_admin_retry|].
  intros v L1 (x & x' & b & -> & Hh). apply spec_ret. intros Hs. rewrite app_nil_r. exists x. split; [set_solver|]. intros o Ho _.
  unfold sees_dead in Hs. rewrite forallb_forall in Hs. specialize (Hs o). rewrite <-list_elem_of_In in Hs. specialize (Hs Ho).
  apply bool_decide_eq_true in Hs. by eapply members_answer.
Qed.


(** A node was seen whose table holds nothing but live members. *)
Definition saw_clean (id : Z) (L : list Moment) : Prop :=
  exists c, Answered (admin_port BASE id) CmdMembers c ∈ L /\ forall o s, believes c o s -> s = Alive.

(** A table of node ids has at most 2^16 entries. *)
Definition small (m : Moment) : Prop :=
  match m with Answered _ _ c => Z.of_nat (size (Proto.members (ProtoSwim.membership (swim c)))) <= 2 ^ 16 | Wrote _ => True end.

Lemma stuck_answer c v c' b : handle CmdMembers c = Some (v, c', b) ->
  (stuck_in v = 0 -> forall o s, believes c o s -> s = Alive) /\ 0 <= stuck_in v <= Z.of_nat (size (Proto.members (ProtoSwim.membership (swim c)))).
Proof.
  cbn [handle]. intros [= <- _ _]. unfold stuck_in. cbn [members_of]. set (ms := Proto.members _). split.
  - intros Hz o s (mb & Hm & <-). apply state_name_inj. apply dec_stable. intros Hne. assert (Hn : filter (fun kv : Z * rstring => kv.2 <> str "alive") (map_to_list ((fun m => Proto.state_name (m_state m)) <$> ms)) = []) by (apply length_zero_iff_nil; lia).
    assert (Hin : (o, Proto.state_name (m_state mb)) ∈ filter (fun kv : Z * rstring => kv.2 <> str "alive") (map_to_list ((fun m => Proto.state_name (m_state m)) <$> ms))).
    { apply list_elem_of_filter. split; [exact Hne|]. apply elem_of_map_to_list. rewrite lookup_fmap. fold ms in Hm. by rewrite Hm. }
    rewrite Hn in Hin. by apply not_elem_of_nil in Hin.
  - split; [lia|]. apply Nat2Z.inj_le. etrans; [apply length_filter|]. by rewrite length_map_to_list, map_size_fmap.
Qed.

(** The count of [partition]: without overflow, zero only if every node asked had
    a clean table. *)
Lemma spec_count_stuck c live : base c = BASE ->
  spec (for_each live (fun id '(stuck, refuted) =>
      v ← admin_retry (base c) id CmdMembers 3; Ret (wrap 64 (stuck + stuck_in v), wrap 64 (refuted + refutations_of v))) (0, 0))
    (fun s L => Forall small L -> Z.of_nat (length live) <= 2 ^ 16 -> s.1 = 0 -> forall id, id ∈ live -> saw_clean id L).
Proof.
  intros Hc. rewrite Hc. eapply spec_conseq; [apply (spec_for_each _ _ (fun s L xs => Forall small L -> Z.of_nat (length xs) <= 2 ^ 16 ->
    0 <= s.1 <= Z.of_nat (length xs) * 2 ^ 16 /\ (s.1 = 0 -> forall id, id ∈ xs -> saw_clean id L)))|].
  - intros _ _. split; [done|]. intros _ id Hid. by apply not_elem_of_nil in Hid.
  - intros id [stuck refuted] L xs Hinv. eapply spec_bind; [apply spec_admin_retry|]. intros v L1 (x & x' & b & -> & Hh). apply spec_ret.
    rewrite app_nil_r, length_app. cbn [length fst]. intros Hs Hl. apply Forall_app in Hs as [Hs Hx]. apply Forall_cons in Hx as [Hx _]. cbn [small] in Hx.
    destruct (Hinv Hs ltac:(lia)) as [Hr Hz]. cbn [fst] in Hr, Hz. destruct (stuck_answer _ _ _ _ Hh) as [Hclean Hsz].
    change (2 ^ 16) with 65536 in *. rewrite wrap_small by (change (2 ^ 64) with 18446744073709551616; lia).
    split; [lia|]. intros H0 y Hy. apply elem_of_app in Hy as [Hy|Hy].
    + destruct (Hz ltac:(lia) y Hy) as (c0 & Hc0 & Hb). exists c0. split; [set_solver|done].
    + apply list_elem_of_singleton in Hy as ->. exists x. split; [set_solver|]. apply Hclean. lia.
  - intros s L HL Hs Hn Hz. by apply (HL Hs Hn).
Qed.

(** A passing [converge]: every node was seen with all the others alive. *)
Lemma spec_converge n params :
  spec (converge n params) (fun r L => forall ms, r.2 = VConverge n params ms true -> forall id, id ∈ seqZ 0 n -> saw (seqZ 0 n) Alive id L).
Proof.
  eapply spec_bind; [apply spec_spawn|]. intros c L0 [-> ->]. eapply spec_bind; [by apply spec_wait_converged|]. intros [ms|] L1 HL; apply spec_ret; cbn; rewrite ?app_nil_r.
  - intros _ _. by apply (HL ms).
  - intros ms [=].
Qed.

(** A passing [partition]: both islands were seen to hold the other dead, and
    after that every node was seen with all the others alive and nothing stuck. *)
Definition partition_healed (n : Z) (L : list Moment) : Prop :=
  exists L1 L2, L = L1 ++ L2 /\
    (forall id, id ∈ filter (fun i => i < 2) (seqZ 0 n) -> saw (filter (fun i => 2 <= i) (seqZ 0 n)) Dead id L1) /\
    (forall id, id ∈ filter (fun i => 2 <= i) (seqZ 0 n) -> saw (filter (fun i => i < 2) (seqZ 0 n)) Dead id L1) /\
    (forall id, id ∈ seqZ 0 n -> saw (seqZ 0 n) Alive id L2 /\ saw_clean id L2).

Lemma saw_later others s id L0 L : saw others s id L -> saw others s id (L0 ++ L).
Proof. intros Hs. pose proof (saw_mono others s id L0 L [] Hs) as Hm. by rewrite app_nil_r in Hm. Qed.

Lemma spec_partition n params : n <= 2 ^ 16 ->
  spec (partition n params) (fun r L => Forall small L -> (match r.2 with VPartition _ _ _ _ _ _ _ _ pass => pass | _ => false end) = true -> partition_healed n L).
Proof.
  intros Hn. eapply spec_bind; [apply spec_spawn|]. intros c L0 [-> ->]. cbn [cluster_ids children app].
  set (c := {| children := seqZ 0 n; base := BASE |}). assert (Hc : base c = BASE) by done.
  eapply spec_bind; [by apply spec_wait_converged|]. intros r L1 _. eapply spec_bind; [apply spec_expect|]. intros _ L2 [_ ->].
  eapply spec_bind; [apply spec_epoch|]. intros t_split L3 ->. eapply spec_bind; [by apply spec_deny|]. intros _ L4 _.
  eapply spec_bind; [by apply spec_deny|]. intros _ L5 _.
  eapply spec_bind; [apply (spec_poll_assert _ _ _ _ (fun L => (forall id, id ∈ filter (fun i => i < 2) (seqZ 0 n) -> saw (filter (fun i => 2 <= i) (seqZ 0 n)) Dead id L) /\
    (forall id, id ∈ filter (fun i => 2 <= i) (seqZ 0 n) -> saw (filter (fun i => i < 2) (seqZ 0 n)) Dead id L)))|].
  { intros L6 L [H1 H2]. split; intros id Hid; apply saw_later; auto. }
  { eapply spec_bind; [by apply spec_island_done|]. intros a L6 Ha. eapply spec_bind; [by apply spec_island_done|]. intros b L7 Hb. apply spec_ret.
    rewrite app_nil_r. intros [-> ->]%andb_prop. split; intros id Hid; [|by apply saw_later, Hb]. apply (saw_mono _ _ _ []). by apply Ha. }
  intros _ L6 [HA HB]. eapply spec_bind; [apply spec_epoch|]. intros t_islands L7 ->. eapply spec_bind; [apply spec_sleep|]. intros _ L8 ->.
  eapply spec_bind; [apply spec_epoch|]. intros t_heal L9 ->. eapply spec_bind; [by apply spec_deny|]. intros _ L10 _.
  eapply spec_bind; [by apply spec_wait_converged|]. intros healed L11 Hh. eapply spec_bind; [by apply spec_count_stuck|]. intros [stuck refuted] L12 Hst.
  eapply (spec_bind _ _ silent); [destruct healed; [|by apply spec_ret]; eapply spec_bind; [apply spec_epoch|]; intros t L13 ->; by apply spec_ret|].
  intros heal_ms L13 ->. apply spec_ret. cbn [snd]. rewrite !app_nil_r. cbn [app]. intros Hsm [Hz Hs]%andb_prop.
  exists (L1 ++ L4 ++ L5 ++ L6), (L10 ++ L11 ++ L12). split; [by rewrite <-!app_assoc|]. split; [intros id Hid; do 3 apply saw_later; by apply HA|].
  split; [intros id Hid; do 3 apply saw_later; by apply HB|]. intros id Hid. bool_facts. destruct Hs as [ms ->]. split; [apply (saw_mono _ _ _ L10 L11 L12); by apply (Hh ms)|].
  destruct (Hst) with (id := id) as (x & Hx & Hcl); [|rewrite length_seqZ; lia|done|done|exists x; split; [set_solver|done]].
  rewrite !Forall_app in Hsm. by destruct Hsm as (_ & _ & _ & _ & _ & _ & ?).
Qed.

End Verdicts.

(** ** Where the nodes come from *)

Section Origins.

(** A node is a booted one that has done some acts of its membership. *)
Definition origin (c : NodeCtx) : Prop :=
  exists id base seeds params acts, swim c = proto_run acts (ProtoSwim.start id (on_loopback (swim_port base id)) seeds (by_name params)).
Definition sound_moment (m : Moment) : Prop := match m with Answered _ _ c => origin c | Wrote _ => True end.
Definition world_ok (w : World) : Prop := map_Forall (fun _ c => origin c) (nodes w) /\ Forall sound_moment (log w).

Lemma origin_moves c c' : origin c -> node_moves c c' -> origin c'.
Proof.
  intros (id & bs & seeds & params & acts & E) (acts' & E'). exists id, bs, seeds, params, (acts ++ acts'). rewrite E', E. unfold proto_run. by rewrite foldl_app.
Qed.

(** A request changes the membership only by the partition it injects. *)
Lemma handle_moves req c v c' b : handle req c = Some (v, c', b) -> node_moves c c'.
Proof.
  intros E. assert (Hs : swim c' = swim c \/ exists d, swim c' = ProtoSwim.set_deny d (swim c)).
  { destruct req; cbn [handle] in E; try (injection E as _ <- _; eauto).
    all: repeat (break_match_hyp E; try done); try (injection E as _ <- _; by left).
    all: apply bind_Some in E as (x & _ & E); repeat (break_match_hyp E; try done); injection E as _ <- _; by left. }
  destruct Hs as [E1|[d E1]]; [exists []|exists [ADeny d]]; by rewrite E1.
Qed.

Lemma answers_ok X (e : coordE X) w a w' : answers X e w a w' -> world_ok w -> world_ok w'.
Proof.
  intros (w1 & (_ & El & Hm) & Hs) [Hn Hl]. assert (Hok : world_ok w1).
  { split; [|by rewrite El]. intros port c' Hc'. destruct (Hm port c' Hc') as (c & Hc & Hmv). eapply origin_moves; [|exact Hmv]. by apply (Hn port). }
  clear w Hn Hl El Hm. destruct Hok as [Hn Hl].
  assert (Hput : forall port c req v c' b, nodes w1 !! port = Some c -> handle req c = Some (v, c', b) -> map_Forall (fun _ c => origin c) (<[port := c']> (nodes w1))).
  { intros port c req v c' b Hc Hh. apply map_Forall_insert_2; [|done]. eapply origin_moves; [by apply (Hn port c)|by eapply handle_moves]. }
  destruct e as [args|id|port req|ms| | |v|msg]; cbn [answer_step] in Hs.
  - destruct a; [|by subst w']. destruct Hs as (ar & _ & ->). split; [|done]. apply map_Forall_insert_2; [|done]. by exists (a_id ar), (a_base ar), (a_seeds ar), (a_params ar), [].
  - subst w'. split; [by apply map_Forall_delete|done].
  - destruct a as [v|].
    + destruct Hs as (c & c' & b & Hc & Hh & ->). split; [by eapply Hput|]. apply Forall_app. split; [done|]. constructor; [|constructor]. by apply (Hn port).
    + destruct Hs as [->|(c & v & c' & b & Hc & Hh & ->)]; [done|]. split; [by eapply Hput|done].
  - destruct Hs as (t & _ & ->). done.
  - by destruct Hs as [_ ->].
  - by subst w'.
  - subst w'. split; [done|]. apply Forall_app. split; [done|]. by constructor.
  - done.
Qed.

Lemma runs_ok {R} (t : prog R) w r w' : runs answers t w r w' -> world_ok w -> world_ok w'.
Proof.
  intros [n Hr]. revert Hr. generalize (observe t). clear t. intros t. revert t w. induction n as [|n IH]; intros t w Hr Hw; [done|]. cbn in Hr. destruct t as [r0|t|X e k].
  - by destruct Hr as [_ ->].
  - by apply (IH (observe t) w).
  - destruct Hr as (a & w1 & Ha & Hr). apply (IH (observe (k a)) w1 Hr). by eapply answers_ok.
Qed.

(** C40. A passing verdict of the partition scenario means what it says.  Whatever
    the nodes do between the driver's requests, when [partition] reports a pass
    both islands had been seen to hold every node of the other dead, and after
    that every node was seen with all the others alive and with no entry that is
    not alive; and every node the driver was shown is a booted one after acts of
    the membership protocol. *)
Theorem partition_verdict_sound n params w c na pa ia ib im hm st rf w' :
  runs answers (partition n params) w (c, VPartition na pa ia ib im hm st rf true) w' ->
  n <= 2 ^ 16 -> log w = [] -> world_ok w -> Forall small (log w') ->
  partition_healed n (log w') /\ Forall sound_moment (log w').
Proof.
  intros Hr Hn Hl Hw Hs. destruct (runs_ok _ _ _ _ Hr Hw) as [_ Hok]. split; [|exact Hok].
  destruct (spec_partition n params Hn _ _ _ Hr) as (L & E & HL). rewrite Hl in E. cbn [app] in E. subst L. by apply HL.
Qed.

End Origins.

(** ** The polling ends *)

Section Ending.

Lemma admin_clock port req w v w' : answers _ (Admin port req) w v w' -> clock w <= clock w'.
Proof.
  intros (w1 & (Hc & _) & Hs). destruct v; cbn [answer_step] in Hs; [destruct Hs as (c & c' & b & _ & _ & ->); done|].
  by destruct Hs as [->|(c & v & c' & b & _ & _ & ->)].
Qed.

Lemma poll_ends bs live live' w :
  ends_in answers (3 * length live' + 1) (observe (all live' (fun id => v ← admin bs id CmdMembers; Ret (match v with Some v => sees_alive live id v | None => false end))))
    (fun _ w' => clock w <= clock w') w.
Proof.
  revert w. induction live' as [|id live' IH]; intros w; [cbn; lia|]. replace (3 * length (id :: live') + 1)%nat with ((2 + 1) + (3 * length live' + 1))%nat by (cbn [length]; lia).
  cbn [all]. apply ends_bind, ends_bind, ends_trigger. intros v w1 Hc%admin_clock. apply ends_ret.
  assert (Hno : ends_in answers (3 * length live' + 1) (observe (Ret false : prog bool)) (fun _ w' => clock w <= clock w') w1)
    by (apply (ends_mono answers 1 _ _ (fun _ w' => clock w <= clock w')); [exact Hc|lia|done]).
  destruct v as [v|]; [|exact Hno]. destruct (sees_alive live id v); [|exact Hno]. eapply ends_mono; [apply IH|done|]. cbn. intros _ w2. lia.
Qed.

(** The turns left before [timeout], at 20 ms each. *)
Definition turns_left (timeout t0 : Z) (w : World) : nat := Z.to_nat ((timeout - (clock w - t0)) / 20000000 + 1).

Lemma turns_left_less timeout t0 w w1 w2 : clock w <= clock w1 -> clock w1 - t0 <= timeout -> clock w1 + 20000000 <= clock w2 ->
  (turns_left timeout t0 w2 < turns_left timeout t0 w)%nat.
Proof.
  intros H1 H2 H3. unfold turns_left.
  assert ((timeout - (clock w2 - t0)) / 20000000 + 1 <= (timeout - (clock w1 - t0)) / 20000000).
  { rewrite <-(Z.div_add _ 1) by lia. apply Z.div_le_mono; lia. }
  assert ((timeout - (clock w1 - t0)) / 20000000 <= (timeout - (clock w - t0)) / 20000000) by (apply Z.div_le_mono; lia).
  assert (0 <= (timeout - (clock w1 - t0)) / 20000000) by (apply Z.div_pos; lia). lia.
Qed.

(** Waiting for convergence ends, whatever the nodes do and answer: within a
    number of interactions given by the number of nodes and the timeout, at most
    one poll of the nodes every 20 ms until the timeout is over. *)
Lemma wait_converged_ends c live timeout w :
  ends_in answers (2 + (3 * length live + 8) * (Z.to_nat (timeout / 20000000 + 1) + 1)) (observe (wait_converged c live timeout)) (fun _ _ => True) w.
Proof.
  apply ends_bind, ends_trigger. intros t0 w0 (w1 & _ & Ht & ->). subst t0.
  replace (3 * length live + 8)%nat with (((3 * length live + 1) + (2 + 3)) + 1 + 1)%nat by lia.
  apply (ends_mono answers ((((3 * length live + 1) + (2 + 3)) + 1) * (Z.to_nat (timeout / 20000000 + 1) + 1)) _ _ (fun _ _ => True)); [|lia|done].
  apply (ends_iter answers _ _ (fun _ => turns_left timeout (clock w1)) (fun _ _ => True)); [|unfold turns_left; rewrite Z.sub_diag, Z.sub_0_r; lia|done].
  intros _ w2 _. apply ends_bind. eapply ends_mono; [apply poll_ends|done|]. intros ok w3 Hc. apply ends_bind, ends_trigger. intros now w4 (w5 & (Hc5 & _) & -> & ->).
  destruct ok; [eapply (ends_mono answers 1); [|lia|intros ? ? Hq; exact Hq]; exact I|]. destruct (Z.ltb_spec timeout (clock w5 - clock w1)) as [Hlt|Hge];
    [eapply (ends_mono answers 1); [|lia|intros ? ? Hq; exact Hq]; exact I|].
  apply (ends_bind answers 2 1), ends_trigger. intros _ w6 (w7 & (Hc7 & _) & t & Ht & ->). apply ends_ret. split; [done|].
  apply (turns_left_less _ _ _ w5); cbn [clock] in *; lia.
Qed.

End Ending.

(** ** A world that computes its answers *)

Section Computed.

(** During a sleep every node hears a join from every other (the joins of those it
    denies are lost), and concludes a probe of a member it denies. *)
Definition join_acts (now port : Z) (w : World) : list act :=
  omap (fun kv : Z * NodeCtx =>
    if kv.1 =? port then None
    else Some (ARecv now (on_loopback (kv.1 - 2)) (Some (join_packet (ProtoSwim.membership (swim kv.2)))))) (map_to_list (nodes w)).
Definition probe_acts (now : Z) (s : ProtoSwim.t) : list act :=
  match ProtoSwim.probe_send (fun ids => ids) s with
  | Some (Some (pr, _), _) =>
      if bool_decide (ProtoSwim.p_target pr ∈ ProtoSwim.deny s) then [AProbe (fun ids => ids); AVerdict now pr; AEvict (now + 100000)]
      else [AProbe (fun ids => ids)]
  | _ => []
  end.
Definition talk_acts (now port : Z) (w : World) (s : ProtoSwim.t) : list act :=
  let joins := join_acts now port w in joins ++ probe_acts now (proto_run joins s).
Definition talk (w : World) : World :=
  with_nodes (map_imap (fun port c =>
    Some {| swim := proto_run (talk_acts (ms_of (clock w)) port w (swim c)) (swim c); relay := relay c; load_on := load_on c; spinners := spinners c;
            bench_running := bench_running c; bench_sent := bench_sent c; bench_dropped := bench_dropped c |}) (nodes w)) w.

Definition answer X (e : coordE X) : World -> option (X * World) :=
  match e in coordE X return World -> option (X * World) with
  | Spawn args => fun w => match read_args args no_args with Some a => Some (true, start_node a w) | None => Some (false, w) end
  | KillChild id => fun w => Some (tt, with_nodes (delete (admin_port BASE id) (nodes w)) w)
  | Admin port req => fun w =>
      match nodes w !! port with
      | Some c => match handle req c with Some (resp, c', _) => Some (Some resp, note (Answered port req c) (with_nodes (<[port := c']> (nodes w)) w)) | None => Some (None, w) end
      | None => Some (None, w)
      end
  | SleepMs ms => fun w => Some (tt, {| nodes := nodes (talk w); clock := clock w + Z.max 0 ms * 1000000; log := log w |})
  | Now => fun w => Some (clock w, w)
  | EpochMs => fun w => Some (ms_of (clock w), w)
  | WriteResult v => fun w => Some (tt, note (Wrote v) w)
  | Panic _ => fun _ => None
  end.

Lemma moves_refl w : moves w w.
Proof. split; [lia|]. split; [done|]. intros port c Hc. exists c. split; [done|]. by exists []. Qed.

Lemma talk_moves w : moves w (talk w).
Proof.
  split; [cbn; lia|]. split; [done|]. intros port c'. cbn [talk with_nodes nodes]. rewrite map_lookup_imap. intros (c & Hc & [= <-])%bind_Some.
  exists c. split; [done|]. eexists. cbn [swim]. done.
Qed.

Lemma answer_sound X (e : coordE X) w a w' : answer X e w = Some (a, w') -> answers X e w a w'.
Proof.
  destruct e as [args|id|port req|ms| | |v|msg]; cbn [answer]; intros E.
  4: { injection E as <- <-. exists (talk w). split; [apply talk_moves|]. exists (clock w + Z.max 0 ms * 1000000). split; [cbn; lia|done]. }
  all: exists w; split; [apply moves_refl|].
  - destruct (read_args args no_args) as [ar|] eqn:Er; injection E as <- <-; cbn; eauto.
  - injection E as <- <-. done.
  - destruct (nodes w !! port) as [c|] eqn:En; [|injection E as <- <-; by left].
    destruct (handle req c) as [[[resp c'] b]|] eqn:Eh; injection E as <- <-; cbn; [by exists c, c', b|by left].
  - by injection E as <- <-.
  - by injection E as _ <-.
  - by injection E as _ <-.
  - done.
Qed.

Definition empty_world : World := {| nodes := ∅; clock := 0; log := [] |}.

(** A run of [partition] on three nodes passes: two islands, then healed. *)
Definition demo_verdict : Verdict := VPartition 3 (str "tuned") [0; 1] [2] 100 (Some 40) 0 3 true.
Lemma partition_demo :
  match exec answer 3000 (observe (partition 3 (str "tuned"))) empty_world with
  | Some ((_, v), w) => v = demo_verdict /\ length (log w) = 24%nat /\
      forallb (fun m => match m with Answered _ _ c => Z.of_nat (size (Proto.members (ProtoSwim.membership (swim c)))) <=? 2 ^ 16 | Wrote _ => true end) (log w) = true
  | None => False
  end.
Proof. vm_compute. done. Qed.

(** The time [converge] reports starts after the last spawn: here the nodes were
    started 100 ms apart, and 0 ms are reported 300 ms after the first spawn. *)
Example converge_excludes_stagger :
  match exec answer 3000 (observe (converge 3 (str "tuned"))) empty_world with
  | Some ((_, VConverge _ _ ms pass), w) => Some (ms, pass, ms_of (clock w))
  | _ => None
  end = Some (Some 0, true, 300).
Proof. vm_compute. reflexivity. Qed.

(** [kill] passes when a survivor never marked the victim dead: the maximum is
    over the survivors that did. *)
Example kill_ignores_silent_survivor :
  kill_verdict 4 (str "tuned") 3 [(0, (Some 900, Some 2400)); (1, (None, None)); (2, (Some 1000, None))] =
    VKill 4 (str "tuned") 3 [(0, (Some 900, Some 2400)); (1, (None, None)); (2, (Some 1000, None))] (Some 2400) true.
Proof. vm_compute. reflexivity. Qed.

(** The relay cell passes when not one echo came back: the percentile of an empty
    reservoir is 0. *)
Example relay_passes_without_acks :
  let c := boot 1 BASE [] (str "tuned") in
  match handle CmdBenchResult c with Some (r, _, _) => Some (r, hop_p99_of r <? 1000) | None => None end = Some (RBench true 0 0 0 0 0 0 0, true).
Proof. vm_compute. reflexivity. Qed.

Lemma partition_verdict_sound_witness : exists c w',
  runs answers (partition 3 (str "tuned")) empty_world (c, demo_verdict) w' /\ length (log w') = 24%nat /\
  partition_healed 3 (log w') /\ Forall sound_moment (log w').
Proof.
  pose proof partition_demo as Hd. destruct (exec answer 3000 (observe (partition 3 (str "tuned"))) empty_world) as [[[c v] w']|] eqn:E; [|destruct Hd].
  assert (Hr : runs answers (partition 3 (str "tuned")) empty_world (c, v) w') by (eapply exec_runs; [apply answer_sound|exact E]).
  destruct Hd as (-> & Hlen & Hsm). exists c, w'. split; [exact Hr|]. split; [exact Hlen|]. apply (partition_verdict_sound _ _ _ _ _ _ _ _ _ _ _ _ _ Hr).
  - discriminate.
  - reflexivity.
  - by split.
  - apply Forall_forall. intros m Hm. rewrite forallb_forall in Hsm. apply list_elem_of_In in Hm. specialize (Hsm m Hm). destruct m; [|done]. by apply Z.leb_le in Hsm.
Defined.

End Computed.
