(* ===== verification/Interest.v ===== *)
(** * Interest routing (crates/mesh/src/interest.rs)

    Which rooms and users each node hosts, spread as sequenced edges and repaired
    by digests and snapshots, and the decision which peers a relay goes to.  A
    [BTreeSet<String>] is a finite set listed in byte order. *)

From S2P Require Import Prelude Wire Rooms MeshWire MembershipSync.

(** [enum Target] and [enum Routing]. *)
Inductive Target := TRoom (r : rstring) | TUser (u : rstring).
Inductive Routing := RouteInterest | RouteFlood.

#[global] Instance Target_eq_dec : EqDecision Target.
Proof. solve_decision. Defined.

(** Byte order on strings, and a set listed in it. *)
Definition bytes_le (a b : bytes) : Prop := bytes_cmp a b <> Gt.
#[global] Instance bytes_le_dec a b : Decision (bytes_le a b).
Proof. unfold bytes_le. destruct (bytes_cmp a b); [left|left|right]; congruence. Defined.
Definition sorted_items (s : gset rstring) : list rstring := merge_sort bytes_le (elements s).

(** [fn fnv1a64]. *)
Definition fnv1a64 (data : bytes) : Z :=
  foldl (fun h b => wrap 64 (Z.lxor h b * 1099511628211)) 14695981039346656037 data.

(** [struct OriginInterest]. *)
Record OriginInterest := { seq : Z; rooms : gset rstring; users : gset rstring }.

#[global] Instance OriginInterest_eq_dec : EqDecision OriginInterest.
Proof. solve_decision. Defined.

(** [OriginInterest::default]. *)
Definition no_interest : OriginInterest := {| seq := 0; rooms := ∅; users := ∅ |}.

(** [OriginInterest::hosts]. *)
Definition hosts (o : OriginInterest) (t : Target) : bool :=
  match t with TRoom r => bool_decide (r ∈ rooms o) | TUser u => bool_decide (u ∈ users o) end.

(** The buffer [OriginInterest::hash] hashes, and the hash. *)
Definition hash_input (o : OriginInterest) : bytes :=
  concat (map (fun r => [1] ++ put_str r) (sorted_items (rooms o))) ++
  concat (map (fun u => [2] ++ put_str u) (sorted_items (users o))).
Definition hash (o : OriginInterest) : Z := fnv1a64 (hash_input o).

(** [struct InterestEdge], [struct InterestSnapshot], [DigestEntry] and
    [struct InterestCounters]. *)
Record InterestEdge := { e_origin : Z; e_seq : Z; e_add : bool; e_target : Target }.
Record InterestSnapshot := { s_origin : Z; s_seq : Z; s_rooms : list rstring; s_users : list rstring }.
Definition DigestEntry : Type := Z * Z * Z.
Record InterestCounters := { interest_in : Z; interest_out : Z; seq_drops : Z; digest_repairs : Z }.

Module InterestState.

(** [struct InterestState]. *)
Record t := {
  self_id : Z;
  local : OriginInterest;
  remote : gmap Z OriginInterest;
  routing : Routing;
  counters : InterestCounters;
}.

(** [InterestState::new] and [set_routing]. *)
Definition new (id : Z) (r : Routing) : t :=
  {| self_id := id; local := no_interest; remote := ∅; routing := r;
     counters := {| interest_in := 0; interest_out := 0; seq_drops := 0; digest_repairs := 0 |} |}.
Definition set_routing (r : Routing) (st : t) : t :=
  {| self_id := self_id st; local := local st; remote := remote st; routing := r; counters := counters st |}.

Definition set_remote (m : gmap Z OriginInterest) (c : InterestCounters) (st : t) : t :=
  {| self_id := self_id st; local := local st; remote := m; routing := routing st; counters := c |}.

Definition count_in (c : InterestCounters) : InterestCounters :=
  {| interest_in := wrap 64 (interest_in c + 1); interest_out := interest_out c; seq_drops := seq_drops c; digest_repairs := digest_repairs c |}.
Definition count_out (c : InterestCounters) : InterestCounters :=
  {| interest_in := interest_in c; interest_out := wrap 64 (interest_out c + 1); seq_drops := seq_drops c; digest_repairs := digest_repairs c |}.
Definition count_drop (c : InterestCounters) : InterestCounters :=
  {| interest_in := interest_in c; interest_out := interest_out c; seq_drops := wrap 64 (seq_drops c + 1); digest_repairs := digest_repairs c |}.
Definition count_repair (c : InterestCounters) : InterestCounters :=
  {| interest_in := interest_in c; interest_out := interest_out c; seq_drops := seq_drops c; digest_repairs := wrap 64 (digest_repairs c + 1) |}.

(** [InterestState::table_size]. *)
Definition table_size (st : t) : nat :=
  size (rooms (local st)) + size (users (local st)) +
  foldr (fun kv acc => size (rooms kv.2) + size (users kv.2) + acc)%nat 0%nat (map_to_list (remote st)).

(** Insert or remove the target in the set it names. *)
Definition edit (add : bool) (tg : Target) (o : OriginInterest) : OriginInterest :=
  match tg with
  | TRoom r => {| seq := seq o; rooms := if add then rooms o ∪ {[r]} else rooms o ∖ {[r]}; users := users o |}
  | TUser u => {| seq := seq o; rooms := rooms o; users := if add then users o ∪ {[u]} else users o ∖ {[u]} |}
  end.
Definition with_seq (n : Z) (o : OriginInterest) : OriginInterest := {| seq := n; rooms := rooms o; users := users o |}.

(** [InterestState::local_set]. *)
Definition local_set (tg : Target) (hosting : bool) (st : t) : option InterestEdge * t :=
  let changed := negb (Bool.eqb (hosts (local st) tg) hosting) in
  if negb changed then (None, st)
  else
    let l := with_seq (wrap 64 (seq (local st) + 1)) (edit hosting tg (local st)) in
    (Some {| e_origin := self_id st; e_seq := seq l; e_add := hosting; e_target := tg |},
     {| self_id := self_id st; local := l; remote := remote st; routing := routing st; counters := count_out (counters st) |}).

(** [InterestState::apply_edge]. *)
Definition apply_edge (e : InterestEdge) (st : t) : bool * t :=
  if e_origin e =? self_id st then (false, st)
  else
    let o := default no_interest (remote st !! e_origin e) in
    if e_seq e <=? seq o then (false, set_remote (<[e_origin e := o]> (remote st)) (count_drop (counters st)) st)
    else
      (true, set_remote (<[e_origin e := edit (e_add e) (e_target e) (with_seq (e_seq e) o)]> (remote st)) (count_in (counters st)) st).

(** [InterestState::apply_snapshot]. *)
Definition apply_snapshot (s : InterestSnapshot) (st : t) : bool * t :=
  if s_origin s =? self_id st then (false, st)
  else
    let cur := remote st !! s_origin s in
    let accept := match cur with Some o => seq o <=? s_seq s | None => true end in
    if negb accept then (false, st)
    else
      let replacement := {| seq := s_seq s; rooms := list_to_set (s_rooms s); users := list_to_set (s_users s) |} in
      let changed := negb (bool_decide (cur = Some replacement)) in
      let c := if changed then count_repair (counters st) else counters st in
      (changed, set_remote (<[s_origin s := replacement]> (remote st)) (count_in c) st).

(** [InterestState::sweep_origin] and [known_origins]. *)
Definition sweep_origin (origin : Z) (st : t) : t := set_remote (delete origin (remote st)) (counters st) st.
Definition known_origins (st : t) : list Z := (map_to_list (remote st)).*1.

(** [fn snapshot_of] and [InterestState::local_snapshot]. *)
Definition snapshot_of (origin : Z) (o : OriginInterest) : InterestSnapshot :=
  {| s_origin := origin; s_seq := seq o; s_rooms := sorted_items (rooms o); s_users := sorted_items (users o) |}.
Definition local_snapshot (st : t) : InterestSnapshot := snapshot_of (self_id st) (local st).

(** [InterestState::build_digest]. *)
Definition build_digest (st : t) : list DigestEntry :=
  (self_id st, seq (local st), hash (local st)) ::
  map (fun kv : Z * OriginInterest => (kv.1, seq kv.2, hash kv.2)) (map_to_list (remote st)).

(** The peer's digest as a map from origin to [(seq, hash)]. *)
Definition digest_map (peer : list DigestEntry) : gmap Z (Z * Z) :=
  foldl (fun m '(o, s, h) => <[o := (s, h)]> m) ∅ peer.

(** [InterestState::respond_to_digest]. *)
Definition respond_to_digest (peer : list DigestEntry) (st : t) : list InterestSnapshot :=
  let pm := digest_map peer in
  let mine := (seq (local st), hash (local st)) in
  let send_self :=
    match pm !! self_id st with
    | None => negb (bool_decide (rooms (local st) = ∅)) || negb (bool_decide (users (local st) = ∅)) || (0 <? seq (local st))
    | Some p => negb (bool_decide (p = mine))
    end in
  let ahead (kv : Z * OriginInterest) :=
    match pm !! kv.1 with None => 0 <? seq kv.2 | Some (pseq, _) => pseq <? seq kv.2 end in
  (if send_self then [local_snapshot st] else []) ++
  map (fun kv => snapshot_of kv.1 kv.2) (filter (fun kv => ahead kv = true) (map_to_list (remote st))).

(** [InterestState::interested_peers]; [alive] is the caller's alive set. *)
Definition interested_peers (tg : Target) (alive : gset Z) (st : t) : list Z :=
  match routing st with
  | RouteFlood => merge_sort Z.le (elements (alive ∖ {[self_id st]}))
  | RouteInterest =>
      merge_sort Z.le
        (filter (fun kv : Z * OriginInterest => kv.1 ∈ alive /\ hosts kv.2 tg = true) (map_to_list (remote st))).*1
  end.

End InterestState.

(** ** The wire codec *)

Definition U_EDGE : Z := 1.
Definition U_SNAPSHOT : Z := 2.
Definition T_ROOM : Z := 1.
Definition T_USER : Z := 2.

(** [enum InterestUpdate]. *)
Inductive InterestUpdate := Edge (e : InterestEdge) | Snapshot (s : InterestSnapshot).

(** [fn put_target] and [fn get_target]. *)
Definition put_target (t : Target) : bytes :=
  match t with TRoom r => [T_ROOM] ++ put_str r | TUser u => [T_USER] ++ put_str u end.
Definition get_target (buf : bytes) (off : nat) : option (Target * nat) :=
  '(kind, off) ← get_u8 buf off;
  '(s, off) ← get_str buf off;
  if kind =? T_ROOM then Some (TRoom s, off) else if kind =? T_USER then Some (TUser s, off) else None.

Module InterestWire.

(** [InterestUpdate::encode]. *)
Definition encode (u : InterestUpdate) : bytes :=
  match u with
  | Edge e => [U_EDGE] ++ to_le_bytes 2 (e_origin e) ++ to_le_bytes 8 (e_seq e) ++ [Z.b2z (e_add e)] ++ put_target (e_target e)
  | Snapshot s => [U_SNAPSHOT] ++ to_le_bytes 2 (s_origin s) ++ to_le_bytes 8 (s_seq s) ++ put_strs (s_rooms s) ++ put_strs (s_users s)
  end.

(** [InterestUpdate::decode]. *)
Definition decode (body : bytes) : option InterestUpdate :=
  '(sub, off) ← get_u8 body 0;
  '(origin, off) ← get_le 2 body off;
  '(sq, off) ← get_le 8 body off;
  if sub =? U_EDGE then
    '(add, off) ← get_u8 body off;
    '(tg, off) ← get_target body off;
    Some (Edge {| e_origin := origin; e_seq := sq; e_add := negb (add =? 0); e_target := tg |})
  else if sub =? U_SNAPSHOT then
    '(rs, off) ← get_strs body off;
    '(us, off) ← get_strs body off;
    Some (Snapshot {| s_origin := origin; s_seq := sq; s_rooms := rs; s_users := us |})
  else None.

(** One entry of a digest. *)
Definition put_digest_entry (e : DigestEntry) : bytes :=
  let '(o, s, h) := e in to_le_bytes 2 o ++ to_le_bytes 8 s ++ to_le_bytes 8 h.
Definition get_digest_entry (buf : bytes) (off : nat) : option (DigestEntry * nat) :=
  '(o, off) ← get_le 2 buf off; '(s, off) ← get_le 8 buf off; '(h, off) ← get_le 8 buf off; Some ((o, s, h), off).

(** [fn encode_digest] and [fn decode_digest]. *)
Definition encode_digest (es : list DigestEntry) : bytes := put_list16 put_digest_entry es.
Definition decode_digest (body : bytes) : option (list DigestEntry) :=
  '(es, _) ← get_list16 get_digest_entry body 0; Some es.

End InterestWire.

(** ** The codecs round-trip *)

Definition target_ok (t : Target) : Prop := match t with TRoom s | TUser s => str_ok s end.

Lemma get_put_target buf off t rest :
  target_ok t -> At buf off (put_target t ++ rest) -> exists off', get_target buf off = Some (t, off') /\ At buf off' rest.
Proof.
  intros Ht HA. unfold get_target. destruct t as [s|s]; cbn [put_target app target_ok] in HA, Ht;
    apply get_u8_At in HA as [-> HA]; cbn [mbind option_bind];
    destruct (get_put_str _ _ _ _ Ht HA) as (o & -> & HA'); cbn [mbind option_bind]; exists o; done.
Qed.

Definition interest_ok (u : InterestUpdate) : Prop :=
  match u with
  | Edge e => u16_ok (e_origin e) /\ u64_ok (e_seq e) /\ target_ok (e_target e)
  | Snapshot s =>
      u16_ok (s_origin s) /\ u64_ok (s_seq s) /\ Forall str_ok (s_rooms s) /\ Forall str_ok (s_users s) /\
      Z.of_nat (length (s_rooms s)) < 2 ^ 16 /\ Z.of_nat (length (s_users s)) < 2 ^ 16
  end.

Lemma interest_update_roundtrip u extra : interest_ok u -> InterestWire.decode (InterestWire.encode u ++ extra) = Some u.
Proof.
  intros Hok. pose proof (At_start (InterestWire.encode u ++ extra)) as HA. revert HA.
  generalize (InterestWire.encode u ++ extra) at 1 3. intros buf HA. unfold InterestWire.decode.
  destruct u as [e|s]; cbn [InterestWire.encode] in HA; rewrite <-!app_assoc in HA; cbn [app] in HA;
    apply get_u8_At in HA as [-> HA]; cbn [mbind option_bind]; destruct Hok as (Ho & Hs & Hok);
    (apply get_le_At in HA as [-> HA]; [|exact Ho]); cbn [mbind option_bind];
    (apply get_le_At in HA as [-> HA]; [|exact Hs]); cbn [mbind option_bind].
  - change (U_EDGE =? U_EDGE) with true. cbv iota. apply get_u8_At in HA as [-> HA]. cbn [mbind option_bind].
    destruct (get_put_target _ _ _ _ Hok HA) as (o & -> & _). cbn [mbind option_bind]. by destruct e as [? ? [] ?].
  - change (U_SNAPSHOT =? U_EDGE) with false. change (U_SNAPSHOT =? U_SNAPSHOT) with true. cbv iota.
    destruct Hok as (Hr & Hu & Lr & Lu). destruct (get_put_strs _ _ _ _ Hr Lr HA) as (o & -> & HA'). cbn [mbind option_bind].
    destruct (get_put_strs _ _ _ _ Hu Lu HA') as (o' & -> & _). cbn [mbind option_bind]. by destruct s.
Qed.

Definition digest_entry_ok (e : DigestEntry) : Prop := u16_ok e.1.1 /\ u64_ok e.1.2 /\ u64_ok e.2.

Lemma get_put_digest_entry buf off e rest :
  digest_entry_ok e -> At buf off (InterestWire.put_digest_entry e ++ rest) ->
  exists off', InterestWire.get_digest_entry buf off = Some (e, off') /\ At buf off' rest.
Proof.
  destruct e as [[o s] h]. intros (Ho & Hs & Hh) HA. cbn [InterestWire.put_digest_entry] in HA. rewrite <-!app_assoc in HA.
  unfold InterestWire.get_digest_entry.
  apply get_le_At in HA as [-> HA]; [|exact Ho]. cbn [mbind option_bind].
  apply get_le_At in HA as [-> HA]; [|exact Hs]. cbn [mbind option_bind].
  apply get_le_At in HA as [-> HA]; [|exact Hh]. cbn [mbind option_bind]. by eexists.
Qed.

Lemma digest_roundtrip digest extra : Forall digest_entry_ok digest -> Z.of_nat (length digest) < 2 ^ 16 ->
  InterestWire.decode_digest (InterestWire.encode_digest digest ++ extra) = Some digest.
Proof.
  intros Hd Hl. unfold InterestWire.decode_digest, InterestWire.encode_digest.
  destruct (get_list16_put_list16 InterestWire.put_digest_entry InterestWire.get_digest_entry digest_entry_ok get_put_digest_entry
    digest _ 0%nat extra Hd Hl (At_start _)) as (o & -> & _). done.
Qed.

(** ** Routing *)

Section Routing.
Import InterestState.

(** What [st] believes [origin] hosts. *)
Definition view (origin : Z) (st : InterestState.t) : OriginInterest := default no_interest (remote st !! origin).

(** C35. The routing decision is exact: in Interest mode a relay for a target
    goes to precisely the alive peers believed to host it, in Flood mode to
    every alive peer; each at most once, in ascending order, and never to
    ourselves. *)
Theorem interest_routing_exact tg alive st :
  remote st !! self_id st = None ->
  let peers := interested_peers tg alive st in
  (forall p, p ∈ peers <-> p ∈ alive /\ p <> self_id st /\ (routing st = RouteInterest -> hosts (view p st) tg = true)) /\
  NoDup peers /\ Sorted Z.le peers.
Proof.
  intros Hself peers. unfold peers, interested_peers. destruct (routing st).
  - set (l := filter _ _). split_and!.
    + intros p. rewrite merge_sort_Permutation. unfold l. rewrite list_elem_of_fmap. setoid_rewrite list_elem_of_filter. unfold view. split.
      * intros ([i o] & -> & [Ha Hh] & Hin%elem_of_map_to_list). cbn in *. rewrite Hin. cbn. split_and!; [done| |done].
        intros ->. congruence.
      * intros (Ha & _ & Hh). specialize (Hh eq_refl). destruct (remote st !! p) as [o|] eqn:E.
        -- exists (p, o). rewrite elem_of_map_to_list. done.
        -- cbn in Hh. destruct tg; cbn in Hh; bool_facts; set_solver.
    + rewrite merge_sort_Permutation. unfold l. eapply sublist_NoDup; [apply (NoDup_fst_map_to_list (remote st))|apply fmap_sublist, sublist_filter].
    + apply Sorted_merge_sort. intros x y. lia.
  - split_and!.
    + intros p. rewrite merge_sort_Permutation, elem_of_elements. set_solver.
    + rewrite merge_sort_Permutation. apply NoDup_elements.
    + apply Sorted_merge_sort. intros x y. lia.
Qed.

End Routing.

(** ** One origin and one receiver over a lossy channel *)

Section Convergence.
Import InterestState.

(** The origin, what it has emitted so far, and the receiver. *)
Record interest_world := {
  iw_origin : InterestState.t;
  iw_edges : list InterestEdge;
  iw_snaps : list InterestSnapshot;
  iw_peer : InterestState.t;
}.

(** The origin's interest changes or it takes a snapshot; any edge or snapshot
    it ever emitted is delivered, late, twice or never. *)
Inductive interest_step : interest_world -> interest_world -> Prop :=
  | IwSet w tg h edge o :
      local_set tg h (iw_origin w) = (edge, o) ->
      interest_step w {| iw_origin := o; iw_edges := iw_edges w ++ option_list edge; iw_snaps := iw_snaps w; iw_peer := iw_peer w |}
  | IwSnap w :
      interest_step w {| iw_origin := iw_origin w; iw_edges := iw_edges w;
                         iw_snaps := iw_snaps w ++ [local_snapshot (iw_origin w)]; iw_peer := iw_peer w |}
  | IwEdge w e :
      e ∈ iw_edges w ->
      interest_step w {| iw_origin := iw_origin w; iw_edges := iw_edges w; iw_snaps := iw_snaps w;
                         iw_peer := (apply_edge e (iw_peer w)).2 |}
  | IwSnapshot w s :
      s ∈ iw_snaps w ->
      interest_step w {| iw_origin := iw_origin w; iw_edges := iw_edges w; iw_snaps := iw_snaps w;
                         iw_peer := (apply_snapshot s (iw_peer w)).2 |}
  | IwOther w p :
      self_id p = self_id (iw_peer w) -> remote p !! self_id (iw_origin w) = remote (iw_peer w) !! self_id (iw_origin w) ->
      interest_step w {| iw_origin := iw_origin w; iw_edges := iw_edges w; iw_snaps := iw_snaps w; iw_peer := p |}.

Definition iw_start (o p : InterestState.t) : interest_world := {| iw_origin := o; iw_edges := []; iw_snaps := []; iw_peer := p |}.

(** Setting one target leaves the others. *)
Lemma hosts_local_set tg b st tg' :
  hosts (local (local_set tg b st).2) tg' = if decide (tg' = tg) then b else hosts (local st) tg'.
Proof.
  unfold local_set. destruct (Bool.eqb (hosts (local st) tg) b) eqn:E; cbn [negb snd].
  - apply eqb_prop in E. case_decide; [by subst|done].
  - destruct tg as [r|u], tg' as [r'|u']; cbn; try (rewrite decide_False by done; done).
    + destruct (decide (TRoom r' = TRoom r)) as [[= ->]|Hn]; destruct b; try apply bool_decide_ext; try apply bool_decide_eq_true; try apply bool_decide_eq_false; try set_solver.
      all: assert (r' <> r) by congruence; set_solver.
    + destruct (decide (TUser u' = TUser u)) as [[= ->]|Hn]; destruct b; try apply bool_decide_ext; try apply bool_decide_eq_true; try apply bool_decide_eq_false; try set_solver.
      all: assert (u' <> u) by congruence; set_solver.
Qed.

Lemma local_set_spec tg h st edge st' :
  0 <= seq (local st) < u64_max -> local_set tg h st = (edge, st') ->
  self_id st' = self_id st /\ remote st' = remote st /\
  match edge with
  | None => local st' = local st
  | Some e => local st' = edit h tg (with_seq (seq (local st) + 1) (local st)) /\
      e = {| e_origin := self_id st; e_seq := seq (local st) + 1; e_add := h; e_target := tg |}
  end.
Proof.
  intros Hs. unfold u64_max in Hs. unfold local_set. destruct (negb (negb _)); intros [= <- <-]; cbn; [done|].
  rewrite wrap_small by lia. by destruct tg.
Qed.

Lemma seq_edit h tg o : seq (edit h tg o) = seq o.
Proof. by destruct tg. Qed.

(** What holds after [n] steps from [w0]. *)
Record iw_inv (w0 : interest_world) (n : nat) (w : interest_world) : Prop := {
  ii_id : self_id (iw_origin w) = self_id (iw_origin w0);
  ii_remote : remote (iw_origin w) = remote (iw_origin w0);
  ii_peer : self_id (iw_peer w) = self_id (iw_peer w0);
  ii_seq : 0 <= seq (local (iw_origin w)) <= seq (local (iw_origin w0)) + Z.of_nat n;
  ii_edges : Forall (fun e => e_origin e = self_id (iw_origin w0) /\ e_seq e <= seq (local (iw_origin w))) (iw_edges w);
  ii_snaps : Forall (fun s => s_origin s = self_id (iw_origin w0) /\ s_seq s <= seq (local (iw_origin w))) (iw_snaps w);
  ii_view : seq (view (self_id (iw_origin w0)) (iw_peer w)) <= seq (local (iw_origin w));
}.

Lemma apply_edge_view e st :
  e_origin e <> self_id st ->
  let st' := (apply_edge e st).2 in
  self_id st' = self_id st /\
  view (e_origin e) st' = if e_seq e <=? seq (view (e_origin e) st) then view (e_origin e) st
                          else edit (e_add e) (e_target e) (with_seq (e_seq e) (view (e_origin e) st)).
Proof.
  intros Hne. unfold apply_edge. destruct (Z.eqb_spec (e_origin e) (self_id st)); [done|].
  fold (view (e_origin e) st). destruct (_ <=? _); (split; [done|]); unfold view at 1; cbn; by rewrite lookup_insert_eq.
Qed.

Lemma apply_snapshot_view s st :
  s_origin s <> self_id st ->
  let st' := (apply_snapshot s st).2 in
  self_id st' = self_id st /\ (forall o, o <> s_origin s -> view o st' = view o st) /\
  (view (s_origin s) st' = view (s_origin s) st \/ seq (view (s_origin s) st') = s_seq s) /\
  (seq (view (s_origin s) st) <= s_seq s \/ remote st !! s_origin s = None ->
   view (s_origin s) st' = {| seq := s_seq s; rooms := list_to_set (s_rooms s); users := list_to_set (s_users s) |}).
Proof.
  intros Hne. unfold apply_snapshot. destruct (Z.eqb_spec (s_origin s) (self_id st)); [done|].
  unfold view. destruct (remote st !! s_origin s) as [o|] eqn:E; cbn.
  - destruct (Z.leb_spec (seq o) (s_seq s)); cbn.
    + split_and!; [done| | |]; [intros o' Ho; by rewrite lookup_insert_ne|right|intros _]; by rewrite lookup_insert_eq.
    + rewrite E. split_and!; [done|done|by left|]. intros [?|?]; [cbn in *; lia|done].
  - split_and!; [done| | |]; [intros o' Ho; by rewrite lookup_insert_ne|right|intros _]; by rewrite lookup_insert_eq.
Qed.

Lemma iw_step_inv w0 n w w' :
  self_id (iw_origin w0) <> self_id (iw_peer w0) -> seq (local (iw_origin w0)) + Z.of_nat n < u64_max ->
  iw_inv w0 n w -> interest_step w w' -> iw_inv w0 (S n) w'.
Proof.
  intros Hne Hlt [H1 H2 H3 H4 H5 H6 H7] Hs. destruct Hs as [w tg h edge o E|w|w e He|w s Hin|w p Hp Hr]; cbn in *.
  - apply local_set_spec in E as (E1 & E2 & E3); [|lia].
    assert (Hseq : seq (local (iw_origin w)) <= seq (local o) <= seq (local (iw_origin w)) + 1).
    { destruct edge as [e|]; [destruct E3 as [-> _]; rewrite seq_edit; cbn; lia|rewrite E3; lia]. }
    split; cbn; [congruence|congruence|done|lia| | |lia].
    + apply Forall_app. split; [eapply Forall_impl; [exact H5|]; intros e [? ?]; split; [done|lia]|].
      destruct edge as [e|]; cbn; [|constructor]. constructor; [|constructor]. destruct E3 as [-> ->]. rewrite seq_edit. cbn. split; [done|lia].
    + eapply Forall_impl; [exact H6|]. intros s [? ?]. split; [done|lia].
  - split; cbn; [done|done|done|lia|done| |done]. apply Forall_app. split; [done|]. constructor; [|constructor]. cbn. split; [done|lia].
  - pose proof H5 as H5'. eapply Forall_forall in H5' as [Ho Hseq]; [|exact He]. destruct (apply_edge_view e (iw_peer w)) as [Hid Hv]; [congruence|].
    split; cbn; [done|done|congruence|lia|done|done|].
    rewrite Ho in Hv. rewrite Hv. destruct (_ <=? _); [done|]. by rewrite seq_edit.
  - pose proof H6 as H6'. eapply Forall_forall in H6' as [Ho Hseq]; [|exact Hin].
    destruct (apply_snapshot_view s (iw_peer w)) as (Hid & _ & Hv & _); [congruence|].
    split; cbn; [done|done|congruence|lia|done|done|]. rewrite Ho in Hv. destruct Hv as [->| ->]; done.
  - split; cbn; [done|done|congruence|lia|done|done|]. unfold view in *. by rewrite <-H1, Hr, H1.
Qed.

Lemma iw_run_inv w0 n w :
  self_id (iw_origin w0) <> self_id (iw_peer w0) -> 0 <= seq (local (iw_origin w0)) ->
  seq (local (iw_origin w0)) + Z.of_nat n <= u64_max ->
  iw_edges w0 = [] -> iw_snaps w0 = [] -> seq (view (self_id (iw_origin w0)) (iw_peer w0)) <= seq (local (iw_origin w0)) ->
  nsteps interest_step n w0 w -> iw_inv w0 n w.
Proof.
  intros Hne H0 Hlt He Hs Hv Hr. revert w Hlt Hr. induction n as [|n IH]; intros w Hlt Hr.
  - inversion Hr; subst. split; [done|done|done|lia|by rewrite He|by rewrite Hs|done].
  - apply nsteps_inv_r in Hr as (w' & Hr & Hstep). eapply iw_step_inv; [done| |apply IH; [|exact Hr]|exact Hstep]; lia.
Qed.

(** A digest lists each origin once, so the peer's map says what it holds. *)
Lemma digest_map_lookup st o :
  o <> self_id st -> digest_map (build_digest st) !! o = (fun i => (seq i, hash i)) <$> remote st !! o.
Proof.
  intros Hne. unfold digest_map, build_digest. cbn [foldl]. rewrite <-(list_to_map_to_list (remote st)) at 2.
  assert (Hnd := NoDup_fst_map_to_list (remote st)). revert Hnd.
  assert (Hm : ({[self_id st := (seq (local st), hash (local st))]} : gmap Z (Z * Z)) !! o = None) by (by apply lookup_singleton_ne).
  change (<[self_id st := _]> ∅) with ({[self_id st := (seq (local st), hash (local st))]} : gmap Z (Z * Z)).
  revert Hm. generalize ({[self_id st := (seq (local st), hash (local st))]} : gmap Z (Z * Z)) as acc.
  assert (Hout : forall l (acc : gmap Z (Z * Z)), o ∉ l.*1 ->
    foldl (fun m '(o, s, h) => <[o := (s, h)]> m) acc (map (fun kv : Z * OriginInterest => (kv.1, seq kv.2, hash kv.2)) l) !! o = acc !! o).
  { induction l as [|[i x] l IH]; intros acc Ho; cbn; [done|]. cbn in Ho. apply not_elem_of_cons in Ho as [Hi Ho].
    rewrite IH by done. by rewrite lookup_insert_ne. }
  induction (map_to_list (remote st)) as [|[i x] l IH]; intros acc Hm Hnd; cbn; [by rewrite Hm|].
  cbn in Hnd. apply NoDup_cons in Hnd as [Hi Hnd]. destruct (decide (i = o)) as [->|Hio].
  - rewrite Hout, !lookup_insert_eq by done. done.
  - rewrite lookup_insert_ne by done. apply IH; [by rewrite lookup_insert_ne|done].
Qed.

(** Applying the snapshots a digest is answered with. *)
Definition apply_snapshots (ss : list InterestSnapshot) (st : InterestState.t) : InterestState.t :=
  foldl (fun st s => (apply_snapshot s st).2) st ss.

Lemma apply_snapshots_other ss st o :
  Forall (fun s => s_origin s <> o) ss -> view o (apply_snapshots ss st) = view o st.
Proof.
  unfold apply_snapshots. revert st. induction ss as [|s ss IH]; intros st Hf; cbn; [done|]. apply Forall_cons in Hf as [Hs Hf].
  rewrite IH by done. destruct (decide (s_origin s = self_id st)) as [E|Hne].
  - unfold apply_snapshot. by rewrite E, Z.eqb_refl.
  - by apply apply_snapshot_view.
Qed.

Lemma apply_snapshots_self ss st : self_id (apply_snapshots ss st) = self_id st.
Proof.
  unfold apply_snapshots. revert st. induction ss as [|s ss IH]; intros st; cbn; [done|]. rewrite IH.
  unfold apply_snapshot. repeat case_match; done.
Qed.

Lemma sorted_items_set (s : gset rstring) : list_to_set (sorted_items s) = s.
Proof. apply set_eq. intros x. unfold sorted_items. by rewrite elem_of_list_to_set, merge_sort_Permutation, elem_of_elements. Qed.

(** One digest exchange makes the receiver's view exact. *)
Lemma digest_exchange o r :
  self_id o <> self_id r -> remote o !! self_id o = None -> 0 <= seq (local o) ->
  seq (view (self_id o) r) <= seq (local o) ->
  (hash (view (self_id o) r) = hash (local o) -> seq (view (self_id o) r) = seq (local o) -> view (self_id o) r = local o) ->
  view (self_id o) (apply_snapshots (respond_to_digest (build_digest r) o) r) = local o.
Proof.
  intros Hne Hself H0 Hle Hcf. unfold respond_to_digest. rewrite (digest_map_lookup r _ Hne).
  set (rest := map _ (filter _ (map_to_list (remote o)))).
  assert (Hrest : Forall (fun s => s_origin s <> self_id o) rest).
  { apply Forall_forall. intros s (kv & -> & [_ Hin]%list_elem_of_filter)%list_elem_of_fmap. destruct kv as [i x]. cbn.
    apply elem_of_map_to_list in Hin. intros ->. congruence. }
  assert (Hsnap : seq (view (self_id o) r) <= seq (local o) -> view (self_id o) (apply_snapshots ([local_snapshot o] ++ rest) r) = local o).
  { intros Hv. cbn [app apply_snapshots foldl]. change (foldl _ ?a rest) with (apply_snapshots rest a). rewrite apply_snapshots_other by done.
    destruct (apply_snapshot_view (local_snapshot o) r) as (_ & _ & _ & Ha); [done|]. cbn in Ha. rewrite Ha by (by left).
    rewrite !sorted_items_set. by destruct (local o). }
  unfold view in Hcf, Hle. destruct (remote r !! self_id o) as [v|] eqn:E; cbn [fmap option_fmap option_map default] in *.
  - case_bool_decide as Heq; cbn [negb]; [|by apply Hsnap; unfold view; rewrite E].
    rewrite apply_snapshots_other by done. unfold view. rewrite E. cbn. injection Heq as ? ?. by apply Hcf.
  - destruct (_ || _) eqn:Eb; [by apply Hsnap; unfold view; rewrite E|]. rewrite apply_snapshots_other by done. unfold view. rewrite E. cbn.
    apply orb_false_iff in Eb as [[E1 E2]%orb_false_iff E3]. bool_facts. destruct (local o) as [q rs us]. cbn in *.
    unfold no_interest. f_equal; [lia|done|done].
Qed.

(** C13. Interest self-heals while the origin runs: however many of its edges and
    snapshots were lost, delayed, repeated or reordered, for a receiver whose view
    was not ahead of the origin when it started (a restarted origin counts from
    zero again, see [restarted_origin_rejected]), and when the digest hash tells
    the two sets apart at equal sequence numbers, one digest exchange with the
    origin leaves the receiver with exactly the origin's current rooms and users,
    and an edge delivered after it keeps the two equal. *)
Theorem interest_digest_heals w0 n w :
  let o := iw_origin w in let r := iw_peer w in let id := self_id (iw_origin w0) in
  let r' := apply_snapshots (respond_to_digest (build_digest r) o) r in
  id <> self_id (iw_peer w0) -> remote (iw_origin w0) !! id = None -> 0 <= seq (local (iw_origin w0)) ->
  seq (local (iw_origin w0)) + Z.of_nat n < u64_max ->
  iw_edges w0 = [] -> iw_snaps w0 = [] -> seq (view id (iw_peer w0)) <= seq (local (iw_origin w0)) ->
  nsteps interest_step n w0 w ->
  (hash (view id r) = hash (local o) -> seq (view id r) = seq (local o) -> view id r = local o) ->
  view id r' = local o /\
  forall tg h e o', local_set tg h o = (Some e, o') -> view id (apply_edge e r').2 = local o'.
Proof.
  intros o r id r' Hne Hself H0 Hlt He Hs Hv Hrun Hcf.
  destruct (iw_run_inv w0 n w) as [I1 I2 I3 I4 I5 I6 I7]; [done|done|lia|done|done|done|done|].
  assert (Hex : view id r' = local o).
  { unfold r', id. rewrite <-I1. apply digest_exchange; fold o r.
    - unfold o, r. rewrite I1, I3. done.
    - unfold o. rewrite I1, I2. done.
    - unfold o. lia.
    - unfold o, r. rewrite I1. exact I7.
    - unfold o in *. rewrite I1. exact Hcf. }
  split; [exact Hex|]. intros tg h e o' E. apply local_set_spec in E as (_ & _ & E & ->); [|unfold o; lia].
  assert (Hio : self_id o = id) by exact I1. rewrite Hio.
  destruct (apply_edge_view {| e_origin := id; e_seq := seq (local o) + 1; e_add := h; e_target := tg |} r') as [_ Hv'].
  { cbn. unfold r'. rewrite apply_snapshots_self. unfold r. rewrite I3. done. }
  cbn [e_origin e_seq e_add e_target] in Hv'.
  rewrite Hv', Hex, E. destruct (Z.leb_spec (seq (local o) + 1) (seq (local o))); [lia|]. done.
Qed.
End Convergence.

Section InterestWitness.
Import InterestState.

Definition demo_room (s : string) : Target := TRoom (str s).

Definition demo_peer : InterestState.t := (apply_edge {| e_origin := 3; e_seq := 1; e_add := true; e_target := demo_room "a" |} (new 2 RouteInterest)).2.

Lemma interest_routing_exact_witness :
  interested_peers (demo_room "a") {[3; 4]} demo_peer = [3] /\ NoDup (interested_peers (demo_room "a") {[3; 4]} demo_peer).
Proof.
  split; [vm_compute; reflexivity|].
  apply (interest_routing_exact (demo_room "a") {[3; 4]} demo_peer). vm_compute. reflexivity.
Defined.

(** Two edges emitted, only the first delivered: the digest brings the second. *)
Definition demo_origin1 : InterestState.t := (local_set (demo_room "a") true (new 3 RouteInterest)).2.
Definition demo_origin2 : InterestState.t := (local_set (demo_room "b") true demo_origin1).2.
Definition demo_edge (n : Z) (s : string) : InterestEdge := {| e_origin := 3; e_seq := n; e_add := true; e_target := demo_room s |}.

Lemma demo_run :
  nsteps interest_step 3 (iw_start (new 3 RouteInterest) (new 2 RouteInterest))
    {| iw_origin := demo_origin2; iw_edges := [demo_edge 1 "a"; demo_edge 2 "b"]; iw_snaps := []; iw_peer := demo_peer |}.
Proof.
  eapply nsteps_l; [apply (IwSet (iw_start (new 3 RouteInterest) (new 2 RouteInterest)) (demo_room "a") true
    (Some (demo_edge 1 "a")) demo_origin1); vm_compute; reflexivity|].
  eapply nsteps_l; [apply (IwSet _ (demo_room "b") true (Some (demo_edge 2 "b")) demo_origin2); vm_compute; reflexivity|].
  eapply nsteps_l; [apply (IwEdge _ (demo_edge 1 "a")); by left|]. constructor.
Qed.

Lemma interest_digest_heals_witness :
  view 3 (apply_snapshots (respond_to_digest (build_digest demo_peer) demo_origin2) demo_peer) = local demo_origin2.
Proof.
  apply (interest_digest_heals (iw_start (new 3 RouteInterest) (new 2 RouteInterest)) 3
    {| iw_origin := demo_origin2; iw_edges := [demo_edge 1 "a"; demo_edge 2 "b"]; iw_snaps := []; iw_peer := demo_peer |}).
  - vm_compute. congruence.
  - vm_compute. reflexivity.
  - vm_compute. congruence.
  - vm_compute. reflexivity.
  - reflexivity.
  - reflexivity.
  - vm_compute. congruence.
  - exact demo_run.
  - intros _. vm_compute. congruence.
Defined.

(** A node that restarts within its peers' failure-detection window starts again
    at sequence 0: the peer keeps the old, higher sequence number and refuses
    both its edges and the snapshot a digest asks for. *)
Lemma restarted_origin_rejected :
  let peer := (apply_snapshot (local_snapshot demo_origin2) (new 2 RouteInterest)).2 in
  let restarted := (local_set (demo_room "c") true (new 3 RouteInterest)).2 in
  let healed := apply_snapshots (respond_to_digest (build_digest peer) restarted) peer in
  hosts (local restarted) (demo_room "c") = true /\ hosts (view 3 healed) (demo_room "c") = false /\
  hosts (view 3 (apply_edge {| e_origin := 3; e_seq := 1; e_add := true; e_target := demo_room "c" |} healed).2) (demo_room "c") = false.
Proof. vm_compute. done. Qed.

End InterestWitness.
