(* ===== verification/Probe.v ===== *)
(** * The UDP probe plane (crates/mesh/src/probe.rs)

    The authenticated probe packet, the replay guard, the receive handler and
    the probe cycle.  HMAC-SHA256 is a parameter; a datagram is its bytes; the
    two tasks share the plane and lock it briefly, so each locked section is one
    step here and the packets a step sends are its output. *)

From S2P Require Import Prelude Wire Config Frame Handshake Swim MeshWire.

Definition PROBE_MAGIC : bytes := str "BSMP".
Definition PROBE_VERSION : Z := 1.
Definition KIND_PING : Z := 1.
Definition KIND_ACK : Z := 2.
Definition KIND_PING_REQ : Z := 3.
Definition TAG_LEN : nat := 32.
Definition PROBE_HEADER_LEN : nat := 20.

(** [enum ProbePacket]. *)
Inductive ProbePacket :=
  | PPing (from seq inc : Z) (reply_to : option SocketAddr)
  | PAck (from seq inc : Z)
  | PPingReq (from seq inc : Z) (from_addr : SocketAddr) (target : Z) (target_addr : SocketAddr).

(** [enum ProbeError]. *)
Inductive ProbeError := PBadMagic | PBadVersion (v : Z) | PForged | PMalformed | PUnknownKind (k : Z).

Module ProbeWire.

(** [ProbePacket::kind], [header], [from] and [stamp]. *)
Definition kind (p : ProbePacket) : Z :=
  match p with PPing _ _ _ _ => KIND_PING | PAck _ _ _ => KIND_ACK | PPingReq _ _ _ _ _ _ => KIND_PING_REQ end.
Definition header (p : ProbePacket) : Z * Z * Z :=
  match p with PPing f s i _ | PAck f s i | PPingReq f s i _ _ _ => (f, s, i) end.
Definition from (p : ProbePacket) : Z := (header p).1.1.
Definition stamp (p : ProbePacket) : Z * Z := ((header p).2, (header p).1.2).

Section ProbeWire.
Context (hmac : bytes -> bytes -> bytes).

(** The authenticated part of [ProbePacket::encode]. *)
Definition body (p : ProbePacket) : bytes :=
  PROBE_MAGIC ++ [PROBE_VERSION] ++ [kind p] ++ to_le_bytes 2 (from p) ++ to_le_bytes 8 (header p).1.2 ++
  to_le_bytes 4 (header p).2 ++
  match p with
  | PPing _ _ _ reply_to => match reply_to with Some a => [1] ++ put_addr a | None => [0] end
  | PAck _ _ _ => []
  | PPingReq _ _ _ from_addr target target_addr => put_addr from_addr ++ to_le_bytes 2 target ++ put_addr target_addr
  end.

(** [ProbePacket::encode]. *)
Definition encode (secret : bytes) (p : ProbePacket) : bytes := body p ++ hmac secret (body p).

(** The kind-specific part of [ProbePacket::decode], after authentication. *)
Definition decode_body (b : bytes) : ProbePacket + ProbeError :=
  let k := nth 5 b 0 in
  let f := from_le_bytes (HelloBody.range b 6 8) in
  let s := from_le_bytes (HelloBody.range b 8 16) in
  let i := from_le_bytes (HelloBody.range b 16 20) in
  let off := PROBE_HEADER_LEN in
  if k =? KIND_PING then
    match get_u8 b off with
    | None => inr PMalformed
    | Some (has_reply, off) =>
        if negb (has_reply =? 0)
        then match get_addr b off with Some (a, _) => inl (PPing f s i (Some a)) | None => inr PMalformed end
        else inl (PPing f s i None)
    end
  else if k =? KIND_ACK then inl (PAck f s i)
  else if k =? KIND_PING_REQ then
    match get_addr b off with
    | None => inr PMalformed
    | Some (fa, off) =>
        match get_le 2 b off with
        | None => inr PMalformed
        | Some (tg, off) =>
            match get_addr b off with
            | None => inr PMalformed
            | Some (ta, _) => inl (PPingReq f s i fa tg ta)
            end
        end
    end
  else inr (PUnknownKind k).

(** [ProbePacket::decode]. *)
Definition decode (buf secret : bytes) : ProbePacket + ProbeError :=
  if decide (length buf < PROBE_HEADER_LEN + TAG_LEN)%nat then inr PMalformed
  else if negb (bool_decide (take 4 buf = PROBE_MAGIC)) then inr PBadMagic
  else if negb (nth 4 buf 0 =? PROBE_VERSION) then inr (PBadVersion (nth 4 buf 0))
  else
    let b := take (length buf - TAG_LEN) buf in
    let tag := drop (length buf - TAG_LEN) buf in
    if negb (constant_time_eq tag (hmac secret b)) then inr PForged else decode_body b.

End ProbeWire.
End ProbeWire.

(** [struct ProbeCounters]. *)
Record ProbeCounters := { pc_pings : Z; pc_acks : Z; pc_indirect : Z; pc_forged : Z; pc_replayed : Z; pc_malformed : Z }.

Inductive probe_counter := CPings | CAcks | CIndirect | CForged | CReplayed | CMalformed.

(** [ProbeCounters::inc]. *)
Definition probe_inc (c : probe_counter) (m : ProbeCounters) : ProbeCounters :=
  let up z := wrap 64 (z + 1) in
  match c with
  | CPings => {| pc_pings := up (pc_pings m); pc_acks := pc_acks m; pc_indirect := pc_indirect m; pc_forged := pc_forged m; pc_replayed := pc_replayed m; pc_malformed := pc_malformed m |}
  | CAcks => {| pc_pings := pc_pings m; pc_acks := up (pc_acks m); pc_indirect := pc_indirect m; pc_forged := pc_forged m; pc_replayed := pc_replayed m; pc_malformed := pc_malformed m |}
  | CIndirect => {| pc_pings := pc_pings m; pc_acks := pc_acks m; pc_indirect := up (pc_indirect m); pc_forged := pc_forged m; pc_replayed := pc_replayed m; pc_malformed := pc_malformed m |}
  | CForged => {| pc_pings := pc_pings m; pc_acks := pc_acks m; pc_indirect := pc_indirect m; pc_forged := up (pc_forged m); pc_replayed := pc_replayed m; pc_malformed := pc_malformed m |}
  | CReplayed => {| pc_pings := pc_pings m; pc_acks := pc_acks m; pc_indirect := pc_indirect m; pc_forged := pc_forged m; pc_replayed := up (pc_replayed m); pc_malformed := pc_malformed m |}
  | CMalformed => {| pc_pings := pc_pings m; pc_acks := pc_acks m; pc_indirect := pc_indirect m; pc_forged := pc_forged m; pc_replayed := pc_replayed m; pc_malformed := up (pc_malformed m) |}
  end.

(** Where [probe_loop] stands: asleep for a period, waiting for the direct ACK,
    waiting for an indirect one. *)
Inductive probe_pc := PAsleep | PDirect (seq target : Z) (taddr : SocketAddr) | PIndirect (seq target : Z).

Module ProbePlane.
Section ProbePlane.
Context (hmac : bytes -> bytes -> bytes).

(** [struct ProbePlane] with its probe task. *)
Record t := {
  membership : Membership.t;
  params : SwimParams;
  secret : bytes;
  deny : gset Z;
  seq : Z;
  pending : gmap Z Z;
  replay : gmap Z (Z * Z);
  counters : ProbeCounters;
  pc : probe_pc;
}.

(** [ProbePlane::start]. *)
Definition start (m : Membership.t) (p : SwimParams) (sec : bytes) (d : gset Z) : t :=
  {| membership := m; params := p; secret := sec; deny := d; seq := 1; pending := ∅; replay := ∅;
     counters := {| pc_pings := 0; pc_acks := 0; pc_indirect := 0; pc_forged := 0; pc_replayed := 0; pc_malformed := 0 |};
     pc := PAsleep |}.

Definition set_membership (m : Membership.t) (st : t) : t :=
  {| membership := m; params := params st; secret := secret st; deny := deny st; seq := seq st; pending := pending st;
     replay := replay st; counters := counters st; pc := pc st |}.
Definition set_pending (p : gmap Z Z) (st : t) : t :=
  {| membership := membership st; params := params st; secret := secret st; deny := deny st; seq := seq st; pending := p;
     replay := replay st; counters := counters st; pc := pc st |}.
Definition set_pc (p : probe_pc) (st : t) : t :=
  {| membership := membership st; params := params st; secret := secret st; deny := deny st; seq := seq st; pending := pending st;
     replay := replay st; counters := counters st; pc := p |}.
Definition count (c : probe_counter) (st : t) : t :=
  {| membership := membership st; params := params st; secret := secret st; deny := deny st; seq := seq st; pending := pending st;
     replay := replay st; counters := probe_inc c (counters st); pc := pc st |}.

Definition self_view (st : t) : Z * Z := (Membership.self_id (membership st), Membership.self_inc (membership st)).

(** A packet put on the socket: destination and bytes. *)
Definition packet (st : t) (to : SocketAddr) (p : ProbePacket) : SocketAddr * bytes := (to, ProbeWire.encode hmac (secret st) p).

(** [stamp <= last] on [(inc, seq)] tuples. *)
Definition stamp_le (a b : Z * Z) : bool := (a.1 <? b.1) || ((a.1 =? b.1) && (a.2 <=? b.2)).

(** [ProbePlane::accept_stamp]. *)
Definition accept_stamp (from : Z) (stamp : Z * Z) (st : t) : bool * t :=
  let ok := {| membership := membership st; params := params st; secret := secret st; deny := deny st; seq := seq st;
               pending := pending st; replay := <[from := stamp]> (replay st); counters := counters st; pc := pc st |} in
  match replay st !! from with
  | Some last => if stamp_le stamp last then (false, st) else (true, ok)
  | None => (true, ok)
  end.

(** [ProbePlane::handle]. *)
Definition handle (now : Z) (p : ProbePacket) (src : SocketAddr) (st : t) : list (SocketAddr * bytes) * t :=
  let rt := retransmit (params st) in
  match p with
  | PPing from sq _ reply_to =>
      let st := set_membership (Membership.note_direct_ack now from rt (membership st)).2 st in
      let '(id, inc) := self_view st in
      ([packet st (default src reply_to) (PAck id sq inc)], count CAcks st)
  | PAck from sq _ =>
      let matched := bool_decide (pending st !! sq = Some from) in
      let st := set_pending (delete sq (pending st)) st in
      ([], if matched then set_membership (Membership.note_direct_ack now from rt (membership st)).2 st else st)
  | PPingReq _ sq _ from_addr _ target_addr =>
      let '(id, inc) := self_view st in
      ([packet st target_addr (PPing id sq inc (Some from_addr))], st)
  end.

(** [ProbePlane::recv_loop], one datagram. *)
Definition recv (now : Z) (buf : bytes) (src : SocketAddr) (st : t) : list (SocketAddr * bytes) * t :=
  match ProbeWire.decode hmac buf (secret st) with
  | inr PForged => ([], count CForged st)
  | inr _ => ([], count CMalformed st)
  | inl p =>
      if bool_decide (ProbeWire.from p ∈ deny st) then ([], st)
      else
        match p with
        | PAck _ _ _ => handle now p src st
        | _ =>
            let '(fresh, st) := accept_stamp (ProbeWire.from p) (ProbeWire.stamp p) st in
            if negb fresh then ([], count CReplayed st) else handle now p src st
        end
  end.

(** The first part of a cycle of [ProbePlane::probe_loop], after the period: the
    outer [None] is a panic of [next_probe_target]. *)
Definition probe_begin (now : Z) (st : t) : option (list (SocketAddr * bytes) * t) :=
  let p := params st in
  let st := set_membership (Membership.expire_suspects now (suspicion_timeout p) (retransmit p) (membership st)).2 st in
  '(target, m) ← Membership.next_probe_target (membership st);
  let st := set_membership m st in
  match target with
  | None => Some ([], st)
  | Some (target, taddr) =>
      let sq := seq st in
      let st := {| membership := membership st; params := params st; secret := secret st; deny := deny st; seq := wrap 64 (sq + 1);
                   pending := <[sq := target]> (pending st); replay := replay st; counters := counters st;
                   pc := PDirect sq target taddr |} in
      let '(id, inc) := self_view st in
      Some ([packet st taddr (PPing id sq inc None)], count CPings st)
  end.

(** After the first probe timeout: acked, or ask helpers. *)
Definition probe_escalate (sq target : Z) (taddr : SocketAddr) (st : t) : list (SocketAddr * bytes) * t :=
  match pending st !! sq with
  | None => ([], set_pc PAsleep st)
  | Some _ =>
      let '(helpers, m) := Membership.indirect_helpers target (indirect_k (params st)) (membership st) in
      let st := set_membership m st in
      let '(id, inc) := self_view st in
      let req := PPingReq id sq inc (Membership.self_addr (membership st)) target taddr in
      (map (fun h : Z * SocketAddr => packet st h.2 req) helpers,
       set_pc (PIndirect sq target) (Nat.iter (length helpers) (count CIndirect) st))
  end.

(** After the second probe timeout: acked, or Suspect. *)
Definition probe_conclude (now sq target : Z) (st : t) : t :=
  let missing := bool_decide (is_Some (pending st !! sq)) in
  let st := set_pc PAsleep (set_pending (delete sq (pending st)) st) in
  if missing then set_membership (Membership.suspect now target (retransmit (params st)) (membership st)).2 st else st.

(** One wake-up of [probe_loop]. *)
Definition probe_step (now : Z) (st : t) : option (list (SocketAddr * bytes) * t) :=
  match pc st with
  | PAsleep => probe_begin now st
  | PDirect sq target taddr => Some (probe_escalate sq target taddr st)
  | PIndirect sq target => Some ([], probe_conclude now sq target st)
  end.

End ProbePlane.
End ProbePlane.

#[local] Arguments str : simpl never.

(** ** The packet *)

Section ProbeCodec.
Context (hmac : bytes -> bytes -> bytes) (hmac_len : forall k m, length (hmac k m) = 32%nat).
Import ProbeWire.

Definition packet_ok (p : ProbePacket) : Prop :=
  u16_ok (header p).1.1 /\ u64_ok (header p).1.2 /\ u32_ok (header p).2 /\
  match p with
  | PPing _ _ _ (Some a) => addr_ok a
  | PPingReq _ _ _ fa tg ta => addr_ok fa /\ u16_ok tg /\ addr_ok ta
  | _ => True
  end.

(** The fixed header and the rest of a packet body. *)
Definition payload (p : ProbePacket) : bytes :=
  match p with
  | PPing _ _ _ reply_to => match reply_to with Some a => [1] ++ put_addr a | None => [0] end
  | PAck _ _ _ => []
  | PPingReq _ _ _ fa tg ta => put_addr fa ++ to_le_bytes 2 tg ++ put_addr ta
  end.
Definition header_fields (p : ProbePacket) : list bytes :=
  [PROBE_MAGIC ++ [PROBE_VERSION] ++ [kind p]; to_le_bytes 2 (from p); to_le_bytes 8 (header p).1.2; to_le_bytes 4 (header p).2].

Lemma body_fields p : body p = concat (header_fields p ++ [payload p]).
Proof.
  unfold body, header_fields. cbn [app concat]. rewrite app_nil_r, <-!app_assoc. cbn [app]. by destruct p.
Qed.

Lemma body_range p i a b x :
  header_fields p !! i = Some x -> length (concat (take i (header_fields p))) = a -> (a + length x)%nat = b ->
  HelloBody.range (body p) a b = x.
Proof.
  intros Hx Ha Hb. rewrite body_fields, <-(take_drop_middle (header_fields p) i x Hx), <-app_assoc. cbn [app].
  by apply range_concat.
Qed.

Lemma body_at p : At (body p) PROBE_HEADER_LEN (payload p).
Proof.
  rewrite body_fields, concat_app. cbn [concat]. rewrite app_nil_r.
  replace PROBE_HEADER_LEN with (length (concat (header_fields p))) by (destruct p; reflexivity). apply At_app.
Qed.

Lemma body_start p : body p = PROBE_MAGIC ++ PROBE_VERSION :: kind p :: drop 6 (body p).
Proof. by destruct p. Qed.

Lemma decode_body_body p : packet_ok p -> decode_body (body p) = inl p.
Proof.
  intros (Hf & Hs & Hi & Hp). unfold decode_body.
  assert (Hk : nth 5 (body p) 0 = kind p) by (rewrite body_start; reflexivity).
  rewrite Hk, (body_range p 1 6 8 (to_le_bytes 2 (from p))), (body_range p 2 8 16 (to_le_bytes 8 (header p).1.2)),
    (body_range p 3 16 20 (to_le_bytes 4 (header p).2)) by done.
  rewrite !from_to_le_bytes; [|exact Hi|exact Hs|exact Hf].
  pose proof (body_at p) as HA. destruct p as [f s i reply_to|f s i|f s i fa tg ta]; cbn [kind] in *.
  - change (KIND_PING =? KIND_PING) with true. cbv iota. cbn [payload] in HA. destruct reply_to as [a|]; cbn [app] in HA.
    + apply get_u8_At in HA as [-> HA]. change (negb (1 =? 0)) with true. cbv iota.
      rewrite <-(app_nil_r (put_addr a)) in HA. by destruct (get_put_addr _ _ _ _ Hp HA) as (o & -> & _).
    + by apply get_u8_At in HA as [-> _].
  - done.
  - change (KIND_PING_REQ =? KIND_PING) with false. change (KIND_PING_REQ =? KIND_ACK) with false.
    change (KIND_PING_REQ =? KIND_PING_REQ) with true. cbv iota. cbn [payload] in HA. destruct Hp as (Hfa & Htg & Hta).
    destruct (get_put_addr _ _ _ _ Hfa HA) as (o & -> & HA'). apply get_le_At in HA' as [-> HA']; [|exact Htg].
    rewrite <-(app_nil_r (put_addr ta)) in HA'. by destruct (get_put_addr _ _ _ _ Hta HA') as (o' & -> & _).
Qed.

Lemma length_body p : (PROBE_HEADER_LEN <= length (body p))%nat.
Proof. exact (proj1 (body_at p)). Qed.

Lemma probe_decode_encode secret p : packet_ok p -> decode hmac (encode hmac secret p) secret = inl p.
Proof.
  intros Hok. unfold decode, encode. pose proof (length_body p) as Hl. rewrite length_app, hmac_len.
  rewrite decide_False by (unfold TAG_LEN; lia).
  assert (H4 : take 4 (body p ++ hmac secret (body p)) = PROBE_MAGIC) by (rewrite body_start; reflexivity).
  assert (H5 : nth 4 (body p ++ hmac secret (body p)) 0 = PROBE_VERSION) by (rewrite body_start; reflexivity).
  rewrite H4, bool_decide_true, H5 by done. cbn [negb]. change (PROBE_VERSION =? PROBE_VERSION) with true. cbn [negb].
  unfold TAG_LEN. rewrite Nat.add_sub, take_app_length, drop_app_length.
  assert (Hm : constant_time_eq (hmac secret (body p)) (hmac secret (body p)) = true) by (by apply constant_time_eq_spec).
  rewrite Hm. cbn [negb]. by apply decode_body_body.
Qed.

(** Whatever decodes carries the MAC of its body. *)
Lemma probe_decode_mac buf secret p :
  decode hmac buf secret = inl p -> exists b, buf = b ++ hmac secret b /\ decode_body b = inl p.
Proof.
  unfold decode. case_decide; [done|]. destruct (negb (bool_decide _)); [done|]. destruct (negb (_ =? _)); [done|].
  destruct (constant_time_eq _ _) eqn:E; cbn [negb]; [|done]. intros Hd. exists (take (length buf - TAG_LEN) buf).
  split; [|done]. apply constant_time_eq_spec in E. rewrite <-E. by rewrite take_drop.
Qed.

End ProbeCodec.

(** ** The receive path *)

Section ProbeFacts.
Context (hmac : bytes -> bytes -> bytes).
Import ProbePlane.

Lemma stamp_le_refl a : stamp_le a a = true.
Proof. unfold stamp_le. rewrite Z.eqb_refl, Z.leb_refl. by rewrite orb_true_r. Qed.

Lemma stamp_le_trans a b c : stamp_le a b = true -> stamp_le b c = true -> stamp_le a c = true.
Proof. unfold stamp_le. rewrite !orb_true_iff, !andb_true_iff, !Z.ltb_lt, !Z.eqb_eq, !Z.leb_le. lia. Qed.

Lemma stamp_le_total a b : stamp_le a b = false -> stamp_le b a = true.
Proof. unfold stamp_le. rewrite orb_false_iff, andb_false_iff, orb_true_iff, andb_true_iff, !Z.ltb_lt, !Z.ltb_ge, !Z.eqb_eq, Z.eqb_neq, Z.leb_le, Z.leb_gt. lia. Qed.

(** The high-water mark of [from] is at or past [s]. *)
Definition seen (from : Z) (s : Z * Z) (st : ProbePlane.t) : Prop := exists last, replay st !! from = Some last /\ stamp_le s last = true.

(** A packet that originates a probe, which the replay guard covers. *)
Definition guarded (p : ProbePacket) : bool := match p with PAck _ _ _ => false | _ => true end.

Lemma handle_same now p src st :
  let st' := (handle hmac now p src st).2 in
  replay st' = replay st /\ secret st' = secret st /\ deny st' = deny st /\ params st' = params st /\ pc st' = pc st.
Proof. destruct p as [f s i r|f s i|f s i fa tg ta]; cbn; try done. by case_bool_decide. Qed.

Lemma recv_same now buf src st :
  let st' := (recv hmac now buf src st).2 in
  secret st' = secret st /\ deny st' = deny st /\ params st' = params st /\ pc st' = pc st.
Proof.
  unfold recv. destruct (ProbeWire.decode hmac buf (secret st)) as [p|[]]; try done. case_bool_decide; [done|].
  assert (Hacc : forall f s b st', accept_stamp f s st = (b, st') -> secret st' = secret st /\ deny st' = deny st /\ params st' = params st /\ pc st' = pc st).
  { intros f s b st'. unfold accept_stamp. destruct (replay st !! f); [destruct (stamp_le _ _)|]; by intros [= _ <-]. }
  destruct p as [f s i r|f s i|f s i fa tg ta]; [|by destruct (handle_same now (PAck f s i) src st) as (_ & ? & ? & ? & ?)|];
    destruct (accept_stamp _ _ st) as [[] st1] eqn:E; apply Hacc in E as (<- & <- & <- & <-); cbn [negb]; try done;
    by destruct (handle_same now _ src st1 : let st' := (handle hmac now _ src st1).2 in _) as (_ & ? & ? & ? & ?).
Qed.

Lemma accept_stamp_seen f s st b st' :
  accept_stamp f s st = (b, st') -> seen f s st' /\ (forall f0 s0, seen f0 s0 st -> seen f0 s0 st') /\
  membership st' = membership st /\ pending st' = pending st.
Proof.
  unfold accept_stamp.
  destruct (replay st !! f) as [last|] eqn:E; [destruct (stamp_le s last) eqn:El|]; intros [= <- <-].
  - split_and!; [by exists last|done|done|done].
  - split_and!; [exists s; cbn; rewrite lookup_insert_eq; split; [done|apply stamp_le_refl]| |done|done].
    intros f0 s0 (l0 & Hl & Hle). destruct (decide (f0 = f)) as [->|Hne]; [|exists l0; cbn; by rewrite lookup_insert_ne].
    exists s. cbn. rewrite lookup_insert_eq. split; [done|]. rewrite E in Hl. injection Hl as <-.
    eapply stamp_le_trans; [exact Hle|]. by apply stamp_le_total.
  - split_and!; [exists s; cbn; rewrite lookup_insert_eq; split; [done|apply stamp_le_refl]| |done|done].
    intros f0 s0 (l0 & Hl & Hle). destruct (decide (f0 = f)) as [->|Hne]; [congruence|]. exists l0. cbn. by rewrite lookup_insert_ne.
Qed.

Lemma recv_seen now buf src st f s : seen f s st -> seen f s (recv hmac now buf src st).2.
Proof.
  intros Hs. unfold recv. destruct (ProbeWire.decode hmac buf (secret st)) as [p|[]]; try done. case_bool_decide; [done|].
  destruct p as [f' s' i r|f' s' i|f' s' i fa tg ta];
    [|unfold seen; by destruct (handle_same now (PAck f' s' i) src st) as (-> & _)|];
    destruct (accept_stamp _ _ st) as [[] st1] eqn:E; apply accept_stamp_seen in E as (_ & Hk & _); cbn [negb]; apply Hk in Hs; try done;
    unfold seen; match goal with |- context [handle hmac now ?p src st1] => destruct (handle_same now p src st1) as (-> & _) end; exact Hs.
Qed.

(** What happens to the plane between two datagrams: other datagrams, facts merged
    by the dissemination plane, wake-ups of the probe task (which ends when
    [next_probe_target] panics). *)
Inductive plane_op := OpRecv (now : Z) (buf : bytes) (src : SocketAddr) | OpMerge (now : Z) (u : Update) | OpWake (now : Z).
Definition op_step (st : ProbePlane.t) (op : plane_op) : ProbePlane.t :=
  match op with
  | OpRecv now buf src => (recv hmac now buf src st).2
  | OpMerge now u => set_membership (Membership.merge now u (retransmit (params st)) (membership st)).2 st
  | OpWake now => match probe_step hmac now st with Some (_, st) => st | None => st end
  end.
Definition plane_run (ops : list plane_op) (st : ProbePlane.t) : ProbePlane.t := foldl op_step st ops.

Lemma iter_count_same n c st :
  membership (Nat.iter n (count c) st) = membership st /\ pending (Nat.iter n (count c) st) = pending st /\
  params (Nat.iter n (count c) st) = params st /\ secret (Nat.iter n (count c) st) = secret st /\ deny (Nat.iter n (count c) st) = deny st /\
  replay (Nat.iter n (count c) st) = replay st /\ seq (Nat.iter n (count c) st) = seq st.
Proof.
  induction n as [|n (IH1 & IH2 & IH3 & IH4 & IH5 & IH6 & IH7)]; [done|].
  change (Nat.iter (S n) (count c) st) with (count c (Nat.iter n (count c) st)). cbn [membership pending params secret deny replay seq count].
  by rewrite IH1, IH2, IH3, IH4, IH5, IH6, IH7.
Qed.

(** The probe task leaves the replay table alone, and adds a pending entry only
    at the next sequence number. *)
Lemma wake_frame now st : let st' := op_step st (OpWake now) in
  secret st' = secret st /\ deny st' = deny st /\ replay st' = replay st /\
  (seq st' = seq st \/ seq st' = wrap 64 (seq st + 1)) /\
  forall sq, sq <> seq st -> pending st !! sq = None -> pending st' !! sq = None.
Proof.
  cbn [op_step]. unfold probe_step. destruct (pc st) as [|sq0 target taddr|sq0 target].
  - unfold probe_begin. set (st0 := set_membership _ _). destruct (Membership.next_probe_target (membership st0)) as [[[[tg ta]|] m]|]; cbn; [|by split_and!; auto|by split_and!; auto].
    split_and!; auto. intros sq Hne Hn. by rewrite lookup_insert_ne.
  - unfold probe_escalate. destruct (pending st !! sq0) eqn:E; [|cbn; by split_and!; auto].
    destruct (Membership.indirect_helpers target (indirect_k (params st)) (membership st)) as [helpers m]. cbn [self_view set_pc secret deny replay seq pending].
    destruct (iter_count_same (length helpers) CIndirect (set_membership m st)) as (_ & -> & _ & -> & -> & -> & ->). cbn. by split_and!; auto.
  - unfold probe_conclude. case_bool_decide; cbn; split_and!; auto; intros sq _ Hn; apply lookup_delete_None; by right.
Qed.

Lemma handle_pending now p src st :
  pending (handle hmac now p src st).2 = match p with PAck _ sq _ => delete sq (pending st) | _ => pending st end.
Proof. destruct p; cbn; [done| |done]. by case_bool_decide. Qed.

(** No datagram brings a pending entry back, or moves the sequence number. *)
Lemma recv_pending_none now buf src st sq : pending st !! sq = None -> pending (recv hmac now buf src st).2 !! sq = None.
Proof.
  intros Hn. unfold recv.
  destruct (ProbeWire.decode hmac buf (secret st)) as [p|[]] eqn:E; try done. case_bool_decide as Hd; [done|].
  destruct p as [f s i r|f s i|f s i fa tg ta].
  - destruct (accept_stamp _ _ st) as [[] st1] eqn:Ea; apply accept_stamp_seen in Ea as (_ & _ & _ & Hp); cbn [negb]; [|cbn; by rewrite Hp].
    by rewrite handle_pending, Hp.
  - rewrite handle_pending. destruct (decide (s = sq)) as [->|]; [apply lookup_delete_eq|by rewrite lookup_delete_ne].
  - destruct (accept_stamp _ _ st) as [[] st1] eqn:Ea; apply accept_stamp_seen in Ea as (_ & _ & _ & Hp); cbn [negb]; [|cbn; by rewrite Hp].
    by rewrite handle_pending, Hp.
Qed.

Lemma recv_seq now buf src st : seq (recv hmac now buf src st).2 = seq st.
Proof.
  unfold recv. destruct (ProbeWire.decode hmac buf (secret st)) as [p|[]]; try done. case_bool_decide; [done|].
  assert (Hh : forall p st, seq (handle hmac now p src st).2 = seq st) by (intros [] ?; cbn; try done; by case_bool_decide).
  assert (Ha : forall f s, seq (accept_stamp f s st).2 = seq st) by (intros f s; unfold accept_stamp; repeat case_match; done).
  destruct p as [f s i r|f s i|f s i fa tg ta]; [|apply Hh|];
    match goal with |- context [accept_stamp ?g ?x st] => specialize (Ha g x); destruct (accept_stamp g x st) as [[] st1] end;
    cbn [negb snd] in *; by rewrite ?Hh.
Qed.

(** Wake-ups in a sequence of operations bound how far the counter moves. *)
Fixpoint wakes (ops : list plane_op) : Z :=
  match ops with [] => 0 | OpWake _ :: ops => 1 + wakes ops | _ :: ops => wakes ops end.

Lemma wakes_nonneg ops : 0 <= wakes ops.
Proof. induction ops as [|[] ops IH]; cbn [wakes]; lia. Qed.

Lemma plane_run_seen ops st f s : seen f s st ->
  seen f s (plane_run ops st) /\ secret (plane_run ops st) = secret st /\ deny (plane_run ops st) = deny st.
Proof.
  unfold plane_run. revert st. induction ops as [|op ops IH]; intros st Hs; cbn [foldl]; [done|].
  assert (Hstep : seen f s (op_step st op) /\ secret (op_step st op) = secret st /\ deny (op_step st op) = deny st).
  { destruct op as [now buf src|now u|now].
    - split; [by apply recv_seen|]. by destruct (recv_same now buf src st) as (? & ? & _).
    - done.
    - destruct (wake_frame now st) as (? & ? & E & _). split; [unfold seen; by rewrite E|done]. }
  destruct Hstep as (H1 & H2 & H3). destruct (IH _ H1) as (? & -> & ->). by rewrite H2, H3.
Qed.

(** A number that was issued and is not pending does not become pending again. *)
Lemma plane_run_done ops st sq : 0 <= sq < seq st -> seq st + wakes ops < 2 ^ 64 -> pending st !! sq = None ->
  pending (plane_run ops st) !! sq = None /\ secret (plane_run ops st) = secret st /\ deny (plane_run ops st) = deny st.
Proof.
  unfold plane_run. revert st. induction ops as [|op ops IH]; intros st Hsq Hw Hn; cbn [foldl]; [done|].
  assert (Hstep : pending (op_step st op) !! sq = None /\ secret (op_step st op) = secret st /\ deny (op_step st op) = deny st /\
    seq st <= seq (op_step st op) /\ seq (op_step st op) + wakes ops < 2 ^ 64).
  { pose proof (wakes_nonneg ops) as Hnn. destruct op as [now buf src|now u|now]; cbn [wakes] in Hw.
    - split; [by apply recv_pending_none|]. cbn [op_step]. rewrite recv_seq. destruct (recv_same now buf src st) as (? & ? & _). split_and!; try done; lia.
    - split_and!; try done; cbn; lia.
    - destruct (wake_frame now st) as (? & ? & _ & Hs & Hp). split; [apply Hp; [lia|done]|]. split_and!; try done;
        destruct Hs as [->| ->]; rewrite ?wrap_small; lia. }
  destruct Hstep as (H1 & H2 & H3 & H4 & H5). destruct (IH (op_step st op)) as (? & -> & ->); [lia|lia|done|]. by rewrite H2, H3.
Qed.

(** C36. The probe plane acts only on authentic packets, and what it already acted
    on has no further effect: a datagram whose tag is not the MAC of its body
    changes nothing but one of two counters and is answered with nothing; once a
    PING or PING-REQ has been handled, it or any PING or PING-REQ of the same
    sender with an older or equal (incarnation, sequence) is dropped and counted;
    and once an ACK of a number this node issued has been handled, every later ACK
    of that number changes nothing at all; whatever datagrams, merged facts and
    probe cycles come between, short of a wrap of the 64-bit sequence number. *)
Theorem probe_forgery_and_replay_inert now buf src st :
  ((forall b, buf <> b ++ hmac (secret st) b) ->
   recv hmac now buf src st = ([], count CForged st) \/ recv hmac now buf src st = ([], count CMalformed st)) /\
  (forall p ops now' buf' src' q,
     ProbeWire.decode hmac buf (secret st) = inl p -> guarded p = true -> ProbeWire.from p ∉ deny st ->
     ProbeWire.decode hmac buf' (secret st) = inl q -> guarded q = true -> ProbeWire.from q = ProbeWire.from p ->
     stamp_le (ProbeWire.stamp q) (ProbeWire.stamp p) = true ->
     let st' := plane_run ops (recv hmac now buf src st).2 in
     recv hmac now' buf' src' st' = ([], count CReplayed st')) /\
  (forall from sq inc ops now' buf' src' from' inc',
     ProbeWire.decode hmac buf (secret st) = inl (PAck from sq inc) -> from ∉ deny st -> 0 <= sq < seq st ->
     ProbeWire.decode hmac buf' (secret st) = inl (PAck from' sq inc') -> seq st + wakes ops < 2 ^ 64 ->
     let st' := plane_run ops (recv hmac now buf src st).2 in
     recv hmac now' buf' src' st' = ([], st')).
Proof.
  split; [|split].
  - intros Hno. unfold recv. destruct (ProbeWire.decode hmac buf (secret st)) as [p|[]] eqn:E; auto.
    apply probe_decode_mac in E as (b & E & _). by apply Hno in E.
  - intros p ops now' buf' src' q Hp Hgp Hd Hq Hgq Hfrom Hle st'.
    assert (Hseen : seen (ProbeWire.from p) (ProbeWire.stamp p) (recv hmac now buf src st).2).
    { unfold recv. rewrite Hp, bool_decide_false by done.
      destruct p as [f s i r|f s i|f s i fa tg ta]; [|done|];
        destruct (accept_stamp _ _ st) as [[] st1] eqn:E; apply accept_stamp_seen in E as (Hs & _); cbn [negb]; try exact Hs;
        unfold seen; match goal with |- context [handle hmac now ?p src st1] => destruct (handle_same now p src st1) as (-> & _) end; exact Hs. }
    destruct (plane_run_seen ops _ _ _ Hseen) as (Hs & Hsec & Hden). fold st' in Hs, Hsec, Hden.
    destruct (recv_same now buf src st) as (E1 & E2 & _). rewrite E1 in Hsec. rewrite E2 in Hden.
    destruct Hs as (last & Hl & Hsl). unfold recv. rewrite Hsec, Hq, Hden, Hfrom, bool_decide_false by done.
    assert (Hrej : accept_stamp (ProbeWire.from p) (ProbeWire.stamp q) st' = (false, st')).
    { unfold accept_stamp. rewrite Hl. by rewrite (stamp_le_trans _ _ _ Hle Hsl). }
    destruct q; [|done|]; rewrite Hrej; done.
  - intros from sq inc ops now' buf' src' from' inc' Hp Hd Hsq Hq Hw st'.
    assert (Hn : pending (recv hmac now buf src st).2 !! sq = None).
    { unfold recv. rewrite Hp. cbn [ProbeWire.from ProbeWire.header fst]. rewrite bool_decide_false by done. rewrite handle_pending. apply lookup_delete_eq. }
    destruct (plane_run_done ops (recv hmac now buf src st).2 sq) as (Hn' & Hsec & Hden); [by rewrite recv_seq|by rewrite recv_seq|done|].
    fold st' in Hn', Hsec, Hden. destruct (recv_same now buf src st) as (E1 & _). rewrite E1 in Hsec.
    unfold recv. rewrite Hsec, Hq. case_bool_decide; [done|]. cbn [handle]. rewrite Hn', bool_decide_false by done. rewrite delete_id by done. by destruct st'.
Qed.

End ProbeFacts.

(** ** The probe cycle *)

(** What [suspect] does to the table. *)
Lemma suspect_exact now tg rt m :
  let m' := (Membership.suspect now tg rt m).2 in
  (forall inc, tg <> Membership.self_id m -> known tg m = Some (Alive, inc) -> known tg m' = Some (Suspect, inc)) /\
  ((forall inc, known tg m <> Some (Alive, inc)) -> m' = m) /\
  (forall id, id <> tg -> known id m' = known id m).
Proof.
  unfold known, Membership.suspect. destruct (Membership.members m !! tg) as [mb|] eqn:Em; [|cbn; rewrite Em; by split_and!].
  case_decide as Ha; [|cbn; rewrite Em; split_and!; try done; intros inc _ [= E _]; done].
  unfold Membership.merge. cbn [u_id]. destruct (Z.eqb_spec tg (Membership.self_id m)) as [Es|Hne].
  - split_and!; [intros; done|intros Hno; by destruct (Hno (m_inc mb)); cbn; rewrite Ha|].
    intros id Hid. cbn. by destruct (_ && _).
  - rewrite Em. assert (Hsup : Membership.supersedes {| u_id := tg; u_addr := m_addr mb; u_state := Suspect; u_inc := m_inc mb |} mb = true).
    { apply supersedes_rank. cbn. rewrite Ha. unfold rank. cbn. lia. }
    rewrite Hsup. cbn. split_and!.
    + intros inc _ [= _ <-]. by rewrite lookup_insert_eq.
    + intros Hno. destruct (Hno (m_inc mb)). by rewrite Ha.
    + intros id Hid. by rewrite lookup_insert_ne.
Qed.

Section ProbeCycle.
Context (hmac : bytes -> bytes -> bytes).
Import ProbePlane.

(** What can happen while the cycle waits: a datagram, or a fact merged by the
    dissemination plane. *)
Inductive probe_event := PeRecv (now : Z) (buf : bytes) (src : SocketAddr) | PeMerge (now : Z) (u : Update).

Definition probe_event_step (st : ProbePlane.t) (e : probe_event) : ProbePlane.t :=
  match e with
  | PeRecv now buf src => (recv hmac now buf src st).2
  | PeMerge now u => set_membership (Membership.merge now u (retransmit (params st)) (membership st)).2 st
  end.
Definition probe_events (es : list probe_event) (st : ProbePlane.t) : ProbePlane.t := foldl probe_event_step st es.

(** The event is an authentic ACK of [sq] from an admitted node, which need not be
    the target (see [foreign_ack_cancels_cycle]). *)
Definition acks (sec : bytes) (d : gset Z) (sq : Z) (e : probe_event) : Prop :=
  match e with
  | PeRecv _ buf _ => exists f i, ProbeWire.decode hmac buf sec = inl (PAck f sq i) /\ f ∉ d
  | PeMerge _ _ => False
  end.

Lemma event_same st e :
  let st' := probe_event_step st e in secret st' = secret st /\ deny st' = deny st /\ params st' = params st /\ pc st' = pc st.
Proof. destruct e as [now buf src|now u]; [apply recv_same|done]. Qed.

(** An event that does not acknowledge [sq] leaves its pending entry alone. *)
Lemma event_pending st e sq :
  ~ acks (secret st) (deny st) sq e -> pending (probe_event_step st e) !! sq = pending st !! sq.
Proof.
  intros Hna. destruct e as [now buf src|now u]; [|done]. cbn [probe_event_step]. unfold recv.
  destruct (ProbeWire.decode hmac buf (secret st)) as [p|[]] eqn:E; try done. case_bool_decide as Hd; [done|].
  destruct p as [f s i r|f s i|f s i fa tg ta].
  - destruct (accept_stamp _ _ st) as [[] st1] eqn:Ea; apply accept_stamp_seen in Ea as (_ & _ & _ & Hp); cbn [negb]; [|by rewrite <-Hp].
    by rewrite handle_pending, Hp.
  - rewrite handle_pending. apply lookup_delete_ne. intros ->. apply Hna. by exists f, i.
  - destruct (accept_stamp _ _ st) as [[] st1] eqn:Ea; apply accept_stamp_seen in Ea as (_ & _ & _ & Hp); cbn [negb]; [|by rewrite <-Hp].
    by rewrite handle_pending, Hp.
Qed.

(** No event brings a pending entry back. *)
Lemma event_pending_none st e sq : pending st !! sq = None -> pending (probe_event_step st e) !! sq = None.
Proof. intros Hn. destruct e as [now buf src|now u]; [by apply recv_pending_none|done]. Qed.

Lemma events_same es st :
  secret (probe_events es st) = secret st /\ deny (probe_events es st) = deny st /\
  params (probe_events es st) = params st /\ pc (probe_events es st) = pc st.
Proof.
  unfold probe_events. revert st. induction es as [|e es IH]; intros st; cbn [foldl]; [done|].
  destruct (IH (probe_event_step st e)) as (-> & -> & -> & ->). apply event_same.
Qed.

Lemma events_pending es st sq :
  Forall (fun e => ~ acks (secret st) (deny st) sq e) es -> pending (probe_events es st) !! sq = pending st !! sq.
Proof.
  unfold probe_events. revert st. induction es as [|e es IH]; intros st Hf; cbn [foldl]; [done|]. apply Forall_cons in Hf as [He Hf].
  rewrite IH; [by apply event_pending|]. destruct (event_same st e) as (-> & -> & _). done.
Qed.

Lemma events_pending_none es st sq : pending st !! sq = None -> pending (probe_events es st) !! sq = None.
Proof.
  unfold probe_events. revert st. induction es as [|e es IH]; intros st Hn; cbn [foldl]; [done|]. apply IH. by apply event_pending_none.
Qed.

Lemma escalate_pending sq target taddr st reqs st' :
  pending st !! sq = Some target -> probe_escalate hmac sq target taddr st = (reqs, st') ->
  pending st' = pending st /\ params st' = params st /\ pc st' = PIndirect sq target /\ secret st' = secret st /\ deny st' = deny st /\
  (length reqs <= indirect_k (params st))%nat /\ Membership.members (membership st') = Membership.members (membership st).
Proof.
  intros Hp. unfold probe_escalate. rewrite Hp. unfold Membership.indirect_helpers. destruct (Rng.shuffle _ _) as [r hs].
  cbn [self_view]. intros [= <- <-]. cbn [set_pc pending params pc secret deny membership].
  destruct (iter_count_same (length (take (indirect_k (params st)) hs)) CIndirect
    (set_membership (Membership.set_probe (Membership.probe_order (membership st)) (Membership.probe_idx (membership st)) r (membership st)) st))
    as (-> & -> & -> & -> & -> & _).
  rewrite length_map, length_take. split_and!; try done. lia.
Qed.

(** A wait in which an ACK arrived leaves nothing pending. *)
Lemma events_acked es st sq : Exists (acks (secret st) (deny st) sq) es -> pending (probe_events es st) !! sq = None.
Proof.
  intros (e & Hin & Hack)%Exists_exists. apply list_elem_of_split in Hin as (pre & post & ->).
  unfold probe_events. rewrite foldl_app. cbn [foldl]. apply events_pending_none.
  set (s := foldl probe_event_step st pre). destruct e as [n buf src|n u]; [|done].
  destruct Hack as (f & i & Hdec & Hnd). cbn [probe_event_step]. unfold recv.
  destruct (events_same pre st) as (F1 & F2 & _). change (probe_events pre st) with s in F1, F2. rewrite F1, F2.
  rewrite Hdec, bool_decide_false by done. rewrite handle_pending. apply lookup_delete_eq.
Qed.

(** C37. A probe cycle suspects its target exactly when its number was not
    acknowledged.  The cycle pings its target once with a fresh sequence number.
    If an authentic ACK of that number, from any admitted node, arrives in the
    first wait, the cycle ends there: no helper is asked and nothing else changes.
    Otherwise at most [indirect_k] helpers are asked; then if such an ACK arrives
    in the second wait the members are left as they are, and if none does the
    target is suspected: Alive becomes Suspect at its incarnation, and a target
    that is already Suspect or Dead, or unknown, is left as it is, like every
    other member. *)
Theorem probe_cycle_exact now st sent st1 sq target taddr es1 :
  pc st = PAsleep -> probe_step hmac now st = Some (sent, st1) -> pc st1 = PDirect sq target taddr ->
  let st2 := probe_events es1 st1 in
  let acked es := Exists (acks (secret st) (deny st) sq) es in
  sq = seq st /\ pending st1 !! sq = Some target /\ length sent = 1%nat /\
  (acked es1 -> probe_escalate hmac sq target taddr st2 = ([], set_pc PAsleep st2)) /\
  (~ acked es1 -> forall es2 now2 reqs st3,
     probe_escalate hmac sq target taddr st2 = (reqs, st3) ->
     let st4 := probe_events es2 st3 in
     let st5 := probe_conclude now2 sq target st4 in
     (length reqs <= indirect_k (params st))%nat /\ pc st3 = PIndirect sq target /\ pc st5 = PAsleep /\
     (acked es2 -> membership st5 = membership st4) /\
     (~ acked es2 ->
        (forall inc, target <> Membership.self_id (membership st4) -> known target (membership st4) = Some (Alive, inc) ->
           known target (membership st5) = Some (Suspect, inc)) /\
        ((forall inc, known target (membership st4) <> Some (Alive, inc)) -> membership st5 = membership st4) /\
        (forall id, id <> target -> known id (membership st5) = known id (membership st4)))).
Proof.
  intros Hpc Hstep Hd. unfold probe_step in Hstep. rewrite Hpc in Hstep. unfold probe_begin in Hstep.
  set (st0 := set_membership _ _) in Hstep. destruct (Membership.next_probe_target (membership st0)) as [[[[tg ta]|] m]|]; cbn in Hstep; [| |done].
  2: { injection Hstep as <- <-. cbn in Hd. by rewrite Hpc in Hd. }
  injection Hstep as <- <-. cbn in Hd. injection Hd as <- <- <-. set (s1 := count CPings _). intros st2 acked.
  assert (Hp1 : ~ acked es1 -> pending st2 !! seq st = Some tg).
  { intros Hf%Forall_Exists_neg. unfold st2. rewrite (events_pending es1 s1 (seq st)); [|exact Hf]. apply lookup_insert_eq. }
  destruct (events_same es1 s1) as (E1 & E2 & E3 & _). fold st2 in E1, E2, E3.
  split_and!; [done|apply lookup_insert_eq|done| |].
  - intros Ha. unfold probe_escalate, st2. by rewrite (events_acked es1 s1 (seq st) Ha).
  - intros Hn1 es2 now2 reqs st3 He st4 st5. pose proof (Hp1 Hn1) as Hp2.
    destruct (escalate_pending _ _ _ _ _ _ Hp2 He) as (P1 & P2 & P3 & P4 & P5 & P6 & _). rewrite E3 in P6.
    assert (F : secret st3 = secret st /\ deny st3 = deny st) by (by rewrite P4, P5, E1, E2). destruct F as [F1 F2].
    assert (Hpc5 : pc st5 = PAsleep) by (unfold st5, probe_conclude; by case_bool_decide).
    split_and!; [exact P6|exact P3|exact Hpc5| |].
    + intros Ha. unfold st5, probe_conclude. rewrite bool_decide_false; [done|]. unfold st4. rewrite events_acked; [by intros [? ?]|]. by rewrite F1, F2.
    + intros Hn2%Forall_Exists_neg.
      assert (Hp4 : pending st4 !! seq st = Some tg).
      { unfold st4. rewrite events_pending; [by rewrite P1|]. by rewrite F1, F2. }
      unfold st5, probe_conclude. rewrite Hp4, bool_decide_true by done. cbn [membership set_membership set_pc set_pending params].
      apply suspect_exact.
Qed.

End ProbeCycle.

Section ProbeWitness.
Import ProbePlane.

Definition demo_plane : ProbePlane.t := start demo_table tuned (str "k") ∅.
Definition demo_ping : bytes := ProbeWire.encode hmac_demo (str "k") (PPing 2 5 1 None).

(** The second copy of a PING is dropped. *)
Lemma probe_forgery_and_replay_inert_witness :
  let st' := plane_run hmac_demo [OpRecv 7 demo_ping (demo_addr 7002); OpWake 8] (recv hmac_demo 6 demo_ping (demo_addr 7002) demo_plane).2 in
  recv hmac_demo 8 demo_ping (demo_addr 7002) st' = ([], count CReplayed st').
Proof.
  apply (proj1 (proj2 (probe_forgery_and_replay_inert hmac_demo 6 demo_ping (demo_addr 7002) demo_plane))
    (PPing 2 5 1 None) [OpRecv 7 demo_ping (demo_addr 7002); OpWake 8] 8 demo_ping (demo_addr 7002) (PPing 2 5 1 None)).
  - vm_compute. reflexivity.
  - reflexivity.
  - apply not_elem_of_empty.
  - vm_compute. reflexivity.
  - reflexivity.
  - reflexivity.
  - vm_compute. reflexivity.
Defined.

Definition demo_begin : list (SocketAddr * bytes) * ProbePlane.t := default ([], demo_plane) (probe_step hmac_demo 1000 demo_plane).
Definition demo_target : Z := match pc demo_begin.2 with PDirect _ t _ => t | _ => 0 end.
Definition demo_taddr : SocketAddr := match pc demo_begin.2 with PDirect _ _ a => a | _ => demo_addr 0 end.

(** Nobody answers: the target is Suspect at the end of the cycle. *)
Lemma probe_cycle_exact_witness :
  let st3 := probe_escalate hmac_demo 1 demo_target demo_taddr demo_begin.2 in
  known demo_target (membership (probe_conclude 2000 1 demo_target st3.2)) = Some (Suspect, 1).
Proof.
  destruct (probe_cycle_exact hmac_demo 1000 demo_plane demo_begin.1 demo_begin.2 1 demo_target demo_taddr [])
    as (_ & _ & _ & _ & Hno); [reflexivity|vm_compute; reflexivity|vm_compute; reflexivity|].
  cbn zeta. destruct (probe_escalate hmac_demo 1 demo_target demo_taddr demo_begin.2) as [reqs st3] eqn:E.
  destruct (Hno ltac:(by intros ?%Exists_nil) [] 2000 reqs st3 E) as (_ & _ & _ & _ & Hno2).
  destruct (Hno2 ltac:(by intros ?%Exists_nil)) as [Hk _].
  assert (E3 : st3 = (probe_escalate hmac_demo 1 demo_target demo_taddr demo_begin.2).2) by (by rewrite E).
  apply (Hk 1); rewrite E3; vm_compute; congruence.
Defined.

(** [handle] takes the pending entry out before it compares the sender, so an ACK
    of the number from another node cancels the cycle of a silent target. *)
Lemma foreign_ack_cancels_cycle :
  let foreign := if demo_target =? 2 then 3 else 2 in
  let ack := ProbeWire.encode hmac_demo (str "k") (PAck foreign 1 1) in
  let st := (recv hmac_demo 1500 ack (demo_addr 7009) demo_begin.2).2 in
  foreign <> demo_target /\ pc demo_begin.2 = PDirect 1 demo_target demo_taddr /\
  probe_escalate hmac_demo 1 demo_target demo_taddr st = ([], set_pc PAsleep st) /\ known demo_target (membership st) = Some (Alive, 1).
Proof. split_and!; vm_compute; congruence. Qed.

(** ACKs have no replay guard and their incarnation is not read: sequence numbers
    start at 1 again after a restart, so an ACK recorded before it cancels the
    probe that has the same number now. *)
Lemma old_ack_cancels_probe_after_restart :
  let old := ProbeWire.encode hmac_demo (str "k") (PAck demo_target 1 0) in
  let st := (recv hmac_demo 1500 old (demo_addr 7009) demo_begin.2).2 in
  seq demo_plane = 1 /\ pending demo_begin.2 !! 1 = Some demo_target /\ pending st !! 1 = None /\
  probe_escalate hmac_demo 1 demo_target demo_taddr st = ([], set_pc PAsleep st).
Proof. split_and!; vm_compute; reflexivity. Qed.

(** A relayed probe spends the helper's own replay credit: the helper forwards
    the origin's sequence number under its own identity, so after relaying for a
    node whose counter is ahead, the helper's own direct PINGs to that target
    are dropped as replays until its counter catches up. *)
Lemma relay_poisons_replay :
  let relayed := ProbeWire.encode hmac_demo (str "k") (PPing 2 900 1 (Some (demo_addr 7003))) in
  let own := ProbeWire.encode hmac_demo (str "k") (PPing 2 40 1 None) in
  let st := (recv hmac_demo 6 relayed (demo_addr 7002) demo_plane).2 in
  (handle hmac_demo 5 (PPingReq 3 900 1 (demo_addr 7003) 1 (demo_addr 7001)) (demo_addr 7003)
     (start (merge_all 8 [] (Membership.new 2 (demo_addr 7002) 1)) tuned (str "k") ∅)).1 = [(demo_addr 7001, relayed)] /\
  recv hmac_demo 7 own (demo_addr 7002) st = ([], count CReplayed st).
Proof. split; vm_compute; reflexivity. Qed.

End ProbeWitness.
