(* ===== verification/MeshNode.v ===== *)
(** * The mesh node (crates/mesh/src/node.rs, and [Backoff] of config.rs)

    The assembly of the planes: one link per peer, routing of inbound frames,
    relay, dialling and the periodic loops.  A [LinkHandle] is shared between the
    link table and the tasks, so links live in a store and the table maps a peer
    to a handle into it.  Calls of the relay handler are the output of a step;
    the sockets are those of Link.v and Probe.v. *)

From S2P Require Import Prelude Wire Config Runtime Frame Handshake PeerQueue Link Swim MembershipSync Interest.

(** The intervals of the periodic loops, in milliseconds. *)
Definition DIAL_INTERVAL : Z := 300.
Definition GOSSIP_INTERVAL : Z := 300.
Definition DIGEST_INTERVAL : Z := 1000.

(** [Backoff::next_delay] of the default schedule (500 ms doubling up to 30 s),
    in milliseconds; these constants make its floating point exact. For attempts
    below 2 ^ 31: beyond, the cast to [i32] turns negative. *)
Definition next_delay (attempt : Z) : Z := Z.min (30 * 1000) (500 * 2 ^ attempt).

(** [enum RelayKind], [frame_kind] and [from_frame_kind]. *)
Inductive RelayKind := KRoom | KUser | KAll | KSocket.
Definition frame_kind (k : RelayKind) : FrameKind :=
  match k with KRoom => RelayRoom | KUser => RelayUser | KAll => RelayAll | KSocket => RelaySocket end.
Definition from_frame_kind (k : FrameKind) : option RelayKind :=
  match k with
  | RelayRoom => Some KRoom | RelayUser => Some KUser | RelayAll => Some KAll | RelaySocket => Some KSocket | _ => None
  end.

(** A call of the [RelayHandler]. *)
Record RelayCall := { rc_kind : RelayKind; rc_binary : bool; rc_body : bytes }.

(** [struct RelaySendReport]. *)
Record RelaySendReport := { sent : Z; dropped : Z; suppressed : Z; no_link : Z }.
Definition RelaySendReport_default : RelaySendReport := {| sent := 0; dropped := 0; suppressed := 0; no_link := 0 |}.

(** [struct MeshConfig] and [MeshConfig::new]. *)
Record MeshConfig := {
  mc_node_id : Z; mc_listen : SocketAddr; mc_seeds : list SocketAddr; mc_secret : bytes;
  mc_cluster_name : rstring; mc_params : SwimParams; mc_routing : Routing;
}.
Definition MeshConfig_new (id : Z) (listen : SocketAddr) (secret : bytes) : MeshConfig :=
  {| mc_node_id := id; mc_listen := listen; mc_seeds := []; mc_secret := secret; mc_cluster_name := str "default";
     mc_params := tuned; mc_routing := RouteInterest |}.

Module MeshNode.
Section MeshNode.
Context {N : Type} `{Notify N}.

(** [struct Inner] with the store of link handles. *)
Record t := {
  self_id : Z;
  addr : SocketAddr;
  cluster_name : rstring;
  secret : bytes;
  params : SwimParams;
  seeds : list SocketAddr;
  membership : Membership.t;
  interest : InterestState.t;
  store : gmap Z (Link.t N);
  links : gmap Z Z;
  deny : gset Z;
  dial_backoff : gmap SocketAddr (Z * Z);
  down : bool;
  has_relay : bool;
}.

(** The node [MeshNode::start_with_relay] builds once it has bound its address;
    [seed] is what the probe scheduler's generator draws. *)
Definition start_with_relay (cfg : MeshConfig) (bound : SocketAddr) (seed : Z) (relay : bool) : t :=
  {| self_id := mc_node_id cfg; addr := bound; cluster_name := mc_cluster_name cfg; secret := mc_secret cfg; params := mc_params cfg;
     seeds := mc_seeds cfg; membership := Membership.new (mc_node_id cfg) bound seed;
     interest := InterestState.new (mc_node_id cfg) (mc_routing cfg); store := ∅; links := ∅; deny := ∅; dial_backoff := ∅;
     down := false; has_relay := relay |}.

Definition set_membership (m : Membership.t) (n : t) : t :=
  {| self_id := self_id n; addr := addr n; cluster_name := cluster_name n; secret := secret n; params := params n; seeds := seeds n;
     membership := m; interest := interest n; store := store n; links := links n; deny := deny n; dial_backoff := dial_backoff n;
     down := down n; has_relay := has_relay n |}.
Definition set_interest (i : InterestState.t) (n : t) : t :=
  {| self_id := self_id n; addr := addr n; cluster_name := cluster_name n; secret := secret n; params := params n; seeds := seeds n;
     membership := membership n; interest := i; store := store n; links := links n; deny := deny n; dial_backoff := dial_backoff n;
     down := down n; has_relay := has_relay n |}.
Definition set_links (s : gmap Z (Link.t N)) (l : gmap Z Z) (n : t) : t :=
  {| self_id := self_id n; addr := addr n; cluster_name := cluster_name n; secret := secret n; params := params n; seeds := seeds n;
     membership := membership n; interest := interest n; store := s; links := l; deny := deny n; dial_backoff := dial_backoff n;
     down := down n; has_relay := has_relay n |}.
Definition set_dial (d : gset Z) (b : gmap SocketAddr (Z * Z)) (dn : bool) (n : t) : t :=
  {| self_id := self_id n; addr := addr n; cluster_name := cluster_name n; secret := secret n; params := params n; seeds := seeds n;
     membership := membership n; interest := interest n; store := store n; links := links n; deny := d; dial_backoff := b;
     down := dn; has_relay := has_relay n |}.

(** [Inner::link_cfg]. *)
Definition link_cfg (n : t) : LinkConfig :=
  let c := LinkConfig_new (self_id n) (cluster_name n) (secret n) in
  {| lc_protocol_version := lc_protocol_version c; lc_node_id := lc_node_id c; lc_incarnation := lc_incarnation c;
     lc_cluster_name := lc_cluster_name c; lc_secret := lc_secret c; lc_max_frame := lc_max_frame c;
     lc_features := Z.lor INTEREST_ROUTING RELAY; lc_auth_timeout := lc_auth_timeout c;
     lc_idle_ping_interval := lc_idle_ping_interval c; lc_idle_dead_after := lc_idle_dead_after c;
     lc_queue_hwm_bytes := lc_queue_hwm_bytes c |}.

(** [Inner::alive_peer_ids]. *)
Definition alive_peer_ids (n : t) : gset Z :=
  list_to_set (map i_id (filter (fun mi => i_state mi = Alive) (table (membership n)))).

(** [handle.try_send_encoded(kind, frame)] on the handle [h]. *)
Definition send_handle (h : Z) (kind : FrameKind) (frame : bytes) (n : t) : option (PeerQueue.PushOutcome + FrameKind) * t :=
  match store n !! h with
  | None => (None, n)
  | Some l => let '(o, l) := Link.try_send_encoded kind frame l in (Some o, set_links (<[h := l]> (store n)) (links n) n)
  end.

(** [handle.try_send(frame)] on the handle [h]. *)
Definition try_send_handle (h : Z) (f : Frame.t) (n : t) : t :=
  match store n !! h with
  | None => n
  | Some l => set_links (<[h := (Link.try_send f l).2]> (store n)) (links n) n
  end.

(** [Inner::send_to] and [Inner::send_interest]. *)
Definition send_frame (peer : Z) (f : Frame.t) (n : t) : t :=
  match links n !! peer with Some h => try_send_handle h f n | None => n end.
Definition send_to (peer : Z) (msg : MembershipMsg) (n : t) : t :=
  send_frame peer (Frame.new Frame.Membership (MembershipSync.encode msg)) n.
Definition send_interest (peer : Z) (u : InterestUpdate) (n : t) : t :=
  send_frame peer (Frame.new Frame.Interest (InterestWire.encode u)) n.

(** [Inner::all_links] and [Inner::broadcast_frame]. *)
Definition all_links (n : t) : list Z := (map_to_list (links n)).*2.
Definition broadcast_frame (f : Frame.t) (n : t) : t := foldl (fun n h => try_send_handle h f n) n (all_links n).

(** [Inner::on_inbound] at time [now]. *)
Definition on_inbound (now peer : Z) (f : Frame.t) (n : t) : list RelayCall * t :=
  if bool_decide (peer ∈ deny n) then ([], n)
  else
    match Frame.kind f with
    | Frame.Membership =>
        match MembershipSync.decode (Frame.body f) with
        | None => ([], n)
        | Some msg =>
            let '(resp, m) := MembershipSync.apply now msg (retransmit (params n)) (membership n) in
            let n := set_membership m n in
            ([], match resp with Some r => send_to peer r n | None => n end)
        end
    | Frame.Interest =>
        match InterestWire.decode (Frame.body f) with
        | None => ([], n)
        | Some (Edge e) => ([], set_interest (InterestState.apply_edge e (interest n)).2 n)
        | Some (Snapshot s) => ([], set_interest (InterestState.apply_snapshot s (interest n)).2 n)
        end
    | Frame.InterestDigest =>
        match InterestWire.decode_digest (Frame.body f) with
        | None => ([], n)
        | Some d =>
            ([], foldl (fun n s => send_interest peer (Snapshot s) n) n (InterestState.respond_to_digest d (interest n)))
        end
    | k =>
        match from_frame_kind k with
        | Some rk =>
            (if has_relay n
             then [{| rc_kind := rk; rc_binary := flags_has (Frame.flags f) FLAGS_BINARY; rc_body := Frame.body f |}] else [], n)
        | None => ([], n)
        end
    end.

(** [Inner::on_link_closed]. *)
Definition on_link_closed (now peer : Z) (n : t) : t :=
  let n := set_links (store n) (delete peer (links n)) n in
  if down n then n else set_membership (Membership.suspect now peer (retransmit (params n)) (membership n)).2 n.

Definition close_handle (h : Z) (n : t) : t :=
  match store n !! h with Some l => set_links (<[h := Link.close l]> (store n)) (links n) n | None => n end.

(** [Inner::register] of the handle [h]. *)
Definition register (h : Z) (n : t) : t :=
  match store n !! h with
  | None => n
  | Some l =>
      let peer := n_peer_node_id (Link.negotiated l) in
      if down n || bool_decide (peer ∈ deny n) then close_handle h n
      else match links n !! peer with
           | Some _ => close_handle h n
           | None =>
               let n := set_links (store n) (<[peer := h]> (links n)) n in
               let n := send_to peer (Sync true (Membership.full_state (membership n))) n in
               send_interest peer (Snapshot (InterestState.local_snapshot (interest n))) n
           end
  end.

(** [Inner::dial_targets]. *)
Definition dial_targets (n : t) : list SocketAddr :=
  let tbl := table (membership n) in
  let linked_addrs := map i_addr (filter (fun mi => is_Some (links n !! i_id mi)) tbl) in
  let denied_addrs := map i_addr (filter (fun mi => i_id mi ∈ deny n) tbl) in
  let out := filter (fun s => s <> addr n /\ (s ∉ linked_addrs) /\ (s ∉ denied_addrs)) (seeds n) in
  foldl (fun out mi =>
    if bool_decide (i_id mi < self_id n /\ i_state mi <> Dead /\ links n !! i_id mi = None /\ (i_id mi ∉ deny n) /\ (i_addr mi ∉ out))
    then out ++ [i_addr mi] else out) out tbl.

(** [Inner::dial_ready], [dial_ok] and [dial_fail]. *)
Definition dial_ready (now : Z) (a : SocketAddr) (n : t) : bool :=
  match dial_backoff n !! a with Some (_, next) => next <=? now | None => true end.
Definition dial_ok (a : SocketAddr) (n : t) : t := set_dial (deny n) (delete a (dial_backoff n)) (down n) n.
Definition dial_fail (now : Z) (a : SocketAddr) (n : t) : t :=
  let '(count, _) := default (0, now) (dial_backoff n !! a) in
  let count := wrap 32 (count + 1) in
  set_dial (deny n) (<[a := (count, now + next_delay count)]> (dial_backoff n)) (down n) n.

(** [MeshNode::set_local_interest]. *)
Definition set_local_interest (tg : Target) (hosting : bool) (n : t) : t :=
  let '(edge, i) := InterestState.local_set tg hosting (interest n) in
  let n := set_interest i n in
  match edge with
  | Some e => broadcast_frame (Frame.new Frame.Interest (InterestWire.encode (Edge e))) n
  | None => n
  end.

(** [MeshNode::interested_peers] and [set_routing]. *)
Definition interested_peers (tg : Target) (n : t) : list Z := InterestState.interested_peers tg (alive_peer_ids n) (interest n).
Definition set_routing (r : Routing) (n : t) : t := set_interest (InterestState.set_routing r (interest n)) n.

(** The frame [MeshNode::relay] builds once. *)
Definition relay_frame (k : RelayKind) (is_binary : bool) (metadata payload : bytes) : bytes :=
  let flags := if is_binary then FLAGS_BINARY else 0 in
  to_le_bytes 4 (wrap 32 (2 + (Z.of_nat (length metadata) + Z.of_nat (length payload)))) ++ [as_u8 (frame_kind k)] ++ [flags] ++ metadata ++ payload.

(** The enqueue loop of [MeshNode::relay]. *)
Fixpoint relay_loop (handles : list (option Z)) (k : FrameKind) (frame : bytes) (r : RelaySendReport) (n : t) : RelaySendReport * t :=
  match handles with
  | [] => (r, n)
  | None :: hs => relay_loop hs k frame {| sent := sent r; dropped := dropped r; suppressed := suppressed r; no_link := no_link r + 1 |} n
  | Some h :: hs =>
      let '(o, n) := send_handle h k frame n in
      let r := match o with
               | Some (inl PeerQueue.Enqueued) => {| sent := sent r + 1; dropped := dropped r; suppressed := suppressed r; no_link := no_link r |}
               | Some (inl PeerQueue.Dropped) => {| sent := sent r; dropped := dropped r + 1; suppressed := suppressed r; no_link := no_link r |}
               | Some (inr _) | None => {| sent := sent r; dropped := dropped r; suppressed := suppressed r + 1; no_link := no_link r |}
               end in
      relay_loop hs k frame r n
  end.

(** [MeshNode::relay]. *)
Definition relay (peers : list Z) (k : RelayKind) (is_binary : bool) (metadata payload : bytes) (n : t) : RelaySendReport * t :=
  relay_loop (map (fun p => links n !! p) peers) (frame_kind k) (relay_frame k is_binary metadata payload) RelaySendReport_default n.

(** [MeshNode::peer_count], and the ids of [MeshNode::peer_pressures]. *)
Definition peer_count (n : t) : nat := size (links n).
Definition peer_ids (n : t) : list Z := merge_sort Z.le (map_to_list (links n)).*1.

(** [MeshNode::set_partition] and [MeshNode::heal]. *)
Definition set_partition (peers : list Z) (n : t) : t :=
  let to_close := (filter (fun kv : Z * Z => kv.1 ∈ peers) (map_to_list (links n))).*2 in
  let n := foldl (fun n h => close_handle h n) n to_close in
  set_dial (list_to_set peers) (dial_backoff n) (down n) n.
Definition heal (n : t) : t := set_dial ∅ ∅ (down n) n.

(** [MeshNode::shutdown], the part on the shared state. *)
Definition shutdown (n : t) : t :=
  foldl (fun n h => close_handle h n) (set_dial (deny n) (dial_backoff n) true n) (all_links n).

(** One round of [gossip_loop], [digest_loop] and [interest_loop]. *)
Definition gossip_tick (n : t) : t :=
  if down n then n
  else
    let '(ups, m) := Membership.take_piggyback (gossip_max (params n)) (membership n) in
    broadcast_frame (Frame.new Frame.Membership (MembershipSync.encode (Gossip ups))) (set_membership m n).
Definition digest_tick (n : t) : t :=
  if down n then n
  else broadcast_frame (Frame.new Frame.Membership (MembershipSync.encode (MembershipSync.build_digest (membership n)))) n.
Definition interest_tick (n : t) : t :=
  if down n then n
  else
    let alive := alive_peer_ids n in
    let i := foldl (fun i id => if bool_decide (id ∈ alive) then i else InterestState.sweep_origin id i) (interest n)
               (InterestState.known_origins (interest n)) in
    let n := set_interest i n in
    broadcast_frame (Frame.new Frame.InterestDigest (InterestWire.encode_digest (InterestState.build_digest i))) n.

End MeshNode.
#[global] Arguments t : clear implicits.
End MeshNode.

(** ** Relay *)

Section NodeFacts.
Context {N : Type} `{Notify N}.
Import MeshNode.

(** Every table entry is a link to that peer. *)
Definition node_wf (n : MeshNode.t N) : Prop :=
  forall p h, links n !! p = Some h -> exists l, store n !! h = Some l /\ n_peer_node_id (Link.negotiated l) = p.

(** Sending on a handle changes that link's queue and nothing else. *)
Lemma try_send_handle_frame h f (n : MeshNode.t N) :
  interest (try_send_handle h f n) = interest n /\ (node_wf n -> node_wf (try_send_handle h f n)).
Proof.
  unfold try_send_handle. destruct (store n !! h) as [l|] eqn:E; [|done]. split; [done|].
  intros Hwf p h' Hp. cbn in *. destruct (Hwf p h' Hp) as (l' & Hl' & Hneg). rewrite lookup_insert. case_decide as Hh; [|by exists l'].
  subst. rewrite E in Hl'. simplify_eq. eexists. split; [done|]. unfold Link.try_send.
  destruct (negb _); cbn; [done|]. by destruct (PeerQueue.push _ _).
Qed.

Lemma broadcast_frame_frame f (n : MeshNode.t N) :
  interest (broadcast_frame f n) = interest n /\ (node_wf n -> node_wf (broadcast_frame f n)).
Proof.
  unfold broadcast_frame. generalize (all_links n). intros hs. revert n. induction hs as [|h hs IH]; intros n; cbn; [done|].
  destruct (IH (try_send_handle h f n)) as [-> Hw], (try_send_handle_frame h f n) as [-> Hw']. auto.
Qed.

Lemma relay_loop_interest hs k fr r (n : MeshNode.t N) : interest (relay_loop hs k fr r n).2 = interest n.
Proof.
  revert r n. induction hs as [|[h|] hs IH]; intros r n; cbn [relay_loop]; [done| |apply IH].
  unfold send_handle. destruct (store n !! h) as [l|]; [|apply IH]. destruct (Link.try_send_encoded k fr l). by rewrite IH.
Qed.

(** The relay buffer is the encoding of the frame the peers will parse. *)
Lemma relay_frame_encode k b md pl :
  relay_frame k b md pl = Frame.encode (Frame.with_flags (frame_kind k) (if b then FLAGS_BINARY else 0) (md ++ pl)).
Proof. unfold relay_frame, Frame.encode. cbn [Frame.body Frame.kind Frame.flags Frame.with_flags]. by rewrite length_app, Nat2Z.inj_add. Qed.

Definition report_total (r : RelaySendReport) : Z := sent r + dropped r + suppressed r + no_link r.

(** What relaying to the handles [hs] does to the store. *)
Lemma relay_loop_spec hs k fr r (n : MeshNode.t N) r' n' :
  relay_loop hs k fr r n = (r', n') -> NoDup (omap id hs) -> Forall (fun o => forall h, o = Some h -> is_Some (store n !! h)) hs ->
  report_total r' = report_total r + Z.of_nat (length hs) /\
  membership n' = membership n /\ interest n' = interest n /\ links n' = links n /\ deny n' = deny n /\
  (forall h, store n' !! h = if decide (Some h ∈ hs) then (fun l => (Link.try_send_encoded k fr l).2) <$> store n !! h else store n !! h).
Proof.
  revert r n. induction hs as [|[h|] hs IH]; intros r n; cbn [relay_loop].
  - intros [= <- <-] _ _. split_and!; [cbn; lia|done|done|done|done|]. intros h. by rewrite decide_False by (by intros ?%not_elem_of_nil).
  - intros E Hnd Hst. cbn in Hnd. apply NoDup_cons in Hnd as [Hni Hnd]. apply Forall_cons in Hst as [Hh Hst].
    destruct (Hh h eq_refl) as [l Hl]. unfold send_handle in E. rewrite Hl in E.
    destruct (Link.try_send_encoded k fr l) as [o l'] eqn:Eo. apply IH in E as (Ht & E1 & E2 & E3 & E4 & Es); [|done|].
    + split_and!; [|done|done|done|done|].
      * rewrite Ht. unfold report_total. cbn [length]. destruct o as [[]|]; cbn; lia.
      * intros h'. rewrite Es. cbn. destruct (decide (h' = h)) as [->|Hne].
        -- rewrite lookup_insert_eq. destruct (decide (Some h ∈ hs)) as [Hin|_].
           { exfalso. apply Hni, list_elem_of_omap. by exists (Some h). }
           destruct (decide (Some h ∈ Some h :: hs)) as [_|Hn]; [rewrite Hl; cbn; by rewrite Eo|]. exfalso. apply Hn. by left.
        -- rewrite lookup_insert_ne by done. destruct (decide (Some h' ∈ hs)) as [Hin|Hin].
           ++ by rewrite decide_True by (by right).
           ++ rewrite decide_False; [done|]. intros [[= ->]|?]%elem_of_cons; done.
    + apply Forall_forall. intros o' Ho h' ->. cbn. destruct (decide (h' = h)) as [->|]; [rewrite lookup_insert_eq; by eexists|].
      rewrite lookup_insert_ne by done. eapply Forall_forall in Hst; [|exact Ho]. by apply Hst.
  - intros E Hnd Hst. cbn in Hnd. apply Forall_cons in Hst as [_ Hst]. apply IH in E as (Ht & E1 & E2 & E3 & E4 & Es); [|done|done].
    split_and!; [|done|done|done|done|].
    + rewrite Ht. unfold report_total. cbn. lia.
    + intros h. rewrite Es. destruct (decide (Some h ∈ hs)) as [Hin|Hin]; [by rewrite decide_True by (by right)|].
      rewrite decide_False; [done|]. intros [?|?]%elem_of_cons; done.
Qed.

Lemma handles_nodup (n : MeshNode.t N) peers : node_wf n -> NoDup peers -> NoDup (omap id (map (fun p => links n !! p) peers)).
Proof.
  intros Hwf. induction 1 as [|p peers Hp Hnd IH]; cbn; [constructor|]. destruct (links n !! p) as [h|] eqn:E; [|done].
  constructor; [|done]. intros (o & Ho & Hid)%list_elem_of_omap. apply list_elem_of_fmap in Ho as (p' & -> & Hp'). cbn in Hid.
  destruct (Hwf p h E) as (l & Hl & Hpl). destruct (Hwf p' h Hid) as (l' & Hl' & Hpl'). rewrite Hl in Hl'. injection Hl' as <-.
  rewrite Hpl in Hpl'. by subst.
Qed.

(** Relaying offers one frame to the link of each peer that has one. *)
Lemma relay_spec (n : MeshNode.t N) peers k (b : bool) md pl r n' :
  node_wf n -> NoDup peers -> relay peers k b md pl n = (r, n') ->
  report_total r = Z.of_nat (length peers) /\ membership n' = membership n /\ interest n' = interest n /\ links n' = links n /\
  (forall h, store n' !! h =
     if decide (Some h ∈ map (fun p => links n !! p) peers)
     then (fun l => (Link.try_send_encoded (frame_kind k) (Frame.encode (Frame.with_flags (frame_kind k) (if b then FLAGS_BINARY else 0) (md ++ pl))) l).2) <$> store n !! h
     else store n !! h).
Proof.
  intros Hwf Hnd E. unfold relay in E. rewrite relay_frame_encode in E.
  apply relay_loop_spec in E as (Ht & E1 & E2 & E3 & E4 & Es).
  - rewrite length_map in Ht. by split_and!.
  - by apply handles_nodup.
  - apply Forall_forall. intros o (p & -> & _)%list_elem_of_fmap h Hh. destruct (Hwf p h Hh) as (l & -> & _). by eexists.
Qed.

(** A received relay goes to the handler once and is not forwarded. *)
Lemma on_inbound_relay now (from : Z) (k : RelayKind) (b : bool) body (n : MeshNode.t N) : from ∉ deny n -> has_relay n = true ->
  on_inbound now from (Frame.with_flags (frame_kind k) (if b then FLAGS_BINARY else 0) body) n =
    ([{| rc_kind := k; rc_binary := b; rc_body := body |}], n).
Proof. intros Hd Hr. unfold on_inbound. rewrite bool_decide_false, Hr by done. by destruct k, b. Qed.

(** A relay takes one hop: sending to a set of peers offers the same frame
    once to the link of each peer that has one and touches nothing else, and the
    report accounts for every peer (sent, dropped, suppressed or unreachable);
    and a node that receives such a frame hands kind, binary flag and body to
    its handler exactly once and changes nothing, so it is never forwarded. *)
Lemma relay_one_hop (n : MeshNode.t N) peers k b md pl r n' now from (n2 : MeshNode.t N) :
  node_wf n -> NoDup peers -> relay peers k b md pl n = (r, n') ->
  report_total r = Z.of_nat (length peers) /\
  membership n' = membership n /\ interest n' = interest n /\ links n' = links n /\
  (forall h, store n' !! h =
     if decide (Some h ∈ map (fun p => links n !! p) peers)
     then (fun l => (Link.try_send_encoded (frame_kind k) (Frame.encode (Frame.with_flags (frame_kind k) (if b then FLAGS_BINARY else 0) (md ++ pl))) l).2) <$> store n !! h
     else store n !! h) /\
  (from ∉ deny n2 -> has_relay n2 = true ->
   on_inbound now from (Frame.with_flags (frame_kind k) (if b then FLAGS_BINARY else 0) (md ++ pl)) n2 =
     ([{| rc_kind := k; rc_binary := b; rc_body := md ++ pl |}], n2)).
Proof.
  intros Hwf Hnd E. destruct (relay_spec _ _ _ _ _ _ _ _ Hwf Hnd E) as (Ht & E1 & E2 & E3 & Es). split_and!; [done..|].
  intros Hd Hr. by apply on_inbound_relay.
Qed.

(** After a sweep the interest table holds alive peers only. *)
Lemma interest_tick_sweeps (n : MeshNode.t N) o : down n = false -> o ∉ alive_peer_ids n -> InterestState.remote (interest (interest_tick n)) !! o = None.
Proof.
  intros Hd Ho. unfold interest_tick. rewrite Hd. cbn zeta. set (i := foldl _ _ _).
  rewrite (proj1 (broadcast_frame_frame _ _)). cbn [interest set_interest].
  assert (Hsw : forall ids i0, (InterestState.remote i0 !! o = None \/ o ∈ ids) -> InterestState.remote (foldl (fun i id =>
      if bool_decide (id ∈ alive_peer_ids n) then i else InterestState.sweep_origin id i) i0 ids) !! o = None).
  { induction ids as [|id ids IH]; intros i0 Hi; cbn; [by destruct Hi as [?|[]%not_elem_of_nil]|]. apply IH.
    destruct Hi as [Hi|[->|Hin]%elem_of_cons]; [left|left|by right].
    - case_bool_decide; [done|]. cbn. destruct (decide (id = o)) as [->|]; [apply lookup_delete_eq|by rewrite lookup_delete_ne].
    - rewrite bool_decide_false by done. apply lookup_delete_eq. }
  apply Hsw. destruct (InterestState.remote (interest n) !! o) as [x|] eqn:E; [right|by left].
  unfold InterestState.known_origins. apply list_elem_of_fmap. exists (o, x). split; [done|]. by apply elem_of_map_to_list.
Qed.

End NodeFacts.

Section NodeWitness.
Import MeshNode.

Definition demo_node_neg (peer : Z) : Negotiated :=
  {| n_protocol_version := 1; n_features := 3; n_max_frame := 4096; n_role := Initiator; n_peer_node_id := peer; n_peer_incarnation := 0 |}.
Definition demo_link (peer : Z) : Link.t bool :=
  Link.established (demo_link_cfg 1 3) (demo_node_neg peer) {| has_inbound := true; has_on_close := true |} LinkCounters.default.
Definition demo_node : MeshNode.t bool :=
  let n := start_with_relay (MeshConfig_new 1 (demo_addr 7001) (str "s")) (demo_addr 7001) 9 true in
  let n := set_membership (merge_all 8 [(0, demo_fact 2 1 Alive)] (membership n)) n in
  set_links {[10 := demo_link 2; 11 := demo_link 2]} {[2 := 10]} n.

Lemma demo_node_wf : node_wf demo_node.
Proof.
  intros p h Hl. cbn in Hl. apply lookup_singleton_Some in Hl as [<- <-]. exists (demo_link 2). split; reflexivity.
Qed.

Lemma relay_one_hop_witness :
  (relay [2; 5] KAll true [1] [2; 3] demo_node).1 = {| sent := 1; dropped := 0; suppressed := 0; no_link := 1 |} /\
  report_total (relay [2; 5] KAll true [1] [2; 3] demo_node).1 = 2.
Proof.
  split; [vm_compute; reflexivity|].
  destruct (relay_one_hop demo_node [2; 5] KAll true [1] [2; 3] (relay [2; 5] KAll true [1] [2; 3] demo_node).1
    (relay [2; 5] KAll true [1] [2; 3] demo_node).2 0 2 demo_node) as [Ht _].
  - exact demo_node_wf.
  - apply (bool_decide_unpack _). vm_compute. exact I.
  - by destruct (relay _ _ _ _ _ demo_node).
  - exact Ht.
Defined.

(** Closing the losing link of a duplicate pair takes the surviving link out of
    the table and suspects a peer that is connected. *)
Lemma duplicate_close_drops_survivor :
  let n := register 11 demo_node in
  let '(calls, l) := Link.reader_exit (default (demo_link 2) (store n !! 11)) in
  let n' := on_link_closed 50 2 n in
  links n !! 2 = Some 10 /\ calls = [CallClose 2] /\ links n' !! 2 = None /\
  Link.state (default (demo_link 2) (store n' !! 10)) = Up /\ known 2 (membership n') = Some (Suspect, 1).
Proof. vm_compute. done. Qed.

End NodeWitness.
