(* ===== verification/MeshRun.v ===== *)
(** * The mesh node at work (crates/mesh/src/node.rs: its tasks and their interleavings)

    The tasks [MeshNode::start_with_relay] spawns, the hooks of a link and the
    tasks of each link, as steps of one relation over the shared state of
    MeshNode.v.  A registration checks the node once and inserts later, and a
    shutdown raises its flag before it closes the links, so both are two steps.
    The theorem is an invariant of every run. *)

From S2P Require Import Prelude Wire Config Runtime Frame Handshake PeerQueue Link Swim MembershipSync Interest MeshNode.

(** ** Binding *)

(** What one turn of the bind loop of [start_with_relay] meets: no TCP listener
    (or no local address), a UDP bind that fails, or both sockets. *)
Inductive BindTry := TcpFails | UdpFails (addr_in_use : bool) | Bound (a : SocketAddr).
Inductive BindResult := BindError | BindOk (a : SocketAddr).
Definition BIND_ATTEMPTS : Z := 16.

(** The loop, with [attempts] turns begun before; [None] while the operating
    system has not answered the next turn. *)
Fixpoint bind_loop (listen : SocketAddr) (attempts : Z) (tries : list BindTry) : option BindResult :=
  match tries with
  | [] => None
  | TcpFails :: _ => Some BindError
  | Bound a :: _ => Some (BindOk a)
  | UdpFails in_use :: tries =>
      let attempts := attempts + 1 in
      if (port listen =? 0) && in_use && (attempts <? BIND_ATTEMPTS) then bind_loop listen attempts tries else Some BindError
  end.

(** The loop ends within sixteen turns. *)
Lemma bind_loop_ends listen tries : (16 <= length tries)%nat -> is_Some (bind_loop listen 0 tries).
Proof.
  assert (Hl : forall tries k, 0 <= k -> BIND_ATTEMPTS <= k + Z.of_nat (length tries) -> k < BIND_ATTEMPTS -> is_Some (bind_loop listen k tries)).
  { unfold BIND_ATTEMPTS. induction tries0 as [|[|u|a] ts IH]; intros k Hk Hlen Hb; cbn [bind_loop length] in *; [lia|by eexists| |by eexists].
    unfold BIND_ATTEMPTS. destruct (Z.ltb_spec (k + 1) 16); [|rewrite andb_false_r; by eexists].
    destruct (_ && _); [|by eexists]. apply IH; lia. }
  intros Hlen. apply Hl; unfold BIND_ATTEMPTS; lia.
Qed.

(** ** The tasks *)

Section Tasks.
Context {N : Type} `{Notify N}.
Import MeshNode.

(** [Inner::hooks]: both are wired. *)
Definition node_hooks : LinkHooks := {| has_inbound := true; has_on_close := true |}.

Definition put_link (h : Z) (l : Link.t N) (n : MeshNode.t N) : MeshNode.t N := set_links (<[h := l]> (store n)) (links n) n.

(** A call of a link's hooks. *)
Definition hook (now : Z) (call : HookCall) (n : MeshNode.t N) : list RelayCall * MeshNode.t N :=
  match call with
  | CallInbound peer f => on_inbound now peer f n
  | CallClose peer => ([], on_link_closed now peer n)
  end.
Fixpoint run_hooks (now : Z) (calls : list HookCall) (n : MeshNode.t N) : list RelayCall * MeshNode.t N :=
  match calls with
  | [] => ([], n)
  | call :: calls =>
      let '(r1, n) := hook now call n in
      let '(r2, n) := run_hooks now calls n in (r1 ++ r2, n)
  end.

(** The three tasks of the link [h]: its reader with the hooks it calls, its
    keepalive and its writer. *)
Definition reader_tick (h now : Z) (rd : Stream) (n : MeshNode.t N) : list RelayCall * Stream * MeshNode.t N :=
  match store n !! h with
  | None => ([], rd, n)
  | Some l =>
      let '(calls, rd, l) := Link.reader_step now rd l in
      let '(relays, n) := run_hooks now calls (put_link h l n) in (relays, rd, n)
  end.
Definition keepalive_tick (h now : Z) (n : MeshNode.t N) : MeshNode.t N :=
  match store n !! h with None => n | Some l => put_link h (Link.keepalive_step now (link_cfg n) l) n end.
Definition writer_tick (h : Z) (fails : option nat) (pc : link_writer_pc) (wire : bytes) (n : MeshNode.t N) : MeshNode.t N :=
  match store n !! h with
  | None => n
  | Some l =>
      let w := writer_step fails {| ws_q := Link.queue l; ws_pc := pc; ws_wire := wire; ws_ctrs := Link.counters l |} in
      put_link h {| Link.negotiated := Link.negotiated l; Link.hooks := Link.hooks l; Link.queue := ws_q w; Link.counters := ws_ctrs w;
        Link.state := Link.state l; Link.last_in_ms := Link.last_in_ms l; Link.reader := Link.reader l; Link.keepalive := Link.keepalive l |} n
  end.

(** [Inner::register] in its two halves: the test of the flag and the deny list,
    and the insertion under the lock of the table. *)
Definition register_gate (h : Z) (n : MeshNode.t N) : bool * MeshNode.t N :=
  match store n !! h with
  | None => (false, n)
  | Some l =>
      if down n || bool_decide (n_peer_node_id (Link.negotiated l) ∈ deny n) then (false, close_handle h n) else (true, n)
  end.
Definition register_insert (h : Z) (n : MeshNode.t N) : MeshNode.t N :=
  match store n !! h with
  | None => n
  | Some l =>
      let peer := n_peer_node_id (Link.negotiated l) in
      match links n !! peer with
      | Some _ => close_handle h n
      | None =>
          let n := set_links (store n) (<[peer := h]> (links n)) n in
          let n := send_to peer (Sync true (Membership.full_state (membership n))) n in
          send_interest peer (Snapshot (InterestState.local_snapshot (interest n))) n
      end
  end.

Lemma register_halves h (n : MeshNode.t N) :
  register h n = let '(go, n) := register_gate h n in if go then register_insert h n else n.
Proof.
  unfold register, register_gate, register_insert. destruct (store n !! h) as [l|] eqn:E; [|done].
  destruct (_ || _); [done|]. cbn. by rewrite E.
Qed.

(** The task [accept_loop] spawns for a connection, and the one [dial_loop]
    spawns for an address, up to the gate: [res] is what [establish] came to. *)
Definition accept_done (res : Establish N) (h : Z) (n : MeshNode.t N) : bool * MeshNode.t N :=
  match res with EstUp l _ _ => register_gate h (put_link h l n) | _ => (false, n) end.
Definition dial_done (now : Z) (a : SocketAddr) (res : Establish N) (h : Z) (n : MeshNode.t N) : bool * MeshNode.t N :=
  match res with
  | EstUp l _ _ => register_gate h (put_link h l (dial_ok a n))
  | EstErr _ _ => (false, dial_fail now a n)
  | _ => (false, n)
  end.

(** The addresses one turn of [dial_loop] dials; [None] when the loop returns. *)
Definition dial_round (now : Z) (n : MeshNode.t N) : option (list SocketAddr) :=
  if down n then None else Some (filter (fun a => dial_ready now a n = true) (dial_targets n)).

(** [MeshNode::shutdown] in its two halves: the flag, then the links. *)
Definition raise_down (n : MeshNode.t N) : MeshNode.t N := set_dial (deny n) (dial_backoff n) true n.
Definition close_links (n : MeshNode.t N) : MeshNode.t N := foldl (fun n h => close_handle h n) n (all_links n).

Lemma shutdown_halves (n : MeshNode.t N) : shutdown n = close_links (raise_down n).
Proof. reflexivity. Qed.
End Tasks.

(** ** Steps that leave the shape of the node *)

Lemma swim_step_self rt m op : Membership.self_id (swim_step rt m op) = Membership.self_id m.
Proof.
  destruct op as [now u|now from|now t|now to| |e k|max]; cbn [swim_step].
  - apply merge_self_id.
  - unfold Membership.note_direct_ack. destruct (Membership.members m !! from) as [mb|]; [|done]. by case_decide.
  - unfold Membership.suspect. destruct (Membership.members m !! t); [|done]. case_decide; [apply merge_self_id|done].
  - unfold Membership.expire_suspects. generalize (filter (fun kv => Membership.overdue now to kv.2) (map_to_list (Membership.members m))).
    intros l. revert m. induction l as [|[id mb] l IH]; intros m; cbn [Membership.evict_all]; [done|].
    specialize (IH (Membership.merge now {| u_id := id; u_addr := m_addr mb; u_state := Dead; u_inc := m_inc mb |} rt m).2).
    rewrite merge_self_id in IH. destruct (Membership.merge _ _ _ _) as [ok m1]. cbn in *. by destruct (Membership.evict_all _ _ _ _).
  - destruct (Membership.next_probe_target m) as [[r m']|] eqn:E; [|done]. by apply next_probe_same in E as (_ & _ & ->).
  - unfold Membership.indirect_helpers. by destruct (Rng.shuffle _ _).
  - unfold Membership.take_piggyback. by destruct (Membership.piggyback _ _ _ _).
Qed.

Lemma swim_run_self rt m ops : Membership.self_id (swim_run rt m ops) = Membership.self_id m.
Proof. revert m. induction ops as [|op ops IH]; intros m; [done|]. etransitivity; [apply (IH (swim_step rt m op))|apply swim_step_self]. Qed.

Lemma sync_apply_run now msg rt m : exists ops, (MembershipSync.apply now msg rt m).2 = swim_run rt m ops.
Proof.
  destruct msg as [reply us|us|es]; cbn [MembershipSync.apply snd]; [eexists; apply merge_updates_run|eexists; apply merge_updates_run|by exists []].
Qed.

Section Evolution.
Context {N : Type} `{Notify N}.
Import MeshNode.
Implicit Types (n : MeshNode.t N) (l : Link.t N).

(** A link keeps what it negotiated and never comes up again. *)
Definition link_kept l l' : Prop :=
  Link.negotiated l' = Link.negotiated l /\ (Link.state l <> Up -> Link.state l' <> Up).
#[local] Instance link_kept_preorder : PreOrder link_kept.
Proof. split; [by intros l; split|]. intros l1 l2 l3 [A1 A2] [B1 B2]. split; [congruence|auto]. Qed.

Definition store_kept (s s' : gmap Z (Link.t N)) : Prop :=
  dom s' = dom s /\ forall h l l', s !! h = Some l -> s' !! h = Some l' -> link_kept l l'.

Lemma store_kept_refl s : store_kept s s.
Proof. split; [done|]. intros h l l' E E'. rewrite E in E'. by simplify_eq. Qed.

Lemma store_kept_insert s h l l' : s !! h = Some l -> link_kept l l' -> store_kept s (<[h := l']> s).
Proof.
  intros E Hk. split; [rewrite dom_insert_lookup_L; [done|by eexists]|]. intros h' l1 l2 E1. rewrite lookup_insert.
  case_decide; intros E2; simplify_eq; [done|reflexivity].
Qed.

Lemma store_kept_trans s1 s2 s3 : store_kept s1 s2 -> store_kept s2 s3 -> store_kept s1 s3.
Proof.
  intros [A1 A2] [B1 B2]. split; [congruence|]. intros h l l' E E'.
  assert (is_Some (s2 !! h)) as [l2 E2] by (apply elem_of_dom; rewrite A1; apply elem_of_dom; by eexists).
  transitivity l2; [by eapply A2|by eapply B2].
Qed.

(** The fields set once, at the start. *)
Definition fixed n := (self_id n, addr n, cluster_name n, secret n, params n, seeds n, has_relay n).

(** The interest plane: its owner, what it hosts, and no view of itself. *)
Definition interest_kept (i i' : InterestState.t) : Prop :=
  InterestState.self_id i' = InterestState.self_id i /\ InterestState.local i' = InterestState.local i /\
  (InterestState.remote i !! InterestState.self_id i = None -> InterestState.remote i' !! InterestState.self_id i = None).

Record evolves n n' : Prop := {
  ev_fixed : fixed n' = fixed n;
  ev_down : down n' = down n;
  ev_links : links n' ⊆ links n;
  ev_store : store_kept (store n) (store n');
  ev_swim : exists ops, membership n' = swim_run (retransmit (params n)) (membership n) ops;
  ev_interest : interest_kept (interest n) (interest n');
}.

#[export] Instance evolves_preorder : PreOrder evolves.
Proof.
  split.
  - intros n. split; try done; [apply store_kept_refl|by exists []].
  - intros n1 n2 n3 [A1 A2 A3 A4 [o1 A5] (A6 & A7 & A8)] [B1 B2 B3 B4 [o2 B5] (B6 & B7 & B8)]. split.
    + congruence.
    + congruence.
    + by etransitivity.
    + by eapply store_kept_trans.
    + exists (o1 ++ o2). rewrite B5, A5. unfold fixed in A1. injection A1 as _ _ _ _ -> _ _. unfold swim_run. by rewrite foldl_app.
    + split; [congruence|]. split; [congruence|]. intros Hn. rewrite A6 in B8. auto.
Qed.

(** Changes of one field. *)
Lemma evolves_put h l l' n : store n !! h = Some l -> link_kept l l' -> evolves n (put_link h l' n).
Proof. intros E Hk. split; try done; [by eapply store_kept_insert|by exists []]. Qed.

Lemma evolves_interest i n : interest_kept (interest n) i -> evolves n (set_interest i n).
Proof. intros Hi. split; try done; [apply store_kept_refl|by exists []]. Qed.

Lemma evolves_membership m ops n : m = swim_run (retransmit (params n)) (membership n) ops -> evolves n (set_membership m n).
Proof. intros Hm. split; try done; [apply store_kept_refl|by exists ops]. Qed.

Lemma evolves_unlink p n : evolves n (set_links (store n) (delete p (links n)) n).
Proof. split; try done; [apply delete_subseteq|apply store_kept_refl|by exists []]. Qed.

Lemma evolves_deny d b n : evolves n (set_dial d b (down n) n).
Proof. split; try done; [apply store_kept_refl|by exists []]. Qed.

Lemma evolves_foldl {A} (f : MeshNode.t N -> A -> MeshNode.t N) xs n : (forall n x, evolves n (f n x)) -> evolves n (foldl f n xs).
Proof. intros Hf. revert n. induction xs as [|x xs IH]; intros n; [reflexivity|]. cbn. etransitivity; [apply Hf|apply IH]. Qed.

(** ** The operations of a link *)

Lemma try_send_kept f l : link_kept l (Link.try_send f l).2.
Proof. unfold Link.try_send. destruct (negb _); [by split|]. destruct (PeerQueue.push _ _). by split. Qed.

Lemma try_send_encoded_kept k f l : link_kept l (Link.try_send_encoded k f l).2.
Proof. unfold Link.try_send_encoded. destruct (negb _); [by split|]. destruct (PeerQueue.push _ _). by split. Qed.

Lemma notify_waiters_kept l : link_kept l (Link.notify_waiters l).
Proof. split; [apply notify_waiters_same|]. unfold Link.notify_waiters. by destruct l as [? ? ? ? ? ? [] []]. Qed.

Lemma notify_waiters_state l : Link.state (Link.notify_waiters l) = Link.state l.
Proof. unfold Link.notify_waiters. by destruct l as [? ? ? ? ? ? [] []]. Qed.

Lemma close_state l : Link.state (Link.close l) = Closing.
Proof. unfold Link.close. cbn [Link.state Link.set_queue]. by rewrite notify_waiters_state. Qed.

Lemma close_kept l : link_kept l (Link.close l).
Proof. split; [|by rewrite close_state]. unfold Link.close. cbn [Link.negotiated Link.set_queue]. by rewrite (proj1 (notify_waiters_same _)). Qed.

Lemma dispatch_kept k fl b l : link_kept l (Link.dispatch k fl b l).2.
Proof.
  split; [apply (dispatch_append k fl b l)|]. unfold Link.dispatch. destruct (from_u8 k) as [kd|]; [|done]. destruct (_ && _); [done|].
  destruct kd; try done. destruct (flags_has _ _); [done|]. by destruct (PeerQueue.push _ _).
Qed.

Lemma reader_step_kept now rd l : link_kept l (Link.reader_step now rd l).2.
Proof.
  unfold Link.reader_step. destruct (Link.reader l) as [[]|k fl b|]; [by split| |..|reflexivity].
  - destruct (read_raw_frame _ _) as [[[[[k fl] b] rd']|[]]|]; by split.
  - match goal with |- context [Link.dispatch k fl b ?l1] => pose proof (dispatch_kept k fl b l1) as Hd; destruct (Link.dispatch k fl b l1) end.
    by destruct Hd.
Qed.

Lemma keepalive_step_kept now cfg l : link_kept l (Link.keepalive_step now cfg l).
Proof.
  split; [apply (keepalive_append now cfg l)|]. unfold Link.keepalive_step. destruct (Link.keepalive l) as [[]|]; [done| |done].
  destruct (PeerQueue.is_closed _); [done|]. destruct (_ <? _).
  - intros _. cbn [Link.state Link.set_queue]. by rewrite notify_waiters_state.
  - by destruct (PeerQueue.push _ _) as [[] q].
Qed.

(** ** The operations of the node *)

Lemma try_send_handle_evolves h f n : evolves n (try_send_handle h f n).
Proof.
  unfold try_send_handle. destruct (store n !! h) as [l|] eqn:E; [|reflexivity]. eapply evolves_put; [exact E|apply try_send_kept].
Qed.

Lemma close_handle_evolves h n : evolves n (close_handle h n).
Proof. unfold close_handle. destruct (store n !! h) as [l|] eqn:E; [|reflexivity]. eapply evolves_put; [exact E|apply close_kept]. Qed.

Lemma send_frame_evolves p f n : evolves n (send_frame p f n).
Proof. unfold send_frame. destruct (links n !! p); [apply try_send_handle_evolves|reflexivity]. Qed.

Lemma broadcast_frame_evolves f n : evolves n (broadcast_frame f n).
Proof. apply evolves_foldl. intros. apply try_send_handle_evolves. Qed.

Lemma close_links_evolves n : evolves n (close_links n).
Proof. apply evolves_foldl. intros. apply close_handle_evolves. Qed.

Lemma apply_edge_kept e i : interest_kept i (InterestState.apply_edge e i).2.
Proof.
  unfold InterestState.apply_edge. destruct (Z.eqb_spec (e_origin e) (InterestState.self_id i)) as [|Hne]; [done|].
  destruct (_ <=? _); (split; [done|split; [done|]]); intros Hn; cbn; by rewrite lookup_insert_ne.
Qed.

Lemma apply_snapshot_kept s i : interest_kept i (InterestState.apply_snapshot s i).2.
Proof.
  unfold InterestState.apply_snapshot. destruct (Z.eqb_spec (s_origin s) (InterestState.self_id i)) as [|Hne]; [done|].
  destruct (negb _); (split; [done|split; [done|]]); intros Hn; cbn; [done|]. by rewrite lookup_insert_ne.
Qed.

Lemma sweep_kept (P : Z -> bool) ids i :
  interest_kept i (foldl (fun i id => if P id then i else InterestState.sweep_origin id i) i ids).
Proof.
  revert i. induction ids as [|id ids IH]; intros i; [done|]. cbn [foldl]. destruct (P id); [apply IH|].
  destruct (IH (InterestState.sweep_origin id i)) as (E1 & E2 & E3). split; [exact E1|]. split; [exact E2|].
  intros Hn. apply E3. cbn. by rewrite lookup_delete_None; right.
Qed.

Lemma on_inbound_evolves now p f n : evolves n (on_inbound now p f n).2.
Proof.
  unfold on_inbound. case_bool_decide; [reflexivity|]. destruct (Frame.kind f); cbn [from_frame_kind]; try reflexivity.
  - destruct (MembershipSync.decode _) as [msg|]; [|reflexivity]. destruct (sync_apply_run now msg (retransmit (params n)) (membership n)) as [ops E].
    destruct (MembershipSync.apply _ _ _ _) as [resp m]. cbn [snd] in *. pose proof (evolves_membership m ops n E) as Hm.
    destruct resp; [|done]. etransitivity; [exact Hm|apply send_frame_evolves].
  - destruct (InterestWire.decode _) as [[e|s]|]; [..|reflexivity]; apply evolves_interest; [apply apply_edge_kept|apply apply_snapshot_kept].
  - destruct (InterestWire.decode_digest _) as [d|]; [|reflexivity]. apply evolves_foldl. intros. apply send_frame_evolves.
Qed.

Lemma hook_evolves now call n : evolves n (hook now call n).2.
Proof.
  destruct call as [p f|p]; [apply on_inbound_evolves|]. cbn [hook snd]. unfold on_link_closed. cbn zeta.
  transitivity (set_links (store n) (delete p (links n)) n); [apply evolves_unlink|]. cbn [down set_links].
  destruct (down n); [reflexivity|]. by apply (evolves_membership _ [SoSuspect now p]).
Qed.

Lemma run_hooks_evolves now calls n : evolves n (run_hooks now calls n).2.
Proof.
  revert n. induction calls as [|c calls IH]; intros n; cbn [run_hooks]; [reflexivity|].
  pose proof (hook_evolves now c n) as Hc. destruct (hook now c n) as [r1 n1]. pose proof (IH n1) as Hi.
  destruct (run_hooks now calls n1) as [r2 n2]. by transitivity n1.
Qed.

Lemma reader_tick_evolves h now rd n : evolves n (reader_tick h now rd n).2.
Proof.
  unfold reader_tick. destruct (store n !! h) as [l|] eqn:E; [|reflexivity]. pose proof (reader_step_kept now rd l) as Hk.
  destruct (Link.reader_step now rd l) as [[calls rd'] l']. pose proof (run_hooks_evolves now calls (put_link h l' n)) as Hr.
  destruct (run_hooks _ _ _). etransitivity; [by eapply evolves_put|exact Hr].
Qed.

Lemma keepalive_tick_evolves h now n : evolves n (keepalive_tick h now n).
Proof. unfold keepalive_tick. destruct (store n !! h) eqn:E; [|reflexivity]. eapply evolves_put; [exact E|apply keepalive_step_kept]. Qed.

Lemma writer_tick_evolves h fails pc wire n : evolves n (writer_tick h fails pc wire n).
Proof. unfold writer_tick. destruct (store n !! h) eqn:E; [|reflexivity]. by eapply evolves_put; [exact E|split]. Qed.

Lemma relay_evolves peers k b md pl n : evolves n (relay peers k b md pl n).2.
Proof.
  unfold relay. generalize RelaySendReport_default (relay_frame k b md pl). generalize (map (fun p => links n !! p) peers).
  intros hs r fr. revert r n. induction hs as [|[h|] hs IH]; intros r n; cbn [relay_loop]; [reflexivity| |apply IH].
  unfold send_handle. destruct (store n !! h) as [l|] eqn:E; [|apply IH]. pose proof (try_send_encoded_kept (frame_kind k) fr l) as Hk.
  destruct (Link.try_send_encoded _ _ _) as [o l']. etransitivity; [by eapply evolves_put|apply IH].
Qed.

Lemma gossip_tick_evolves n : evolves n (gossip_tick n).
Proof.
  unfold gossip_tick. destruct (down n); [reflexivity|]. destruct (Membership.take_piggyback _ _) as [ups m] eqn:E.
  etransitivity; [|apply broadcast_frame_evolves]. apply (evolves_membership _ [SoPiggyback (gossip_max (params n))]). cbn. by rewrite E.
Qed.

Lemma digest_tick_evolves n : evolves n (digest_tick n).
Proof. unfold digest_tick. destruct (down n); [reflexivity|apply broadcast_frame_evolves]. Qed.

Lemma interest_tick_evolves n : evolves n (interest_tick n).
Proof.
  unfold interest_tick. destruct (down n); [reflexivity|]. cbn zeta. etransitivity; [|apply broadcast_frame_evolves].
  apply evolves_interest, sweep_kept.
Qed.

Lemma set_partition_evolves peers n : evolves n (set_partition peers n).
Proof. unfold set_partition. etransitivity; [|apply evolves_deny]. apply evolves_foldl. intros. apply close_handle_evolves. Qed.

Lemma dial_fail_evolves now a n : evolves n (dial_fail now a n).
Proof. unfold dial_fail. destruct (default _ _). apply evolves_deny. Qed.

Lemma register_gate_evolves h n : evolves n (register_gate h n).2.
Proof. unfold register_gate. destruct (store n !! h); [|reflexivity]. destruct (_ || _); [apply close_handle_evolves|reflexivity]. Qed.
End Evolution.

(** ** A link never leads back to the node *)

Section NoSelf.
Context (hmac : bytes -> bytes -> bytes).
Import Handshake.

Definition foreign (c : LinkConfig) (n : Negotiated) : Prop := n_peer_node_id n <> lc_node_id c.
Definition hs_foreign (c : LinkConfig) (h : Handshake.t) : Prop := cfg h = c /\ forall n, negotiated h = Some n -> foreign c n.

Lemma validate_foreign body h n : validate_peer_hello body h = inl n -> foreign (cfg h) n.
Proof.
  unfold validate_peer_hello. destruct (HelloBody.decode body) as [hello|[]]; try done. destruct (negb _); [done|].
  destruct (Z.eqb_spec (HelloBody.node_id hello) (lc_node_id (cfg h))) as [|Hne]; [done|].
  destruct (_ <? _); [done|]. destruct (_ <? _); [done|]. by intros [= <-].
Qed.

Lemma on_frame_foreign c rnd f h step h' : hs_foreign c h -> on_frame hmac rnd f h = Some (step, h') ->
  hs_foreign c h' /\ forall s n, step = Established s n -> foreign c n.
Proof.
  intros [<- Hn]. unfold on_frame.
  assert (Href : forall r g, cfg g = cfg h -> negotiated g = negotiated h -> refuse r g = Some (step, h') ->
    hs_foreign (cfg h) h' /\ forall s n, step = Established s n -> foreign (cfg h) n).
  { intros r g Eg En [= <- <-]. split; [|done]. split; [done|]. cbn [negotiated set_state]. by rewrite En. }
  assert (Hd : hs_foreign (cfg h) (set_state HDone h)) by (by split).
  destruct (state h).
  - unfold on_hello. destruct (negb _); [by apply Href|]. match goal with |- context [validate_peer_hello ?b ?g] => destruct (validate_peer_hello b g) as [n|] eqn:E end;
      [|by apply Href]. apply validate_foreign in E. cbn [cfg] in E.
    cbn [role]. destruct (role h); intros [= <- <-]; (split; [|done]); (split; [done|]); by intros n' [= <-].
  - unfold on_challenge. destruct (negb _); [by apply Href|]. destruct (negb _); [by apply Href|]. cbn. intros [= <- <-]. split; [|done]. by split.
  - unfold on_auth. destruct (negb _); [by apply Href|]. destruct (negb _); [by apply Href|].
    destruct (auth_mac hmac (peer_label (role h)) h); [|done]. cbn [mbind option_bind]. destruct (negb _); [by apply Href|].
    destruct (negotiated h) as [n|] eqn:En; [|done]. cbn [mbind option_bind]. destruct (role h).
    + intros [= <- <-]. split; [exact Hd|]. intros s n' [= _ <-]. by apply Hn.
    + destruct (auth_mac _ _ (set_state HDone h)); [|done]. intros [= <- <-]. split; [exact Hd|]. intros s n' [= _ <-]. by apply Hn.
  - by apply Href.
  - by apply Href.
Qed.

Lemma handshake_loop_foreign c fuel rnd max h rd wr ctr n rd' wr' ctr' : hs_foreign c h ->
  handshake_loop hmac fuel rnd max h rd wr ctr = HsOk n rd' wr' ctr' -> foreign c n.
Proof.
  revert h rd wr. induction fuel as [|fuel IH]; intros h rd wr Hf; cbn [handshake_loop]; [done|].
  destruct (read_raw_frame max rd) as [[[[[k fl] b] rd1]|]|]; try done. destruct (from_u8 k) as [kd|]; [|done].
  destruct (on_frame _ _ _ _) as [[step h1]|] eqn:E; [|done]. apply (on_frame_foreign c) in E as [Hf1 He]; [|done].
  destruct step as [send|send neg|reason]; [..|done]; destruct (write_frames send wr) as [w|]; try done; [by apply IH|].
  intros [= <- _ _ _]. by eapply He.
Qed.

Lemma establish_foreign {N : Type} `{Notify N} role c hk fresh rnd elapsed rd wr (l : Link.t N) rd' wr' :
  establish hmac role c hk fresh rnd elapsed rd wr = EstUp l rd' wr' -> foreign c (Link.negotiated l) /\ Link.hooks l = hk.
Proof.
  unfold establish, run_handshake. cbn [start]. destruct (write_frame _ _) as [w|]; [|done].
  destruct (handshake_loop _ _ _ _ _ _ _ _) as [| | |n r w' ctr] eqn:E; [by destruct elapsed|done|done|]. intros [= <- _ _].
  split; [|done]. eapply (handshake_loop_foreign c); [|exact E]. by split.
Qed.
End NoSelf.

(** ** Runs *)

Section Run.
Context {N : Type} `{Notify N} (hmac : bytes -> bytes -> bytes).
Import MeshNode.

#[local] Instance LinkState_eq_dec : EqDecision LinkState.
Proof. solve_decision. Defined.

(** The node with the registrations between their two halves; [late] are those
    that were there when the shutdown flag was raised, [swept] says that the
    shutdown has closed the links, and [strays] are the links that were taken out
    of the table while they were up. *)
Record run := { rn : MeshNode.t N; pend : list Z; late : gset Z; swept : bool; strays : gset Z }.
Definition dropped_up (n n' : MeshNode.t N) : gset Z :=
  list_to_set (filter (fun ph => links n' !! ph.1 <> Some ph.2 /\ Link.state <$> store n' !! ph.2 = Some Up) (map_to_list (links n))).*2.
Definition moved (n : MeshNode.t N) (ps : list Z) (lt : gset Z) (sw : bool) (r : run) : run :=
  {| rn := n; pend := ps; late := lt; swept := sw; strays := strays r ∪ dropped_up (rn r) n |}.
Definition at_node (n : MeshNode.t N) (r : run) : run := moved n (pend r) (late r) (swept r) r.
Definition gated (h : Z) (go : bool * MeshNode.t N) (r : run) : run :=
  moved go.2 (if go.1 then h :: pend r else pend r) (late r) (swept r) r.
Definition run_start (n : MeshNode.t N) : run := {| rn := n; pend := []; late := ∅; swept := false; strays := ∅ |}.

Inductive node_step (r : run) : run -> Prop :=
  | NsAccept h fresh rnd elapsed rd wr res : store (rn r) !! h = None ->
      establish hmac Responder (link_cfg (rn r)) node_hooks fresh rnd elapsed rd wr = res ->
      node_step r (gated h (accept_done res h (rn r)) r)
  | NsDial now a h fresh rnd elapsed rd wr res : store (rn r) !! h = None ->
      establish hmac Initiator (link_cfg (rn r)) node_hooks fresh rnd elapsed rd wr = res ->
      node_step r (gated h (dial_done now a res h (rn r)) r)
  | NsConnectFails now a : node_step r (at_node (dial_fail now a (rn r)) r)
  | NsInsert h rest : pend r ≡ₚ h :: rest ->
      node_step r (moved (register_insert h (rn r)) rest (late r) (swept r) r)
  | NsReader h now rd : node_step r (at_node (reader_tick h now rd (rn r)).2 r)
  | NsKeepalive h now : node_step r (at_node (keepalive_tick h now (rn r)) r)
  | NsWriter h fails pc wire : node_step r (at_node (writer_tick h fails pc wire (rn r)) r)
  | NsGossip : node_step r (at_node (gossip_tick (rn r)) r)
  | NsDigest : node_step r (at_node (digest_tick (rn r)) r)
  | NsInterest : node_step r (at_node (interest_tick (rn r)) r)
  | NsProbe op : node_step r (at_node (set_membership (swim_step (retransmit (params (rn r))) (membership (rn r)) op) (rn r)) r)
  | NsHost tg hosting : node_step r (at_node (set_local_interest tg hosting (rn r)) r)
  | NsRouting rt : node_step r (at_node (set_routing rt (rn r)) r)
  | NsRelay peers k b md pl : node_step r (at_node (relay peers k b md pl (rn r)).2 r)
  | NsPartition peers : node_step r (at_node (set_partition peers (rn r)) r)
  | NsHeal : node_step r (at_node (heal (rn r)) r)
  | NsDown : node_step r (moved (raise_down (rn r)) (pend r) (late r ∪ list_to_set (pend r)) (swept r) r)
  | NsSweep : down (rn r) = true ->
      node_step r (moved (close_links (rn r)) (pend r) (late r) true r).

Record run_inv (n0 : MeshNode.t N) (r : run) : Prop := {
  ri_fixed : fixed (rn r) = fixed n0;
  ri_wf : node_wf (rn r);
  ri_self : forall h l, store (rn r) !! h = Some l -> n_peer_node_id (Link.negotiated l) <> self_id (rn r);
  ri_swim : swim_wf (retransmit (params (rn r))) (membership (rn r)) /\ Membership.self_id (membership (rn r)) = self_id (rn r);
  ri_interest : InterestState.self_id (interest (rn r)) = self_id (rn r) /\ InterestState.remote (interest (rn r)) !! self_id (rn r) = None;
  ri_late : down (rn r) = true -> forall h, h ∈ pend r -> h ∈ late r;
  ri_swept : swept r = true -> down (rn r) = true /\
    forall p h l, links (rn r) !! p = Some h -> store (rn r) !! h = Some l -> Link.state l <> Up \/ h ∈ late r;
  ri_up : forall h l, store (rn r) !! h = Some l -> Link.state l = Up ->
    links (rn r) !! n_peer_node_id (Link.negotiated l) = Some h \/ h ∈ pend r \/ h ∈ strays r;
}.

(** A link in the table stays there, is no longer up, or becomes a stray. *)
Lemma dropped_up_spec n n' p h l : links n !! p = Some h -> store n' !! h = Some l -> Link.state l = Up -> links n' !! p = Some h \/ h ∈ dropped_up n n'.
Proof.
  intros Hl Hst Hup. destruct (decide (links n' !! p = Some h)) as [|Hne]; [by left|right]. apply elem_of_list_to_set, list_elem_of_fmap.
  exists (p, h). split; [done|]. apply list_elem_of_filter. cbn. rewrite Hst. cbn. rewrite Hup. split; [done|by apply elem_of_map_to_list].
Qed.

Lemma store_kept_back (s s' : gmap Z (Link.t N)) h l' : store_kept s s' -> s' !! h = Some l' -> exists l, s !! h = Some l /\ link_kept l l'.
Proof.
  intros [Hd Hk] E. assert (is_Some (s !! h)) as [l El] by (apply elem_of_dom; rewrite <-Hd; apply elem_of_dom; by eexists).
  exists l. split; [done|]. by eapply Hk.
Qed.

Lemma store_kept_fwd (s s' : gmap Z (Link.t N)) h l : store_kept s s' -> s !! h = Some l -> exists l', s' !! h = Some l' /\ link_kept l l'.
Proof.
  intros [Hd Hk] E. assert (is_Some (s' !! h)) as [l' El] by (apply elem_of_dom; rewrite Hd; apply elem_of_dom; by eexists).
  exists l'. split; [done|]. by eapply Hk.
Qed.

(** Everything that only evolves the node keeps the invariant. *)
Lemma evolves_inv n0 r n' : 1 <= retransmit (params n0) -> evolves (rn r) n' -> run_inv n0 r -> run_inv n0 (at_node n' r).
Proof.
  intros Hrt [E1 E2 E3 E4 [ops E5] (E6 & _ & E8)] [I1 I2 I3 [I4 I4'] [I5 I5'] I6 I7 I8].
  assert (Hf : self_id n' = self_id (rn r) /\ params n' = params (rn r) /\ params n' = params n0).
  { unfold fixed in E1, I1. injection E1. injection I1. intros. split; [done|]. split; congruence. }
  destruct Hf as (Hs & Hp & Hp0). split; cbn [rn at_node moved pend late swept strays].
  - congruence.
  - intros p h Hl. eapply lookup_weaken in Hl; [|exact E3]. destruct (I2 p h Hl) as (l & Hst & Hpl).
    destruct (store_kept_fwd _ _ _ _ E4 Hst) as (l' & Hst' & [Hn _]). exists l'. split; [done|]. congruence.
  - intros h l' Hst'. destruct (store_kept_back _ _ _ _ E4 Hst') as (l & Hst & [Hn _]). rewrite Hn, Hs. by eapply I3.
  - rewrite E5, Hp, Hs. split; [|by rewrite swim_run_self]. apply swim_run_wf; [by rewrite <-Hp, Hp0|done].
  - rewrite Hs. split; [congruence|]. rewrite I5 in E8. auto.
  - by rewrite E2.
  - intros Hsw. destruct (I7 Hsw) as [Hd Hall]. split; [congruence|]. intros p h l' Hl Hst'. eapply lookup_weaken in Hl; [|exact E3].
    destruct (store_kept_back _ _ _ _ E4 Hst') as (l & Hst & [_ Hk]). destruct (Hall p h l Hl Hst) as [?|?]; [left; auto|by right].
  - intros h l' Hst' Hup. destruct (store_kept_back _ _ _ _ E4 Hst') as (l & Hst & [Hn Hk]). rewrite Hn.
    assert (Hu : Link.state l = Up) by (destruct (decide (Link.state l = Up)); [done|by destruct Hk]).
    destruct (I8 h l Hst Hu) as [Ht|[Hpe|Hs']]; [|by auto|by set_solver].
    destruct (dropped_up_spec (rn r) n' _ _ _ Ht Hst' Hup); [by auto|by set_solver].
Qed.

(** The same after a first change that left the table alone. *)
Definition with_node (n : MeshNode.t N) (r : run) : run := {| rn := n; pend := pend r; late := late r; swept := swept r; strays := strays r |}.

Lemma dropped_up_links n1 n2 n' : links n1 = links n2 -> dropped_up n1 n' = dropped_up n2 n'.
Proof. unfold dropped_up. by intros ->. Qed.

Lemma evolves_via n0 r n1 n' : 1 <= retransmit (params n0) -> links n1 = links (rn r) -> evolves n1 n' ->
  run_inv n0 (with_node n1 r) -> run_inv n0 (at_node n' r).
Proof.
  intros Hrt Hl He Hi. pose proof (evolves_inv n0 (with_node n1 r) n' Hrt He Hi) as Hi'. unfold at_node, moved in *. cbn [rn with_node strays] in Hi'.
  by rewrite (dropped_up_links n1 (rn r)) in Hi'.
Qed.

Lemma strays_mono n0 r X : strays r ⊆ X -> run_inv n0 r ->
  run_inv n0 {| rn := rn r; pend := pend r; late := late r; swept := swept r; strays := X |}.
Proof.
  intros HX [I1 I2 I3 I4 I5 I6 I7 I8]. split; try done. intros h l Hst Hup. destruct (I8 h l Hst Hup) as [?|[?|?]]; [by left|by right; left|right; right; set_solver].
Qed.

(** A registration is over once its link is in the table or down. *)
Lemma pend_drop n0 r h rest : pend r ≡ₚ h :: rest ->
  (forall l, store (rn r) !! h = Some l -> Link.state l = Up -> links (rn r) !! n_peer_node_id (Link.negotiated l) = Some h) ->
  run_inv n0 r -> run_inv n0 {| rn := rn r; pend := rest; late := late r; swept := swept r; strays := strays r |}.
Proof.
  intros Hpm Hh [I1 I2 I3 I4 I5 I6 I7 I8]. split; try done; cbn [rn pend late swept strays].
  - intros Hd h' Hin. apply I6; [done|]. rewrite Hpm. by right.
  - intros h' l Hst Hup. destruct (I8 h' l Hst Hup) as [?|[Hin|?]]; [by left| |by right; right].
    rewrite Hpm in Hin. apply elem_of_cons in Hin as [->|Hin]; [left; by apply Hh|by right; left].
Qed.

(** A link that comes up: not in the table yet, and not to this node. *)
Lemma put_fresh_inv n0 r n1 h l ps : store n1 !! h = None -> n_peer_node_id (Link.negotiated l) <> self_id n1 -> links n1 = links (rn r) ->
  (Link.state l = Up -> h ∈ ps) -> (forall h', h' ∈ pend r -> h' ∈ ps) -> (down n1 = true -> forall h', h' ∈ ps -> h' ∈ late r) ->
  run_inv n0 (with_node n1 r) -> run_inv n0 (moved (put_link h l n1) ps (late r) (swept r) r).
Proof.
  intros Hf Hp Hln Hup Hps Hlate [I1 I2 I3 I4 I5 I6 I7 I8]. cbn [rn with_node pend late swept strays] in *.
  split; cbn [rn moved pend late swept strays]; try done.
  - intros p h' Hl. destruct (I2 p h' Hl) as (l' & Hst & Hpl). exists l'. split; [|done]. cbn. rewrite lookup_insert_ne; [done|]. congruence.
  - intros h' l'. cbn. rewrite lookup_insert. case_decide; [intros; by simplify_eq|apply I3].
  - intros Hsw. destruct (I7 Hsw) as [Hd Hall]. split; [done|]. intros p h' l' Hl. cbn. rewrite lookup_insert_ne; [by apply (Hall p)|].
    destruct (I2 p h' Hl) as (? & ? & _). congruence.
  - intros h' l'. cbn. rewrite lookup_insert. case_decide as Hh; [intros; simplify_eq; right; left; by apply Hup|]. intros Hst Hu.
    destruct (I8 h' l' Hst Hu) as [?|[?|?]]; [by left|right; left; by apply Hps|right; right; set_solver].
Qed.

Lemma link_up_inv n0 r n1 h l : store n1 !! h = None -> foreign (link_cfg n1) (Link.negotiated l) -> links n1 = links (rn r) ->
  run_inv n0 (with_node n1 r) -> run_inv n0 (gated h (register_gate h (put_link h l n1)) r).
Proof.
  intros Hf Hp Hln Hi. pose proof (ri_late _ _ Hi) as Hlate. cbn [rn with_node pend late] in Hlate.
  unfold register_gate. cbn [store put_link set_links]. rewrite lookup_insert_eq. destruct (down (put_link h l n1) || _) eqn:Eg; unfold gated; cbn [fst snd].
  - assert (E : close_handle h (put_link h l n1) = put_link h (Link.close l) n1).
    { unfold close_handle. cbn [store put_link set_links]. rewrite lookup_insert_eq. unfold put_link, set_links. cbn. by rewrite insert_insert_eq. }
    rewrite E. apply put_fresh_inv; try done; [|by rewrite close_state]. destruct (close_kept l) as [-> _]. exact Hp.
  - apply put_fresh_inv; try done; [by left|by right|]. apply orb_false_iff in Eg as [Ed _]. change (down (put_link h l n1)) with (down n1) in Ed. by rewrite Ed.
Qed.

Lemma close_handle_down h (n : MeshNode.t N) l : store (close_handle h n) !! h = Some l -> Link.state l <> Up.
Proof.
  unfold close_handle. destruct (store n !! h) as [l0|] eqn:E; [|by rewrite E]. cbn. rewrite lookup_insert_eq. intros [= <-]. by rewrite close_state.
Qed.

Lemma try_send_handle_links h f (n : MeshNode.t N) : links (try_send_handle h f n) = links n.
Proof. unfold try_send_handle. by destruct (store n !! h). Qed.
Lemma send_frame_links p f (n : MeshNode.t N) : links (send_frame p f n) = links n.
Proof. unfold send_frame. destruct (links n !! p); [apply try_send_handle_links|done]. Qed.

Lemma insert_inv n0 r h rest : 1 <= retransmit (params n0) -> pend r ≡ₚ h :: rest -> run_inv n0 r ->
  run_inv n0 (moved (register_insert h (rn r)) rest (late r) (swept r) r).
Proof.
  intros Hrt Hpm Hi. assert (Hh : h ∈ pend r) by (rewrite Hpm; by left).
  unfold register_insert. destruct (store (rn r) !! h) as [l|] eqn:El; cbn zeta.
  2: { apply (pend_drop n0 (at_node (rn r) r) h); [done|cbn; intros ? E; by rewrite El in E|]. by apply evolves_inv. }
  set (peer := n_peer_node_id (Link.negotiated l)). destruct (links (rn r) !! peer) as [h'|] eqn:Ep.
  { apply (pend_drop n0 (at_node (close_handle h (rn r)) r) h); [done|intros ? E; by apply close_handle_down in E|].
    by apply evolves_inv; [|apply close_handle_evolves|]. }
  set (n1 := set_links (store (rn r)) (<[peer := h]> (links (rn r))) (rn r)).
  set (n2 := send_interest peer _ _).
  assert (He : evolves n1 n2) by (etransitivity; apply send_frame_evolves).
  assert (Hl2 : links n2 = links n1) by (unfold n2, send_interest, send_to; by rewrite !send_frame_links).
  assert (Hi1 : run_inv n0 (with_node n1 r)).
  { destruct Hi as [I1 I2 I3 I4 I5 I6 I7 I8]. split; try done; cbn [rn with_node late swept strays pend].
    - intros p h' Hl. cbn in Hl. rewrite lookup_insert in Hl. case_decide; simplify_eq; [by exists l|by apply I2].
    - intros Hsw. destruct (I7 Hsw) as [Hd Hall]. split; [done|]. intros p h' l' Hl Hst. cbn in Hl. rewrite lookup_insert in Hl.
      case_decide; simplify_eq; [right; by apply I6|by apply (Hall p)].
    - intros h' l' Hst Hup. destruct (I8 h' l' Hst Hup) as [Ht|?]; [|by right]. left. cbn. rewrite lookup_insert_ne; [done|]. congruence. }
  pose proof (evolves_inv n0 (with_node n1 r) n2 Hrt He Hi1) as Hi2.
  assert (Hz : dropped_up n1 n2 = ∅).
  { apply set_eq. intros x. split; [|set_solver]. intros ([p y] & -> & [[Hn _] Hin]%list_elem_of_filter)%elem_of_list_to_set%list_elem_of_fmap.
    rewrite Hl2 in Hn. by apply elem_of_map_to_list in Hin. }
  apply (strays_mono n0 _ (strays r ∪ dropped_up (rn r) n2)) in Hi2; [|cbn; rewrite Hz; set_solver].
  apply (pend_drop n0 (at_node n2 r) h rest Hpm); [|exact Hi2]. cbn [rn at_node moved]. intros l' Hst _.
  destruct (store_kept_back _ _ _ _ (ev_store _ _ He) Hst) as (l0 & E0 & [-> _]). cbn in E0. rewrite El in E0. injection E0 as <-.
  rewrite Hl2. cbn. by rewrite lookup_insert_eq.
Qed.

Lemma close_handle_links h (n : MeshNode.t N) : links (close_handle h n) = links n.
Proof. unfold close_handle. by destruct (store n !! h). Qed.

(** The sweep of a shutdown leaves no link of the table up. *)
Lemma close_links_closed (n : MeshNode.t N) p h l : links n !! p = Some h -> store (close_links n) !! h = Some l -> Link.state l <> Up.
Proof.
  intros Hl. assert (Hin : h ∈ all_links n) by (apply list_elem_of_fmap; exists (p, h); split; [done|by apply elem_of_map_to_list]).
  unfold close_links. revert Hin. clear Hl. generalize (all_links n). intros hs. revert n. induction hs as [|h0 hs IH]; intros n Hin Hst; [by apply not_elem_of_nil in Hin|].
  cbn [foldl] in Hst. destruct (decide (h0 = h)) as [->|Hne]; [|apply elem_of_cons in Hin as [?|Hin]; [done|by eapply IH]].
  assert (Hev : evolves (close_handle h n) (foldl (fun n h => close_handle h n) (close_handle h n) hs))
    by (apply evolves_foldl; intros; apply close_handle_evolves).
  destruct (store_kept_back _ _ _ _ (ev_store _ _ Hev) Hst) as (l0 & E0 & [_ Hk]). apply Hk. unfold close_handle in E0.
  destruct (store n !! h) as [l1|] eqn:E1; [|by rewrite E1 in E0]. cbn in E0. rewrite lookup_insert_eq in E0. injection E0 as <-. by rewrite close_state.
Qed.

Lemma host_inv n0 r tg b : 1 <= retransmit (params n0) -> run_inv n0 r -> run_inv n0 (at_node (set_local_interest tg b (rn r)) r).
Proof.
  intros Hrt Hi. unfold set_local_interest. destruct (InterestState.local_set tg b (interest (rn r))) as [edge i] eqn:E.
  assert (Hi' : run_inv n0 (with_node (set_interest i (rn r)) r)).
  { destruct Hi as [I1 I2 I3 I4 I5 I6 I7 I8]. split; try done. cbn. unfold InterestState.local_set in E. destruct (negb _); by injection E as _ <-. }
  destruct edge; (apply (evolves_via n0 r (set_interest i (rn r))); [done|done| |done]); [apply broadcast_frame_evolves|reflexivity].
Qed.

Lemma establish_inv n0 r n1 h role fresh rnd elapsed rd wr l rd' wr' : store n1 !! h = None -> links n1 = links (rn r) ->
  establish hmac role (link_cfg n1) node_hooks fresh rnd elapsed rd wr = EstUp l rd' wr' ->
  run_inv n0 (with_node n1 r) -> run_inv n0 (gated h (register_gate h (put_link h l n1)) r).
Proof. intros Hf Hln E Hi. apply establish_foreign in E as [E _]. by apply link_up_inv. Qed.

Lemma node_step_inv n0 r r' : 1 <= retransmit (params n0) -> node_step r r' -> run_inv n0 r -> run_inv n0 r'.
Proof.
  intros Hrt Hs Hi. destruct Hs as [h ? ? ? ? ? res Hf E|now a h ? ? ? ? ? res Hf E|now a|h rest Hp|h now rd|h now|h fails pc wire| | | |op|tg b|rt|peers k b md pl|peers| | |Hd].
  - assert (Hi0 : run_inv n0 (with_node (rn r) r)) by (by destruct r).
    destruct res as [| |e c|l rd' wr']; cbn [accept_done]; [by apply (evolves_inv n0 r)..|by eapply establish_inv].
  - destruct res as [| |e c|l rd' wr']; cbn [dial_done]; [by apply (evolves_inv n0 r)..| |].
    + apply (evolves_inv n0 r _ Hrt (dial_fail_evolves now a (rn r)) Hi).
    + apply (establish_inv n0 r (dial_ok a (rn r)) h _ _ _ _ _ _ _ _ _ Hf eq_refl E).
      destruct Hi as [I1 I2 I3 I4 I5 I6 I7 I8]. by split.
  - by apply evolves_inv, Hi; [|apply dial_fail_evolves].
  - by apply insert_inv.
  - by apply evolves_inv, Hi; [|apply reader_tick_evolves].
  - by apply evolves_inv, Hi; [|apply keepalive_tick_evolves].
  - by apply evolves_inv, Hi; [|apply writer_tick_evolves].
  - by apply evolves_inv, Hi; [|apply gossip_tick_evolves].
  - by apply evolves_inv, Hi; [|apply digest_tick_evolves].
  - by apply evolves_inv, Hi; [|apply interest_tick_evolves].
  - by apply evolves_inv, Hi; [|apply (evolves_membership _ [op])].
  - by apply host_inv.
  - by apply evolves_inv, Hi; [|apply evolves_interest].
  - by apply evolves_inv, Hi; [|apply relay_evolves].
  - by apply evolves_inv, Hi; [|apply set_partition_evolves].
  - by apply evolves_inv, Hi; [|apply evolves_deny].
  - destruct Hi as [I1 I2 I3 I4 I5 I6 I7 I8]. split; try done; cbn [rn moved pend late swept strays].
    + intros _ h Hin. apply elem_of_union_r. by apply elem_of_list_to_set.
    + intros Hsw. destruct (I7 Hsw) as [_ Hall]. split; [done|]. intros p h l Hl Hst. destruct (Hall p h l Hl Hst); [by left|right; by apply elem_of_union_l].
    + intros h l Hst Hup. destruct (I8 h l Hst Hup) as [?|[?|?]]; [by left|by right; left|right; right; set_solver].
  - pose proof (evolves_inv n0 r _ Hrt (close_links_evolves (rn r)) Hi) as [I1 I2 I3 I4 I5 I6 I7 I8]. split; try done.
    intros _. split; [etransitivity; [apply (ev_down _ _ (close_links_evolves (rn r)))|exact Hd]|]. intros p h l Hl Hst. left. eapply close_links_closed; [|exact Hst].
    cbn in Hl. eapply lookup_weaken; [exact Hl|apply (ev_links _ _ (close_links_evolves (rn r)))].
Qed.

Lemma run_start_inv cfg bound seed relay :
  run_inv (start_with_relay cfg bound seed relay) (run_start (start_with_relay cfg bound seed relay)).
Proof.
  split; try done.
  split; [apply swim_new_wf|done].
Qed.

Lemma run_reachable_inv n0 r r' : 1 <= retransmit (params n0) -> rtc node_step r r' -> run_inv n0 r -> run_inv n0 r'.
Proof. intros Hrt. induction 1 as [|? ? ? Hs _ IH]; [done|]. intros Hi. apply IH. by eapply node_step_inv. Qed.

Lemma routing_excludes_self tg (n : MeshNode.t N) :
  InterestState.self_id (interest n) = self_id n -> InterestState.remote (interest n) !! self_id n = None -> self_id n ∉ interested_peers tg n.
Proof.
  intros Hs Hr. unfold interested_peers, InterestState.interested_peers. destruct (InterestState.routing _); rewrite merge_sort_Permutation.
  - intros ([p o] & E & Hin)%list_elem_of_fmap. apply list_elem_of_filter in Hin as [_ Hin]. apply elem_of_map_to_list in Hin. cbn in E. subst p.
    by rewrite Hin in Hr.
  - rewrite elem_of_elements, Hs. set_solver.
Qed.

(** What the node advertises changes by [set_local_interest] alone. *)
Lemma node_step_hosts r r' : node_step r r' ->
  InterestState.local (interest (rn r')) = InterestState.local (interest (rn r)) \/ exists tg b, rn r' = set_local_interest tg b (rn r).
Proof.
  assert (He : forall n', evolves (rn r) n' -> InterestState.local (interest n') = InterestState.local (interest (rn r))) by (intros n' []; apply ev_interest0).
  assert (Hg : forall h l (n : MeshNode.t N), InterestState.local (interest (register_gate h (put_link h l n)).2) = InterestState.local (interest n)).
  { intros h l n. apply (ev_interest _ _ (register_gate_evolves h (put_link h l n))). }
  destruct 1 as [h ? ? ? ? ? res Hf E|now a h ? ? ? ? ? res Hf E|now a|h rest Hp|h now rd|h now|h fails pc wire| | | |op|tg b|rt|peers k b md pl|peers| | |Hd];
    [left..|right; by exists tg, b|left|left|left|left|left|left].
  - destruct res; try done. apply Hg.
  - destruct res; [done|done|apply He, dial_fail_evolves|apply (Hg h l (dial_ok a (rn r)))].
  - apply He, dial_fail_evolves.
  - cbn. unfold register_insert. destruct (store (rn r) !! h) as [l|]; [|done]. cbn zeta. destruct (links (rn r) !! _); [apply He, close_handle_evolves|].
    match goal with |- context [send_interest ?p ?u (send_to ?p ?m ?n1)] =>
      assert (Hs : evolves n1 (send_interest p u (send_to p m n1))) by (etransitivity; apply send_frame_evolves) end. apply (ev_interest _ _ Hs).
  - apply He, reader_tick_evolves.
  - apply He, keepalive_tick_evolves.
  - apply He, writer_tick_evolves.
  - apply He, gossip_tick_evolves.
  - apply He, digest_tick_evolves.
  - apply He, interest_tick_evolves.
  - done.
  - done.
  - apply He, relay_evolves.
  - apply He, set_partition_evolves.
  - done.
  - done.
  - apply He, close_links_evolves.
Qed.

End Run.

Section RunWitness.
Import MeshNode.

(** Node 2 accepts node 1, whose side of the handshake is played by its bytes. *)
Definition demo_boot (id : Z) : MeshNode.t bool := start_with_relay (MeshConfig_new id (demo_addr 7000) (str "s")) (demo_addr 7000) 9 true.
Definition demo_dialler_bytes : bytes :=
  let hI := HelloBody.encode (Handshake.hello_of (link_cfg (demo_boot 1)) (demo_nonce 7)) in
  let hR := HelloBody.encode (Handshake.hello_of (link_cfg (demo_boot 2)) (demo_nonce 8)) in
  Frame.encode (Frame.new Hello hI) ++ Frame.encode (Frame.new Auth (hmac_demo (str "s") (INITIATOR_LABEL ++ demo_nonce 9 ++ hI ++ hR))).
Definition demo_accept : Establish bool :=
  establish hmac_demo Responder (link_cfg (demo_boot 2)) node_hooks (demo_nonce 8) (demo_nonce 9) false
    {| avail := demo_dialler_bytes; ended := None |} {| written := []; budget := None |}.

(** A shutdown whose flag is raised while a registration is under way. *)
Definition demo_gated : run := gated 1 (accept_done demo_accept 1 (demo_boot 2)) (run_start (demo_boot 2)).
Definition demo_down : run := moved (raise_down (rn demo_gated)) (pend demo_gated) (late demo_gated ∪ list_to_set (pend demo_gated)) (swept demo_gated) demo_gated.
Definition demo_swept : run := moved (close_links (rn demo_down)) (pend demo_down) (late demo_down) true demo_down.
Definition demo_raced : run := moved (register_insert 1 (rn demo_swept)) [] (late demo_swept) (swept demo_swept) demo_swept.

Lemma demo_race : rtc (node_step hmac_demo) (run_start (demo_boot 2)) demo_raced.
Proof.
  refine (rtc_l _ _ demo_gated _ (NsAccept hmac_demo (run_start (demo_boot 2)) 1 (demo_nonce 8) (demo_nonce 9) false
    {| avail := demo_dialler_bytes; ended := None |} {| written := []; budget := None |} demo_accept eq_refl eq_refl) _).
  refine (rtc_l _ _ demo_down _ (NsDown hmac_demo demo_gated) _). refine (rtc_l _ _ demo_swept _ (NsSweep hmac_demo demo_down eq_refl) _).
  refine (rtc_l _ _ demo_raced _ (NsInsert hmac_demo demo_swept 1 [] _) (rtc_refl _ _)). vm_compute. reflexivity.
Qed.

(** The registration in flight puts a live link into the table of a node that is
    down, after the shutdown has closed every link. *)
Lemma late_registration_survives_shutdown :
  rtc (node_step hmac_demo) (run_start (demo_boot 2)) demo_raced /\ swept demo_raced = true /\
  links (rn demo_raced) !! 1 = Some 1 /\ (Link.state <$> store (rn demo_raced) !! 1) = Some Up.
Proof. split; [exact demo_race|]. split; [reflexivity|]. split; vm_compute; reflexivity. Qed.


(** Node 1 is accepted twice: the second link is refused as a duplicate, and the
    end of its reader takes the first out of the table; a shutdown then leaves the
    first up, with no registration in flight. *)
Definition demo_first : run := moved (register_insert 1 (rn demo_gated)) [] (late demo_gated) (swept demo_gated) demo_gated.
Definition demo_second : run := gated 2 (accept_done demo_accept 2 (rn demo_first)) demo_first.
Definition demo_refused : run := moved (register_insert 2 (rn demo_second)) [] (late demo_second) (swept demo_second) demo_second.
Definition demo_orphan : run := at_node (reader_tick 2 9 {| avail := []; ended := None |} (rn demo_refused)).2 demo_refused.
Definition demo_orphan_down : run := moved (raise_down (rn demo_orphan)) (pend demo_orphan) (late demo_orphan ∪ list_to_set (pend demo_orphan)) (swept demo_orphan) demo_orphan.
Definition demo_orphan_swept : run := moved (close_links (rn demo_orphan_down)) (pend demo_orphan_down) (late demo_orphan_down) true demo_orphan_down.

Lemma survivor_outlives_shutdown :
  rtc (node_step hmac_demo) (run_start (demo_boot 2)) demo_orphan_swept /\ late demo_orphan_swept = ∅ /\
  links (rn demo_orphan_swept) = ∅ /\ (Link.state <$> store (rn demo_orphan_swept) !! 1) = Some Up.
Proof.
  split; [|split_and!; vm_compute; reflexivity].
  refine (rtc_l _ _ demo_gated _ (NsAccept hmac_demo (run_start (demo_boot 2)) 1 (demo_nonce 8) (demo_nonce 9) false
    {| avail := demo_dialler_bytes; ended := None |} {| written := []; budget := None |} demo_accept eq_refl eq_refl) _).
  refine (rtc_l _ _ demo_first _ (NsInsert hmac_demo demo_gated 1 [] ltac:(vm_compute; reflexivity)) _).
  refine (rtc_l _ _ demo_second _ (NsAccept hmac_demo demo_first 2 (demo_nonce 8) (demo_nonce 9) false
    {| avail := demo_dialler_bytes; ended := None |} {| written := []; budget := None |} demo_accept ltac:(vm_compute; reflexivity) ltac:(vm_compute; reflexivity)) _).
  refine (rtc_l _ _ demo_refused _ (NsInsert hmac_demo demo_second 2 [] ltac:(vm_compute; reflexivity)) _).
  refine (rtc_l _ _ demo_orphan _ (NsReader hmac_demo demo_refused 2 9 {| avail := []; ended := None |}) _).
  refine (rtc_l _ _ demo_orphan_down _ (NsDown hmac_demo demo_orphan) _).
  exact (rtc_once _ _ (NsSweep hmac_demo demo_orphan_down eq_refl)).
Qed.
End RunWitness.
