(* ===== verification/Cluster.v ===== *)
(** * The cluster seam (crates/core/src/cluster.rs)

    How the engine uses the mesh: the relay bodies core defines, the send side
    after a local fan-out, and the receive side that fans a relayed payload out
    to local recipients only.  The mesh is an interface here ([Mesh]); the node
    of MeshNode.v implements it. *)

From S2P Require Import Prelude Wire Config Ids Runtime Metrics Mailbox Registry Connection Rooms Identity Broadcast Frame Handshake PeerQueue Link Swim MeshWire MembershipSync Interest Probe MeshNode.

(** [struct NodeConnId] and [struct RelayCounters]. *)
Record NodeConnId := { nc_node : Z; nc_local : ConnectionId }.
Record RelayCounters := { relay_out : Z; relay_in : Z; relay_drops : Z; re_relays : Z }.
Definition RelayCounters_default : RelayCounters := {| relay_out := 0; relay_in := 0; relay_drops := 0; re_relays := 0 |}.

(** [fn put_excepts] and [fn get_excepts]. *)
Definition put_except (e : NodeConnId) : bytes := to_le_bytes 2 (nc_node e) ++ to_le_bytes 8 (nc_local e).
Definition get_except (buf : bytes) (off : nat) : option (NodeConnId * nat) :=
  '(n, off) ← get_le 2 buf off; '(l, off) ← get_le 8 buf off; Some ({| nc_node := n; nc_local := l |}, off).
Definition put_excepts (es : list NodeConnId) : bytes := put_list16 put_except es.
Definition get_excepts (buf : bytes) (off : nat) : option (list NodeConnId * nat) := get_list16 get_except buf off.

(** [fn excepts_for]. *)
Definition excepts_for (self_node : Z) (es : list NodeConnId) : list ConnectionId :=
  map nc_local (filter (fun e => nc_node e = self_node) es).

(** What core asks of the mesh, and what the mesh promises: a relay accounts for
    every peer it was given, and the node advertises ([mesh_hosts]) exactly what
    it was last told to. *)
Class Mesh (M : Type) := {
  mesh_ok : M -> Prop;
  mesh_interested : Target -> M -> list Z;
  mesh_peers : M -> list Z;
  mesh_set_interest : Target -> bool -> M -> M;
  mesh_relay : list Z -> RelayKind -> bool -> bytes -> bytes -> M -> RelaySendReport * M;
  mesh_hosts : Target -> M -> bool;
  mesh_hosts_set : forall tg b m tg', mesh_hosts tg' (mesh_set_interest tg b m) = if decide (tg' = tg) then b else mesh_hosts tg' m;
  mesh_set_ok : forall tg b m, mesh_ok m -> mesh_ok (mesh_set_interest tg b m);
  mesh_hosts_relay : forall peers k b md pl m tg, mesh_hosts tg (mesh_relay peers k b md pl m).2 = mesh_hosts tg m;
  mesh_interested_nodup : forall tg m, mesh_ok m -> NoDup (mesh_interested tg m);
  mesh_peers_nodup : forall m, mesh_ok m -> NoDup (mesh_peers m);
  mesh_relay_total : forall peers k b md pl m r m', mesh_ok m -> NoDup peers -> mesh_relay peers k b md pl m = (r, m') ->
    report_total r = Z.of_nat (length peers) /\ mesh_ok m';
}.

Module Cluster.
Section Cluster.
Context {M : Type} `{Mesh M}.

(** [struct Cluster]. *)
Record t := { node : M; self_node_id : Z; relay : RelayCounters }.

(** [Cluster::interested_room_peers] and [interested_user_peers]. *)
Definition interested_room_peers (room : rstring) (c : t) : list Z := mesh_interested (TRoom room) (node c).
Definition interested_user_peers (user : rstring) (c : t) : list Z := mesh_interested (TUser user) (node c).

(** [Cluster::set_room_interest] and [set_user_interest]. *)
Definition set_room_interest (room : rstring) (hosting : bool) (c : t) : t :=
  {| node := mesh_set_interest (TRoom room) hosting (node c); self_node_id := self_node_id c; relay := relay c |}.
Definition set_user_interest (user : rstring) (hosting : bool) (c : t) : t :=
  {| node := mesh_set_interest (TUser user) hosting (node c); self_node_id := self_node_id c; relay := relay c |}.

(** [Cluster::do_relay]. *)
Definition do_relay (peers : list Z) (k : RelayKind) (is_binary : bool) (meta payload : bytes) (c : t) : t :=
  let '(report, n) := mesh_relay peers k is_binary meta payload (node c) in
  {| node := n; self_node_id := self_node_id c;
     relay := {| relay_out := wrap 64 (relay_out (relay c) + sent report); relay_in := relay_in (relay c);
                 relay_drops := wrap 64 (relay_drops (relay c) + (dropped report + no_link report)); re_relays := re_relays (relay c) |} |}.

(** [Cluster::relay_room], [relay_user], [relay_all] and [relay_socket]. *)
Definition relay_room (room : rstring) (payload : bytes) (is_binary : bool) (except : list NodeConnId) (c : t) : t :=
  let peers := mesh_interested (TRoom room) (node c) in
  if decide (peers = []) then c else do_relay peers KRoom is_binary (put_str room ++ put_excepts except) payload c.
Definition relay_user (user : rstring) (payload : bytes) (is_binary : bool) (except : list NodeConnId) (c : t) : t :=
  let peers := mesh_interested (TUser user) (node c) in
  if decide (peers = []) then c else do_relay peers KUser is_binary (put_str user ++ put_excepts except) payload c.
Definition relay_all (payload : bytes) (is_binary : bool) (except : list NodeConnId) (c : t) : t :=
  let peers := mesh_peers (node c) in
  if decide (peers = []) then c else do_relay peers KAll is_binary (put_excepts except) payload c.
Definition relay_socket (target : NodeConnId) (payload : bytes) (is_binary : bool) (c : t) : t :=
  if nc_node target =? self_node_id c then c
  else do_relay [nc_node target] KSocket is_binary (to_le_bytes 8 (nc_local target)) payload c.

End Cluster.
#[global] Arguments t : clear implicits.
End Cluster.

Section Deliver.
Context {SL : Type -> Type} {slab_ops : Slab SL} {Ch : Type -> Type} {mpsc_ops : Mpsc Ch}.

Definition count_relay_in (r : RelayCounters) : RelayCounters :=
  {| relay_out := relay_out r; relay_in := wrap 64 (relay_in r + 1); relay_drops := relay_drops r; re_relays := re_relays r |}.

(** The body of a relay to a named target, after its name: exclusions, payload. *)
Definition deliver_named (self_node : Z) (target : FanoutTarget) (is_binary : bool) (body : bytes) (off : nat) (l : Local SL Ch) : Local SL Ch :=
  match get_excepts body off with
  | None => l
  | Some (es, off) => (broadcast target (drop off body) is_binary (excepts_for self_node es) l).2
  end.

(** [cluster::deliver_local]. *)
Definition deliver_local (self_node : Z) (kind : RelayKind) (is_binary : bool) (body : bytes) (rc : RelayCounters) (l : Local SL Ch)
    : RelayCounters * Local SL Ch :=
  (count_relay_in rc,
   match kind with
   | KRoom => match get_str body 0 with None => l | Some (room, off) => deliver_named self_node (Room room) is_binary body off l end
   | KUser => match get_str body 0 with None => l | Some (user, off) => deliver_named self_node (User user) is_binary body off l end
   | KAll => deliver_named self_node All is_binary body 0 l
   | KSocket =>
       if decide (length body < 8)%nat then l
       else
         let id : ConnectionId := from_le_bytes (take 8 body) in
         match Registry.get id (l_conns l) with
         | Some h => (push_handle h {| Mailbox.data := drop 8 body; Mailbox.is_binary := is_binary |} l).2
         | None => l
         end
   end).

End Deliver.

(** ** The mesh node implements the interface *)

#[global] Program Instance mesh_node_mesh {N : Type} `{Notify N} : Mesh (MeshNode.t N) := {|
  mesh_ok n := node_wf n;
  mesh_interested := MeshNode.interested_peers;
  mesh_peers := MeshNode.peer_ids;
  mesh_set_interest := MeshNode.set_local_interest;
  mesh_relay := MeshNode.relay;
  mesh_hosts tg n := hosts (InterestState.local (MeshNode.interest n)) tg;
|}.
Next Obligation.
  intros N HN tg b n tg'. cbn. unfold MeshNode.set_local_interest. rewrite <-hosts_local_set.
  destruct (InterestState.local_set tg b (MeshNode.interest n)) as [[e|] i]; [|done].
  by rewrite (proj1 (broadcast_frame_frame _ _)).
Qed.
Next Obligation.
  intros N HN tg b n Hwf. cbn. unfold MeshNode.set_local_interest.
  destruct (InterestState.local_set tg b (MeshNode.interest n)) as [[e|] i]; [|done]. by apply broadcast_frame_frame.
Qed.
Next Obligation. intros N HN peers k b md pl n tg. cbn. unfold MeshNode.relay. by rewrite relay_loop_interest. Qed.
Next Obligation.
  intros N HN tg n _. cbn. unfold MeshNode.interested_peers, InterestState.interested_peers.
  destruct (InterestState.routing _); rewrite merge_sort_Permutation; [|apply NoDup_elements].
  eapply sublist_NoDup; [apply (NoDup_fst_map_to_list (InterestState.remote (MeshNode.interest n)))|apply fmap_sublist, sublist_filter].
Qed.
Next Obligation.
  intros N HN n _. cbn. unfold MeshNode.peer_ids. rewrite merge_sort_Permutation. apply NoDup_fst_map_to_list.
Qed.
Next Obligation.
  intros N HN peers k b md pl n r n' Hwf Hnd E. cbn in *. unfold MeshNode.relay in E. apply relay_loop_spec in E as (Ht & _ & _ & E3 & _ & Es).
  - rewrite length_map in Ht. split; [exact Ht|]. intros p h Hl. rewrite E3 in Hl. destruct (Hwf p h Hl) as (l & Hl' & Hp).
    rewrite Es, Hl'. destruct (decide _); cbn; [|by exists l]. eexists. split; [reflexivity|].
    unfold Link.try_send_encoded. destruct (negb _); cbn; [done|]. by destruct (PeerQueue.push _ _).
  - by apply handles_nodup.
  - apply Forall_forall. intros o (p & -> & _)%list_elem_of_fmap h Hh. destruct (Hwf p h Hh) as (l & -> & _). by eexists.
Qed.

(** ** A relay is a remote fan-out *)

(** The four relay verbs with their arguments. *)
Inductive RelayTarget :=
  | RtRoom (room : rstring) (except : list NodeConnId) | RtUser (user : rstring) (except : list NodeConnId)
  | RtAll (except : list NodeConnId) | RtSocket (target : NodeConnId).

Definition rt_kind (t : RelayTarget) : RelayKind :=
  match t with RtRoom _ _ => KRoom | RtUser _ _ => KUser | RtAll _ => KAll | RtSocket _ => KSocket end.
Definition rt_meta (t : RelayTarget) : bytes :=
  match t with
  | RtRoom r es => put_str r ++ put_excepts es | RtUser u es => put_str u ++ put_excepts es
  | RtAll es => put_excepts es | RtSocket id => to_le_bytes 8 (nc_local id)
  end.

Definition except_ok (e : NodeConnId) : Prop := u16_ok (nc_node e) /\ u64_ok (nc_local e).
Definition excepts_ok (es : list NodeConnId) : Prop := Forall except_ok es /\ Z.of_nat (length es) < 2 ^ 16.
Definition rt_ok (t : RelayTarget) : Prop :=
  match t with
  | RtRoom s es | RtUser s es => str_ok s /\ excepts_ok es
  | RtAll es => excepts_ok es
  | RtSocket id => u64_ok (nc_local id)
  end.

Lemma get_put_except buf off e rest :
  except_ok e -> At buf off (put_except e ++ rest) -> exists off', get_except buf off = Some (e, off') /\ At buf off' rest.
Proof.
  intros [Hn Hl] HA. unfold put_except in HA. rewrite <-app_assoc in HA. unfold get_except.
  apply get_le_At in HA as [-> HA]; [|exact Hn]. cbn [mbind option_bind].
  apply get_le_At in HA as [-> HA]; [|exact Hl]. cbn [mbind option_bind]. destruct e. by eexists.
Qed.

(** C34. The mesh payloads round-trip.  For values within the widths of the wire
    (strings of at most 65535 bytes of UTF-8, lists of at most 65535 entries, a
    cluster name of at most 255 bytes): HELLO bodies, MEMBERSHIP messages, INTEREST
    updates and interest digests decode to what was encoded, also when bytes are
    appended; probe packets of all three kinds decode to what was encoded; and the
    body of a relay reads back as its room or user name, its exclusions and its
    payload, or its connection id and its payload.  (CHALLENGE and AUTH bodies are
    the nonce and the tag as they are.) *)
Theorem mesh_payloads_roundtrip hmac secret hello msg upd digest packet name es id payload extra :
  (forall k m, length (hmac k m) = 32%nat) ->
  hello_ok hello -> msg_ok msg -> interest_ok upd -> Forall digest_entry_ok digest -> Z.of_nat (length digest) < 2 ^ 16 ->
  packet_ok packet -> str_ok name -> excepts_ok es -> u64_ok id ->
  HelloBody.decode (HelloBody.encode hello ++ extra) = inl hello /\
  MembershipSync.decode (MembershipSync.encode msg ++ extra) = Some msg /\
  InterestWire.decode (InterestWire.encode upd ++ extra) = Some upd /\
  InterestWire.decode_digest (InterestWire.encode_digest digest ++ extra) = Some digest /\
  ProbeWire.decode hmac (ProbeWire.encode hmac secret packet) secret = inl packet /\
  (let body := (put_str name ++ put_excepts es) ++ payload in
   exists off off', get_str body 0 = Some (name, off) /\ get_excepts body off = Some (es, off') /\ drop off' body = payload) /\
  (let body := put_excepts es ++ payload in exists off, get_excepts body 0 = Some (es, off) /\ drop off body = payload) /\
  (let body := to_le_bytes 8 id ++ payload in from_le_bytes (take 8 body) = id /\ drop 8 body = payload).
Proof.
  intros Hlen Hh Hm Hu Hd Hl Hp Hn [He Hle] Hid.
  assert (Hex : forall body off, At body off (put_excepts es ++ payload) -> exists off', get_excepts body off = Some (es, off') /\ drop off' body = payload).
  { intros body off HA. destruct (get_list16_put_list16 put_except get_except except_ok get_put_except es _ _ _ He Hle HA) as (o & E & HA').
    exists o. split; [exact E|by apply At_drop]. }
  split_and!; [by apply decode_encode|by apply membership_msg_roundtrip|by apply interest_update_roundtrip|by apply digest_roundtrip
    |by apply probe_decode_encode| | |].
  - pose proof (At_start ((put_str name ++ put_excepts es) ++ payload)) as HA. rewrite <-app_assoc in HA at 2.
    destruct (get_put_str _ _ _ _ Hn HA) as (o & E & HA'). destruct (Hex _ _ HA') as (o' & E' & Hdr). by exists o, o'.
  - apply Hex, At_start.
  - pose proof (take_app_length (to_le_bytes 8 id) payload) as E1. pose proof (drop_app_length (to_le_bytes 8 id) payload) as E2.
    rewrite length_to_le_bytes in E1, E2. split; [|exact E2]. cbn zeta. rewrite E1. by apply from_to_le_bytes.
Qed.

Section RelayFacts.
Context {M : Type} `{Mesh M}.
Context {SL : Type -> Type} {slab_ops : Slab SL} {Ch : Type -> Type} {mpsc_ops : Mpsc Ch}.

Lemma deliver_named_exact self target b es payload body off (l : Local SL Ch) :
  excepts_ok es -> At body off (put_excepts es ++ payload) ->
  deliver_named self target b body off l = (broadcast target payload b (excepts_for self es) l).2.
Proof.
  intros [He Hl] HA. unfold deliver_named.
  destruct (get_list16_put_list16 put_except get_except except_ok get_put_except es _ _ _ He Hl HA) as (o & E & HA').
  unfold get_excepts. rewrite E. by rewrite (At_drop _ _ _ HA').
Qed.

(** The verb, its peers and its effect on a receiving node. *)
Definition relay_verb (t : RelayTarget) (payload : bytes) (b : bool) (c : Cluster.t M) : Cluster.t M :=
  match t with
  | RtRoom r es => Cluster.relay_room r payload b es c | RtUser u es => Cluster.relay_user u payload b es c
  | RtAll es => Cluster.relay_all payload b es c | RtSocket id => Cluster.relay_socket id payload b c
  end.
Definition rt_peers (t : RelayTarget) (c : Cluster.t M) : list Z :=
  match t with
  | RtRoom r _ => mesh_interested (TRoom r) (Cluster.node c) | RtUser u _ => mesh_interested (TUser u) (Cluster.node c)
  | RtAll _ => mesh_peers (Cluster.node c)
  | RtSocket id => if nc_node id =? Cluster.self_node_id c then [] else [nc_node id]
  end.
Definition rt_effect (self : Z) (t : RelayTarget) (payload : bytes) (b : bool) (l : Local SL Ch) : Local SL Ch :=
  match t with
  | RtRoom r es => (broadcast (Room r) payload b (excepts_for self es) l).2
  | RtUser u es => (broadcast (User u) payload b (excepts_for self es) l).2
  | RtAll es => (broadcast All payload b (excepts_for self es) l).2
  | RtSocket id =>
      match Registry.get (nc_local id) (l_conns l) with
      | Some h => (push_handle h {| Mailbox.data := payload; Mailbox.is_binary := b |} l).2
      | None => l
      end
  end.

Lemma rt_peers_nodup t c : mesh_ok (Cluster.node c) -> NoDup (rt_peers t c).
Proof.
  intros Hok. destruct t; cbn; [by apply mesh_interested_nodup|by apply mesh_interested_nodup|by apply mesh_peers_nodup|].
  destruct (_ =? _); [constructor|apply NoDup_singleton].
Qed.

Lemma relay_verb_do t payload b c :
  relay_verb t payload b c =
    if decide (rt_peers t c = []) then c else Cluster.do_relay (rt_peers t c) (rt_kind t) b (rt_meta t) payload c.
Proof.
  destruct t; cbn [relay_verb rt_peers rt_kind rt_meta]; try done. unfold Cluster.relay_socket. by destruct (_ =? _).
Qed.

(** Delivering a relay body is the verb's effect on the receiving node. *)
Lemma deliver_exact t payload b self rc (l : Local SL Ch) : rt_ok t ->
  deliver_local self (rt_kind t) b (rt_meta t ++ payload) rc l = (count_relay_in rc, rt_effect self t payload b l).
Proof.
  intros Ht. unfold deliver_local. f_equal. destruct t as [r es|u es|es|id]; cbn [rt_kind rt_meta rt_effect rt_ok] in *.
  - destruct Ht as [Hs He]. pose proof (At_start ((put_str r ++ put_excepts es) ++ payload)) as HA. rewrite <-app_assoc in HA at 2.
    destruct (get_put_str _ _ _ _ Hs HA) as (o & -> & HA'). by rewrite (deliver_named_exact _ _ _ es payload _ _ _ He HA').
  - destruct Ht as [Hs He]. pose proof (At_start ((put_str u ++ put_excepts es) ++ payload)) as HA. rewrite <-app_assoc in HA at 2.
    destruct (get_put_str _ _ _ _ Hs HA) as (o & -> & HA'). by rewrite (deliver_named_exact _ _ _ es payload _ _ _ He HA').
  - by rewrite (deliver_named_exact _ _ _ es payload _ _ _ Ht (At_start _)).
  - rewrite decide_False by (rewrite length_app, length_to_le_bytes; lia).
    pose proof (take_app_length (to_le_bytes 8 (nc_local id)) payload) as E1.
    pose proof (drop_app_length (to_le_bytes 8 (nc_local id)) payload) as E2. rewrite length_to_le_bytes in E1, E2.
    rewrite E1, E2, from_to_le_bytes by exact Ht. done.
Qed.

(** A relay is a fan-out on another node: the send side hands the mesh one
    body for exactly the target's peers and counts every peer as sent, dropped
    or suppressed; and on a receiving node, delivering that body has exactly the
    effect of the same targeting verb called there (same room, user, everyone or
    socket, same payload and flag), excluding the connections of that node the
    sender excluded, and counts one relay received. *)
Lemma relay_is_remote_fanout t payload b c self rc (l : Local SL Ch) :
  mesh_ok (Cluster.node c) -> rt_ok t ->
  (exists r n, mesh_relay (rt_peers t c) (rt_kind t) b (rt_meta t) payload (Cluster.node c) = (r, n) /\
     sent r + (dropped r + no_link r) + suppressed r = Z.of_nat (length (rt_peers t c)) /\
     (rt_peers t c <> [] ->
      Cluster.node (relay_verb t payload b c) = n /\
      relay_out (Cluster.relay (relay_verb t payload b c)) = wrap 64 (relay_out (Cluster.relay c) + sent r) /\
      relay_drops (Cluster.relay (relay_verb t payload b c)) = wrap 64 (relay_drops (Cluster.relay c) + (dropped r + no_link r))) /\
     (rt_peers t c = [] -> relay_verb t payload b c = c)) /\
  deliver_local self (rt_kind t) b (rt_meta t ++ payload) rc l = (count_relay_in rc, rt_effect self t payload b l).
Proof.
  intros Hok Ht. split.
  - destruct (mesh_relay (rt_peers t c) (rt_kind t) b (rt_meta t) payload (Cluster.node c)) as [r n] eqn:E.
    destruct (mesh_relay_total _ _ _ _ _ _ _ _ Hok (rt_peers_nodup t c Hok) E) as [Htot _].
    exists r, n. split; [done|]. split; [unfold report_total in Htot; lia|]. rewrite relay_verb_do. split; intros Hp.
    + rewrite decide_False by done. unfold Cluster.do_relay. by rewrite E.
    + by rewrite decide_True.
  - by apply deliver_exact.
Qed.

End RelayFacts.

Section ClusterWitness.

Definition demo_update : InterestUpdate := Edge {| e_origin := 3; e_seq := 9; e_add := true; e_target := demo_room "lobby" |}.
Lemma mesh_payloads_roundtrip_witness :
  InterestWire.decode (InterestWire.encode demo_update ++ [7]) = Some demo_update /\
  ProbeWire.decode hmac_demo (ProbeWire.encode hmac_demo (str "k") (PAck 2 5 1)) (str "k") = inl (PAck 2 5 1).
Proof.
  destruct (mesh_payloads_roundtrip hmac_demo (str "k") (Handshake.hello_of (demo_cfg 1 3) (demo_nonce 7)) (Gossip []) demo_update [(1, 2, 3)]
    (PAck 2 5 1) (str "lobby") [{| nc_node := 2; nc_local := 7 |}] 5 (str "hi") [7]) as (_ & _ & Hu & _ & Hp & _).
  - intros k m. apply hmac_demo_len.
  - apply demo_cfg_ok; split; vm_compute; congruence.
  - split; [constructor|vm_compute; reflexivity].
  - split_and!; [split; vm_compute; congruence|split; vm_compute; congruence|split; vm_compute; reflexivity].
  - constructor; [|constructor]. split_and!; split; vm_compute; congruence.
  - vm_compute. reflexivity.
  - split_and!; try done; split; vm_compute; congruence.
  - split; vm_compute; reflexivity.
  - split; [constructor; [split; split; vm_compute; congruence|constructor]|vm_compute; reflexivity].
  - split; vm_compute; congruence.
  - split; [exact Hu|exact Hp].
Defined.

Definition demo_cluster : Cluster.t (MeshNode.t bool) :=
  {| Cluster.node := MeshNode.set_interest (InterestState.apply_edge {| e_origin := 2; e_seq := 1; e_add := true; e_target := demo_room "r" |}
       (MeshNode.interest demo_node)).2 demo_node;
     Cluster.self_node_id := 1; Cluster.relay := RelayCounters_default |}.

Lemma relay_is_remote_fanout_witness :
  rt_peers (RtRoom (str "r") []) demo_cluster = [2] /\
  deliver_local 2 KRoom false (rt_meta (RtRoom (str "r") []) ++ str "hi") RelayCounters_default demo_local =
    (count_relay_in RelayCounters_default, rt_effect 2 (RtRoom (str "r") []) (str "hi") false demo_local).
Proof.
  split; [vm_compute; reflexivity|].
  apply (relay_is_remote_fanout (RtRoom (str "r") []) (str "hi") false demo_cluster 2 RelayCounters_default demo_local).
  - intros p h Hl. cbn in Hl. apply lookup_singleton_Some in Hl as [<- <-]. exists (demo_link 2). split; reflexivity.
  - split; [split; vm_compute; reflexivity|]. split; [constructor|vm_compute; reflexivity].
Defined.

(** A name of 65536 bytes has its length prefix truncated to zero: the receiver
    sees an empty room name and reads the name itself as exclusions. *)
Lemma long_name_truncated (s : rstring) :
  Z.of_nat (length s) = 65536 -> exists off, get_str (put_str s) 0 = Some ([], off).
Proof.
  intros Hl. exists 2%nat. unfold put_str. rewrite Hl. change (wrap 16 65536) with 0.
  pose proof (At_start (to_le_bytes 2 0 ++ s)) as HA. unfold get_str. apply get_le_At in HA as [E HA]; [|lia]. rewrite E.
  cbn [mbind option_bind]. unfold slice. rewrite decide_True; [|destruct HA; simpl; lia]. reflexivity.
Qed.

End ClusterWitness.
