(* ===== verification/Engine.v ===== *)
(** * The engine (crates/core/src/engine.rs)

    The commands of the SDK and the life of a connection around
    [run_connection], over the shared data plane ([Broadcast.Local]), the
    admission gate and the optional cluster; then the engine at work, where the
    tasks of the connections and the SDK's commands interleave between the
    change of a table and the update of the mesh that follows it. *)

From S2P Require Import Prelude TopN Wire Ids Runtime Config Metrics Mailbox Registry Events Connection Rooms Limits Identity Broadcast Frame MeshWire Interest MeshNode Cluster.

(** [enum SendStatus] and [enum AttachOutcome]. *)
Inductive SendStatus := StQueued | StBackpressure | StNotFound.
Inductive AttachOutcome := Accepted | Rejected (status : Z).

(** [struct MailboxStat] (its percentage is a float and left out),
    [struct BackpressureReport] and [struct MemoryUsage]. *)
Record MailboxStat := { ms_id : ConnectionId; ms_user : option UserId; depth_bytes : Z; hwm_bytes : Z }.
Record BackpressureReport := { total_drops : Z; mailboxes : list MailboxStat }.
Record MemoryUsage := {
  mu_connections : Z; mu_rooms : Z; mu_users : Z;
  estimated_heap_bytes : Z; mailbox_bytes_in_flight : Z; estimated : bool;
}.

(** [impl Ord for ByDepth]. *)
Definition ByDepth_cmp (a b : MailboxStat) : comparison :=
  match depth_bytes a ?= depth_bytes b with Eq => ms_id b ?= ms_id a | c => c end.

Definition MODEL_CONN_BYTES : Z := 6600.
Definition MODEL_ROOM_BYTES : Z := 160.
Definition MODEL_USER_BYTES : Z := 40.

(** [fn node_excepts]. *)
Definition node_excepts (node : Z) (except : list ConnectionId) : list NodeConnId :=
  map (fun id => {| nc_node := node; nc_local := id |}) except.

(** The text [write_http_error_and_close] sends before it closes the socket. *)
Definition http_reason (status : Z) : rstring :=
  if status =? HTTP_TOO_MANY_REQUESTS then str "Too Many Requests"
  else if status =? HTTP_SERVICE_UNAVAILABLE then str "Service Unavailable"
  else str "Internal Server Error".

Module Engine.
Section Engine.
Context {SL : Type -> Type} {slab_ops : Slab SL} {Ch : Type -> Type} {mpsc_ops : Mpsc Ch}.
Context {M : Type} `{Mesh M}.
Context {Net : Type} (parse_net : rstring -> Net + rstring) (net_contains : Net -> IpAddr -> bool).

(** [struct Engine]: the shared tables, the gate (which shares the metrics of
    the data plane) and the cluster. *)
Record t := {
  config : Config;
  local : Local SL Ch;
  gate : Gate.t Net;
  cluster : option (Cluster.t M);
}.

Definition set_local (l : Local SL Ch) (e : t) : t :=
  {| config := config e; local := l; gate := gate e; cluster := cluster e |}.
Definition set_gate (g : Gate.t Net) (e : t) : t :=
  {| config := config e; local := local e; gate := g; cluster := cluster e |}.
Definition set_cluster (c : option (Cluster.t M)) (e : t) : t :=
  {| config := config e; local := local e; gate := gate e; cluster := c |}.

(** [if let Some(c) = &self.cluster { f(c) }]. *)
Definition with_cluster (f : Cluster.t M -> Cluster.t M) (e : t) : t := set_cluster (f <$> cluster e) e.
(** The same under a further condition. *)
Definition when_cluster (b : bool) (f : Cluster.t M -> Cluster.t M) (e : t) : t := if b then with_cluster f e else e.

Definition with_metrics (f : Metrics.t -> Metrics.t) (l : Local SL Ch) : Local SL Ch :=
  {| l_conns := l_conns l; l_store := l_store l; l_rooms := l_rooms l; l_identity := l_identity l; l_metrics := f (l_metrics l) |}.
Definition set_members (conns : Registry.t SL Z) (rm : RoomRegistry.t) (l : Local SL Ch) : Local SL Ch :=
  {| l_conns := conns; l_store := l_store l; l_rooms := rm; l_identity := l_identity l; l_metrics := l_metrics l |}.
Definition set_identity (users : IdentityRegistry.t) (l : Local SL Ch) : Local SL Ch :=
  {| l_conns := l_conns l; l_store := l_store l; l_rooms := l_rooms l; l_identity := users; l_metrics := l_metrics l |}.

(** [Engine::start]; [mesh] is what [Cluster::start] returns.  The tables of a
    fresh engine are empty. *)
Definition fresh (cfg : Config) (resolver : ClientIpResolver Net) (mesh : option M) : t :=
  {| config := cfg;
     local := {| l_conns := Registry.new; l_store := ∅; l_rooms := RoomRegistry.new;
                 l_identity := IdentityRegistry.new; l_metrics := Metrics.default |};
     gate := Gate.new resolver (IpLimiter.new (max_connections_per_ip (limits cfg))) Metrics.default;
     cluster := match Config.cluster cfg, mesh with
                | Some cc, Some m => Some {| Cluster.node := m; Cluster.self_node_id := cc_node_id cc; Cluster.relay := RelayCounters_default |}
                | _, _ => None
                end |}.
Definition start (cfg : Config) (mesh : option M) : t + ConfigError :=
  match validate parse_net cfg with
  | Some err => inr err
  | None =>
      match from_trust_proxy parse_net (trust_proxy cfg) with
      | inr err => inr err
      | inl resolver => inl (fresh cfg resolver mesh)
      end
  end.

(** ** Admission *)

(** [gate.admit(..)], the gate's metrics being the engine's. *)
Definition gate_admit (peer : IpAddr) (headers : list (rstring * rstring)) (url : rstring) (e : t)
    : (Gate.AdmittedUpgrade + Z) * t :=
  let g := {| Gate.resolver := Gate.resolver (gate e); Gate.limiter := Gate.limiter (gate e);
              Gate.metrics := l_metrics (local e); Gate.draining := Gate.draining (gate e) |} in
  let '(r, g') := Gate.admit_upgrade net_contains peer headers url g in
  (r, set_gate g' (set_local (with_metrics (fun _ => Gate.metrics g') (local e)) e)).

(** [Engine::attach]; [running] is [self.runtime.is_some()] and [registered]
    whether the socket could be registered with the reactor.  An accepted
    upgrade goes to [setup_attached]. *)
Definition attach (running registered : bool) (peer : IpAddr) (headers : list (rstring * rstring)) (url : rstring) (e : t)
    : AttachOutcome * option Gate.AdmittedUpgrade * t :=
  if negb running then (Rejected HTTP_SERVICE_UNAVAILABLE, None, e)
  else if negb registered then (Rejected 500, None, e)
  else
    let '(r, e') := gate_admit peer headers url e in
    match r with
    | inr status => (Rejected status, None, e')
    | inl admitted => (Accepted, Some admitted, e')
    end.

(** Dropping the [IpAdmitGuard] of an upgrade. *)
Definition drop_guard (g : IpLimiter.Guard) (e : t) : t :=
  set_gate {| Gate.resolver := Gate.resolver (gate e); Gate.limiter := IpLimiter.drop_guard g (Gate.limiter (gate e));
              Gate.metrics := Gate.metrics (gate e); Gate.draining := Gate.draining (gate e) |} e.

(** ** Rooms *)

(** [Engine::join]: the tables, then the interest edge. *)
Definition join_tables (id : ConnectionId) (room : rstring) (e : t) : MembershipChange * t :=
  let l := local e in
  let '(change, conns, rm) := RoomRegistry.join id room (max_rooms_per_connection (limits (config e))) (l_conns l) (l_rooms l) in
  (change, set_local (set_members conns rm l) e).
Definition join (id : ConnectionId) (room : rstring) (e : t) : MembershipChange * t :=
  let '(change, e) := join_tables id room e in
  (change,
   when_cluster (bool_decide (change = Changed) && (s_members (RoomRegistry.info room (l_rooms (local e))) =? 1))
     (Cluster.set_room_interest room true) e).

(** [Engine::leave], likewise. *)
Definition leave_tables (id : ConnectionId) (room : rstring) (e : t) : MembershipChange * t :=
  let l := local e in
  let '(change, conns, rm) := RoomRegistry.leave id room (l_conns l) (l_rooms l) in
  (change, set_local (set_members conns rm l) e).
Definition leave (id : ConnectionId) (room : rstring) (e : t) : MembershipChange * t :=
  let '(change, e) := leave_tables id room e in
  (change,
   when_cluster (bool_decide (change = Changed) && (s_members (RoomRegistry.info room (l_rooms (local e))) =? 0))
     (Cluster.set_room_interest room false) e).

(** ** Sending *)

(** The exclusions of a relay: this node's, tagged, then the remote ones. *)
Definition relay_excepts (except : list ConnectionId) (remote_except : list NodeConnId) (c : Cluster.t M) : list NodeConnId :=
  node_excepts (Cluster.self_node_id c) except ++ remote_except.

(** [Engine::broadcast_room], [broadcast_all] and [broadcast_user]. *)
Definition broadcast_room (room : rstring) (data : bytes) (is_binary : bool) (except : list ConnectionId)
    (remote_except : list NodeConnId) (e : t) : FanoutReport * t :=
  let '(report, l) := broadcast (Room room) data is_binary except (local e) in
  (report, with_cluster (fun c => Cluster.relay_room room data is_binary (relay_excepts except remote_except c) c) (set_local l e)).
Definition broadcast_all (data : bytes) (is_binary : bool) (except : list ConnectionId)
    (remote_except : list NodeConnId) (e : t) : FanoutReport * t :=
  let '(report, l) := broadcast All data is_binary except (local e) in
  (report, with_cluster (fun c => Cluster.relay_all data is_binary (relay_excepts except remote_except c) c) (set_local l e)).
Definition broadcast_user (user : rstring) (data : bytes) (is_binary : bool) (except : list ConnectionId)
    (remote_except : list NodeConnId) (e : t) : FanoutReport * t :=
  let '(report, l) := broadcast (User user) data is_binary except (local e) in
  (report, with_cluster (fun c => Cluster.relay_user user data is_binary (relay_excepts except remote_except c) c) (set_local l e)).

(** [Engine::send]. *)
Definition send (id : ConnectionId) (data : bytes) (is_binary : bool) (e : t) : SendStatus * t :=
  match Registry.get id (l_conns (local e)) with
  | None => (StNotFound, e)
  | Some h =>
      let '(o, l) := push_handle h {| Mailbox.data := data; Mailbox.is_binary := is_binary |} (local e) in
      (match o with
       | Mailbox.Queued => StQueued
       | Mailbox.DroppedNewest | Mailbox.DroppedOldest | Mailbox.Disconnected => StBackpressure
       | Mailbox.Closed => StNotFound
       end, set_local l e)
  end.

(** [Engine::send_node]. *)
Definition send_node (target : NodeConnId) (data : bytes) (is_binary : bool) (e : t) : SendStatus * t :=
  match cluster e with
  | Some c => if nc_node target =? Cluster.self_node_id c then send (nc_local target) data is_binary e
              else (StQueued, set_cluster (Some (Cluster.relay_socket target data is_binary c)) e)
  | None => send (nc_local target) data is_binary e
  end.

(** ** Closing connections *)

(** [ConnHandle::initiate_close] through a handle. *)
Definition close_handle (h : Z) (code : Z) (reason : rstring) (graceful : bool) (l : Local SL Ch) : Local SL Ch :=
  match l_store l !! h with
  | Some c => Broadcast.set_store (<[h := Connection.initiate_close code reason graceful c]> (l_store l)) (l_metrics l) l
  | None => l
  end.

(** [Engine::close_connection]. *)
Definition close_connection (id : ConnectionId) (code : Z) (reason : rstring) (e : t) : bool * t :=
  match Registry.get id (l_conns (local e)) with
  | Some h => (true, set_local (close_handle h code reason true (local e)) e)
  | None => (false, e)
  end.

Definition admin_reason : rstring := str "admin disconnect".

(** [Engine::admin_disconnect_socket]. *)
Definition admin_disconnect_socket (id : ConnectionId) (code : Z) (e : t) : Z * t :=
  match Registry.get id (l_conns (local e)) with
  | Some h => (1, set_local (with_metrics (Metrics.add Metrics.AdminDisconnects 1) (close_handle h code admin_reason true (local e))) e)
  | None => (0, e)
  end.

(** The loop of [Engine::admin_disconnect_user]. *)
Definition disconnect_devices (devices : list ConnectionId) (code : Z) (l : Local SL Ch) : Z * Local SL Ch :=
  foldl (fun '(closed, l) id =>
    match Registry.get id (l_conns l) with
    | Some h => (closed + 1, close_handle h code admin_reason true l)
    | None => (closed, l)
    end) (0, l) devices.
Definition admin_disconnect_user (user : rstring) (code : Z) (e : t) : Z * t :=
  let '(closed, l) := disconnect_devices (default [] (IdentityRegistry.connections user (l_identity (local e)))) code (local e) in
  (closed, set_local (with_metrics (Metrics.add Metrics.AdminDisconnects closed) l) e).

(** [Engine::admin_close_room]. *)
Definition admin_close_room (room : rstring) (e : t) : Z * t :=
  let l := local e in
  let '(r, conns, rm) := RoomRegistry.close_room room (l_conns l) (l_rooms l) in
  match r with
  | Some removed =>
      (Z.of_nat removed, set_local (with_metrics (Metrics.add Metrics.AdminRoomCloses 1) (set_members conns rm l)) e)
  | None => (0, set_local (set_members conns rm l) e)
  end.

(** The sweep of [close] and [shutdown]. *)
Definition close_all (code : Z) (reason : rstring) (graceful : bool) (l : Local SL Ch) : Local SL Ch :=
  foldl (fun l '(_, h) => close_handle h code reason graceful l) l (Registry.handles (l_conns l)).

(** [Engine::close] in its phases: stop admitting and ask every connection to
    close; then, once the registry is empty or the timeout has passed, cut what
    is left; [shutdown] is the abrupt variant. *)
Definition close_begin (e : t) : t :=
  set_local (close_all CLOSE_GOING_AWAY (str "server draining") true (local e)) (set_gate (Gate.set_draining true (gate e)) e).
Definition close_force (e : t) : t :=
  set_local (close_all CLOSE_GOING_AWAY (str "drain timeout") false (local e)) e.
Definition shutdown (e : t) : t :=
  set_local (close_all CLOSE_GOING_AWAY (str "server shutting down") true (local e)) e.

(** ** Reports *)

Definition connection_count (e : t) : Z := Metrics.get Metrics.Connections (l_metrics (local e)).
Definition live_connection_ids (e : t) : list ConnectionId := (Registry.handles (l_conns (local e))).*1.
Definition user_count (e : t) : Z := Z.of_nat (IdentityRegistry.user_count (l_identity (local e))).
Definition room_count (e : t) : Z := Z.of_nat (RoomRegistry.room_count (l_rooms (local e))).
Definition room_info (room : rstring) (e : t) : RoomStat := RoomRegistry.info room (l_rooms (local e)).
Definition room_member_count (room : rstring) (e : t) : Z := Z.of_nat (RoomRegistry.member_count room (l_rooms (local e))).
Definition top_rooms (n : nat) (e : t) : list RoomStat := RoomRegistry.top_rooms n (l_rooms (local e)).
Definition presence_list (room : rstring) (e : t) : list (ConnectionId * option UserId) :=
  RoomRegistry.room_presence room (l_conns (local e)) (l_rooms (local e)).
Definition user_connections (user : rstring) (e : t) : list ConnectionId :=
  default [] (IdentityRegistry.connections user (l_identity (local e))).
Definition user_device_count (user : rstring) (e : t) : Z := Z.of_nat (IdentityRegistry.device_count user (l_identity (local e))).
Definition tracked_ips (e : t) : Z := Z.of_nat (IpLimiter.tracked_ips (Gate.limiter (gate e))).
Definition cluster_summary (e : t) : option (Z * Z * Z * Z * Z) :=
  (fun c => (Cluster.self_node_id c, Z.of_nat (length (mesh_peers (Cluster.node c))),
             relay_in (Cluster.relay c), relay_out (Cluster.relay c), relay_drops (Cluster.relay c))) <$> cluster e.

(** The queue depth behind a handle. *)
Definition depth_of (l : Local SL Ch) (h : Z) : Z :=
  match l_store l !! h with Some c => Mailbox.queued_bytes (Connection.mailbox c) | None => 0 end.

(** [Engine::backpressure_report]. *)
Definition mailbox_stats (e : t) : list MailboxStat :=
  map (fun '(id, h, user) => {| ms_id := id; ms_user := user; depth_bytes := depth_of (local e) h;
                                hwm_bytes := high_water_mark (backpressure (config e)) |}) (Registry.handles_with_user (l_conns (local e))).
Definition backpressure_report (n : nat) (e : t) : BackpressureReport :=
  {| total_drops := Metrics.get Metrics.BackpressureDrops (l_metrics (local e)); mailboxes := top_n ByDepth_cmp n (mailbox_stats e) |}.

(** [Engine::memory_usage]. *)
Definition memory_usage (e : t) : MemoryUsage :=
  let connections := connection_count e in
  let rooms := room_count e in
  let users := user_count e in
  {| mu_connections := connections; mu_rooms := rooms; mu_users := users;
     estimated_heap_bytes := wrap 64 (connections * MODEL_CONN_BYTES + rooms * MODEL_ROOM_BYTES + users * MODEL_USER_BYTES);
     mailbox_bytes_in_flight := wrap 64 (zsum (fun '(_, h) => depth_of (local e) h) (Registry.handles (l_conns (local e))));
     estimated := true |}.

(** ** The life of a connection: [run_admitted] *)

(** Up to the registry insert; [res] is the authorizer's answer, or [None] when
    no hook is registered, and [h] the new handle.  [inl]: rejected, with the
    close frame [reject_after_upgrade] sends. *)
Definition auth_user (res : option AuthorizeResolution) : (Z * rstring) + (option UserId * option Z) :=
  match res with
  | Some (AuthAccept user_id request_id) => inr (user_id, Some request_id)
  | Some (AuthReject code reason) => inl (code, reason)
  | None => inr (None, None)
  end.
Definition insert_conn (h : Z) (user_id : option UserId) (e : t) : option (ConnectionId * t) :=
  let l := local e in
  '(id, conns) ← Registry.insert h user_id (l_conns l);
  Some (id, set_local
    {| l_conns := conns; l_store := <[h := Connection.fresh (backpressure (config e))]> (l_store l); l_rooms := l_rooms l;
       l_identity := l_identity l; l_metrics := Metrics.add Metrics.Connections 1 (l_metrics l) |} e).

(** [identity.bind(..)], and the interest edge after it. *)
Definition bind_user (id : ConnectionId) (uid : UserId) (e : t) : t :=
  set_local (set_identity (IdentityRegistry.bind uid id (l_identity (local e))) (local e)) e.
Definition advertise_user (uid : UserId) (e : t) : t :=
  when_cluster (IdentityRegistry.device_count uid (l_identity (local e)) =? 1)%nat (Cluster.set_user_interest uid true) e.

(** From the insert to the call of [run_connection]. *)
Definition open_connection (h : Z) (user_id : option UserId) (e : t) : option (ConnectionId * t) :=
  '(id, e) ← insert_conn h user_id e;
  Some (id, match user_id with Some uid => advertise_user uid (bind_user id uid e) | None => e end).

(** After [run_connection] returned. *)
Definition withdraw_rooms (joined : list RoomId) (e : t) : t :=
  foldl (fun e room => when_cluster (s_members (RoomRegistry.info room (l_rooms (local e))) =? 0)
    (Cluster.set_room_interest room false) e) e joined.
Definition remove_tables (id : ConnectionId) (e : t) : option (gset RoomId * t) :=
  match Registry.remove_full id (l_conns (local e)) with
  | Some ((_, joined), conns) =>
      Some (joined, set_local (set_members conns (RoomRegistry.disconnect_cleanup id joined (l_rooms (local e))) (local e)) e)
  | None => None
  end.
Definition remove_conn (id : ConnectionId) (e : t) : t :=
  match remove_tables id e with Some (joined, e) => withdraw_rooms (elements joined) e | None => e end.
Definition unbind_user (id : ConnectionId) (uid : UserId) (e : t) : t :=
  set_local (set_identity (IdentityRegistry.unbind uid id (l_identity (local e))) (local e)) e.
Definition withdraw_user (uid : UserId) (e : t) : t :=
  when_cluster (IdentityRegistry.device_count uid (l_identity (local e)) =? 0)%nat (Cluster.set_user_interest uid false) e.
Definition close_out (id : ConnectionId) (user_id : option UserId) (e : t) : t :=
  let e := remove_conn id e in
  let e := match user_id with Some uid => withdraw_user uid (unbind_user id uid e) | None => e end in
  set_local (with_metrics (Metrics.sub Metrics.Connections 1) (local e)) e.

(** Where a [run_admitted] task stands: the entry is in the registry and counted;
    bound, the device count not read; it was 1, the edge not set; in
    [run_connection]; removed, with the rooms whose count is not read yet; a room
    was empty, its edge not withdrawn; about to unbind; unbound, the count not
    read; it was 0, the edge not withdrawn; about to end. *)
Inductive Phase :=
  | PhBind | PhBindCheck | PhBindSet | PhServe
  | PhRoomCheck (todo : list RoomId) | PhRoomSet (room : RoomId) (todo : list RoomId)
  | PhUnbind | PhUnbindCheck | PhUnbindSet | PhEnd.

(** The locals of a task: [user_id] and [_ip_guard]. *)
Record Task := { tk_user : option UserId; tk_guard : IpLimiter.Guard; tk_phase : Phase }.
Definition set_phase (ph : Phase) (tk : Task) : Task := {| tk_user := tk_user tk; tk_guard := tk_guard tk; tk_phase := ph |}.

Definition clustered (e : t) : bool := match cluster e with Some _ => true | None => false end.

(** [run_admitted] from the insert on, one access to the shared state at a time
    (leaving [PhServe] is the return of [run_connection]).  The result is the
    next phase, or [None] at the end of the task. *)
Definition run_admitted_step (id : ConnectionId) (tk : Task) (e : t) : option Phase * t :=
  match tk_phase tk, tk_user tk with
  | PhBind, Some uid => (Some PhBindCheck, bind_user id uid e)
  | PhBindCheck, Some uid =>
      (Some (if clustered e && (IdentityRegistry.device_count uid (l_identity (local e)) =? 1)%nat then PhBindSet else PhServe), e)
  | PhBindSet, Some uid => (Some PhServe, with_cluster (Cluster.set_user_interest uid true) e)
  | (PhBind | PhBindCheck | PhBindSet), None => (Some PhServe, e)
  | PhServe, _ =>
      match remove_tables id e with
      | Some (joined, e) => (Some (if clustered e then PhRoomCheck (elements joined) else PhUnbind), e)
      | None => (Some PhUnbind, e)
      end
  | PhRoomCheck [], _ => (Some PhUnbind, e)
  | PhRoomCheck (room :: todo), _ =>
      (Some (if s_members (RoomRegistry.info room (l_rooms (local e))) =? 0 then PhRoomSet room todo else PhRoomCheck todo), e)
  | PhRoomSet room todo, _ => (Some (PhRoomCheck todo), with_cluster (Cluster.set_room_interest room false) e)
  | PhUnbind, Some uid => (Some PhUnbindCheck, unbind_user id uid e)
  | PhUnbindCheck, Some uid =>
      (Some (if clustered e && (IdentityRegistry.device_count uid (l_identity (local e)) =? 0)%nat then PhUnbindSet else PhEnd), e)
  | PhUnbindSet, Some uid => (Some PhEnd, with_cluster (Cluster.set_user_interest uid false) e)
  | (PhUnbind | PhUnbindCheck | PhUnbindSet), None => (Some PhEnd, e)
  | PhEnd, _ => (None, drop_guard (tk_guard tk) (set_local (with_metrics (Metrics.sub Metrics.Connections 1) (local e)) e))
  end.

(** What is left of a [join] ([j_up]) or [leave] that changed its room: to read
    the room's count, or (the count was 1, or 0) to set the interest edge. *)
Record Job := { j_room : rstring; j_up : bool; j_set : bool }.
Definition command_step (j : Job) (e : t) : option Job * t :=
  if j_set j then (None, with_cluster (Cluster.set_room_interest (j_room j) (j_up j)) e)
  else if s_members (RoomRegistry.info (j_room j) (l_rooms (local e))) =? (if j_up j then 1 else 0)
  then (Some {| j_room := j_room j; j_up := j_up j; j_set := true |}, e) else (None, e).
Definition command_job (up : bool) (change : MembershipChange) (room : rstring) (e : t) : list Job :=
  if clustered e && bool_decide (change = Changed) then [{| j_room := room; j_up := up; j_set := false |}] else [].

End Engine.
#[global] Arguments t : clear implicits.
End Engine.

(** ** Message traffic leaves the tables alone *)

Section Traffic.
Context {SL : Type -> Type} {slab_ops : Slab SL} {Ch : Type -> Type} {mpsc_ops : Mpsc Ch}.
Implicit Types (l : Local SL Ch).

Definition gauge l : Z := Metrics.get Metrics.Connections (l_metrics l).

(** Connections, users, memberships and the gauge are as before; every handle
    still has its state. *)
Record quiet l l' : Prop := {
  q_conns : l_conns l' = l_conns l;
  q_identity : l_identity l' = l_identity l;
  q_memb : forall r : RoomId, memb (l_rooms l') r = memb (l_rooms l) r;
  q_live : no_empty (l_rooms l) -> no_empty (l_rooms l');
  q_gauge : gauge l' = gauge l;
  q_store : dom (l_store l') = dom (l_store l);
}.

#[global] Instance quiet_refl : Reflexive quiet.
Proof. by intros l. Qed.
#[global] Instance quiet_trans : Transitive quiet.
Proof. intros l1 l2 l3 [] []. split; [congruence..|auto|congruence|congruence]. Qed.

Lemma quiet_store h c c' m l :
  l_store l !! h = Some c -> Metrics.get Metrics.Connections m = gauge l ->
  quiet l (Broadcast.set_store (<[h := c']> (l_store l)) m l).
Proof.
  intros Hh Hm. split; try done. cbn. rewrite dom_insert_L. apply elem_of_dom_2 in Hh. set_solver.
Qed.

Lemma mailbox_push_gauge f mb m o nt mb' m' :
  Mailbox.push f mb m = (o, nt, mb', m') -> Metrics.get Metrics.Connections m' = Metrics.get Metrics.Connections m.
Proof. unfold Mailbox.push. intros E. repeat break_match_hyp E; simplify_eq; rewrite ?metrics_get_add; done. Qed.

Lemma push_handle_quiet h f l : quiet l (push_handle h f l).2.
Proof.
  unfold push_handle. destruct (l_store l !! h) as [c|] eqn:E; [|done]. unfold Connection.push.
  destruct (Mailbox.push f _ _) as [[[o nt] mb] m] eqn:Ep. cbn. apply mailbox_push_gauge in Ep. by eapply quiet_store.
Qed.

Lemma push_one_quiet h p b r l : quiet l (push_one h p b r l).2.
Proof.
  unfold push_one. pose proof (push_handle_quiet h {| Mailbox.data := p; Mailbox.is_binary := b |} l) as Hq.
  by destruct (push_handle _ _ l).
Qed.

Lemma fan_out_loop_quiet ex ids p b r l : quiet l (fan_out_loop ex ids p b r l).2.
Proof.
  revert r l. induction ids as [|id ids IH]; intros r l; cbn [fan_out_loop]; [done|]. destruct (Exclusions.contains ex id); [apply IH|].
  destruct (Registry.get id (l_conns l)) as [h|]; [|apply IH]. pose proof (push_one_quiet h p b r l) as Hq.
  destruct (push_one h p b r l) as [r' l']. etrans; [exact Hq|apply IH].
Qed.

Lemma fan_out_handles_quiet ex hs p b r l : quiet l (fan_out_handles ex hs p b r l).2.
Proof.
  revert r l. induction hs as [|[id h] hs IH]; intros r l; cbn [fan_out_handles]; [done|]. destruct (Exclusions.contains ex id); [apply IH|].
  pose proof (push_one_quiet h p b r l) as Hq. destruct (push_one h p b r l) as [r' l']. etrans; [exact Hq|apply IH].
Qed.

Lemma record_quiet room l : quiet l (Broadcast.set_rooms (RoomRegistry.record_and_members room (l_rooms l)).2 l).
Proof.
  unfold RoomRegistry.record_and_members. destruct (l_rooms l !! room) as [e|] eqn:E; [|by destruct l].
  split; try done; cbn.
  - intros r. unfold memb. rewrite lookup_insert. case_decide; [subst; by rewrite E|done].
  - intros Hn r e'. rewrite lookup_insert_Some. intros [[<- <-]|[_ Hr]]; [exact (Hn room e E)|by eapply Hn].
Qed.

Lemma broadcast_quiet target p b ex l : quiet l (broadcast target p b ex l).2.
Proof.
  unfold broadcast. destruct target as [|room|user].
  - apply fan_out_handles_quiet.
  - pose proof (record_quiet room l) as Hq. destruct (RoomRegistry.record_and_members room (l_rooms l)) as [[ms|] rm]; [|done].
    etrans; [exact Hq|apply fan_out_loop_quiet].
  - destruct (IdentityRegistry.connections user (l_identity l)); [apply fan_out_loop_quiet|done].
Qed.

Lemma deliver_local_quiet self k b body rc l : quiet l (deliver_local self k b body rc l).2.
Proof.
  assert (Hn : forall target off, quiet l (deliver_named self target b body off l)).
  { intros target off. unfold deliver_named. destruct (get_excepts body off) as [[es o]|]; [apply broadcast_quiet|done]. }
  unfold deliver_local. cbn [snd]. destruct k.
  - destruct (get_str body 0) as [[room off]|]; [apply Hn|done].
  - destruct (get_str body 0) as [[user off]|]; [apply Hn|done].
  - apply Hn.
  - case_decide; [done|]. cbn zeta. destruct (Registry.get _ _); [apply push_handle_quiet|done].
Qed.

Lemma close_handle_quiet h code reason g l : quiet l (Engine.close_handle h code reason g l).
Proof. unfold Engine.close_handle. destruct (l_store l !! h) eqn:E; [by eapply quiet_store|done]. Qed.

Lemma metrics_quiet f l :
  (forall m, Metrics.get Metrics.Connections (f m) = Metrics.get Metrics.Connections m) -> quiet l (Engine.with_metrics f l).
Proof. intros Hf. split; try done. apply Hf. Qed.

Lemma close_all_quiet code reason g l : quiet l (Engine.close_all code reason g l).
Proof.
  unfold Engine.close_all. generalize (Registry.handles (l_conns l)). intros hs. revert l.
  induction hs as [|[id h] hs IH]; intros l; cbn; [done|]. etrans; [apply close_handle_quiet|apply IH].
Qed.

Lemma disconnect_devices_quiet ids code l : quiet l (Engine.disconnect_devices ids code l).2.
Proof.
  unfold Engine.disconnect_devices. generalize 0. revert l. induction ids as [|id ids IH]; intros l n; cbn [foldl]; [done|].
  destruct (Registry.get id (l_conns l)) as [h|]; [|apply IH]. etrans; [apply close_handle_quiet|apply IH].
Qed.

End Traffic.

(** ** The engine at work *)

Section EngineRun.
Context {SL : Type -> Type} {slab_ops : Slab SL} {Ch : Type -> Type} {mpsc_ops : Mpsc Ch}.
Context {M : Type} `{Mesh M}.
Context {Net : Type} (parse_net : rstring -> Net + rstring) (net_contains : Net -> IpAddr -> bool).
Import Engine.
Implicit Types (e : Engine.t SL Ch M Net) (l : Local SL Ch).

(** What the engine still has to do about an interest edge: read the count after
    a target gained or lost somebody, or set what the count called for. *)
Inductive EdgeOp := CheckUp | SetUp | CheckDown | SetDown.
#[local] Instance EdgeOp_eq_dec : EqDecision EdgeOp.
Proof. solve_decision. Defined.

(** The engine, the upgrades admitted and not yet authorized, the tasks by
    connection id, and the commands under way.  For the statements: the rooms an
    administrator closed, and the targets changed again while an earlier change
    was not yet published. *)
Record Sys := {
  eng : Engine.t SL Ch M Net;
  upgrades : list Gate.AdmittedUpgrade;
  tasks : gmap Z Task;
  jobs : list Job;
  closed_rooms : gset RoomId;
  overlapped : list Target;
}.
Definition set_eng e (s : Sys) : Sys :=
  {| eng := e; upgrades := upgrades s; tasks := tasks s; jobs := jobs s; closed_rooms := closed_rooms s; overlapped := overlapped s |}.
Definition set_upgrades ups (s : Sys) : Sys :=
  {| eng := eng s; upgrades := ups; tasks := tasks s; jobs := jobs s; closed_rooms := closed_rooms s; overlapped := overlapped s |}.
Definition set_tasks ts (s : Sys) : Sys :=
  {| eng := eng s; upgrades := upgrades s; tasks := ts; jobs := jobs s; closed_rooms := closed_rooms s; overlapped := overlapped s |}.
Definition set_jobs js (s : Sys) : Sys :=
  {| eng := eng s; upgrades := upgrades s; tasks := tasks s; jobs := js; closed_rooms := closed_rooms s; overlapped := overlapped s |}.
Definition add_closed r (s : Sys) : Sys :=
  {| eng := eng s; upgrades := upgrades s; tasks := tasks s; jobs := jobs s; closed_rooms := {[r]} ∪ closed_rooms s; overlapped := overlapped s |}.
Definition add_overlaps tgs (s : Sys) : Sys :=
  {| eng := eng s; upgrades := upgrades s; tasks := tasks s; jobs := jobs s; closed_rooms := closed_rooms s; overlapped := tgs ++ overlapped s |}.

(** The unpublished changes of a task, of a command, and of the system. *)
Definition task_ops (tk : Task) : list (Target * EdgeOp) :=
  match tk_phase tk, tk_user tk with
  | PhBindCheck, Some u => [(TUser u, CheckUp)]
  | PhBindSet, Some u => [(TUser u, SetUp)]
  | PhRoomCheck todo, _ => map (fun r => (TRoom r, CheckDown)) todo
  | PhRoomSet room todo, _ => (TRoom room, SetDown) :: map (fun r => (TRoom r, CheckDown)) todo
  | PhUnbindCheck, Some u => [(TUser u, CheckDown)]
  | PhUnbindSet, Some u => [(TUser u, SetDown)]
  | _, _ => []
  end.
Definition job_op (j : Job) : Target * EdgeOp :=
  (TRoom (j_room j), match j_up j, j_set j with true, false => CheckUp | true, true => SetUp | false, false => CheckDown | false, true => SetDown end).
Definition ops (s : Sys) : list (Target * EdgeOp) :=
  (map_to_list (tasks s) ≫= fun '(_, tk) => task_ops tk) ++ map job_op (jobs s).
Definition kinds (tg : Target) (os : list (Target * EdgeOp)) : list EdgeOp := (filter (fun o => o.1 = tg) os).*2.
Definition pending (s : Sys) (tg : Target) : list EdgeOp := kinds tg (ops s).

(** The targets a task's next step changes, and those of a list that still have
    an unpublished change. *)
Definition touched (id : ConnectionId) (tk : Task) e : list Target :=
  match tk_phase tk, tk_user tk with
  | (PhBind | PhUnbind), Some u => [TUser u]
  | PhServe, _ => match remove_tables id e with Some (joined, _) => map TRoom (elements joined) | None => [] end
  | _, _ => []
  end.
(** Whether the task's connection is in the registry, and its user bound. *)
Definition is_registered (ph : Phase) : bool := match ph with PhBind | PhBindCheck | PhBindSet | PhServe => true | _ => false end.
Definition is_bound (ph : Phase) : bool :=
  match ph with PhBindCheck | PhBindSet | PhServe | PhRoomCheck _ | PhRoomSet _ _ | PhUnbind => true | _ => false end.
Definition overlaps (s : Sys) (tgs : list Target) : list Target := filter (fun tg => pending s tg <> []) tgs.
Definition changed (change : MembershipChange) (room : rstring) : list Target := if decide (change = Changed) then [TRoom room] else [].

(** Steps that move messages or ask connections to close: SDK commands, relays
    from peers, the connection's own task, and the mesh's own activity. *)
Inductive traffic e : Engine.t SL Ch M Net -> Prop :=
  | TrRoom room p b ex rex : traffic e (broadcast_room room p b ex rex e).2
  | TrAll p b ex rex : traffic e (broadcast_all p b ex rex e).2
  | TrUser user p b ex rex : traffic e (broadcast_user user p b ex rex e).2
  | TrSend id p b : traffic e (send id p b e).2
  | TrSendNode target p b : traffic e (send_node target p b e).2
  | TrClose id code reason : traffic e (close_connection id code reason e).2
  | TrAdminSocket id code : traffic e (admin_disconnect_socket id code e).2
  | TrAdminUser user code : traffic e (admin_disconnect_user user code e).2
  | TrBegin : traffic e (close_begin e)
  | TrForce : traffic e (close_force e)
  | TrShutdown : traffic e (shutdown e)
  | TrDeliver c k b body rc l : cluster e = Some c ->
      deliver_local (Cluster.self_node_id c) k b body (Cluster.relay c) (local e) = (rc, l) ->
      traffic e (set_cluster (Some {| Cluster.node := Cluster.node c; Cluster.self_node_id := Cluster.self_node_id c; Cluster.relay := rc |}) (set_local l e))
  | TrConn h c c' m : l_store (local e) !! h = Some c -> Metrics.get Metrics.Connections m = gauge (local e) ->
      traffic e (set_local (Broadcast.set_store (<[h := c']> (l_store (local e))) m (local e)) e)
  | TrMesh c n : cluster e = Some c -> (forall tg, mesh_hosts tg n = mesh_hosts tg (Cluster.node c)) ->
      traffic e (set_cluster (Some {| Cluster.node := n; Cluster.self_node_id := Cluster.self_node_id c; Cluster.relay := Cluster.relay c |}) e).

(** One step: an admission, a failed handshake or a rejection, the insert that
    begins a connection, one access of a task to the shared state, a membership
    command's change of the tables or what follows it, or traffic.  Each
    operation of the registries (insert, join, leave, remove with cleanup, close
    of a room) is one step here; the interleavings inside them are the subject of
    [Rooms].  A command names any [u64] as a connection id.  A new connection does
    not get the id of one whose task is still tearing down: its slot would have
    to be reused 2^24 times meanwhile. *)
Inductive eng_step (s : Sys) : Sys -> Prop :=
  | EAttach running registered peer headers url o up e :
      attach net_contains running registered peer headers url (eng s) = (o, up, e) ->
      eng_step s (set_upgrades (upgrades s ++ option_list up) (set_eng e s))
  | EAbandon up1 up up2 : upgrades s = up1 ++ up :: up2 ->
      eng_step s (set_upgrades (up1 ++ up2) (set_eng (drop_guard (Gate.au_guard up) (eng s)) s))
  | EReject up1 up up2 res frame : upgrades s = up1 ++ up :: up2 -> auth_user res = inl frame ->
      eng_step s (set_upgrades (up1 ++ up2) (set_eng (drop_guard (Gate.au_guard up) (eng s)) s))
  | EOpen up1 up up2 res user_id rid h id e : upgrades s = up1 ++ up :: up2 -> auth_user res = inr (user_id, rid) ->
      l_store (local (eng s)) !! h = None -> Registry.has_room (l_conns (local (eng s))) ->
      insert_conn h user_id (eng s) = Some (id, e) -> (forall tk, tasks s !! id = Some tk -> is_registered (tk_phase tk) = true) ->
      eng_step s (set_upgrades (up1 ++ up2) (set_tasks
        (<[id := {| tk_user := user_id; tk_guard := Gate.au_guard up; tk_phase := PhBind |}]> (tasks s)) (set_eng e s)))
  | ETask id tk ph e : tasks s !! id = Some tk -> run_admitted_step id tk (eng s) = (ph, e) ->
      eng_step s (add_overlaps (overlaps s (touched id tk (eng s))) (set_tasks
        (match ph with Some ph => <[id := set_phase ph tk]> (tasks s) | None => delete id (tasks s) end) (set_eng e s)))
  | EJoin id room change e : u64_ok id -> join_tables id room (eng s) = (change, e) ->
      eng_step s (add_overlaps (overlaps s (changed change room)) (set_jobs (command_job true change room e ++ jobs s) (set_eng e s)))
  | ELeave id room change e : u64_ok id -> leave_tables id room (eng s) = (change, e) ->
      eng_step s (add_overlaps (overlaps s (changed change room)) (set_jobs (command_job false change room e ++ jobs s) (set_eng e s)))
  | ECommand j1 j j2 j' e : jobs s = j1 ++ j :: j2 -> command_step j (eng s) = (j', e) ->
      eng_step s (set_jobs (option_list j' ++ j1 ++ j2) (set_eng e s))
  | ECloseRoom room : eng_step s (add_closed room (set_eng (admin_close_room room (eng s)).2 s))
  | ETraffic e : traffic (eng s) e -> eng_step s (set_eng e s).

Definition sys_start e : Sys := {| eng := e; upgrades := []; tasks := ∅; jobs := []; closed_rooms := ∅; overlapped := [] |}.

(** What this node hosts, and what it tells the mesh it hosts. *)
Definition hosted (tg : Target) l : Prop :=
  match tg with TRoom r => memb (l_rooms l) r <> ∅ | TUser u => devices (l_identity l) u <> ∅ end.
Definition advertises (tg : Target) e : bool :=
  match cluster e with Some c => mesh_hosts tg (Cluster.node c) | None => false end.

(** How many connections a target has here. *)
Definition population (tg : Target) l : nat :=
  match tg with TRoom r => size (memb (l_rooms l) r) | TUser u => size (devices (l_identity l) u) end.

(** *** The invariant *)

(** Connections, users and handles against the tasks. *)
Record crew (ow : gmap Z (Z * option UserId)) (store : gset Z) (users : IdentityRegistry.t) (n : Z) (ts : gmap Z Task) : Prop := {
  cr_tasks : forall (id : ConnectionId) u, (exists h, ow !! id = Some (h, u)) <->
    exists tk, ts !! id = Some tk /\ is_registered (tk_phase tk) = true /\ tk_user tk = u;
  cr_devices : forall (u : UserId) (id : Z), id ∈ devices users u <->
    exists tk, ts !! id = Some tk /\ is_bound (tk_phase tk) = true /\ tk_user tk = Some u;
  cr_idle : no_idle_user users;
  cr_gauge : n = wrap 64 (Z.of_nat (size ts));
  cr_store : forall (id : ConnectionId) h u, ow !! id = Some (h, u) -> h ∈ store;
  cr_inj : forall (i j : ConnectionId) h u v, ow !! i = Some (h, u) -> ow !! j = Some (h, v) -> i = j;
}.

(** The limiter against the guards held. *)
Definition held (gs : list IpLimiter.Guard) : list IpAddr := map IpLimiter.client_ip (filter (fun g => IpLimiter.holds g = true) gs).
Record limiter_ok (max : Z) (lm : IpLimiter.t) (gs : list IpLimiter.Guard) : Prop := {
  lo_max : IpLimiter.max_per_ip lm = max;
  lo_free : max = 0 -> IpLimiter.counts lm = ∅ /\ Forall (fun g => IpLimiter.holds g = false) gs;
  lo_inv : max <> 0 -> lim_inv max {| lim := lm; live := held gs; removing := [] |};
}.
Definition task_guards (ts : gmap Z Task) : list IpLimiter.Guard := map (fun '(_, tk) => tk_guard tk) (map_to_list ts).

(** A target with [n] connections, advertised or not, closed by an administrator
    or not, and its unpublished changes. *)
Definition edge_ok (n : nat) (adv : bool) (closed : Prop) (ks : list EdgeOp) : Prop :=
  match ks with
  | [] => (n <> 0%nat -> adv = true) /\ (adv = true -> n <> 0%nat \/ closed)
  | [CheckUp] => (n = 0%nat -> closed) /\ ((1 < n)%nat -> adv = true)
  | [SetUp] => n = 0%nat -> closed
  | [CheckDown] => n <> 0%nat -> adv = true
  | [SetDown] => n = 0%nat
  | _ => False
  end.
Definition closed_target (cr : gset RoomId) (tg : Target) : Prop := exists r, r ∈ cr /\ tg = TRoom r.
Definition edge_at (s : Sys) (tg : Target) (ks : list EdgeOp) : Prop :=
  edge_ok (population tg (local (eng s))) (advertises tg (eng s)) (closed_target (closed_rooms s) tg) ks.
Definition adverts (s : Sys) : Prop :=
  is_Some (cluster (eng s)) -> forall tg, tg ∉ overlapped s -> edge_at s tg (pending s tg).

Record engine_inv (s : Sys) : Prop := {
  ei_tables : exists a, models (l_conns (local (eng s))) a /\ consistent a (l_rooms (local (eng s))) /\
    crew (owners a) (dom (l_store (local (eng s)))) (l_identity (local (eng s))) (gauge (local (eng s))) (tasks s);
  ei_limiter : limiter_ok (max_connections_per_ip (limits (config (eng s)))) (Gate.limiter (gate (eng s)))
    (map Gate.au_guard (upgrades s) ++ task_guards (tasks s));
  ei_adverts : adverts s;
}.

(** *** The limiter *)

Lemma held_cons g gs : held (g :: gs) = if IpLimiter.holds g then IpLimiter.client_ip g :: held gs else held gs.
Proof. unfold held. rewrite filter_cons. destruct (IpLimiter.holds g); [by rewrite decide_True|by rewrite decide_False]. Qed.

Lemma limiter_ok_perm max lm gs gs' : gs ≡ₚ gs' -> limiter_ok max lm gs -> limiter_ok max lm gs'.
Proof.
  intros Hp [Hm Hf Hi]. assert (Hg : forall ip, guards ip (held gs) = guards ip (held gs')).
  { intros ip. unfold guards, held. f_equal. apply Permutation_length. by rewrite Hp. }
  split; [done| |].
  - intros Hz. destruct (Hf Hz) as [? Hall]. split; [done|]. by rewrite <-Hp.
  - intros Hz. destruct (Hi Hz) as [A B C D]. cbn in *. split; cbn; [done|intros ip; by rewrite <-Hg..|done].
Qed.

Lemma try_admit_ok max lm gs ip r lm' :
  0 <= max < 2 ^ 32 -> limiter_ok max lm gs -> IpLimiter.try_admit ip lm = (r, lm') ->
  limiter_ok max lm' (option_list r ++ gs) /\ (max = 0 -> r <> None).
Proof.
  intros Hmax [Hm Hf Hi] E. destruct (decide (max = 0)) as [Hz|Hnz].
  - unfold IpLimiter.try_admit in E. rewrite Hm, (proj2 (Z.eqb_eq _ _) Hz) in E. simplify_eq. split; [|done].
    split; [done| |lia]. intros _. destruct (Hf Hz). split; [done|]. by constructor.
  - split; [|done]. assert (Hm' : IpLimiter.max_per_ip lm' = max).
    { unfold IpLimiter.try_admit in E. repeat break_match_hyp E; by simplify_eq/=. }
    split; [done|done|]. intros _. destruct r as [g|].
    + assert (Hg : IpLimiter.holds g = true /\ IpLimiter.client_ip g = ip).
      { unfold IpLimiter.try_admit in E. rewrite Hm, (proj2 (Z.eqb_neq _ _) Hnz) in E. repeat break_match_hyp E; by simplify_eq/=. }
      pose proof (lim_step_inv max _ _ ltac:(lia) (LAdmit (Build_LimState lm (held gs) []) ip g lm' E) (Hi Hnz)) as Hl. cbn in Hl.
      destruct Hg as [Hg <-]. rewrite Hg in Hl. change (option_list (Some g) ++ gs) with (g :: gs). rewrite held_cons, Hg. exact Hl.
    + apply (lim_step_inv max _ _ ltac:(lia) (LReject (Build_LimState lm (held gs) []) ip lm' E) (Hi Hnz)).
Qed.

Lemma drop_guard_ok max lm g1 g g2 :
  0 <= max < 2 ^ 32 -> limiter_ok max lm (g1 ++ g :: g2) -> limiter_ok max (IpLimiter.drop_guard g lm) (g1 ++ g2).
Proof.
  intros Hmax Hok. destruct (limiter_ok_perm _ _ _ (g :: g1 ++ g2) ltac:(by rewrite Permutation_middle) Hok) as [Hm Hf Hi].
  unfold IpLimiter.drop_guard. destruct (decide (max = 0)) as [Hz|Hnz].
  - destruct (Hf Hz) as [Hc [Hg Hall]%Forall_cons]. rewrite Hg. split; [done|done|done].
  - specialize (Hi Hnz). rewrite held_cons in Hi. destruct (IpLimiter.holds g); [|by split]. unfold IpLimiter.release.
    destruct (IpLimiter.decrement (IpLimiter.client_ip g) lm) as [zero lm1] eqn:Ed.
    pose proof (lim_step_inv max _ _ ltac:(lia) (LDrop (Build_LimState lm (IpLimiter.client_ip g :: held (g1 ++ g2)) []) _ [] _ zero lm1 eq_refl Ed) Hi) as H1. cbn [app live removing] in H1.
    destruct zero.
    + pose proof (lim_step_inv max _ _ ltac:(lia) (LRemove (Build_LimState lm1 (held (g1 ++ g2)) [IpLimiter.client_ip g]) _ [] [] eq_refl) H1) as H2. split; [apply H2|done|done].
    + split; [apply H1|done|done].
Qed.

(** *** Connections and tasks *)

Lemma crew_insert ow store users n ts id h tk :
  ow !! id = None -> ts !! id = None -> h ∉ store -> tk_phase tk = PhBind -> crew ow store users n ts ->
  crew (<[id := (h, tk_user tk)]> ow) ({[h]} ∪ store) users (wrap 64 (n + 1)) (<[id := tk]> ts).
Proof.
  intros Hid Hts Hh Hph [Ht Hd Hi Hg Hs Hj]. split.
  - intros j v. destruct (decide (j = id)) as [->|Hne].
    + rewrite !lookup_insert_eq. split; [intros [h' [= <- <-]]; exists tk; by rewrite Hph|]. intros (tk' & [= <-] & _ & <-). by exists h.
    + rewrite !lookup_insert_ne by congruence. apply Ht.
  - intros v j. rewrite Hd. destruct (decide (j = id)) as [->|Hne]; [|by rewrite lookup_insert_ne by congruence].
    rewrite lookup_insert_eq, Hts. split; [by intros (? & ? & _)|]. intros (tk' & [= <-] & Hb & _). by rewrite Hph in Hb.
  - done.
  - rewrite Hg, map_size_insert, Hts. cbn. rewrite Nat2Z.inj_succ. unfold wrap. rewrite Z.add_mod_idemp_l by lia. done.
  - intros j h' v. rewrite lookup_insert_Some. intros [[_ [= <- <-]]|[_ Hj']]; [set_solver|]. apply Hs in Hj'. set_solver.
  - intros i j h' v w. rewrite !lookup_insert_Some. intros [[<- [= <- <-]]|[_ H1]] [[<- E]|[_ H2]]; simplify_eq; try done.
    + by apply Hs in H2.
    + by apply Hs in H1.
    + by eapply Hj.
Qed.

(** A task moves to another phase: its registry entry and its user's binding
    follow. *)
Lemma crew_phase ow store users users' n ts id tk ph :
  ts !! id = Some tk -> crew ow store users n ts -> no_idle_user users' ->
  (is_registered ph = true -> is_registered (tk_phase tk) = true) ->
  (forall v j, j ∈ devices users' v <-> if decide (j = id) then is_bound ph = true /\ tk_user tk = Some v else j ∈ devices users v) ->
  crew (if is_registered ph || negb (is_registered (tk_phase tk)) then ow else delete id ow) store users' n (<[id := set_phase ph tk]> ts).
Proof.
  intros Hid [Ht Hd Hi Hg Hs Hj] Hi' Hreg Hdev.
  assert (Hsub : forall j x, (if is_registered ph || negb (is_registered (tk_phase tk)) then ow else delete id ow) !! j = Some x -> ow !! j = Some x).
  { intros j x. destruct (_ || _); [done|]. by intros [_ ?]%lookup_delete_Some. }
  split.
  - intros j v. destruct (decide (j = id)) as [->|Hne].
    + rewrite lookup_insert_eq. destruct (is_registered ph) eqn:E; cbn [orb].
      * rewrite (Ht id v). rewrite Hid. split; intros (tk' & [= <-] & H1 & H2); eexists; split_and!; try done. by apply Hreg.
      * split; [|intros (tk' & [= <-] & H1 & _); cbn in H1; by rewrite E in H1]. intros [h Hh]. exfalso.
        destruct (is_registered (tk_phase tk)) eqn:E'; cbn [negb] in Hh; [by rewrite lookup_delete_eq in Hh|].
        destruct (proj1 (Ht id v)) as (tk' & E1 & E2 & _); [by exists h|]. congruence.
    + rewrite lookup_insert_ne by congruence. rewrite <-Ht. destruct (_ || _); [done|]. by rewrite lookup_delete_ne by congruence.
  - intros v j. rewrite Hdev. case_decide as Hne.
    + subst. rewrite lookup_insert_eq. split; [intros [? ?]; by eexists|]. by intros (tk' & [= <-] & ? & ?).
    + rewrite lookup_insert_ne by congruence. apply Hd.
  - done.
  - rewrite Hg, map_size_insert, Hid. done.
  - intros j h u Hu%Hsub. by eapply Hs.
  - intros i j h u v Hu%Hsub Hv%Hsub. by eapply Hj.
Qed.

(** The same when the users do not change. *)
Lemma crew_move ow store users n ts id tk ph :
  ts !! id = Some tk -> crew ow store users n ts -> (is_registered ph = true -> is_registered (tk_phase tk) = true) ->
  tk_user tk = None \/ is_bound ph = is_bound (tk_phase tk) ->
  crew (if is_registered ph || negb (is_registered (tk_phase tk)) then ow else delete id ow) store users n (<[id := set_phase ph tk]> ts).
Proof.
  intros Hid Hc Hr Hb. eapply crew_phase; [done|done|apply Hc|done|]. intros v j. case_decide as Hj; [subst|done].
  rewrite (cr_devices _ _ _ _ _ Hc), Hid. split; [intros (tk' & [= <-] & H1 & H2)|intros [H1 H2]; exists tk]; destruct Hb as [Hb|Hb]; split_and!; congruence.
Qed.

Lemma crew_finish ow store users n ts id tk :
  ts !! id = Some tk -> tk_phase tk = PhEnd -> crew ow store users n ts -> crew ow store users (wrap 64 (n - 1)) (delete id ts).
Proof.
  intros Hid Hph [Ht Hd Hi Hg Hs Hj]. split; [| |done| |done|done].
  - intros j v. rewrite Ht. destruct (decide (j = id)) as [->|Hne]; [|by rewrite lookup_delete_ne by congruence].
    rewrite lookup_delete_eq, Hid. split; [intros (tk' & [= <-] & H1 & _); by rewrite Hph in H1|by intros (? & ? & _)].
  - intros v j. rewrite Hd. destruct (decide (j = id)) as [->|Hne]; [|by rewrite lookup_delete_ne by congruence].
    rewrite lookup_delete_eq, Hid. split; [intros (tk' & [= <-] & H1 & _); by rewrite Hph in H1|by intros (? & ? & _)].
  - rewrite Hg, map_size_delete, Hid. cbn. assert (Hp : size ts <> 0%nat) by (intros E%map_size_empty_inv; by rewrite E, lookup_empty in Hid).
    unfold wrap. rewrite Zminus_mod_idemp_l. f_equal. lia.
Qed.

(** *** What is advertised *)

Lemma advertises_room e r b tg :
  is_Some (cluster e) -> advertises tg (with_cluster (Cluster.set_room_interest r b) e) = if decide (tg = TRoom r) then b else advertises tg e.
Proof. intros [c Hc]. unfold advertises. cbn. rewrite Hc. cbn. apply mesh_hosts_set. Qed.

Lemma advertises_user e u b tg :
  is_Some (cluster e) -> advertises tg (with_cluster (Cluster.set_user_interest u b) e) = if decide (tg = TUser u) then b else advertises tg e.
Proof. intros [c Hc]. unfold advertises. cbn. rewrite Hc. cbn. apply mesh_hosts_set. Qed.

(** The engine is as before up to traffic, and the mesh was told nothing. *)
Record calm e e' : Prop := {
  k_config : config e' = config e;
  k_local : quiet (local e) (local e');
  k_limiter : Gate.limiter (gate e') = Gate.limiter (gate e);
  k_cluster : is_Some (cluster e') -> is_Some (cluster e);
  k_adverts : forall tg, advertises tg e' = advertises tg e;
}.

Lemma calm_local e l : quiet (local e) l -> calm e (set_local l e).
Proof. by intros. Qed.

Lemma do_relay_hosts peers k b md p (c : Cluster.t M) tg :
  mesh_hosts tg (Cluster.node (Cluster.do_relay peers k b md p c)) = mesh_hosts tg (Cluster.node c).
Proof.
  unfold Cluster.do_relay. pose proof (mesh_hosts_relay peers k b md p (Cluster.node c) tg) as Hh.
  by destruct (mesh_relay peers k b md p (Cluster.node c)).
Qed.

Lemma calm_relay e l (f : Cluster.t M -> Cluster.t M) :
  quiet (local e) l -> (forall c tg, mesh_hosts tg (Cluster.node (f c)) = mesh_hosts tg (Cluster.node c)) ->
  calm e (with_cluster f (set_local l e)).
Proof.
  intros Hq Hf. split; try done.
  - cbn. by rewrite fmap_is_Some.
  - intros tg. unfold advertises. cbn. destruct (cluster e); cbn; [apply Hf|done].
Qed.

Lemma send_calm id p b e : calm e (send id p b e).2.
Proof.
  unfold send. destruct (Registry.get id _) as [h|]; [|done].
  pose proof (push_handle_quiet h {| Mailbox.data := p; Mailbox.is_binary := b |} (local e)) as Hq.
  destruct (push_handle _ _ _). by apply calm_local.
Qed.

Lemma relay_room_hosts r p b ex (c : Cluster.t M) tg : mesh_hosts tg (Cluster.node (Cluster.relay_room r p b ex c)) = mesh_hosts tg (Cluster.node c).
Proof. unfold Cluster.relay_room. case_decide; [done|apply do_relay_hosts]. Qed.
Lemma relay_user_hosts u p b ex (c : Cluster.t M) tg : mesh_hosts tg (Cluster.node (Cluster.relay_user u p b ex c)) = mesh_hosts tg (Cluster.node c).
Proof. unfold Cluster.relay_user. case_decide; [done|apply do_relay_hosts]. Qed.
Lemma relay_all_hosts p b ex (c : Cluster.t M) tg : mesh_hosts tg (Cluster.node (Cluster.relay_all p b ex c)) = mesh_hosts tg (Cluster.node c).
Proof. unfold Cluster.relay_all. case_decide; [done|apply do_relay_hosts]. Qed.
Lemma relay_socket_hosts t p b (c : Cluster.t M) tg : mesh_hosts tg (Cluster.node (Cluster.relay_socket t p b c)) = mesh_hosts tg (Cluster.node c).
Proof. unfold Cluster.relay_socket. destruct (_ =? _); [done|apply do_relay_hosts]. Qed.

Lemma broadcast_calm target p b ex (f : Cluster.t M -> Cluster.t M) e :
  (forall c tg, mesh_hosts tg (Cluster.node (f c)) = mesh_hosts tg (Cluster.node c)) ->
  calm e (with_cluster f (set_local (broadcast target p b ex (local e)).2 e)).
Proof. intros Hf. apply calm_relay; [apply broadcast_quiet|done]. Qed.

Lemma traffic_calm e e' : traffic e e' -> calm e e'.
Proof.
  intros []; try (apply calm_local, close_all_quiet).
  - pose proof (broadcast_calm (Room room) p b ex _ e (fun c tg => relay_room_hosts room p b (relay_excepts ex rex c) c tg)) as Hc.
    unfold broadcast_room. by destruct (broadcast _ _ _ _ _).
  - pose proof (broadcast_calm All p b ex _ e (fun c tg => relay_all_hosts p b (relay_excepts ex rex c) c tg)) as Hc.
    unfold broadcast_all. by destruct (broadcast _ _ _ _ _).
  - pose proof (broadcast_calm (User user) p b ex _ e (fun c tg => relay_user_hosts user p b (relay_excepts ex rex c) c tg)) as Hc.
    unfold broadcast_user. by destruct (broadcast _ _ _ _ _).
  - apply send_calm.
  - unfold send_node. destruct (cluster e) as [c|] eqn:Ec; [|apply send_calm]. destruct (_ =? _); [apply send_calm|].
    split; try done. intros tg. unfold advertises. cbn. rewrite Ec. apply relay_socket_hosts.
  - unfold close_connection. destruct (Registry.get id _); [apply calm_local, close_handle_quiet|done].
  - unfold admin_disconnect_socket. destruct (Registry.get id _); [|done]. apply calm_local.
    etrans; [apply close_handle_quiet|apply metrics_quiet]. intros m. by rewrite metrics_get_add.
  - unfold admin_disconnect_user. set (ds := default _ _). pose proof (disconnect_devices_quiet ds code (local e)) as Hq.
    destruct (disconnect_devices ds code (local e)) as [n l]. apply calm_local.
    etrans; [exact Hq|apply metrics_quiet]. intros m. by rewrite metrics_get_add.
  - split; try done. apply close_all_quiet.
  - pose proof (deliver_local_quiet (Cluster.self_node_id c) k b body (Cluster.relay c) (local e)) as Hq.
    rewrite H1 in Hq. split; try done. intros tg. unfold advertises. cbn. by rewrite H0.
  - apply calm_local. by eapply quiet_store.
  - split; try done. intros tg. unfold advertises. cbn. by rewrite H0.
Qed.

(** *** Preservation *)

Lemma info_members room rm : s_members (RoomRegistry.info room rm) = Z.of_nat (size (memb rm room)).
Proof. unfold RoomRegistry.info, memb. by destruct (rm !! room). Qed.

Lemma device_count_devices u users : IdentityRegistry.device_count u users = size (devices users u).
Proof. unfold IdentityRegistry.device_count, devices. by destruct (users !! u). Qed.

Lemma hosted_population tg l : hosted tg l <-> population tg l <> 0%nat.
Proof. destruct tg as [r|u]; cbn; by rewrite size_empty_iff, leibniz_equiv_iff. Qed.

Lemma kinds_cons tg tg0 k os : kinds tg ((tg0, k) :: os) = if decide (tg0 = tg) then k :: kinds tg os else kinds tg os.
Proof. unfold kinds. rewrite filter_cons. cbn. by case_decide. Qed.
Lemma kinds_app tg os os' : kinds tg (os ++ os') = kinds tg os ++ kinds tg os'.
Proof. unfold kinds. by rewrite filter_app, fmap_app. Qed.

(** What the edges do by themselves. *)
Lemma edge_perm n b c ks ks' : ks ≡ₚ ks' -> edge_ok n b c ks -> edge_ok n b c ks'.
Proof.
  intros Hp He. destruct ks as [|k [|k' ks]]; [|apply Permutation_singleton_l in Hp as <-; done|by destruct k].
  by apply Permutation_nil_l in Hp as <-.
Qed.
Lemma edge_tail n b c k ks : edge_ok n b c (k :: ks) -> ks = [].
Proof. by destruct ks, k. Qed.
Lemma edge_check_up n b c ks : edge_ok n b c (CheckUp :: ks) -> edge_ok n b c (if (n =? 1)%nat then SetUp :: ks else ks).
Proof. intros He. pose proof (edge_tail _ _ _ _ _ He) as ->. cbn in He |- *. destruct (Nat.eqb_spec n 1); cbn; [lia|]. destruct He as [H1 H2]. split; [|intros _; destruct (decide (n = 0)%nat); auto]. intros Hn. apply H2. lia. Qed.
Lemma edge_check_down n b c ks : edge_ok n b c (CheckDown :: ks) -> edge_ok n b c (if (n =? 0)%nat then SetDown :: ks else ks).
Proof. intros He. pose proof (edge_tail _ _ _ _ _ He) as ->. cbn in He |- *. destruct (Nat.eqb_spec n 0); cbn; [done|]. auto. Qed.
Lemma edge_set_up n b c ks : edge_ok n b c (SetUp :: ks) -> edge_ok n true c ks.
Proof. intros He. pose proof (edge_tail _ _ _ _ _ He) as ->. cbn in He |- *. split; [done|]. intros _. destruct (decide (n = 0)%nat); auto. Qed.
Lemma edge_set_down n b c ks : edge_ok n b c (SetDown :: ks) -> edge_ok n false c ks.
Proof. intros He. pose proof (edge_tail _ _ _ _ _ He) as ->. cbn in He |- *. done. Qed.
Lemma edge_grow n n' b c : n' <> 0%nat -> ((1 < n')%nat -> n <> 0%nat) -> edge_ok n b c [] -> edge_ok n' b c [CheckUp].
Proof. cbn. intros ? ? [? ?]. split; [done|auto]. Qed.
Lemma edge_shrink n n' b c : (n' <= n)%nat -> edge_ok n b c [] -> edge_ok n' b c [CheckDown].
Proof. cbn. intros ? [Ha _] ?. apply Ha. lia. Qed.
Lemma edge_close n b c ks : edge_ok n b c ks -> edge_ok 0 b True ks.
Proof. destruct ks as [|[] []]; cbn; intuition lia. Qed.
Lemma edge_closed n b (c c' : Prop) ks : (c <-> c') -> edge_ok n b c ks -> edge_ok n b c' ks.
Proof. intros Hc. destruct ks as [|[] []]; cbn; intuition. Qed.

(** The step replaced the unpublished changes [X] by [Y] and changed the tables
    at the targets [tgs]. *)
Lemma edges_swap s s' X Y R tgs :
  ops s ≡ₚ X ++ R -> ops s' ≡ₚ Y ++ R -> overlapped s' = overlaps s tgs ++ overlapped s -> closed_rooms s' = closed_rooms s ->
  (is_Some (cluster (eng s')) -> is_Some (cluster (eng s))) ->
  (is_Some (cluster (eng s)) -> forall tg r, (tg ∈ tgs -> kinds tg X ++ r = []) -> edge_at s tg (kinds tg X ++ r) -> edge_at s' tg (kinds tg Y ++ r)) ->
  adverts s -> adverts s'.
Proof.
  intros HX HY Ho Hcr Hcl Hstep Had Hc tg Htg. apply Hcl in Hc. rewrite Ho in Htg.
  assert (Hp : pending s tg ≡ₚ kinds tg X ++ kinds tg R) by (unfold pending; rewrite <-kinds_app; unfold kinds; by rewrite HX).
  assert (Hp' : pending s' tg ≡ₚ kinds tg Y ++ kinds tg R) by (unfold pending; rewrite <-kinds_app; unfold kinds; by rewrite HY).
  unfold edge_at. eapply edge_perm; [symmetry; exact Hp'|]. apply (Hstep Hc).
  - intros Hin. apply Permutation_nil_r. rewrite <-Hp. destruct (decide (pending s tg = [])) as [->|Hne]; [done|]. exfalso.
    apply Htg, elem_of_app. left. by apply list_elem_of_filter.
  - eapply edge_perm; [exact Hp|]. apply Had; [done|]. set_solver.
Qed.

(** The step was one access to the interest of [tg0]. *)
Lemma edges_publish s s' tg0 k k' R :
  ops s ≡ₚ (tg0, k) :: R -> ops s' ≡ₚ map (pair tg0) (option_list k') ++ R -> overlapped s' = overlapped s -> closed_rooms s' = closed_rooms s ->
  local (eng s') = local (eng s) -> (is_Some (cluster (eng s')) -> is_Some (cluster (eng s))) ->
  (is_Some (cluster (eng s)) -> forall tg, tg0 <> tg -> advertises tg (eng s') = advertises tg (eng s)) ->
  (is_Some (cluster (eng s)) -> forall c r, edge_ok (population tg0 (local (eng s))) (advertises tg0 (eng s)) c (k :: r) ->
     edge_ok (population tg0 (local (eng s))) (advertises tg0 (eng s')) c (option_list k' ++ r)) ->
  adverts s -> adverts s'.
Proof.
  intros HX HY Ho Hcr Hl Hcl Hne Heq. apply (edges_swap s s' [(tg0, k)] (map (pair tg0) (option_list k')) R []); [done|done|done|done|done|].
  intros Hc tg r _. unfold edge_at. rewrite Hl, Hcr, kinds_cons. case_decide as Ht.
  - subst. intros He. apply (Heq Hc) in He. destruct k' as [k'|]; [|done].
    change (map (pair tg) (option_list (Some k'))) with [(tg, k')]. by rewrite kinds_cons, decide_True.
  - rewrite (Hne Hc tg Ht). destruct k' as [k'|]; [|done].
    change (map (pair tg0) (option_list (Some k'))) with [(tg0, k')]. by rewrite kinds_cons, decide_False.
Qed.

Lemma ops_task s id tk : tasks s !! id = Some tk -> ops s ≡ₚ task_ops tk ++ ops (set_tasks (delete id (tasks s)) s).
Proof. intros Hid. unfold ops. cbn [tasks jobs set_tasks]. rewrite <-(map_to_list_delete _ _ _ Hid), bind_cons. by rewrite app_assoc. Qed.

Lemma ops_jobs s j1 j j2 : jobs s = j1 ++ j :: j2 -> ops s ≡ₚ job_op j :: ops (set_jobs (j1 ++ j2) s).
Proof. intros Hj. unfold ops. cbn [tasks jobs set_jobs]. rewrite Hj, !map_app. cbn [map]. by rewrite <-!Permutation_middle. Qed.

Lemma guards_task ts id tk : ts !! id = Some tk -> task_guards ts ≡ₚ tk_guard tk :: task_guards (delete id ts).
Proof. intros Hid. unfold task_guards. by rewrite <-(map_to_list_delete _ _ _ Hid). Qed.
Lemma guards_insert ts id tk : task_guards (<[id := tk]> ts) ≡ₚ tk_guard tk :: task_guards (delete id ts).
Proof. rewrite (guards_task _ id tk) by (by rewrite lookup_insert_eq). by rewrite delete_insert_eq. Qed.

Lemma calm_edge s e tg ks : calm (eng s) e -> edge_at (set_eng e s) tg ks <-> edge_at s tg ks.
Proof.
  intros [_ [_ Hi Hm _ _ _] _ _ Ha]. unfold edge_at. cbn [eng set_eng closed_rooms].
  assert (E : population tg (local e) = population tg (local (eng s))) by (destruct tg; cbn; by rewrite ?Hm, ?Hi). by rewrite E, Ha.
Qed.

Lemma inv_calm s e : engine_inv s -> calm (eng s) e -> engine_inv (set_eng e s).
Proof.
  intros [(a & Hm & [Hb Hn] & Hcr) Hl Had] Hk.
  assert (Had' : adverts (set_eng e s)) by (intros Hc tg Ht; apply calm_edge; [done|]; apply Had; [by apply (k_cluster _ _ Hk)|done]).
  destruct Hk as [Ec [Hq1 Hq2 Hq3 Hq4 Hq5 Hq6] El _ _].
  split; cbn; [|by rewrite Ec, El|done]. exists a. rewrite Hq1, Hq2, Hq5, Hq6. split_and!; try done.
  split; [|auto]. intros id r. rewrite Hq3. apply Hb.
Qed.

Lemma join_rooms id room mx (conns : Registry.t SL Z) rm change conns' rm' :
  RoomRegistry.join id room mx conns rm = (change, conns', rm') ->
  rm' = if decide (change = Changed) then RoomRegistry.insert_member room id rm else rm.
Proof. unfold RoomRegistry.join. intros E. repeat break_match_hyp E; by simplify_eq. Qed.

Lemma leave_rooms id room (conns : Registry.t SL Z) rm change conns' rm' :
  RoomRegistry.leave id room conns rm = (change, conns', rm') ->
  rm' = if decide (change = Changed) then RoomRegistry.remove_member room id rm else rm.
Proof. unfold RoomRegistry.leave. intros E. repeat break_match_hyp E; by simplify_eq. Qed.

(** The tables after [join] or [leave] of a known or unknown connection. *)
Lemma tables_members (a : gmap Z (Z * gset RoomId * option UserId)) (id : ConnectionId) (conns' : Registry.t SL Z) (rm' : RoomRegistry.t) l
    (ts : gmap Z Task) (P : gset RoomId) :
  crew (owners a) (dom (l_store l)) (l_identity l) (gauge l) ts ->
  (exists a', op_result a a' conns' rm' id P) ->
  exists a', models conns' a' /\ consistent a' rm' /\ crew (owners a') (dom (l_store l)) (l_identity l) (gauge l) ts.
Proof. intros Hcr (a' & [Hm Hc _ Ho]). exists a'. by rewrite Ho. Qed.

Lemma when_cluster_local b f e : local (when_cluster b f e) = local e.
Proof. by destruct b. Qed.

(** A command changed the tables at one room, and noted what it has to publish. *)
Lemma command_edges s up change room e : local e = set_members (l_conns (local e)) (l_rooms (local e)) (local (eng s)) -> cluster e = cluster (eng s) ->
  (change <> Changed -> l_rooms (local e) = l_rooms (local (eng s))) ->
  (forall r : RoomId, r <> room -> memb (l_rooms (local e)) r = memb (l_rooms (local (eng s))) r) ->
  (forall b c, change = Changed -> edge_ok (population (TRoom room) (local (eng s))) b c [] ->
     edge_ok (population (TRoom room) (local e)) b c [if up : bool then CheckUp else CheckDown]) ->
  adverts s -> adverts (add_overlaps (overlaps s (changed change room)) (set_jobs (command_job up change room e ++ jobs s) (set_eng e s))).
Proof.
  intros Hloc Hcl Hsame Hother Hroom.
  apply (edges_swap s _ [] (map job_op (command_job up change room e)) (ops s) (changed change room)); [done| |done|done|by rewrite <-Hcl|].
  { unfold ops. cbn [tasks jobs add_overlaps set_jobs set_eng]. rewrite map_app. by rewrite !app_assoc, (Permutation_app_comm (map job_op _)). }
  intros Hc tg r Hov He. unfold edge_at in *. change (kinds tg []) with (@nil EdgeOp) in *. cbn [eng add_overlaps set_jobs set_eng closed_rooms app] in *.
  assert (Hadv : advertises tg e = advertises tg (eng s)) by (unfold advertises; by rewrite Hcl). rewrite Hadv.
  assert (Hcd : clustered e = true) by (unfold clustered; rewrite Hcl; by destruct Hc as [? ->]).
  unfold command_job, changed in *. rewrite Hcd. cbn [andb]. destruct (decide (change = Changed)) as [E|E].
  - rewrite bool_decide_true by done.
    change (map job_op [{| j_room := room; j_up := up; j_set := false |}]) with [(TRoom room, if up then CheckUp else CheckDown)]. rewrite kinds_cons. case_decide as Ht.
    + subst tg. rewrite (Hov (list_elem_of_here _ _)) in *. exact (Hroom _ _ E He).
    + assert (Hp : population tg (local e) = population tg (local (eng s))); [|by rewrite Hp].
      destruct tg as [r'|u]; cbn; [rewrite Hother; [done|congruence]|by rewrite Hloc].
  - rewrite bool_decide_false by done. cbn. assert (Hp : population tg (local e) = population tg (local (eng s))); [|by rewrite Hp].
    destruct tg as [r'|u]; cbn; [by rewrite (Hsame E)|by rewrite Hloc].
Qed.

Lemma command_inv s e up change room : engine_inv s ->
  config e = config (eng s) -> gate e = gate (eng s) ->
  (exists a, models (l_conns (local e)) a /\ consistent a (l_rooms (local e)) /\
    crew (owners a) (dom (l_store (local e))) (l_identity (local e)) (gauge (local e)) (tasks s)) ->
  adverts (add_overlaps (overlaps s (changed change room)) (set_jobs (command_job up change room e ++ jobs s) (set_eng e s))) ->
  engine_inv (add_overlaps (overlaps s (changed change room)) (set_jobs (command_job up change room e ++ jobs s) (set_eng e s))).
Proof. intros [_ Hl _] Hc Hg Ht Ha. split; [exact Ht| |exact Ha]. cbn. by rewrite Hc, Hg. Qed.

Lemma join_inv s id room change e : u64_ok id -> engine_inv s -> join_tables id room (eng s) = (change, e) ->
  engine_inv (add_overlaps (overlaps s (changed change room)) (set_jobs (command_job true change room e ++ jobs s) (set_eng e s))).
Proof.
  intros Hid Hi Ej. pose proof Hi as [(a & Hm & Hc & Hcr) _ Had]. unfold join_tables in Ej. set (l := local (eng s)) in *.
  pose proof (join_spec id room (max_rooms_per_connection (limits (config (eng s)))) (l_conns l) (l_rooms l) a Hm Hc Hid) as Hj.
  destruct (RoomRegistry.join _ _ _ _ _) as [[change' conns'] rm'] eqn:E. pose proof (join_rooms _ _ _ _ _ _ _ _ E) as Erm.
  injection Ej as -> <-. apply command_inv; [done|done|done| |].
  - cbn. destruct (a !! id) as [[[h rs] u]|] eqn:Ea.
    + destruct Hj as [_ Hop]. exact (tables_members a id conns' rm' l (tasks s) _ Hcr Hop).
    + destruct Hj as (_ & -> & ->). by exists a.
  - revert Had. apply command_edges; [done|done|..]; cbn [local set_local set_members l_rooms population eng]; rewrite Erm; fold l.
    + intros Hne. by rewrite decide_False.
    + intros r Hr. case_decide; [|done]. by rewrite memb_insert, decide_False.
    + intros b c ->. rewrite decide_True by done. rewrite memb_insert, decide_True by done. apply edge_grow.
      * rewrite size_empty_iff. set_solver.
      * intros Hlt Hz%size_empty_inv%leibniz_equiv. rewrite Hz, union_empty_r_L, size_singleton in Hlt. lia.
Qed.

Lemma leave_inv s id room change e : u64_ok id -> engine_inv s -> leave_tables id room (eng s) = (change, e) ->
  engine_inv (add_overlaps (overlaps s (changed change room)) (set_jobs (command_job false change room e ++ jobs s) (set_eng e s))).
Proof.
  intros Hid Hi Ej. pose proof Hi as [(a & Hm & Hc & Hcr) _ Had]. unfold leave_tables in Ej. set (l := local (eng s)) in *.
  pose proof (leave_spec id room (l_conns l) (l_rooms l) a Hm Hc Hid) as Hj.
  destruct (RoomRegistry.leave _ _ _ _) as [[change' conns'] rm'] eqn:E. pose proof (leave_rooms _ _ _ _ _ _ _ E) as Erm.
  injection Ej as -> <-. apply command_inv; [done|done|done| |].
  - cbn. destruct (a !! id) as [[[h rs] u]|] eqn:Ea.
    + destruct Hj as [_ Hop]. exact (tables_members a id conns' rm' l (tasks s) _ Hcr Hop).
    + destruct Hj as (_ & -> & ->). by exists a.
  - revert Had. apply command_edges; [done|done|..]; cbn [local set_local set_members l_rooms population eng]; rewrite Erm; fold l.
    + intros Hne. by rewrite decide_False.
    + intros r Hr. case_decide; [|done]. by rewrite memb_remove, decide_False.
    + intros b c ->. rewrite decide_True by done. rewrite memb_remove, decide_True by done. apply edge_shrink.
      apply subseteq_size. set_solver.
Qed.

(** What follows a command is one access to the interest of its room. *)
Lemma command_step_inv s j1 j j2 j' e : engine_inv s -> jobs s = j1 ++ j :: j2 -> command_step j (eng s) = (j', e) ->
  engine_inv (set_jobs (option_list j' ++ j1 ++ j2) (set_eng e s)).
Proof.
  intros [Ht Hl Had] Hj E.
  assert (F : config e = config (eng s) /\ gate e = gate (eng s) /\ local e = local (eng s) /\ (is_Some (cluster e) -> is_Some (cluster (eng s)))).
  { unfold command_step in E. repeat break_match_hyp E; simplify_eq/=; rewrite ?fmap_is_Some; done. }
  destruct F as (F1 & F2 & F3 & F4). split; cbn [eng upgrades tasks set_jobs set_eng]; [by rewrite F3|by rewrite F1, F2|].
  pose proof (ops_jobs s j1 j j2 Hj) as Hops. set (R := ops (set_jobs (j1 ++ j2) s)) in *.
  set (s' := set_jobs _ _).
  assert (Hops' : ops s' ≡ₚ map job_op (option_list j') ++ R).
  { subst s' R. unfold ops. cbn [tasks jobs set_jobs set_eng]. rewrite map_app. by rewrite !app_assoc, (Permutation_app_comm (map job_op _)). }
  revert Had. unfold command_step in E. destruct j as [room up set]. cbn [j_set j_up j_room] in E. rewrite info_members in E.
  destruct set; [|destruct (Z.eqb_spec (Z.of_nat (size (memb (l_rooms (local (eng s))) room))) (if up then 1 else 0)) as [Hz|Hz]]; injection E as <- <-.
  - apply (edges_publish s s' (TRoom room) (if up then SetUp else SetDown) None R); try done.
    + intros Hc tg Hne. cbn. rewrite advertises_room, decide_False by congruence. done.
    + intros Hc c r He. change (eng s') with (with_cluster (Cluster.set_room_interest room up) (eng s)).
      rewrite advertises_room, decide_True by done. destruct up; [eapply edge_set_up; exact He|eapply edge_set_down; exact He].
  - apply (edges_publish s s' (TRoom room) (if up then CheckUp else CheckDown) (Some (if up then SetUp else SetDown)) R); try done.
    intros Hc c r. cbn [population option_list app]. destruct up; [intros He%edge_check_up|intros He%edge_check_down]; rewrite (proj2 (Nat.eqb_eq _ _)) in He by lia; exact He.
  - apply (edges_publish s s' (TRoom room) (if up then CheckUp else CheckDown) None R); try done.
    intros Hc c r. cbn [population option_list app]. destruct up; [intros He%edge_check_up|intros He%edge_check_down]; rewrite (proj2 (Nat.eqb_neq _ _)) in He by lia; exact He.
Qed.

Lemma close_room_inv s room : engine_inv s -> engine_inv (add_closed room (set_eng (admin_close_room room (eng s)).2 s)).
Proof.
  intros [(a & Hm & Hc & Hcr) Hl Had]. set (e := eng s) in *. set (l := local e) in *.
  destruct (close_room_spec room (l_conns l) (l_rooms l) a Hm Hc) as (conns' & rm' & a' & E & Hm' & Hc' & Ho & Hno & Hrs).
  assert (Hmem : forall r, r <> room -> memb rm' r = memb (l_rooms l) r).
  { intros r Hr. apply set_eq. intros j. rewrite (c_both _ _ Hc'), (c_both _ _ Hc), Hrs. set_solver. }
  assert (Hall : config (admin_close_room room e).2 = config e /\ gate (admin_close_room room e).2 = gate e /\
    cluster (admin_close_room room e).2 = cluster e /\ l_conns (local (admin_close_room room e).2) = conns' /\
    l_rooms (local (admin_close_room room e).2) = rm' /\ l_identity (local (admin_close_room room e).2) = l_identity l /\
    l_store (local (admin_close_room room e).2) = l_store l /\ gauge (local (admin_close_room room e).2) = gauge l).
  { unfold admin_close_room. fold l. rewrite E. by case_decide. }
  destruct Hall as (E1 & E2 & E3 & E4 & E5 & E6 & E7 & E8). split; cbn [eng upgrades tasks add_closed set_eng].
  - exists a'. by rewrite E4, E5, E6, E7, E8, Ho.
  - by rewrite E1, E2.
  - intros Hcl tg Htg. cbn in Hcl. rewrite E3 in Hcl. specialize (Had Hcl tg Htg). unfold edge_at in *. cbn [eng add_closed set_eng closed_rooms] in *.
    assert (Hadv : advertises tg (admin_close_room room e).2 = advertises tg e) by (unfold advertises; by rewrite E3). rewrite Hadv. fold e in Had.
    change (pending (add_closed room (set_eng (admin_close_room room e).2 s)) tg) with (pending s tg).
    destruct (decide (tg = TRoom room)) as [->|Hne].
    + cbn [population]. rewrite E5. assert (Hz : memb rm' room = ∅) by (unfold memb; by rewrite Hno). rewrite Hz, size_empty.
      eapply edge_closed; [|by eapply edge_close]. split; [|done]. intros _. exists room. set_solver.
    + assert (Hp : population tg (local (admin_close_room room e).2) = population tg l) by (destruct tg; cbn; [rewrite E5, Hmem; [done|congruence]|by rewrite E6]).
      rewrite Hp. eapply edge_closed; [|exact Had]. unfold closed_target. set_solver.
Qed.

Lemma consistent_insert (a : gmap Z (Z * gset RoomId * option UserId)) rm (id : Z) h u :
  a !! id = None -> consistent a rm -> consistent (<[id := (h, ∅, u)]> a) rm.
Proof.
  intros Ha Hc. split; [|apply Hc]. intros j r. rewrite rooms_of_insert. case_decide as Hj; [|apply Hc]. subst.
  split; [|set_solver]. intros Hin. by eapply consistent_nil in Hin.
Qed.

Lemma owners_insert (a : gmap Z (Z * gset RoomId * option UserId)) (id : Z) h rs u : owners (<[id := (h, rs, u)]> a) = <[id := (h, u)]> (owners a).
Proof. unfold owners. by rewrite fmap_insert. Qed.

Lemma ops_insert s id tk :
  ops (set_tasks (<[id := tk]> (tasks s)) s) ≡ₚ task_ops tk ++ ops (set_tasks (delete id (tasks s)) s).
Proof. rewrite (ops_task _ id tk) by apply lookup_insert_eq. cbn [tasks set_tasks]. by rewrite delete_insert_eq. Qed.

Lemma open_inv s up1 up up2 user_id h id e : engine_inv s -> upgrades s = up1 ++ up :: up2 ->
  l_store (local (eng s)) !! h = None -> Registry.has_room (l_conns (local (eng s))) -> insert_conn h user_id (eng s) = Some (id, e) ->
  (forall tk, tasks s !! id = Some tk -> is_registered (tk_phase tk) = true) ->
  engine_inv (set_upgrades (up1 ++ up2) (set_tasks
    (<[id := {| tk_user := user_id; tk_guard := Gate.au_guard up; tk_phase := PhBind |}]> (tasks s)) (set_eng e s))).
Proof.
  intros [(a & Hm & Hc & Hcr) Hl Had] Hup Hh Hroom E Hfr. unfold insert_conn in E.
  destruct (models_insert h user_id _ a Hm Hroom) as (id' & conns & Ei & Hid & Hm'). rewrite Ei in E. cbn [mbind option_bind] in E.
  injection E as -> <-. set (tk := {| tk_user := user_id; tk_guard := Gate.au_guard up; tk_phase := PhBind |}).
  assert (Hts : tasks s !! id = None).
  { destruct (tasks s !! id) as [tk'|] eqn:Et; [|done]. destruct (proj2 (cr_tasks _ _ _ _ _ Hcr id (tk_user tk'))) as [h' Hh']; [eauto|].
    unfold owners in Hh'. by rewrite lookup_fmap, Hid in Hh'. }
  split; cbn [eng upgrades tasks set_upgrades set_tasks set_eng].
  - exists (<[id := (h, ∅, user_id)]> a). cbn. split_and!; [done|by apply consistent_insert|]. rewrite owners_insert, dom_insert_L.
    unfold gauge. cbn. rewrite metrics_get_add_eq.
    apply (crew_insert _ _ _ _ _ _ _ tk); [unfold owners; by rewrite lookup_fmap, Hid|done|by rewrite not_elem_of_dom|done|done].
  - cbn [config gate set_local]. eapply limiter_ok_perm; [|exact Hl]. rewrite guards_insert, delete_id by done. rewrite Hup, !map_app. cbn [map tk_guard tk].
    by rewrite <-!app_assoc, <-!app_comm_cons, <-Permutation_middle, !app_assoc, Permutation_middle.
  - revert Had. apply (edges_swap s _ [] [] (ops s) []); [done| |done|done|done|done].
    change (ops (set_tasks (<[id := tk]> (tasks s)) s) ≡ₚ ops s). rewrite ops_insert, delete_id by done. by destruct s.
Qed.

(** A task's step that keeps the task. *)
Lemma task_keep s id tk ph e tgs : let s' := add_overlaps (overlaps s tgs) (set_tasks (<[id := set_phase ph tk]> (tasks s)) (set_eng e s)) in
  tasks s !! id = Some tk -> engine_inv s -> config e = config (eng s) -> gate e = gate (eng s) ->
  (exists a, models (l_conns (local e)) a /\ consistent a (l_rooms (local e)) /\
    crew (owners a) (dom (l_store (local e))) (l_identity (local e)) (gauge (local e)) (<[id := set_phase ph tk]> (tasks s))) ->
  adverts s' -> engine_inv s'.
Proof.
  intros s' Hid [_ Hl _] Hc Hg Ht Ha. split; [exact Ht| |exact Ha]. cbn. rewrite Hc, Hg. eapply limiter_ok_perm; [|exact Hl].
  by rewrite guards_insert, (guards_task (tasks s) id tk).
Qed.

(** A step that does not touch the tables. *)
Lemma task_still s id tk ph e : let s' := add_overlaps [] (set_tasks (<[id := set_phase ph tk]> (tasks s)) (set_eng e s)) in
  tasks s !! id = Some tk -> engine_inv s -> config e = config (eng s) -> gate e = gate (eng s) -> local e = local (eng s) ->
  is_registered ph = is_registered (tk_phase tk) -> tk_user tk = None \/ is_bound ph = is_bound (tk_phase tk) -> adverts s' -> engine_inv s'.
Proof.
  intros s' Hid Hi Hc Hg Hl Hr Hb. apply (task_keep s id tk ph e []); [done|done|done|done|]. destruct Hi as [(a & Hm & Hcon & Hcr) _ _].
  exists a. rewrite Hl. split_and!; [done|done|]. pose proof (crew_move _ _ _ _ _ _ _ ph Hid Hcr ltac:(by rewrite Hr) Hb) as H'.
  rewrite Hr in H'. by destruct (is_registered (tk_phase tk)).
Qed.

(** One that does not touch the mesh either. *)
Lemma task_silent s id tk ph : tasks s !! id = Some tk -> engine_inv s ->
  is_registered ph = is_registered (tk_phase tk) -> tk_user tk = None \/ is_bound ph = is_bound (tk_phase tk) ->
  task_ops tk = [] -> task_ops (set_phase ph tk) = [] ->
  engine_inv (add_overlaps [] (set_tasks (<[id := set_phase ph tk]> (tasks s)) (set_eng (eng s) s))).
Proof.
  intros Hid Hi Hr Hb H1 H2. apply task_still; try done. destruct Hi as [_ _ Had]. revert Had.
  apply (edges_swap s _ [] [] (ops (set_tasks (delete id (tasks s)) s)) []); try done.
  - rewrite (ops_task s id tk Hid), H1. done.
  - change (ops (set_tasks (<[id := set_phase ph tk]> (tasks s)) s) ≡ₚ ops (set_tasks (delete id (tasks s)) s)). by rewrite ops_insert, H2.
Qed.

(** One access to the interest of a target. *)
Lemma task_publish s id tk ph e tg0 k k' T : tasks s !! id = Some tk -> engine_inv s ->
  is_registered ph = is_registered (tk_phase tk) -> is_bound ph = is_bound (tk_phase tk) ->
  task_ops tk = (tg0, k) :: T -> task_ops (set_phase ph tk) = map (pair tg0) (option_list k') ++ T ->
  config e = config (eng s) -> gate e = gate (eng s) -> local e = local (eng s) -> (is_Some (cluster e) -> is_Some (cluster (eng s))) ->
  (is_Some (cluster (eng s)) -> forall tg, tg0 <> tg -> advertises tg e = advertises tg (eng s)) ->
  (is_Some (cluster (eng s)) -> forall c r, edge_ok (population tg0 (local (eng s))) (advertises tg0 (eng s)) c (k :: r) ->
     edge_ok (population tg0 (local (eng s))) (advertises tg0 e) c (option_list k' ++ r)) ->
  engine_inv (add_overlaps [] (set_tasks (<[id := set_phase ph tk]> (tasks s)) (set_eng e s))).
Proof.
  intros Hid Hi Hr Hb H1 H2 Hc Hg Hl Hcl Hne Heq. apply task_still; auto. destruct Hi as [_ _ Had]. revert Had.
  apply (edges_publish s _ tg0 k k' (T ++ ops (set_tasks (delete id (tasks s)) s))); try done.
  - rewrite (ops_task s id tk Hid), H1. done.
  - change (ops (set_tasks (<[id := set_phase ph tk]> (tasks s)) s) ≡ₚ map (pair tg0) (option_list k') ++ T ++ ops (set_tasks (delete id (tasks s)) s)).
    by rewrite ops_insert, H2, app_assoc.
Qed.

Lemma user_set_edge uid up s : is_Some (cluster (eng s)) ->
  (forall tg, TUser uid <> tg -> advertises tg (with_cluster (Cluster.set_user_interest uid up) (eng s)) = advertises tg (eng s)) /\
  (forall n c r, edge_ok n (advertises (TUser uid) (eng s)) c ((if up : bool then SetUp else SetDown) :: r) ->
     edge_ok n (advertises (TUser uid) (with_cluster (Cluster.set_user_interest uid up) (eng s))) c r).
Proof.
  intros Hc. split; [intros tg Hne; by rewrite advertises_user, decide_False by congruence|].
  intros n c r He. rewrite advertises_user, decide_True by done. destruct up; [eapply edge_set_up; exact He|eapply edge_set_down; exact He].
Qed.

(** The device count, as the task reads it. *)
Lemma device_check_edge uid (want : nat) s n c r (k k' : EdgeOp) :
  is_Some (cluster (eng s)) -> n = population (TUser uid) (local (eng s)) ->
  (forall b, edge_ok n b c (k :: r) -> edge_ok n b c (if (n =? want)%nat then k' :: r else r)) ->
  forall b, edge_ok n b c (k :: r) ->
    edge_ok n b c (option_list (if clustered (eng s) && (IdentityRegistry.device_count uid (l_identity (local (eng s))) =? want)%nat then Some k' else None) ++ r).
Proof.
  intros [cl Hc] -> Hk b He. unfold clustered. rewrite Hc, device_count_devices. cbn [andb]. apply Hk in He. cbn [population] in He.
  by destruct (_ =? want)%nat.
Qed.

(** Binding a user, and unbinding it. *)
Lemma bind_inv s id tk uid : tasks s !! id = Some tk -> tk_phase tk = PhBind -> tk_user tk = Some uid -> engine_inv s ->
  engine_inv (add_overlaps (overlaps s [TUser uid]) (set_tasks (<[id := set_phase PhBindCheck tk]> (tasks s)) (set_eng (bind_user id uid (eng s)) s))).
Proof.
  intros Hid Hph Hu Hi. pose proof Hi as [(a & Hm & Hc & Hcr) _ Had].
  assert (Hni : forall v, id ∉ devices (l_identity (local (eng s))) v).
  { intros v. rewrite (cr_devices _ _ _ _ _ Hcr), Hid. intros (tk' & [= <-] & Hb & _). by rewrite Hph in Hb. }
  apply task_keep; [done|done|done|done| |].
  - exists a. split_and!; [done|done|]. cbn. unfold gauge. cbn.
    pose proof (crew_phase _ _ _ (IdentityRegistry.bind uid id (l_identity (local (eng s)))) _ _ _ _ PhBindCheck Hid Hcr) as Hp. cbn [is_registered orb] in Hp. apply Hp.
    + apply no_idle_bind, Hcr.
    + by rewrite Hph.
    + intros v j. rewrite devices_bind, Hu. specialize (Hni v). case_decide as Hv; case_decide as Hj; subst; [set_solver|set_solver| |done].
      split; [done|]. intros [_ [= ->]]. done.
  - revert Had. apply (edges_swap s _ [] [(TUser uid, CheckUp)] (ops (set_tasks (delete id (tasks s)) s)) [TUser uid]); try done.
    + rewrite (ops_task s id tk Hid). unfold task_ops. by rewrite Hph.
    + change (ops (set_tasks (<[id := set_phase PhBindCheck tk]> (tasks s)) s) ≡ₚ [(TUser uid, CheckUp)] ++ ops (set_tasks (delete id (tasks s)) s)).
      rewrite ops_insert. unfold task_ops at 1. cbn [tk_phase set_phase tk_user]. by rewrite Hu.
    + intros _ tg r Hov He. rewrite kinds_cons. unfold edge_at in *. cbn [eng add_overlaps set_tasks set_eng closed_rooms] in *.
      change (advertises tg (bind_user id uid (eng s))) with (advertises tg (eng s)). change (kinds tg []) with (@nil EdgeOp) in *. cbn [app] in *. case_decide as Ht.
      * subst tg. rewrite (Hov (list_elem_of_here _ _)) in *. cbn [app]. eapply edge_grow; [| |exact He]; cbn [population bind_user local set_local set_identity l_identity]; rewrite devices_bind, decide_True by done.
        -- rewrite size_empty_iff. set_solver.
        -- intros Hlt Hz%size_empty_inv%leibniz_equiv. rewrite Hz, union_empty_r_L, size_singleton in Hlt. lia.
      * assert (Hp : population tg (local (bind_user id uid (eng s))) = population tg (local (eng s))); [|by rewrite Hp].
        destruct tg as [x|v]; [done|]. cbn. by rewrite devices_bind, decide_False by congruence.
Qed.

Lemma unbind_inv s id tk uid : tasks s !! id = Some tk -> tk_phase tk = PhUnbind -> tk_user tk = Some uid -> engine_inv s ->
  engine_inv (add_overlaps (overlaps s [TUser uid]) (set_tasks (<[id := set_phase PhUnbindCheck tk]> (tasks s)) (set_eng (unbind_user id uid (eng s)) s))).
Proof.
  intros Hid Hph Hu Hi. pose proof Hi as [(a & Hm & Hc & Hcr) _ Had]. apply task_keep; [done|done|done|done| |].
  - exists a. split_and!; [done|done|]. cbn. unfold gauge. cbn.
    pose proof (crew_phase _ _ _ (IdentityRegistry.unbind uid id (l_identity (local (eng s)))) _ _ _ _ PhUnbindCheck Hid Hcr) as Hp.
    rewrite Hph in Hp. cbn [is_registered orb negb] in Hp. apply Hp.
    + apply no_idle_unbind, Hcr.
    + done.
    + intros v j. rewrite devices_unbind, Hu. case_decide as Hv; case_decide as Hj; subst; [set_solver|set_solver| |done].
      split; [|by intros [? _]]. rewrite (cr_devices _ _ _ _ _ Hcr), Hid. intros (tk' & [= <-] & _ & E). congruence.
  - revert Had. apply (edges_swap s _ [] [(TUser uid, CheckDown)] (ops (set_tasks (delete id (tasks s)) s)) [TUser uid]); try done.
    + rewrite (ops_task s id tk Hid). unfold task_ops. by rewrite Hph.
    + change (ops (set_tasks (<[id := set_phase PhUnbindCheck tk]> (tasks s)) s) ≡ₚ [(TUser uid, CheckDown)] ++ ops (set_tasks (delete id (tasks s)) s)).
      rewrite ops_insert. unfold task_ops at 1. cbn [tk_phase set_phase tk_user]. by rewrite Hu.
    + intros _ tg r Hov He. rewrite kinds_cons. unfold edge_at in *. cbn [eng add_overlaps set_tasks set_eng closed_rooms] in *.
      change (advertises tg (unbind_user id uid (eng s))) with (advertises tg (eng s)). change (kinds tg []) with (@nil EdgeOp) in *. cbn [app] in *. case_decide as Ht.
      * subst tg. rewrite (Hov (list_elem_of_here _ _)) in *. cbn [app]. eapply edge_shrink; [|exact He]. cbn [population unbind_user local set_local set_identity l_identity].
        rewrite devices_unbind, decide_True by done. apply subseteq_size. set_solver.
      * assert (Hp : population tg (local (unbind_user id uid (eng s))) = population tg (local (eng s))); [|by rewrite Hp].
        destruct tg as [x|v]; [done|]. cbn. by rewrite devices_unbind, decide_False by congruence.
Qed.

Lemma kinds_rooms tg rs : NoDup rs ->
  kinds tg (map (fun r => (TRoom r, CheckDown)) rs) = match tg with TRoom r => if decide (r ∈ rs) then [CheckDown] else [] | TUser _ => [] end.
Proof.
  induction 1 as [|r rs Hr Hnd IH]; [destruct tg; [by rewrite decide_False by apply not_elem_of_nil|done]|].
  change (map (fun r => (TRoom r, CheckDown)) (r :: rs)) with ((TRoom r, CheckDown) :: map (fun r => (TRoom r, CheckDown)) rs).
  rewrite kinds_cons, IH. destruct tg as [x|u]; [|by rewrite decide_False]. destruct (decide (x = r)) as [->|Hne].
  - by rewrite decide_True, decide_False, decide_True by (done || apply list_elem_of_here).
  - rewrite decide_False by congruence. apply decide_ext. set_solver.
Qed.

(** [run_connection] returned: the entry and its memberships go. *)
Lemma remove_inv s id tk ph e : tasks s !! id = Some tk -> tk_phase tk = PhServe -> run_admitted_step id tk (eng s) = (ph, e) -> engine_inv s ->
  exists ph', ph = Some ph' /\
    engine_inv (add_overlaps (overlaps s (touched id tk (eng s))) (set_tasks (<[id := set_phase ph' tk]> (tasks s)) (set_eng e s))).
Proof.
  intros Hid Hph E Hi. pose proof Hi as [(a & Hm & Hc & Hcr) _ Had].
  destruct (proj2 (cr_tasks _ _ _ _ _ Hcr id (tk_user tk))) as [h Ho]; [exists tk; by rewrite Hph|].
  unfold owners in Ho. rewrite lookup_fmap in Ho. destruct (a !! id) as [[[h' rs] u]|] eqn:Ea; [|done]. cbn in Ho. simplify_eq.
  pose proof (m_dom _ _ Hm id (mk_is_Some _ _ Ea)) as Hu64.
  destruct (models_remove _ _ _ _ _ _ Hm Ea) as (conns & Er & _).
  destruct (disconnect_spec id _ _ a Hm Hc Hu64) as (conns' & rm' & Ed & Hm' & Hc').
  unfold RoomRegistry.disconnect in Ed. rewrite Er in Ed. injection Ed as <- <-.
  unfold run_admitted_step, touched in *. rewrite Hph in *. unfold remove_tables in *. rewrite Er in *.
  set (e1 := set_local _ (eng s)) in *.
  assert (Ecl : clustered e1 = clustered (eng s)) by done.
  set (ph' := if clustered e1 then PhRoomCheck (elements rs) else PhUnbind) in *.
  assert (Hb : is_registered ph' = false /\ is_bound ph' = true) by (subst ph'; by destruct (clustered e1)).
  assert (E' : ph = Some ph' /\ e = e1) by (destruct (tk_user tk); by simplify_eq). clear E. destruct E' as [-> ->].
  exists ph'. split; [done|].
  assert (Hadv : adverts (add_overlaps (overlaps s (map TRoom (elements rs))) (set_tasks (<[id := set_phase ph' tk]> (tasks s)) (set_eng e1 s)))).
  { revert Had. apply (edges_swap s _ [] (task_ops (set_phase ph' tk)) (ops (set_tasks (delete id (tasks s)) s)) (map TRoom (elements rs))); try done.
    - rewrite (ops_task s id tk Hid). unfold task_ops. by rewrite Hph.
    - exact (ops_insert s id (set_phase ph' tk)).
    - intros Hcl tg r Hov He. assert (Ec : clustered e1 = true) by (unfold clustered; cbn; by destruct Hcl as [? ->]).
      assert (Eo : task_ops (set_phase ph' tk) = map (fun r => (TRoom r, CheckDown)) (elements rs)) by (subst ph'; by rewrite Ec). rewrite Eo.
      rewrite kinds_rooms by apply NoDup_elements. unfold edge_at in *. cbn [eng add_overlaps set_tasks set_eng closed_rooms] in *.
      change (advertises tg e1) with (advertises tg (eng s)). change (kinds tg []) with (@nil EdgeOp) in *. cbn [app] in He, Hov.
      destruct tg as [x|u]; [|exact He]. destruct (disconnect_cleanup_spec id rs (l_rooms (local (eng s)))) as [Hmem _].
      cbn [population e1 local set_local set_members l_rooms]. rewrite Hmem. pose proof (elem_of_elements rs x) as Hel.
      destruct (decide (x ∈ elements rs)) as [Hin|Hni]; [|rewrite decide_False by (by rewrite <-Hel); exact He].
      rewrite decide_True by (by apply Hel). rewrite Hov in He |- * by (apply list_elem_of_fmap; by exists x).
      eapply edge_shrink; [|exact He]. apply subseteq_size. set_solver. }
  assert (Hk : engine_inv (add_overlaps (overlaps s (map TRoom (elements rs))) (set_tasks (<[id := set_phase ph' tk]> (tasks s)) (set_eng e1 s)))).
  { apply task_keep; [done|done|done|done| |exact Hadv]. exists (delete id a). split_and!; [exact Hm'|exact Hc'|]. cbn. unfold gauge. cbn.
    pose proof (crew_move _ _ _ _ _ _ _ ph' Hid Hcr) as Hp. rewrite Hph in Hp. destruct Hb as [Hb1 Hb2]. rewrite Hb1, Hb2 in Hp. cbn [is_registered is_bound orb negb] in Hp.
    unfold owners. rewrite fmap_delete. apply Hp; [done|by right]. }
  by destruct (tk_user tk).
Qed.

(** The end of the task. *)
Lemma finish_inv s id tk : 0 <= max_connections_per_ip (limits (config (eng s))) < 2 ^ 32 -> tasks s !! id = Some tk -> tk_phase tk = PhEnd -> engine_inv s ->
  engine_inv (add_overlaps [] (set_tasks (delete id (tasks s))
    (set_eng (drop_guard (tk_guard tk) (set_local (with_metrics (Metrics.sub Metrics.Connections 1) (local (eng s))) (eng s))) s))).
Proof.
  intros Hmax Hid Hph [(a & Hm & Hc & Hcr) Hl Had]. split; cbn [eng upgrades tasks add_overlaps set_tasks set_eng].
  - exists a. cbn. split_and!; [done|done|]. unfold gauge. cbn. rewrite metrics_get_sub, decide_True by done. by eapply crew_finish.
  - cbn. apply (drop_guard_ok _ _ (map Gate.au_guard (upgrades s)) (tk_guard tk)); [done|].
    eapply limiter_ok_perm; [|exact Hl]. by rewrite (guards_task _ _ _ Hid).
  - revert Had. apply (edges_swap s _ [] [] (ops (set_tasks (delete id (tasks s)) s)) []); try done.
    rewrite (ops_task s id tk Hid). unfold task_ops. by rewrite Hph.
Qed.

(** A task reads its user's device count, or sets the edge. *)
Lemma user_check_inv s id tk uid (up : bool) : tasks s !! id = Some tk -> tk_phase tk = (if up then PhBindCheck else PhUnbindCheck) ->
  tk_user tk = Some uid -> engine_inv s ->
  engine_inv (add_overlaps [] (set_tasks (<[id := set_phase
    (if clustered (eng s) && (IdentityRegistry.device_count uid (l_identity (local (eng s))) =? (if up then 1 else 0))%nat
     then (if up then PhBindSet else PhUnbindSet) else (if up then PhServe else PhEnd)) tk]> (tasks s)) (set_eng (eng s) s))).
Proof.
  intros Hid Hph Hu Hi. set (b := clustered _ && _).
  apply (task_publish s id tk _ (eng s) (TUser uid) (if up then CheckUp else CheckDown) (if b then Some (if up then SetUp else SetDown) else None) []); try done.
  - rewrite Hph. by destruct b, up.
  - rewrite Hph. by destruct b, up.
  - unfold task_ops. rewrite Hph, Hu. by destruct up.
  - unfold task_ops. cbn [set_phase tk_phase tk_user]. rewrite Hu. by destruct b, up.
  - intros Hc c r. destruct up; (eapply device_check_edge; [done|done|]); intros b'; [apply edge_check_up|apply edge_check_down].
Qed.

Lemma user_set_inv s id tk uid (up : bool) : tasks s !! id = Some tk -> tk_phase tk = (if up then PhBindSet else PhUnbindSet) ->
  tk_user tk = Some uid -> engine_inv s ->
  engine_inv (add_overlaps [] (set_tasks (<[id := set_phase (if up then PhServe else PhEnd) tk]> (tasks s))
    (set_eng (with_cluster (Cluster.set_user_interest uid up) (eng s)) s))).
Proof.
  intros Hid Hph Hu Hi. apply (task_publish s id tk _ _ (TUser uid) (if up then SetUp else SetDown) None []); try done.
  - rewrite Hph. by destruct up.
  - rewrite Hph. by destruct up.
  - unfold task_ops. rewrite Hph, Hu. by destruct up.
  - unfold task_ops. cbn [set_phase tk_phase tk_user]. by destruct up.
  - cbn. by rewrite fmap_is_Some.
  - intros Hc. apply (user_set_edge uid up s Hc).
  - intros Hc c r. apply (user_set_edge uid up s Hc).
Qed.

(** The same for the rooms it was in. *)
Lemma room_check_inv s id tk room todo : tasks s !! id = Some tk -> tk_phase tk = PhRoomCheck (room :: todo) -> engine_inv s ->
  engine_inv (add_overlaps [] (set_tasks (<[id := set_phase
    (if s_members (RoomRegistry.info room (l_rooms (local (eng s)))) =? 0 then PhRoomSet room todo else PhRoomCheck todo) tk]> (tasks s)) (set_eng (eng s) s))).
Proof.
  intros Hid Hph Hi. rewrite info_members. set (z := Z.of_nat _ =? 0).
  apply (task_publish s id tk _ (eng s) (TRoom room) CheckDown (if z then Some SetDown else None) (map (fun r => (TRoom r, CheckDown)) todo)); try done.
  - rewrite Hph. by destruct z.
  - rewrite Hph. by destruct z.
  - unfold task_ops. rewrite Hph. by destruct (tk_user tk).
  - unfold task_ops. cbn [set_phase tk_phase tk_user]. by destruct z, (tk_user tk).
  - intros Hc c r He%edge_check_down. cbn [population] in He |- *. subst z.
    by destruct (Z.eqb_spec (Z.of_nat (size (memb (l_rooms (local (eng s))) room))) 0), (Nat.eqb_spec (size (memb (l_rooms (local (eng s))) room)) 0); try lia.
Qed.

Lemma room_set_inv s id tk room todo : tasks s !! id = Some tk -> tk_phase tk = PhRoomSet room todo -> engine_inv s ->
  engine_inv (add_overlaps [] (set_tasks (<[id := set_phase (PhRoomCheck todo) tk]> (tasks s))
    (set_eng (with_cluster (Cluster.set_room_interest room false) (eng s)) s))).
Proof.
  intros Hid Hph Hi. apply (task_publish s id tk _ _ (TRoom room) SetDown None (map (fun r => (TRoom r, CheckDown)) todo)); rewrite ?Hph; try done.
  - unfold task_ops. rewrite Hph. by destruct (tk_user tk).
  - cbn. by rewrite fmap_is_Some.
  - intros Hc tg Hne. by rewrite advertises_room, decide_False by congruence.
  - intros Hc c r He. rewrite advertises_room, decide_True by done. eapply edge_set_down. exact He.
Qed.

Lemma run_admitted_step_inv s id tk ph e : 0 <= max_connections_per_ip (limits (config (eng s))) < 2 ^ 32 -> tasks s !! id = Some tk ->
  run_admitted_step id tk (eng s) = (ph, e) -> engine_inv s ->
  engine_inv (add_overlaps (overlaps s (touched id tk (eng s))) (set_tasks
    (match ph with Some ph => <[id := set_phase ph tk]> (tasks s) | None => delete id (tasks s) end) (set_eng e s))).
Proof.
  intros Hmax Hid E Hi.
  assert (Hquiet : forall ph, tk_user tk = None \/ is_bound ph = is_bound (tk_phase tk) -> is_registered ph = is_registered (tk_phase tk) ->
    task_ops tk = [] -> task_ops (set_phase ph tk) = [] ->
    engine_inv (add_overlaps [] (set_tasks (<[id := set_phase ph tk]> (tasks s)) (set_eng (eng s) s)))) by (intros; by apply task_silent).
  destruct (tk_phase tk) as [| | | |[|room todo]|room todo| | | |] eqn:Hph;
    try (destruct (remove_inv s id tk ph e Hid Hph E Hi) as (ph' & -> & Hk); exact Hk);
    unfold run_admitted_step, touched in *; rewrite Hph in *; destruct (tk_user tk) as [uid|] eqn:Hu; injection E as <- <-;
    try (apply Hquiet; [by auto|done|unfold task_ops; by rewrite Hph, ?Hu|unfold task_ops; cbn [set_phase tk_phase tk_user]; by rewrite ?Hu]);
    try (by apply room_check_inv); try (by apply room_set_inv); try (by apply finish_inv).
  - by apply bind_inv.
  - by apply (user_check_inv s id tk uid true).
  - by apply (user_set_inv s id tk uid true).
  - by apply unbind_inv.
  - by apply (user_check_inv s id tk uid false).
  - by apply (user_set_inv s id tk uid false).
Qed.

Lemma guard_inv s up1 up up2 : 0 <= max_connections_per_ip (limits (config (eng s))) < 2 ^ 32 -> engine_inv s -> upgrades s = up1 ++ up :: up2 ->
  engine_inv (set_upgrades (up1 ++ up2) (set_eng (drop_guard (Gate.au_guard up) (eng s)) s)).
Proof.
  intros Hmax [Ht Hl Had] Hup. split; [exact Ht| |exact Had]. cbn. rewrite Hup, map_app in Hl. cbn [map] in Hl. rewrite <-app_assoc in Hl.
  rewrite map_app, <-app_assoc. by apply drop_guard_ok.
Qed.

Lemma attach_inv s running registered peer headers url o up e :
  0 <= max_connections_per_ip (limits (config (eng s))) < 2 ^ 32 -> engine_inv s ->
  attach net_contains running registered peer headers url (eng s) = (o, up, e) ->
  engine_inv (set_upgrades (upgrades s ++ option_list up) (set_eng e s)).
Proof.
  intros Hmax Hi E. assert (Hnil : engine_inv (set_upgrades (upgrades s ++ []) (set_eng (eng s) s))) by (destruct s; by rewrite app_nil_r).
  unfold attach in E. destruct running; cbn in E; [|by simplify_eq]. destruct registered; cbn in E; [|by simplify_eq].
  destruct Hi as [Ht Hl Had]. unfold gate_admit, Gate.admit_upgrade in E. cbn [Gate.draining] in E. destruct (Gate.draining (gate (eng s))).
  - simplify_eq/=. rewrite app_nil_r. by split.
  - cbn zeta in E. set (ip := Gate.resolve_client_ip _ _ _ _) in E. cbn [Gate.limiter] in E.
    destruct (IpLimiter.try_admit ip (Gate.limiter (gate (eng s)))) as [r lm] eqn:Ea.
    destruct (try_admit_ok _ _ _ _ _ _ Hmax Hl Ea) as [Hl' _]. destruct r as [g|]; simplify_eq/=.
    + split; [exact Ht| |exact Had]. cbn. eapply limiter_ok_perm; [|exact Hl']. rewrite map_app, <-app_assoc. apply Permutation_middle.
    + rewrite app_nil_r. split; [|exact Hl'|exact Had]. cbn. unfold gauge. cbn. by rewrite metrics_get_add.
Qed.

Lemma task_step_config id tk e : config (run_admitted_step id tk e).2 = config e.
Proof.
  unfold run_admitted_step. destruct (tk_phase tk) as [| | | |[|room todo]|room todo| | | |], (tk_user tk); try done;
    unfold remove_tables; by destruct (Registry.remove_full _ _) as [[[h rs] conns]|].
Qed.

Lemma eng_step_config s s' : eng_step s s' -> config (eng s') = config (eng s).
Proof.
  intros [running registered peer headers url o up e E|? up ? _|? up ? ? ? _ _|? up ? res user_id rid h id e _ _ _ _ E _|id tk ph e _ E|
    id room change e _ E|id room change e _ E|? j ? ? e _ E|room|e E]; cbn; try done.
  - unfold attach, gate_admit in E. repeat break_match_hyp E; by simplify_eq/=.
  - unfold insert_conn in E. destruct (Registry.insert _ _ _) as [[id' conns]|]; [|done]. cbn [mbind option_bind] in E. by injection E as -> <-.
  - pose proof (task_step_config id tk (eng s)) as Hc. by rewrite E in Hc.
  - unfold join_tables in E. destruct (RoomRegistry.join _ _ _ _ _) as [[? ?] ?]. by injection E as _ <-.
  - unfold leave_tables in E. destruct (RoomRegistry.leave _ _ _ _) as [[? ?] ?]. by injection E as _ <-.
  - unfold command_step in E. repeat break_match_hyp E; by simplify_eq/=.
  - unfold admin_close_room. destruct (RoomRegistry.close_room _ _ _) as [[[?|] ?] ?]; done.
  - apply traffic_calm in E. by destruct E.
Qed.

Lemma eng_step_inv s s' : 0 <= max_connections_per_ip (limits (config (eng s))) < 2 ^ 32 -> eng_step s s' -> engine_inv s -> engine_inv s'.
Proof.
  intros Hmax Hst Hi. destruct Hst.
  - by eapply attach_inv.
  - by apply (guard_inv s up1).
  - by apply (guard_inv s up1).
  - by eapply open_inv.
  - by eapply run_admitted_step_inv.
  - by eapply join_inv.
  - by eapply leave_inv.
  - by eapply command_step_inv.
  - by apply close_room_inv.
  - apply inv_calm; [done|by apply traffic_calm].
Qed.

Lemma crew_nil : crew (owners (∅ : gmap Z (Z * gset RoomId * option UserId))) ∅ IdentityRegistry.new 0 ∅.
Proof.
  assert (Hno : forall id x, owners (∅ : gmap Z (Z * gset RoomId * option UserId)) !! id = Some x -> False).
  { intros id x. unfold owners. by rewrite lookup_fmap, lookup_empty. }
  split.
  - intros id u. rewrite lookup_empty. split; [by intros [h ?%Hno]|by intros (tk & ? & _)].
  - intros u id. rewrite lookup_empty. split; [cbn; set_solver|by intros (tk & ? & _)].
  - intros u x. unfold IdentityRegistry.new. by rewrite lookup_empty.
  - by rewrite map_size_empty.
  - by intros id h u ?%Hno.
  - by intros i j h u v ?%Hno.
Qed.

Lemma limiter_new max : 0 <= max -> limiter_ok max (IpLimiter.new max) [].
Proof.
  intros Hm. split; [done|done|]. intros _. split; cbn; try done.
Qed.

Lemma start_inv cfg mesh e :
  start parse_net cfg mesh = inl e -> 0 <= max_connections_per_ip (limits cfg) < 2 ^ 32 -> (forall m tg, mesh = Some m -> mesh_hosts tg m = false) ->
  config e = cfg /\ engine_inv (sys_start e).
Proof.
  unfold start. intros E Hmax Hm. destruct (validate parse_net cfg); [done|]. destruct (from_trust_proxy parse_net (trust_proxy cfg)); [|done].
  injection E as <-. split; [done|]. split; cbn.
  - exists ∅. split; [apply models_new|]. split; [split; [intros id r; cbn; set_solver|intros r x; unfold RoomRegistry.new; by rewrite lookup_empty]|]. rewrite dom_empty_L. apply crew_nil.
  - unfold task_guards. rewrite map_to_list_empty. apply limiter_new. lia.
  - intros _ tg _. unfold edge_at, pending, ops. cbn [tasks jobs sys_start]. rewrite map_to_list_empty. cbn.
    assert (Hp : forall rm users, rm = RoomRegistry.new -> users = IdentityRegistry.new ->
      population tg {| l_conns := Registry.new; l_store := ∅; l_rooms := rm; l_identity := users; l_metrics := Metrics.default |} = 0%nat) by (intros ? ? -> ->; by destruct tg).
    rewrite Hp by done. split; [done|]. unfold advertises. cbn.
    destruct (Config.cluster cfg), mesh as [m|]; try done. cbn. by rewrite (Hm m).
Qed.

(** With no task left the tables are empty. *)
Lemma no_tasks_empty s : engine_inv s -> tasks s = ∅ -> upgrades s = [] ->
  Registry.is_empty (l_conns (local (eng s))) = true /\ l_rooms (local (eng s)) = ∅ /\ l_identity (local (eng s)) = ∅ /\ tracked_ips (eng s) = 0.
Proof.
  intros [(a & Hm & Hc & Hcr) Hl _] Ht Hu. rewrite Ht, Hu in *. destruct (local (eng s)) as [conns store rm users m]. cbn in *.
  assert (Ha : a = ∅).
  { apply map_eq. intros id. rewrite lookup_empty. destruct (a !! id) as [[[h rs] u]|] eqn:E; [|done].
    destruct (proj1 (cr_tasks _ _ _ _ _ Hcr id u)) as (tk & Htk & _); [|by rewrite lookup_empty in Htk]. exists h. unfold owners. by rewrite lookup_fmap, E. }
  subst a. split_and!.
  - unfold Registry.is_empty. pose proof (Permutation_length (models_entries _ _ Hm)) as E. rewrite length_map, length_entries, map_to_list_empty in E. by rewrite E.
  - apply map_eq. intros r. rewrite lookup_empty. apply memb_None; [apply Hc|]. apply set_eq. intros j. rewrite (c_both _ _ Hc). cbn. set_solver.
  - apply map_eq. intros u. rewrite lookup_empty. destruct (users !! u) as [ds|] eqn:E; [|done]. exfalso.
    apply (cr_idle _ _ _ _ _ Hcr u ds E). apply set_eq. intros j. split; [|set_solver]. intros Hj.
    destruct (proj1 (cr_devices _ _ _ _ _ Hcr u j)) as (tk & Htk & _); [unfold devices; by rewrite E|]. by rewrite lookup_empty in Htk.
  - unfold tracked_ips, IpLimiter.tracked_ips. set (lm := Gate.limiter _) in *. assert (E : IpLimiter.counts lm = ∅); [|by rewrite E].
    destruct Hl as [Hmx Hf Hi]. destruct (decide (max_connections_per_ip (limits (config (eng s))) = 0)) as [Hz|Hz]; [by apply Hf|].
    destruct (Hi Hz) as [_ Hcount _ Hzero]. apply map_eq. intros ip. rewrite lookup_empty. destruct (IpLimiter.counts lm !! ip) as [n|] eqn:En; [|done]. exfalso.
    pose proof (Hcount ip) as Hn. unfold IpLimiter.current in Hn. cbn in Hn. rewrite En in Hn. cbn in Hn. subst n. by apply (Hzero ip), not_elem_of_nil in En.
Qed.

Lemma inv_handles s : engine_inv s -> handles_ok (local (eng s)).
Proof.
  intros [(a & Hm & _ & Hcr) _ _].
  assert (Hget : forall (id : ConnectionId) h, u64_ok id -> Registry.get id (l_conns (local (eng s))) = Some h -> exists u, owners a !! id = Some (h, u)).
  { intros id h Hid (en & Hen & ->)%fmap_Some. exists (Registry.user en). unfold owners. rewrite lookup_fmap, (m_find _ _ Hm id Hid), Hen. done. }
  split.
  - intros id h Hid Hg. destruct (Hget id h Hid Hg) as [u Hu]. apply elem_of_dom. by eapply (cr_store _ _ _ _ _ Hcr).
  - intros i j h Hi Hj Hgi Hgj. destruct (Hget i h Hi Hgi) as [u Hu], (Hget j h Hj Hgj) as [v Hv]. by eapply (cr_inj _ _ _ _ _ Hcr).
Qed.

Lemma reachable_inv cfg mesh e0 s :
  start parse_net cfg mesh = inl e0 -> 0 <= max_connections_per_ip (limits cfg) < 2 ^ 32 ->
  (forall m tg, mesh = Some m -> mesh_hosts tg m = false) -> rtc eng_step (sys_start e0) s ->
  config (eng s) = cfg /\ engine_inv s.
Proof.
  intros Hst Hmax Hm. destruct (start_inv cfg mesh e0 Hst Hmax Hm) as [Hcfg H0].
  apply (rtc_ind_r (fun s => config (eng s) = cfg /\ engine_inv s)); [done|]. intros s1 s2 _ Hstep [Hc1 Hi1].
  split; [by rewrite (eng_step_config _ _ Hstep)|]. eapply eng_step_inv; [by rewrite Hc1|done..].
Qed.

(** Without a cluster there is no edge to set. *)
Lemma with_cluster_none f e : clustered e = false -> with_cluster f e = e.
Proof. unfold clustered, with_cluster. by destruct e as [? ? ? []]. Qed.
Lemma unclustered_skip e b f : clustered e && b = false -> when_cluster b f e = e.
Proof. destruct b; [|done]. rewrite andb_true_r. apply with_cluster_none. Qed.
Lemma withdraw_unclustered rs e : clustered e = false -> withdraw_rooms rs e = e.
Proof.
  intros Hc. unfold withdraw_rooms. induction rs as [|r rs IH]; [done|]. cbn [foldl]. rewrite unclustered_skip; [done|]. by rewrite Hc.
Qed.

(** What follows the table step of a command, run to its end. *)
Lemma command_rest s (up : bool) change room e :
  rtc eng_step (add_overlaps (overlaps s (changed change room)) (set_jobs (command_job up change room e ++ jobs s) (set_eng e s)))
    (add_overlaps (overlaps s (changed change room))
      (set_eng (when_cluster (bool_decide (change = Changed) && (s_members (RoomRegistry.info room (l_rooms (local e))) =? (if up then 1 else 0)))
        (Cluster.set_room_interest room up) e) s)).
Proof.
  set (b := s_members _ =? _). unfold command_job. destruct (clustered e && bool_decide (change = Changed)) eqn:Eb.
  - apply andb_prop in Eb as [Ec ->]. cbn [andb].
    set (s1 := add_overlaps _ _). set (j := {| j_room := room; j_up := up; j_set := false |}).
    destruct b eqn:Ez.
    + eapply rtc_l; [apply (ECommand s1 [] j (jobs s) (Some {| j_room := room; j_up := up; j_set := true |}) e); [done|unfold command_step; cbn; fold b; by rewrite Ez]|].
      eapply rtc_l; [|apply rtc_refl]. subst s1. cbn [option_list app].
      exact (ECommand (set_jobs ({| j_room := room; j_up := up; j_set := true |} :: jobs s) (set_eng e (add_overlaps (overlaps s (changed change room)) s)))
        [] _ (jobs s) None _ eq_refl eq_refl).
    + eapply rtc_l; [|apply rtc_refl]. subst s1. cbn [when_cluster].
      exact (ECommand (add_overlaps (overlaps s (changed change room)) (set_jobs (j :: jobs s) (set_eng e s))) [] j (jobs s) None e eq_refl
        ltac:(unfold command_step; cbn; fold b; by rewrite Ez)).
  - cbn [app]. rewrite unclustered_skip; [by destruct s|]. destruct (clustered e), (bool_decide _); done.
Qed.


(** *** Whole operations *)

(** A command run without interruption: its table step and what follows. *)
Lemma join_steps s id room : u64_ok id ->
  rtc eng_step s (add_overlaps (overlaps s (changed (join id room (eng s)).1 room)) (set_eng (join id room (eng s)).2 s)).
Proof.
  intros Hid. unfold join. destruct (join_tables id room (eng s)) as [change e] eqn:E. cbn [fst snd].
  eapply rtc_l; [by apply (EJoin s id room change e)|]. apply (command_rest s true change room e).
Qed.
Lemma leave_steps s id room : u64_ok id ->
  rtc eng_step s (add_overlaps (overlaps s (changed (leave id room (eng s)).1 room)) (set_eng (leave id room (eng s)).2 s)).
Proof.
  intros Hid. unfold leave. destruct (leave_tables id room (eng s)) as [change e] eqn:E. cbn [fst snd].
  eapply rtc_l; [by apply (ELeave s id room change e)|]. apply (command_rest s false change room e).
Qed.

(** A task that runs alone for [n] steps. *)
Fixpoint run_alone (n : nat) (id : ConnectionId) (tk : Task) e : option Task * Engine.t SL Ch M Net :=
  match n with
  | O => (Some tk, e)
  | S n => match run_admitted_step id tk e with (Some ph, e) => run_alone n id (set_phase ph tk) e | (None, e) => (None, e) end
  end.

Lemma run_alone_add n m id tk e tk' e' : run_alone n id tk e = (Some tk', e') -> run_alone (n + m) id tk e = run_alone m id tk' e'.
Proof.
  revert tk e. induction n as [|n IH]; intros tk e; cbn [run_alone Nat.add]; [by intros [= -> ->]|].
  destruct (run_admitted_step id tk e) as [[ph|] e1]; [apply IH|done].
Qed.

(** Run alone, the opening is [open_connection] and the end [close_out]. *)
Lemma open_alone h user_id g e id e' : open_connection h user_id e = Some (id, e') ->
  exists e1 n, insert_conn h user_id e = Some (id, e1) /\
    run_alone n id {| tk_user := user_id; tk_guard := g; tk_phase := PhBind |} e1 = (Some {| tk_user := user_id; tk_guard := g; tk_phase := PhServe |}, e').
Proof.
  unfold open_connection. destruct (insert_conn h user_id e) as [[id1 e1]|]; [|done]. cbn [mbind option_bind]. intros [= <- <-]. exists e1.
  destruct user_id as [uid|]; [|by exists 1%nat]. set (e2 := bind_user id1 uid e1). unfold advertise_user.
  destruct (clustered e2 && (IdentityRegistry.device_count uid (l_identity (local e2)) =? 1)%nat) eqn:Eb.
  - exists 3%nat. split; [done|]. cbn [run_alone run_admitted_step tk_phase tk_user set_phase]. fold e2. rewrite Eb. clearbody e2. cbn. by apply andb_prop in Eb as [_ ->].
  - exists 2%nat. split; [done|]. cbn [run_alone run_admitted_step tk_phase tk_user set_phase]. fold e2. rewrite Eb. clearbody e2. cbn.
    by rewrite (unclustered_skip e2 _ _ Eb).
Qed.

Lemma rooms_alone id tk todo e : clustered e = true -> exists n,
  run_alone n id (set_phase (PhRoomCheck todo) tk) e = (Some (set_phase (PhRoomCheck []) tk), withdraw_rooms todo e).
Proof.
  revert e. induction todo as [|room todo IH]; intros e Hc; [by exists 0%nat|]. unfold withdraw_rooms. cbn [foldl].
  set (z := s_members (RoomRegistry.info room (l_rooms (local e))) =? 0).
  destruct (IH (when_cluster z (Cluster.set_room_interest room false) e)) as [n Hn].
  { unfold clustered in *. destruct z; [|done]. cbn. by destruct (cluster e). }
  destruct z eqn:Ez.
  - exists (S (S n)). cbn [run_alone run_admitted_step tk_phase tk_user set_phase]. fold z. rewrite Ez. cbn [tk_phase set_phase]. exact Hn.
  - exists (S n). cbn [run_alone run_admitted_step tk_phase tk_user set_phase]. fold z. rewrite Ez. exact Hn.
Qed.

Lemma close_alone id user_id g e : exists n,
  run_alone n id {| tk_user := user_id; tk_guard := g; tk_phase := PhServe |} e = (None, drop_guard g (close_out id user_id e)).
Proof.
  set (tk := {| tk_user := user_id; tk_guard := g; tk_phase := PhServe |}).
  assert (H1 : exists n, run_alone n id tk e = (Some (set_phase PhUnbind tk), remove_conn id e)).
  { unfold remove_conn. destruct (remove_tables id e) as [[joined e1]|] eqn:Er.
    - destruct (clustered e1) eqn:Ec.
      + destruct (rooms_alone id tk (elements joined) e1 Ec) as [n Hn]. exists (S (n + 1)). cbn [run_alone run_admitted_step tk_phase tk_user tk]. rewrite Er, Ec. fold tk.
        rewrite (run_alone_add _ _ _ _ _ _ _ Hn). done.
      + exists 1%nat. cbn [run_alone run_admitted_step tk_phase tk_user tk]. rewrite Er, Ec. by rewrite withdraw_unclustered.
    - exists 1%nat. cbn [run_alone run_admitted_step tk_phase tk_user tk]. by rewrite Er. }
  destruct H1 as [n1 H1]. set (e1 := remove_conn id e) in *.
  assert (H2 : exists n, run_alone n id (set_phase PhUnbind tk) e1 =
    (Some (set_phase PhEnd tk), match user_id with Some uid => withdraw_user uid (unbind_user id uid e1) | None => e1 end)).
  { destruct user_id as [uid|]; [|by exists 1%nat]. set (e2 := unbind_user id uid e1). unfold withdraw_user.
    destruct (clustered e2 && (IdentityRegistry.device_count uid (l_identity (local e2)) =? 0)%nat) eqn:Eb.
    - exists 3%nat. cbn [run_alone run_admitted_step tk_phase tk_user set_phase tk]. fold e2. rewrite Eb. clearbody e2. cbn. by apply andb_prop in Eb as [_ ->].
    - exists 2%nat. cbn [run_alone run_admitted_step tk_phase tk_user set_phase tk]. fold e2. rewrite Eb. clearbody e2. cbn. by rewrite (unclustered_skip e2 _ _ Eb). }
  destruct H2 as [n2 H2]. exists (n1 + (n2 + 1))%nat. rewrite (run_alone_add _ _ _ _ _ _ _ H1), (run_alone_add _ _ _ _ _ _ _ H2). done.
Qed.

(** *** The backpressure report *)

#[global] Instance ByDepth_ranking : Ranking ByDepth_cmp.
Proof.
  split; unfold ByDepth_cmp.
  - intros a b. rewrite (Z.compare_antisym (depth_bytes a)), (Z.compare_antisym (ms_id b)). by destruct (depth_bytes a ?= _), (ms_id b ?= _).
  - intros a b c. destruct (Z.compare_spec (depth_bytes a) (depth_bytes b)), (Z.compare_spec (depth_bytes b) (depth_bytes c)),
      (Z.compare_spec (depth_bytes a) (depth_bytes c)); try done; try lia; intros ? ? ?%Z.compare_lt_iff; rewrite Z.compare_lt_iff in *; lia.
Qed.

(** The report lists the [n] deepest queues of the live connections, deepest
    first, smaller id first among equals. *)
Lemma backpressure_report_exact n e : Registry.wf (l_conns (local e)) ->
  mailboxes (backpressure_report n e) = take n (sort_desc ByDepth_cmp (mailbox_stats e)) /\
  StronglySorted (ranks_ge ByDepth_cmp) (mailboxes (backpressure_report n e)) /\
  NoDup (map ms_id (mailbox_stats e)).
Proof.
  intros Hwf. assert (Hnd : NoDup (map ms_id (mailbox_stats e))).
  { unfold mailbox_stats, Registry.handles_with_user. rewrite !map_map. erewrite map_ext; [apply (entries_NoDup _ Hwf)|]. by intros [id en]. }
  assert (E : mailboxes (backpressure_report n e) = take n (sort_desc ByDepth_cmp (mailbox_stats e))).
  { apply top_n_prefix; [apply _|]. intros a b Ha Hb Heq. apply list_elem_of_lookup in Ha as [i Hi], Hb as [j Hj].
    assert (Hid : ms_id a = ms_id b) by (unfold ByDepth_cmp in Heq; destruct (_ ?= depth_bytes b); [by apply Z.compare_eq in Heq|done..]).
    assert (i = j) as ->; [|congruence]. eapply NoDup_lookup; [exact Hnd| |]; rewrite list_lookup_fmap; [by rewrite Hi|by rewrite Hj, Hid]. }
  split_and!; [done| |done]. rewrite E. pose proof (sort_desc_sorted ByDepth_cmp (mailbox_stats e)) as Hs.
  rewrite <-(take_drop n (sort_desc _ _)) in Hs. by apply StronglySorted_app in Hs as (_ & Hs & _).
Qed.

(** *** Draining *)

Lemma close_handle_store h code reason g l h' :
  l_store (close_handle h code reason g l) !! h' =
    if decide (h' = h) then Connection.initiate_close code reason g <$> l_store l !! h else l_store l !! h'.
Proof.
  unfold close_handle. destruct (l_store l !! h) as [c|] eqn:E; cbn.
  - rewrite lookup_insert. case_decide as Hh; [by rewrite decide_True|by rewrite decide_False by congruence].
  - case_decide; [by subst|done].
Qed.

(** The sweep latches a close on every registered connection. *)
Lemma close_all_latches code reason g l id h c :
  (id, h) ∈ Registry.handles (l_conns l) -> l_store l !! h = Some c ->
  exists c', l_store (close_all code reason g l) !! h = Some c' /\ Connection.close c' <> None.
Proof.
  unfold close_all. generalize (Registry.handles (l_conns l)). intros hs Hin Hc.
  assert (Hg : forall (hs : list (Z * Z)) l, (exists c, l_store l !! h = Some c /\ (Connection.close c <> None \/ h ∈ hs.*2)) ->
    exists c', l_store (foldl (fun l '(_, h) => close_handle h code reason g l) l hs) !! h = Some c' /\ Connection.close c' <> None).
  { clear. induction hs as [|[j h0] hs IH]; intros l (c & Hc & Hor); cbn [foldl].
    - exists c. split; [done|]. destruct Hor as [|Hin]; [done|by apply not_elem_of_nil in Hin].
    - apply IH. rewrite close_handle_store. destruct (decide (h = h0)) as [->|Hne].
      + rewrite Hc. eexists. split; [done|]. left. apply initiate_close_latched.
      + exists c. split; [done|]. destruct Hor as [|Hin]; [by left|right]. cbn in Hin. set_solver. }
  apply Hg. exists c. split; [done|]. right. apply list_elem_of_fmap. by exists (id, h).
Qed.

(** From the first phase of [close] on, no upgrade is admitted. *)
Lemma draining_rejects peer headers url e :
  exists e', attach net_contains true true peer headers url (close_begin e) = (Rejected HTTP_SERVICE_UNAVAILABLE, None, e') /\ local e' = local (close_begin e).
Proof. eexists. split; [reflexivity|]. unfold with_metrics. cbn. by destruct (close_all _ _ _ _). Qed.

(** An upgrade that was admitted before the drain began and opens after the sweep
    is not asked to close: its latch is empty until the timeout's forced sweep. *)
Lemma late_open_not_asked h user_id e id e' : open_connection h user_id (close_begin e) = Some (id, e') ->
  exists c, l_store (local e') !! h = Some c /\ Connection.close c = None.
Proof.
  unfold open_connection, insert_conn. destruct (Registry.insert _ _ _) as [[id' conns]|]; [|done]. cbn [mbind option_bind]. intros [= <- <-].
  exists (Connection.fresh (backpressure (config e))). split; [|done]. destruct user_id; [unfold advertise_user; rewrite when_cluster_local|]; cbn; by rewrite lookup_insert_eq.
Qed.

End EngineRun.

Section EngineWitness.
Import Engine.

Definition demo_config : Config :=
  {| limits := {| max_payload_bytes := 1024; max_connections_per_ip := 2; max_rooms_per_connection := 4 |};
     backpressure := Backpressure_default; keepalive := Keepalive_default; trust_proxy := Never; authorize := Authorize_default;
     observability := Observability_default;
     Config.cluster := Some {| cc_node_id := 1; cc_listen := {| ip := V4 1; port := 7001 |}; cc_seeds := []; cc_secret := str "s"; cc_cluster_name := str "c" |} |}.
Definition demo_parse (s : rstring) : (Z * Z) + rstring := inr s.
Definition demo_engine : Engine.t VecSlab.t ListChan.t (MeshNode.t bool) (Z * Z) := fresh demo_config PeerOnly (Some demo_node).

(** One upgrade is admitted and opened for user [u]. *)
Definition demo_attach := attach demo_contains true true (V4 7) [] (str "/") demo_engine.
Definition demo_up : Gate.AdmittedUpgrade :=
  default {| Gate.au_client_ip := V4 0; Gate.au_headers := []; Gate.au_url := []; Gate.au_guard := {| IpLimiter.holds := false; IpLimiter.client_ip := V4 0 |} |} demo_attach.1.2.
Definition demo_open : ConnectionId * Engine.t VecSlab.t ListChan.t (MeshNode.t bool) (Z * Z) :=
  default (0, demo_attach.2) (open_connection 0 (Some (str "u")) demo_attach.2).
Definition demo_ins : ConnectionId * Engine.t VecSlab.t ListChan.t (MeshNode.t bool) (Z * Z) :=
  default (0, demo_attach.2) (insert_conn 0 (Some (str "u")) demo_attach.2).
Definition demo_task (ph : Phase) : Task := {| tk_user := Some (str "u"); tk_guard := Gate.au_guard demo_up; tk_phase := ph |}.
Definition demo_at (e : Engine.t VecSlab.t ListChan.t (MeshNode.t bool) (Z * Z)) (ph : Phase) : Sys :=
  {| eng := e; upgrades := []; tasks := {[demo_open.1 := demo_task ph]}; jobs := []; closed_rooms := ∅; overlapped := [] |}.
Definition demo_sys : Sys := demo_at demo_open.2 PhServe.

Lemma demo_task_step e ph e' ph' : run_admitted_step demo_open.1 (demo_task ph) e = (Some ph', e') ->
  overlaps (demo_at e ph) (touched demo_open.1 (demo_task ph) e) = [] -> eng_step demo_contains (demo_at e ph) (demo_at e' ph').
Proof.
  intros E Ho. pose proof (ETask demo_contains (demo_at e ph) demo_open.1 (demo_task ph) (Some ph') e' (lookup_singleton_eq _ _) E) as Hs.
  cbn [eng demo_at] in Hs. rewrite Ho in Hs. unfold set_tasks, add_overlaps, set_eng, demo_at in Hs. cbn in Hs. by rewrite insert_singleton_eq in Hs.
Qed.

Lemma demo_engine_run : rtc (eng_step demo_contains) (sys_start demo_engine) demo_sys.
Proof.
  eapply rtc_l; [apply (EAttach _ _ true true (V4 7) [] (str "/") Accepted (Some demo_up) demo_attach.2); vm_compute; reflexivity|].
  transitivity (demo_at demo_ins.2 PhBind).
  - apply rtc_once. apply (EOpen demo_contains (set_upgrades ([] ++ [demo_up]) (set_eng demo_attach.2 (sys_start demo_engine))) [] demo_up [] (Some (AuthAccept (Some (str "u")) 7))
      (Some (str "u")) (Some 7) 0 demo_open.1 demo_ins.2); [reflexivity|reflexivity|vm_compute; reflexivity| |vm_compute; reflexivity|].
    + intros i sh Hi. apply Z.le_lt_trans with 0; [|done]. exact (slots_le_new i sh Hi).
    + intros tk. cbn. by rewrite lookup_empty.
  - eapply rtc_l; [apply (demo_task_step demo_ins.2 PhBind (bind_user demo_open.1 (str "u") demo_ins.2) PhBindCheck); vm_compute; reflexivity|].
    eapply rtc_l; [apply (demo_task_step _ PhBindCheck (bind_user demo_open.1 (str "u") demo_ins.2) PhBindSet); vm_compute; reflexivity|].
    apply rtc_once. apply (demo_task_step _ PhBindSet demo_open.2 PhServe); vm_compute; reflexivity.
Qed.


(** Closing a room leaves its interest edge advertised: no code path of
    [admin_close_room] withdraws it. *)
Definition demo_joined := (join demo_open.1 (str "r") demo_open.2).2.
Lemma closed_room_still_advertised :
  let e := (admin_close_room (str "r") demo_joined).2 in
  advertises (TRoom (str "r")) demo_joined = true /\ memb (l_rooms (local e)) (str "r") = ∅ /\ advertises (TRoom (str "r")) e = true.
Proof. vm_compute. done. Qed.

(** Two devices of one user opening at once on two threads: both bind before
    either counts the devices, so neither sees the first device and the user is
    never advertised. *)
Lemma concurrent_first_devices_unadvertised :
  let step1 := default (0, demo_engine) (insert_conn 0 (Some (str "u")) demo_engine) in
  let step2 := default (0, step1.2) (insert_conn 1 (Some (str "u")) step1.2) in
  let is_bound := bind_user step2.1 (str "u") (bind_user step1.1 (str "u") step2.2) in
  let e := advertise_user (str "u") (advertise_user (str "u") is_bound) in
  size (devices (l_identity (local e)) (str "u")) = 2%nat /\ advertises (TUser (str "u")) e = false.
Proof. vm_compute. done. Qed.

(** The end of a room's last member races with a join by another connection:
    the task finds the room empty, the join makes it non-empty and advertises
    it, and then the task withdraws the edge of a room that is hosted. *)
Lemma withdraw_races_join :
  let '(id2, e1) := default (0, demo_joined) (open_connection 1 None demo_joined) in
  match Registry.remove_full demo_open.1 (l_conns (local e1)) with
  | Some ((_, joined), conns) =>
      let e2 := set_local (set_members conns (RoomRegistry.disconnect_cleanup demo_open.1 joined (l_rooms (local e1))) (local e1)) e1 in
      let empty := s_members (RoomRegistry.info (str "r") (l_rooms (local e2))) =? 0 in
      let e3 := (join id2 (str "r") e2).2 in
      let e4 := when_cluster empty (Cluster.set_room_interest (str "r") false) e3 in
      memb (l_rooms (local e4)) (str "r") <> ∅ /\ advertises (TRoom (str "r")) e4 = false
  | None => False
  end.
Proof. vm_compute. done. Qed.

End EngineWitness.
