(* ===== verification/EndToEnd.v ===== *)
(** * A broadcast across two nodes (crates/core/src/cluster.rs, crates/mesh/src/node.rs, link.rs)

    How the parts meet: [Cluster::start] wires the mesh node's relay handler to the
    local tables, and the hooks of a link wire its reader to the mesh node.  With
    them a targeting verb on one engine is followed through its mesh node, its
    link, the bytes on the wire and the other node's reader to the fan-out there. *)

From S2P Require Import Prelude Wire Ids Runtime Config Metrics Mailbox Registry Events Connection Rooms Limits Identity Broadcast Frame Handshake PeerQueue Link Swim MeshWire MembershipSync Interest MeshNode MeshRun Cluster Engine.

(** [Cluster::start]: the node it builds, once the mesh has bound its address. *)
Definition mesh_config (cfg : ClusterConfig) : MeshConfig :=
  let c := MeshConfig_new (cc_node_id cfg) (cc_listen cfg) (cc_secret cfg) in
  {| mc_node_id := mc_node_id c; mc_listen := mc_listen c; mc_seeds := cc_seeds cfg; mc_secret := mc_secret c;
     mc_cluster_name := cc_cluster_name cfg; mc_params := tuned; mc_routing := mc_routing c |}.
Definition cluster_start {N : Type} `{Notify N} (cfg : ClusterConfig) (bound : SocketAddr) (seed : Z) : Cluster.t (MeshNode.t N) :=
  {| Cluster.node := MeshNode.start_with_relay (mesh_config cfg) bound seed true; Cluster.self_node_id := cc_node_id cfg;
     Cluster.relay := RelayCounters_default |}.

Section EndToEnd.
Context {SL : Type -> Type} {slab_ops : Slab SL} {Ch : Type -> Type} {mpsc_ops : Mpsc Ch}.
Context {N : Type} `{Notify N} {Net : Type}.
Import Engine.
Abbreviation Node := (Engine.t SL Ch (MeshNode.t N) Net).
Implicit Types (e : Node).

Definition with_node (n : MeshNode.t N) (c : Cluster.t (MeshNode.t N)) : Cluster.t (MeshNode.t N) :=
  {| Cluster.node := n; Cluster.self_node_id := Cluster.self_node_id c; Cluster.relay := Cluster.relay c |}.
Definition with_relay (r : RelayCounters) (c : Cluster.t (MeshNode.t N)) : Cluster.t (MeshNode.t N) :=
  {| Cluster.node := Cluster.node c; Cluster.self_node_id := Cluster.self_node_id c; Cluster.relay := r |}.

(** The relay handler [Cluster::start] registers. *)
Definition relay_handler (call : RelayCall) e : Node :=
  match cluster e with
  | None => e
  | Some c =>
      let '(rc, l) := deliver_local (Cluster.self_node_id c) (rc_kind call) (rc_binary call) (rc_body call) (Cluster.relay c) (local e) in
      set_cluster (Some (with_relay rc c)) (set_local l e)
  end.

(** The reader task of the link [h] at one end, with the relay handler its mesh
    node calls. *)
Definition receive_tick (h now : Z) (rd : Stream) e : Stream * Node :=
  match cluster e with
  | None => (rd, e)
  | Some c =>
      let '(relays, rd, n) := reader_tick h now rd (Cluster.node c) in
      (rd, foldl (fun e call => relay_handler call e) (set_cluster (Some (with_node n c)) e) relays)
  end.
Fixpoint receive (h : Z) (nows : list Z) (rd : Stream) e : Stream * Node :=
  match nows with
  | [] => (rd, e)
  | now :: nows => let '(rd, e) := receive_tick h now rd e in receive h nows rd e
  end.

(** The three broadcast verbs. *)
Definition verb (v : FanoutTarget) (payload : bytes) (b : bool) (except : list ConnectionId) (remote : list NodeConnId) e : FanoutReport * Node :=
  match v with
  | Room room => broadcast_room room payload b except remote e
  | User user => broadcast_user user payload b except remote e
  | All => broadcast_all payload b except remote e
  end.
Definition relay_target (v : FanoutTarget) (es : list NodeConnId) : RelayTarget :=
  match v with Room room => RtRoom room es | User user => RtUser user es | All => RtAll es end.

(** The frame a verb relays. *)
Definition relayed (v : FanoutTarget) (payload : bytes) (b : bool) (es : list NodeConnId) : Frame.t :=
  Frame.with_flags (frame_kind (rt_kind (relay_target v es))) (if b then FLAGS_BINARY else 0) (rt_meta (relay_target v es) ++ payload).

(** What routing reads of a cluster, and the links a target is routed to. *)
Definition same_routes (c c' : Cluster.t (MeshNode.t N)) : Prop :=
  Cluster.self_node_id c' = Cluster.self_node_id c /\ MeshNode.membership (Cluster.node c') = MeshNode.membership (Cluster.node c) /\
  MeshNode.interest (Cluster.node c') = MeshNode.interest (Cluster.node c) /\ MeshNode.links (Cluster.node c') = MeshNode.links (Cluster.node c).
Definition routed_to (h : Z) (t : RelayTarget) (c : Cluster.t (MeshNode.t N)) : Prop :=
  Some h ∈ map (fun p => MeshNode.links (Cluster.node c) !! p) (rt_peers t c).
#[local] Instance routed_to_dec h t c : Decision (routed_to h t c) := ltac:(unfold routed_to; apply _).

Lemma verb_eq v payload b except remote e :
  verb v payload b except remote e =
    let '(report, l) := broadcast v payload b except (local e) in
    (report, with_cluster (fun c => relay_verb (relay_target v (relay_excepts except remote c)) payload b c) (set_local l e)).
Proof. by destruct v. Qed.

(** Exclusions of the sending node mean nothing on another one. *)
Lemma excepts_for_other self other except remote : self <> other ->
  excepts_for other (node_excepts self except ++ remote) = excepts_for other remote.
Proof.
  intros Hne. unfold excepts_for, node_excepts. rewrite filter_app. replace (filter _ (map _ except)) with (@nil NodeConnId); [done|].
  symmetry. induction except as [|id except IH]; [done|]. cbn [map]. by rewrite filter_cons_False.
Qed.

(** Relaying reaches the links of the routed peers and leaves the routes alone. *)
Lemma relay_verb_store t payload b (c : Cluster.t (MeshNode.t N)) : node_wf (Cluster.node c) ->
  same_routes c (relay_verb t payload b c) /\ node_wf (Cluster.node (relay_verb t payload b c)) /\
  forall h, MeshNode.store (Cluster.node (relay_verb t payload b c)) !! h =
    if decide (routed_to h t c)
    then (fun l => (Link.try_send (Frame.with_flags (frame_kind (rt_kind t)) (if b then FLAGS_BINARY else 0) (rt_meta t ++ payload)) l).2)
           <$> MeshNode.store (Cluster.node c) !! h
    else MeshNode.store (Cluster.node c) !! h.
Proof.
  intros Hwf. assert (Hok : mesh_ok (Cluster.node c)) by exact Hwf. rewrite relay_verb_do. destruct (decide (rt_peers t c = [])) as [Hp|Hne].
  { split; [done|]. split; [done|]. intros h. rewrite decide_False; [done|]. unfold routed_to. rewrite Hp. apply not_elem_of_nil. }
  unfold Cluster.do_relay. cbn [mesh_relay mesh_node_mesh]. destruct (MeshNode.relay _ _ _ _ _ _) as [r n] eqn:E.
  destruct (mesh_relay_total _ _ _ _ _ _ _ _ Hok (rt_peers_nodup t c Hok) E) as [_ Hwf'].
  destruct (relay_spec _ _ _ _ _ _ _ _ Hwf (rt_peers_nodup t c Hok) E) as (_ & Em & Ei & El & Hs). split; [done|]. split; [exact Hwf'|].
  intros h. cbn [Cluster.node]. rewrite Hs. unfold routed_to. by repeat case_decide.
Qed.

(** What the reader does is traffic of the engine, so the engine's invariants
    hold whatever a peer sends. *)
Lemma relay_handler_traffic calls e : rtc traffic e (foldl (fun e call => relay_handler call e) e calls).
Proof.
  revert e. induction calls as [|call calls IH]; intros e; [apply rtc_refl|]. cbn [foldl].
  destruct (cluster e) as [c|] eqn:Ec; [|unfold relay_handler at 2; rewrite Ec; apply IH]. eapply rtc_l; [|apply IH].
  unfold relay_handler. rewrite Ec.
  destruct (deliver_local (Cluster.self_node_id c) (rc_kind call) (rc_binary call) (rc_body call) (Cluster.relay c) (local e)) as [rc l] eqn:E.
  by apply (TrDeliver e c (rc_kind call) (rc_binary call) (rc_body call) rc l).
Qed.

Lemma receive_traffic h nows rd e : rtc traffic e (receive h nows rd e).2.
Proof.
  revert rd e. induction nows as [|now nows IH]; intros rd e; [apply rtc_refl|]. cbn [receive]. unfold receive_tick.
  destruct (cluster e) as [c|] eqn:Ec; [|apply IH]. pose proof (reader_tick_evolves h now rd (Cluster.node c)) as He.
  destruct (reader_tick h now rd (Cluster.node c)) as [[relays rd'] n]. eapply rtc_l; [|etransitivity; [apply relay_handler_traffic|apply IH]].
  apply (TrMesh e c n Ec). intros tg. destruct (ev_interest _ _ He) as (_ & El & _). cbn [mesh_hosts mesh_node_mesh]. cbn in El. by rewrite El.
Qed.

Lemma put_put_link h (l l' : Link.t N) n : put_link h l' (put_link h l n) = put_link h l' n.
Proof. unfold put_link, MeshNode.set_links. cbn. by rewrite insert_insert_eq. Qed.

Lemma put_link_lookup h (l : Link.t N) n : MeshNode.store (put_link h l n) !! h = Some l.
Proof. apply lookup_insert_eq. Qed.

Lemma put_link_same h (l : Link.t N) n : MeshNode.store n !! h = Some l -> put_link h l n = n.
Proof. intros Hl. unfold put_link, MeshNode.set_links. rewrite insert_id by done. by destruct n. Qed.

(** Reading a relay frame: two steps of the reader, one call of the handler. *)
Lemma receive_relay h t1 t2 k (b : bool) body rest fin e c l :
  cluster e = Some c -> MeshNode.store (Cluster.node c) !! h = Some l ->
  (n_peer_node_id (Link.negotiated l) ∉ MeshNode.deny (Cluster.node c)) -> MeshNode.has_relay (Cluster.node c) = true ->
  has_inbound (Link.hooks l) = true -> Link.reader l = RSelect false ->
  let f := Frame.with_flags (frame_kind k) (if b then FLAGS_BINARY else 0) body in
  sendable (Link.negotiated l) f -> n_max_frame (Link.negotiated l) < 2 ^ 32 ->
  exists l', read_ok 1 l l' /\
    receive h [t1; t2] {| avail := Frame.encode f ++ rest; ended := fin |} e =
      ({| avail := rest; ended := fin |},
       relay_handler {| rc_kind := k; rc_binary := b; rc_body := body |} (set_cluster (Some (with_node (put_link h l' (Cluster.node c)) c)) e)).
Proof.
  intros Hc Hl Hd Hr Hi Hrd f Hs Hm. destruct (reader_one t1 t2 f rest fin l Hrd Hs Hm) as (l' & Hok & E). exists l'. split; [done|].
  pose proof (reader_reads t1 f rest fin l Hrd Hs Hm) as E1. cbn [reader_run] in E. rewrite E1 in E.
  cbn [receive]. unfold receive_tick at 1. rewrite Hc. unfold reader_tick at 1. rewrite Hl, E1. cbn [run_hooks foldl].
  unfold receive_tick. cbn [cluster set_cluster Cluster.node with_node]. unfold reader_tick. rewrite put_link_lookup.
  destruct (Link.reader_step t2 _ _) as [[c2 rd2] l2]. cbn [app] in E. rewrite app_nil_r in E. injection E as -> -> ->.
  unfold inbound_calls. rewrite Hi, filter_cons_True by (by destruct k). cbn [map filter list_filter run_hooks hook]. rewrite put_put_link.
  unfold f. rewrite (on_inbound_relay t2 _ k b body (put_link h l' (Cluster.node c))) by done. reflexivity.
Qed.

(** ** Sequences of broadcasts *)

Record Post := { po_target : FanoutTarget; po_payload : bytes; po_binary : bool; po_except : list ConnectionId; po_remote : list NodeConnId }.

(** The verbs of a sequence of posts, and their fan-out on one node's tables. *)
Fixpoint post_all (ms : list Post) e : list FanoutReport * Node :=
  match ms with
  | [] => ([], e)
  | m :: ms =>
      let '(r, e) := verb (po_target m) (po_payload m) (po_binary m) (po_except m) (po_remote m) e in
      let '(rs, e) := post_all ms e in (r :: rs, e)
  end.
Fixpoint fan_out_all (except : Post -> list ConnectionId) (ms : list Post) (l : Local SL Ch) : list FanoutReport * Local SL Ch :=
  match ms with
  | [] => ([], l)
  | m :: ms =>
      let '(r, l) := broadcast (po_target m) (po_payload m) (po_binary m) (except m) l in
      let '(rs, l) := fan_out_all except ms l in (r :: rs, l)
  end.

(** The target and the frame a post relays from [c]. *)
Definition post_target (c : Cluster.t (MeshNode.t N)) (m : Post) : RelayTarget := relay_target (po_target m) (relay_excepts (po_except m) (po_remote m) c).
Definition post_frame (c : Cluster.t (MeshNode.t N)) (m : Post) : Frame.t :=
  relayed (po_target m) (po_payload m) (po_binary m) (relay_excepts (po_except m) (po_remote m) c).
Definition routed_posts (h : Z) (c : Cluster.t (MeshNode.t N)) (ms : list Post) : list Post := filter (fun m => routed_to h (post_target c m) c) ms.
Definition offer_all (fs : list Frame.t) (l : Link.t N) : Link.t N := foldl (fun l f => (Link.try_send f l).2) l fs.

Lemma same_routes_post c c' m : same_routes c c' ->
  post_target c' m = post_target c m /\ post_frame c' m = post_frame c m /\ forall h, routed_to h (post_target c' m) c' <-> routed_to h (post_target c m) c.
Proof.
  intros (Es & Em & Ei & El). assert (Et : post_target c' m = post_target c m) by (unfold post_target, relay_excepts; by rewrite Es).
  split; [done|]. split; [unfold post_frame, relay_excepts; by rewrite Es|]. intros h. rewrite Et. unfold routed_to. rewrite El.
  replace (rt_peers (post_target c m) c') with (rt_peers (post_target c m) c); [done|].
  unfold post_target. destruct (po_target m); cbn [relay_target rt_peers mesh_interested mesh_peers mesh_node_mesh];
    unfold MeshNode.interested_peers, MeshNode.alive_peer_ids, MeshNode.peer_ids; by rewrite ?Em, ?Ei, ?El.
Qed.

(** The sending node: its own fan-out, and the offers on every link. *)
Lemma post_all_spec ms e c : cluster e = Some c -> node_wf (Cluster.node c) ->
  ((post_all ms e).1, local (post_all ms e).2) = fan_out_all po_except ms (local e) /\
  exists c', cluster (post_all ms e).2 = Some c' /\ same_routes c c' /\
    forall k, MeshNode.store (Cluster.node c') !! k = offer_all (map (post_frame c) (routed_posts k c ms)) <$> MeshNode.store (Cluster.node c) !! k.
Proof.
  revert e c. induction ms as [|m ms IH]; intros e c Hc Hwf; cbn [post_all fan_out_all].
  { split; [done|]. exists c. split; [done|]. split; [done|]. intros k. cbn. by destruct (MeshNode.store _ !! k). }
  rewrite verb_eq. destruct (broadcast _ _ _ _ (local e)) as [r l].
  destruct (relay_verb_store (post_target c m) (po_payload m) (po_binary m) c Hwf) as (Hsr & Hwf' & Hst).
  edestruct (IH (with_cluster (fun c => relay_verb (post_target c m) (po_payload m) (po_binary m) c) (set_local l e))) as (El & c' & Hc' & Hsr' & Hst');
    [cbn; by rewrite Hc|exact Hwf'|].
  fold (post_target c m) in *. change (fun c => relay_verb (relay_target _ _) _ _ c) with (fun c => relay_verb (post_target c m) (po_payload m) (po_binary m) c).
  destruct (post_all ms _) as [rs e']. cbn [fst snd local with_cluster set_cluster set_local] in *. rewrite <-El. split; [done|]. exists c'. split; [done|].
  split; [destruct Hsr as (?&?&?&?), Hsr' as (?&?&?&?); split_and!; congruence|]. intros k. rewrite Hst', Hst. clear El Hc' Hst' Hst IH.
  set (c1 := relay_verb _ _ _ c) in *.
  assert (E : map (post_frame c1) (routed_posts k c1 ms) = map (post_frame c) (routed_posts k c ms)).
  { unfold routed_posts. rewrite (list_filter_iff _ (fun m => routed_to k (post_target c m) c)) by (intros m'; apply (same_routes_post c c1 m' Hsr)).
    apply map_ext. intros m'. apply (same_routes_post c c1 m' Hsr). }
  rewrite E. unfold routed_posts. rewrite filter_cons. case_decide; [|done]. rewrite <-option_fmap_compose. done.
Qed.

(** The receiving node: one frame, then a sequence of them. *)
Lemma receive_post h t1 t2 m rest fin e c l cA :
  cluster e = Some c -> MeshNode.store (Cluster.node c) !! h = Some l -> Cluster.self_node_id cA <> Cluster.self_node_id c ->
  (n_peer_node_id (Link.negotiated l) ∉ MeshNode.deny (Cluster.node c)) -> MeshNode.has_relay (Cluster.node c) = true ->
  has_inbound (Link.hooks l) = true -> Link.reader l = RSelect false ->
  rt_ok (post_target cA m) -> sendable (Link.negotiated l) (post_frame cA m) -> n_max_frame (Link.negotiated l) < 2 ^ 32 ->
  exists l', read_ok 1 l l' /\
    receive h [t1; t2] {| avail := Frame.encode (post_frame cA m) ++ rest; ended := fin |} e =
      ({| avail := rest; ended := fin |},
       set_cluster (Some (with_relay (count_relay_in (Cluster.relay c)) (with_node (put_link h l' (Cluster.node c)) c)))
         (set_local (broadcast (po_target m) (po_payload m) (po_binary m) (excepts_for (Cluster.self_node_id c) (po_remote m)) (local e)).2 e)).
Proof.
  intros Hc Hst Hne Hd Hr Hi Hrd Ht Hs Hm.
  destruct (receive_relay h t1 t2 (rt_kind (post_target cA m)) (po_binary m) (rt_meta (post_target cA m) ++ po_payload m) rest fin e c l Hc Hst) as (l' & Hok & E); [done..|].
  exists l'. split; [done|]. unfold post_frame, relayed. fold (post_target cA m). rewrite E. f_equal. unfold relay_handler. cbn [cluster set_cluster rc_kind rc_binary rc_body].
  rewrite (deliver_exact _ _ _ _ _ _ Ht). unfold post_target, relay_excepts.
  destruct (po_target m); cbn [relay_target rt_effect with_node Cluster.self_node_id Cluster.relay local set_cluster]; by rewrite excepts_for_other.
Qed.

Lemma receive_app h xs ys rd e : receive h (xs ++ ys) rd e = let '(rd, e) := receive h xs rd e in receive h ys rd e.
Proof. revert rd e. induction xs as [|x xs IH]; intros rd e; [done|]. cbn [app receive]. by destruct (receive_tick h x rd e). Qed.

Lemma receive_posts h nows ms rest fin e c l cA :
  length nows = (2 * length ms)%nat ->
  cluster e = Some c -> MeshNode.store (Cluster.node c) !! h = Some l -> Cluster.self_node_id cA <> Cluster.self_node_id c ->
  (n_peer_node_id (Link.negotiated l) ∉ MeshNode.deny (Cluster.node c)) -> MeshNode.has_relay (Cluster.node c) = true ->
  has_inbound (Link.hooks l) = true -> Link.reader l = RSelect false ->
  Forall (fun m => rt_ok (post_target cA m) /\ sendable (Link.negotiated l) (post_frame cA m)) ms -> n_max_frame (Link.negotiated l) < 2 ^ 32 ->
  u64_ok (LinkCounters.get LinkCounters.FramesIn (Link.counters l)) ->
  exists l', read_ok (Z.of_nat (length ms)) l l' /\
    receive h nows {| avail := encode_all (map (post_frame cA) ms) ++ rest; ended := fin |} e =
      ({| avail := rest; ended := fin |},
       set_cluster (Some (with_relay (Nat.iter (length ms) count_relay_in (Cluster.relay c)) (with_node (put_link h l' (Cluster.node c)) c)))
         (set_local (fan_out_all (fun m => excepts_for (Cluster.self_node_id c) (po_remote m)) ms (local e)).2 e)).
Proof.
  revert nows e c l. induction ms as [|m ms IH]; intros nows e c l Hlen Hc Hst Hne Hd Hr Hi Hrd Hok Hm Hu.
  - destruct nows; [|done]. exists l. split; [split; try done; cbn [length]; rewrite Z.add_0_r, wrap_small; done|]. cbn. f_equal.
    rewrite (put_link_same h l) by done. destruct e as [? ? ? ?], c. cbn in *. by subst.
  - destruct nows as [|a [|b nows]]; [simpl in Hlen; lia..|]. apply Forall_cons in Hok as [[Ht Hs] Hms].
    change (a :: b :: nows) with ([a; b] ++ nows). rewrite receive_app. unfold encode_all. cbn [map concat]. rewrite <-app_assoc.
    destruct (receive_post h a b m (encode_all (map (post_frame cA) ms) ++ rest) fin e c l cA) as (l1 & Hok1 & E1); [done..|].
    fold (encode_all (map (post_frame cA) ms)). rewrite E1. cbn [fan_out_all]. destruct (broadcast _ _ _ _ (local e)) as [r lo]. cbn [snd].
    edestruct (IH nows (set_cluster (Some (with_relay (count_relay_in (Cluster.relay c)) (with_node (put_link h l1 (Cluster.node c)) c))) (set_local lo e)))
      as (l2 & Hok2 & E2); [simpl in Hlen; lia|done|apply put_link_lookup|done|..].
    + cbn. by rewrite (ro_neg _ _ _ Hok1).
    + done.
    + by rewrite (ro_hooks _ _ _ Hok1).
    + apply (ro_reader _ _ _ Hok1).
    + by rewrite (ro_neg _ _ _ Hok1).
    + by rewrite (ro_neg _ _ _ Hok1).
    + rewrite (ro_frames _ _ _ Hok1). by apply wrap_range.
    + exists l2. split; [replace (Z.of_nat (length (m :: ms))) with (1 + Z.of_nat (length ms)) by (simpl; lia); by eapply read_ok_trans|].
      rewrite E2. cbn [length Nat.iter Cluster.relay Cluster.node Cluster.self_node_id with_relay with_node local set_cluster set_local].
      rewrite put_put_link. destruct (fan_out_all _ ms lo) as [rs lo']. cbn [snd]. unfold set_cluster, set_local, with_relay, with_node. cbn. by rewrite <-Nat.iter_succ_r.
Qed.

(** C16. Broadcasts across the cluster.  A sequence of verbs on one engine fans out
    to its own connections as it would alone, and offers the link of every peer,
    in order, the frames of exactly the verbs that route to that peer.  On another
    node, whatever subsequence of the frames came through, the reader of the link
    to the sender turns their bytes into the same verbs there, in the same order,
    each minus that node's own exclusions; it counts one relay per frame and
    leaves every other link, the memberships and the interest tables as they
    were, so nothing is sent on. *)
Theorem cross_node_broadcast ms got eA cA eB cB h lk nows rest fin :
  cluster eA = Some cA -> node_wf (Cluster.node cA) ->
  Forall (fun m => rt_ok (post_target cA m) /\ sendable (Link.negotiated lk) (post_frame cA m)) ms -> got `sublist_of` ms ->
  cluster eB = Some cB -> Cluster.self_node_id cA <> Cluster.self_node_id cB ->
  (Cluster.self_node_id cA ∉ MeshNode.deny (Cluster.node cB)) -> MeshNode.has_relay (Cluster.node cB) = true ->
  MeshNode.store (Cluster.node cB) !! h = Some lk -> n_peer_node_id (Link.negotiated lk) = Cluster.self_node_id cA ->
  has_inbound (Link.hooks lk) = true -> Link.reader lk = RSelect false -> n_max_frame (Link.negotiated lk) < 2 ^ 32 ->
  u64_ok (LinkCounters.get LinkCounters.FramesIn (Link.counters lk)) -> length nows = (2 * length got)%nat ->
  ((post_all ms eA).1, local (post_all ms eA).2) = fan_out_all po_except ms (local eA) /\
  (exists cA', cluster (post_all ms eA).2 = Some cA' /\ same_routes cA cA' /\
     forall k, MeshNode.store (Cluster.node cA') !! k = offer_all (map (post_frame cA) (routed_posts k cA ms)) <$> MeshNode.store (Cluster.node cA) !! k) /\
  exists lk', read_ok (Z.of_nat (length got)) lk lk' /\
    receive h nows {| avail := encode_all (map (post_frame cA) got) ++ rest; ended := fin |} eB =
      ({| avail := rest; ended := fin |},
       set_cluster (Some (with_relay (Nat.iter (length got) count_relay_in (Cluster.relay cB)) (with_node (put_link h lk' (Cluster.node cB)) cB)))
         (set_local (fan_out_all (fun m => excepts_for (Cluster.self_node_id cB) (po_remote m)) got (local eB)).2 eB)).
Proof.
  intros HcA Hwf Hms Hsub HcB Hne Hd Hr Hst Hp Hh Hrd Hm Hu Hlen. destruct (post_all_spec ms eA cA HcA Hwf) as [Hl HA]. split; [exact Hl|]. split; [exact HA|].
  apply receive_posts; try done; [by rewrite Hp|]. apply Forall_forall. intros m Hin. rewrite Forall_forall in Hms. apply Hms.
  by eapply elem_of_sublist.
Qed.
End EndToEnd.

(** A started cluster meets what [cross_node_broadcast] asks of both sides. *)
Lemma cluster_start_ready {N : Type} `{Notify N} cfg bound seed :
  let c := cluster_start (N := N) cfg bound seed in
  node_wf (Cluster.node c) /\ MeshNode.has_relay (Cluster.node c) = true /\ MeshNode.deny (Cluster.node c) = ∅ /\
  MeshNode.self_id (Cluster.node c) = Cluster.self_node_id c.
Proof. split; [|done]. intros p h Hl. cbn in Hl. by rewrite lookup_empty in Hl. Qed.

Section EndToEndWitness.
Import Engine.

(** Node 2, linked to node 1, with two connections of its own. *)
Definition demo_remote_cluster : Cluster.t (MeshNode.t bool) :=
  let c := cluster_start {| cc_node_id := 2; cc_listen := demo_addr 7002; cc_seeds := []; cc_secret := str "s"; cc_cluster_name := str "c" |} (demo_addr 7002) 9 in
  with_node (put_link 20 (demo_link 1) (Cluster.node c)) c.
Definition demo_remote : Engine.t VecSlab.t ListChan.t (MeshNode.t bool) (Z * Z) :=
  set_local demo_local (set_cluster (Some demo_remote_cluster) demo_engine).
Definition demo_rex : list NodeConnId := [{| nc_node := 2; nc_local := ConnId.new 0 0 0 |}].

(** Two posts on node 1, both read by node 2. *)
Definition demo_posts : list Post :=
  [{| po_target := Room (str "r"); po_payload := str "hi"; po_binary := false; po_except := []; po_remote := demo_rex |};
   {| po_target := All; po_payload := str "all"; po_binary := true; po_except := []; po_remote := [] |}].
Definition demo_sender : Engine.t VecSlab.t ListChan.t (MeshNode.t bool) (Z * Z) := set_cluster (Some demo_cluster) demo_engine.

Lemma cross_node_broadcast_witness :
  exists lk', receive 20 [5; 6; 7; 8] {| avail := encode_all (map (post_frame demo_cluster) demo_posts); ended := None |} demo_remote =
    ({| avail := []; ended := None |},
     set_cluster (Some (with_relay (count_relay_in (count_relay_in RelayCounters_default)) (with_node (put_link 20 lk' (Cluster.node demo_remote_cluster)) demo_remote_cluster)))
       (set_local (broadcast All (str "all") true [] (broadcast (Room (str "r")) (str "hi") false [ConnId.new 0 0 0] demo_local).2).2 demo_remote)).
Proof.
  destruct (cross_node_broadcast demo_posts demo_posts demo_sender demo_cluster demo_remote demo_remote_cluster 20 (demo_link 1) [5; 6; 7; 8] [] None)
    as (_ & _ & lk' & _ & E).
  - reflexivity.
  - exact demo_node_wf.
  - repeat apply Forall_cons_2; [| |constructor]; (split; [|split; [reflexivity|vm_compute; congruence]]).
    + split; [split; vm_compute; reflexivity|]. split; [|vm_compute; reflexivity]. apply Forall_singleton. split; split; vm_compute; congruence.
    + split; [constructor|vm_compute; reflexivity].
  - reflexivity.
  - reflexivity.
  - done.
  - apply not_elem_of_empty.
  - reflexivity.
  - apply lookup_insert_eq.
  - reflexivity.
  - reflexivity.
  - reflexivity.
  - vm_compute. reflexivity.
  - vm_compute. split; congruence.
  - reflexivity.
  - exists lk'. rewrite app_nil_r in E. etransitivity; [exact E|]. cbn [fan_out_all demo_posts po_target po_payload po_binary po_remote].
    destruct (broadcast (Room _) _ _ _ _) as [r l]. cbn [snd]. destruct (broadcast All _ _ _ l). reflexivity.
Defined.
End EndToEndWitness.
