(* ===== verification/Transport.v ===== *)
(** * The WebSocket transport (crates/core/src/transport/, the listener of engine.rs)

    The replaying stream, the gated own-port handshake ([accept]), the attach
    completion ([adopt]), the frame source and sink, and the tasks of engine.rs
    that call them.  The codec is tungstenite, which is not part of this
    repository: its messages and errors are data, and what it does during a
    handshake is an input ([Handshake]); the accept-key derivation, the close
    codes and the socket are parameters.  An [accept] runs to one of its ends: that
    the runtime drops the future while it awaits the handshake is not modelled. *)

From S2P Require Import Prelude Text Wire Ids Runtime Config Metrics Mailbox Registry Events Connection Rooms Limits Identity Broadcast Frame MeshWire Interest MeshNode Cluster Engine.

(** ** The replaying stream *)

(** [Poll<io::Result<()>>] with the bytes that were put into the buffer. *)
Inductive Poll := Pending | Ready (r : bytes + rstring).

Module PrefixedStream.
Section PrefixedStream.
(** The socket's own [poll_read] into a buffer with that much room. *)
Context {Sock : Type} (sock_read : nat -> Sock -> Poll * Sock).

(** [struct PrefixedStream]. *)
Record t := { head : bytes; pos : nat; inner : Sock }.

(** [PrefixedStream::direct] and [prefixed]. *)
Definition direct (s : Sock) : t := {| head := []; pos := 0%nat; inner := s |}.
Definition prefixed (head : bytes) (s : Sock) : t := {| head := head; pos := 0%nat; inner := s |}.

(** [AsyncRead::poll_read]. *)
Definition poll_read (room : nat) (st : t) : Poll * t :=
  if (pos st <? length (head st))%nat then
    let remaining := drop (pos st) (head st) in
    let n := Nat.min (length remaining) room in
    (Ready (inl (take n remaining)), {| head := head st; pos := (pos st + n)%nat; inner := inner st |})
  else
    let '(p, s) := sock_read room (inner st) in (p, {| head := head st; pos := pos st; inner := s |}).

(** Successive reads, of the stream and of the bare socket. *)
Fixpoint polls (rooms : list nat) (st : t) : list Poll * t :=
  match rooms with
  | [] => ([], st)
  | room :: rooms => let '(p, st) := poll_read room st in let '(ps, st) := polls rooms st in (p :: ps, st)
  end.
Fixpoint sock_polls (rooms : list nat) (s : Sock) : list Poll * Sock :=
  match rooms with
  | [] => ([], s)
  | room :: rooms => let '(p, s) := sock_read room s in let '(ps, s) := sock_polls rooms s in (p :: ps, s)
  end.

(** The bytes a sequence of reads delivered. *)
Definition received (ps : list Poll) : bytes := concat (map (fun p => match p with Ready (inl b) => b | _ => [] end) ps).
Definition is_data (p : Poll) : bool := match p with Ready (inl _) => true | _ => false end.

End PrefixedStream.
#[global] Arguments t : clear implicits.
End PrefixedStream.

(** ** The codec's messages *)

Definition READ_BUFFER_SIZE : Z := 1024.

(** The cases of tungstenite's error type the code tells apart, with their text. *)
Inductive WsError :=
  | WsCapacity (text : rstring) | WsProtocol (text : rstring) | WsUtf8 (text : rstring)
  | WsConnectionClosed (text : rstring) | WsAlreadyClosed (text : rstring) | WsOther (text : rstring).
Definition ws_text (e : WsError) : rstring :=
  match e with
  | WsCapacity t | WsProtocol t | WsUtf8 t | WsConnectionClosed t | WsAlreadyClosed t | WsOther t => t
  end.

(** [fn map_err]. *)
Definition map_err (e : WsError) : TransportError :=
  {| close_code := match e with WsCapacity _ => 1009 | WsProtocol _ => 1002 | WsUtf8 _ => 1007 | _ => 1006 end;
     message := ws_text e |}.

(** [fn ws_config]: the fields it sets; the others are the codec's defaults. *)
Record WebSocketConfig := { max_message_size : option Z; max_frame_size : option Z; read_buffer_size : Z }.
Definition ws_config (cfg : Config) : WebSocketConfig :=
  {| max_message_size := Some (max_payload_bytes (limits cfg)); max_frame_size := Some (max_payload_bytes (limits cfg));
     read_buffer_size := READ_BUFFER_SIZE |}.

Module Ws.
Section Ws.
(** tungstenite's [CloseCode], [CloseCode::from(u16)] and [u16::from]. *)
Context {CloseCode : Type} (code_from : Z -> CloseCode) (code_into : CloseCode -> Z).

Inductive Message :=
  | Text (s : bytes) | Binary (b : bytes) | Ping (b : bytes) | Pong (b : bytes)
  | Close (frame : option (CloseCode * rstring)) | Frame (raw : bytes).

(** [FrameSource::next_frame]: the items the codec's stream yields from here on;
    the end of the list is the end of the stream. *)
Fixpoint next_frame (items : list (Message + WsError)) : option (InFrame + TransportError) * list (Message + WsError) :=
  match items with
  | [] => (None, [])
  | inl (Text s) :: rest => (Some (inl (InText s)), rest)
  | inl (Binary b) :: rest => (Some (inl (InBinary b)), rest)
  | inl (Ping _) :: rest => next_frame rest
  | inl (Pong _) :: rest => (Some (inl InPong), rest)
  | inl (Close frame) :: rest =>
      let '(code, reason) := match frame with Some (code, reason) => (code_into code, reason) | None => (1005, []) end in
      (Some (inl (InClose code reason)), rest)
  | inl (Frame _) :: rest => next_frame rest
  | inr (WsConnectionClosed _) :: rest | inr (WsAlreadyClosed _) :: rest => (None, rest)
  | inr e :: rest => (Some (inr (map_err e)), rest)
  end.

(** [FrameSink::send_frame]: the message, then what the codec's sink answers. *)
Definition to_message (f : OutFrame) : Message :=
  match f with
  | OutText b => match from_utf8 b with Some s => Text s | None => Binary b end
  | OutBinary b => Binary b
  | OutPing p => Ping p
  | OutClose code reason => Close (Some (code_from code, reason))
  end.
Definition send_frame (f : OutFrame) (res : option WsError) : Message * option TransportError :=
  (to_message f, map_err <$> res).

(** [reject_after_upgrade] (engine.rs): the close frame, then the shutdown. *)
Definition reject_after_upgrade (code : Z) (reason : rstring) (res : option WsError) : list Message :=
  [(send_frame (OutClose code reason) res).1].

End Ws.
#[global] Arguments Message : clear implicits.
End Ws.

(** ** Texts written to the socket *)

Definition crlf : bytes := [13; 10].

(** The response of [adopt]. *)
Definition switching_text (accept_key : rstring) : bytes :=
  str "HTTP/1.1 101 Switching Protocols" ++ crlf ++ str "Upgrade: websocket" ++ crlf ++ str "Connection: Upgrade" ++ crlf ++
  str "Sec-WebSocket-Accept: " ++ accept_key ++ crlf ++ crlf.

(** The response of [write_http_error_and_close] (engine.rs). *)
Definition http_error_text (status : Z) : bytes :=
  str "HTTP/1.1 " ++ dec status ++ str " " ++ http_reason status ++ crlf ++ str "Connection: close" ++ crlf ++
  str "Content-Length: 0" ++ crlf ++ crlf.

(** ** The handshakes *)

(** What the callback reads of the request: header names and raw values in
    order, the path and query of the target, and the whole target. *)
Record Request := { rq_headers : list (rstring * bytes); rq_path_and_query : option rstring; rq_uri : rstring }.

(** How the codec's server handshake goes: it fails before the request is
    complete, or it calls the callback once; then [io] is the failure to send
    the response, and [refused] the error it reports for a refused upgrade. *)
Inductive Handshake := Malformed (err : WsError) | Requested (rq : Request) (io : option WsError) (refused : WsError).

(** The callback's answer, [Result<Response, ErrorResponse>]. *)
Inductive Response := Switching | ErrorResponse (status : Z) (body : rstring).

(** [enum AcceptError]. *)
Inductive AcceptError := NotAdmitted | HandshakeFailed (e : TransportError).

(** [StatusCode::from_u16]. *)
Definition status_from_u16 (s : Z) : option Z := if (100 <=? s) && (s <? 1000) then Some s else None.

Definition rejected_body : rstring := str "connection rejected: per-IP connection limit reached".

Definition capture_headers (rq : Request) : list (rstring * rstring) :=
  map (fun '(name, value) => (map to_ascii_lower name, from_utf8_lossy value)) (rq_headers rq).
Definition capture_url (rq : Request) : rstring := default (rq_uri rq) (rq_path_and_query rq).

Module Transport.
Section Transport.
Context {SL : Type -> Type} {slab_ops : Slab SL} {Ch : Type -> Type} {mpsc_ops : Mpsc Ch}.
Context {M : Type} `{Mesh M}.
Context {Net : Type} (net_contains : Net -> IpAddr -> bool).
Context {Sock : Type} (derive_accept_key : bytes -> rstring).
Implicit Types (e : Engine.t SL Ch M Net).

(** The callback of [accept]: the response, and what it stored in the slot. *)
Definition on_request (peer : IpAddr) (rq : Request) e : Response * option Gate.AdmittedUpgrade * Engine.t SL Ch M Net :=
  match Engine.gate_admit net_contains peer (capture_headers rq) (capture_url rq) e with
  | (inl upgrade, e') => (Switching, Some upgrade, e')
  | (inr status, e') => (ErrorResponse (default HTTP_TOO_MANY_REQUESTS (status_from_u16 status)) rejected_body, None, e')
  end.

(** [accept] after the codec's handshake returned [res]; [None] is the panic of
    [expect]. *)
Definition accept_end (res : option WsError) (slot : option Gate.AdmittedUpgrade) e
    : option (Gate.AdmittedUpgrade + AcceptError) * Engine.t SL Ch M Net :=
  match res, slot with
  | None, Some upgrade => (Some (inl upgrade), e)
  | None, None => (None, e)
  | Some err, Some upgrade => (Some (inr (HandshakeFailed (map_err err))), Engine.drop_guard (Gate.au_guard upgrade) e)
  | Some _, None => (Some (inr NotAdmitted), e)
  end.

(** [WebSocketTransport::accept], run without interruption: the response sent,
    if any, the outcome and the engine. *)
Definition accept (h : Handshake) (peer : IpAddr) e
    : option Response * option (Gate.AdmittedUpgrade + AcceptError) * Engine.t SL Ch M Net :=
  match h with
  | Malformed err => let '(out, e) := accept_end (Some err) None e in (None, out, e)
  | Requested rq io refused =>
      let '(resp, slot, e) := on_request peer rq e in
      let res := match resp with Switching => io | ErrorResponse _ _ => Some refused end in
      let '(out, e) := accept_end res slot e in (Some resp, out, e)
  end.

(** [setup_connection] (engine.rs): the upgrade goes on to [run_admitted]. *)
Definition setup_connection (h : Handshake) (peer : IpAddr) e : option Gate.AdmittedUpgrade * Engine.t SL Ch M Net :=
  match accept h peer e with
  | (_, Some (inl upgrade), e') => (Some upgrade, e')
  | (_, _, e') => (None, e')
  end.

(** [WebSocketTransport::adopt]: the text handed to [write_all], and the stream
    the codec frames over. *)
Definition adopt (write_err flush_err : option rstring) (ws_key : rstring) (head : bytes) (io : Sock)
    : bytes * (PrefixedStream.t Sock + TransportError) :=
  let stream := PrefixedStream.prefixed head io in
  (switching_text (derive_accept_key ws_key),
   match write_err with
   | Some err => inr {| close_code := 1006; message := str "attach: 101 write failed: " ++ err |}
   | None =>
       match flush_err with
       | Some err => inr {| close_code := 1006; message := str "attach: 101 flush failed: " ++ err |}
       | None => inl stream
       end
   end).

(** The key [attach] passes on (engine.rs). *)
Definition attach_key (upgrade : Gate.AdmittedUpgrade) : rstring :=
  default [] (header_value (Gate.au_headers upgrade) (str "sec-websocket-key")).

(** [setup_attached] (engine.rs): on a failure the upgrade is dropped. *)
Definition setup_attached (write_err flush_err : option rstring) (head : bytes) (io : Sock) (upgrade : Gate.AdmittedUpgrade) e
    : bytes * option (PrefixedStream.t Sock * Gate.AdmittedUpgrade) * Engine.t SL Ch M Net :=
  match adopt write_err flush_err (attach_key upgrade) head io with
  | (text, inl stream) => (text, Some (stream, upgrade), e)
  | (text, inr _) => (text, None, Engine.drop_guard (Gate.au_guard upgrade) e)
  end.

End Transport.
End Transport.

(** ** The listener (engine.rs) *)

(** [enum EngineError] and its [Display]. *)
Inductive EngineError := EConfig (e : ConfigError) | EIo (text : rstring) | EAlreadyListening.

Module Listener.

(** [Engine::listen]: the [listening] flag; [bind] and [local_addr] are what the
    operating system answers. The boolean result says that the accept loop was
    spawned. *)
Definition listen (bind local_addr : Z + rstring) (listening : bool) : (Z + EngineError) * bool * bool :=
  if listening then (inr EAlreadyListening, false, true)
  else match bind with
       | inr e => (inr (EIo e), false, false)
       | inl _ =>
           match local_addr with
           | inr e => (inr (EIo e), false, false)
           | inl actual => (inl actual, true, true)
           end
       end.

(** The branches of the [select!] of [accept_loop]. *)
Inductive LoopEvent := ShutdownChanged (value : bool) | AcceptOk (peer : IpAddr) | AcceptErr.

(** [accept_loop]: the peers a [setup_connection] was spawned for; the boolean
    says that the loop ended. *)
Fixpoint accept_loop (evs : list LoopEvent) : list IpAddr * bool :=
  match evs with
  | [] => ([], false)
  | ShutdownChanged true :: _ => ([], true)
  | ShutdownChanged false :: evs => accept_loop evs
  | AcceptOk peer :: evs => let '(peers, done) := accept_loop evs in (peer :: peers, done)
  | AcceptErr :: evs => accept_loop evs
  end.

(** The wait loops of [Engine::close] and [shutdown]: [while !registry.is_empty()
    && Instant::now() < deadline { sleep }]; [obs] is what each test of the
    condition sees.  The number of sleeps, once the loop has ended. *)
Fixpoint wait_drained (deadline : Z) (obs : list (bool * Z)) : option nat :=
  match obs with
  | [] => None
  | (empty, now) :: obs => if negb empty && (now <? deadline) then S <$> wait_drained deadline obs else Some 0%nat
  end.

End Listener.

(** ** Head, then wire *)

Section Replay.
Context {Sock : Type} (sock_read : nat -> Sock -> Poll * Sock).
Import PrefixedStream.

(** With the head used up, the stream is the socket. *)
Lemma polls_direct rooms st ps st' :
  polls sock_read rooms st = (ps, st') -> (length (head st) <= pos st)%nat ->
  sock_polls sock_read rooms (inner st) = (ps, inner st') /\ pos st' = pos st.
Proof.
  revert st ps. induction rooms as [|room rooms IH]; intros st ps E Hp; cbn [polls] in E; [by simplify_eq|].
  unfold poll_read in E. rewrite (proj2 (Nat.ltb_ge _ _)) in E by done. cbn [sock_polls].
  destruct (sock_read room (inner st)) as [p s]. destruct (polls sock_read rooms _) as [ps' st2] eqn:Er. simplify_eq.
  destruct (IH _ _ Er) as [Hs Hq]; [done|]. cbn [inner pos] in *. by rewrite Hs.
Qed.

(** Reads yield the rest of the head first, without touching the socket; once it
    is used up they are the socket's own. *)
Lemma prefixed_replays rooms st ps st' :
  polls sock_read rooms st = (ps, st') -> (pos st <= length (head st))%nat ->
  exists ps1 ps2, ps = ps1 ++ ps2 /\ Forall (fun p => is_data p = true) ps1 /\
    sock_polls sock_read (drop (length ps1) rooms) (inner st) = (ps2, inner st') /\
    drop (pos st) (head st) = received ps1 ++ drop (pos st') (head st) /\
    (ps2 <> [] -> drop (pos st') (head st) = []).
Proof.
  revert st ps. induction rooms as [|room rooms IH]; intros st ps E Hp.
  { cbn in E. simplify_eq. exists [], []. by split_and!. }
  destruct (Nat.ltb_spec (pos st) (length (head st))) as [Hlt|Hge].
  - cbn [polls] in E. unfold poll_read in E. rewrite (proj2 (Nat.ltb_lt _ _)) in E by done.
    set (rem := drop (pos st) (head st)) in *. set (n := Nat.min (length rem) room) in *.
    assert (length rem = length (head st) - pos st)%nat by (subst rem; apply length_drop).
    destruct (polls sock_read rooms _) as [ps' st2] eqn:Er. simplify_eq.
    destruct (IH _ _ Er) as (ps1 & ps2 & -> & Hd & Hs & Hh & Hu); [cbn; lia|]. cbn [head pos inner] in *.
    exists (Ready (inl (take n rem)) :: ps1), ps2. split_and!; [done|by constructor|exact Hs| |done].
    unfold received. cbn [map concat]. rewrite <-app_assoc. fold (received ps1). rewrite <-Hh, <-drop_drop. by rewrite take_drop.
  - destruct (polls_direct _ _ _ _ E Hge) as [Hs Hq]. exists [], ps. rewrite Hq. split_and!; [done|done|exact Hs|done|].
    intros _. by apply drop_ge.
Qed.
End Replay.

(** ** Source and sink *)

Section CodecFacts.
Context {CloseCode : Type} (code_from : Z -> CloseCode) (code_into : CloseCode -> Z).
Import Ws.
Implicit Types (m : Message CloseCode).

(** What an item of the codec's stream means to the read loop: nothing, a frame
    or error, or the end. *)
Inductive Meaning := Skip | Yield (f : InFrame + TransportError) | Finish.
Definition meaning (i : Message CloseCode + WsError) : Meaning :=
  match i with
  | inl (Text s) => Yield (inl (InText s))
  | inl (Binary b) => Yield (inl (InBinary b))
  | inl (Pong _) => Yield (inl InPong)
  | inl (Close (Some (code, reason))) => Yield (inl (InClose (code_into code) reason))
  | inl (Close None) => Yield (inl (InClose 1005 []))
  | inl (Ping _) | inl (Frame _) => Skip
  | inr (WsConnectionClosed _) | inr (WsAlreadyClosed _) => Finish
  | inr e => Yield (inr (map_err e))
  end.

(** The first item with a meaning, and what follows it. *)
Definition first_meaning (items : list (Message CloseCode + WsError)) (r : option (InFrame + TransportError)) (rest : list (Message CloseCode + WsError)) : Prop :=
  (exists skipped i, items = skipped ++ i :: rest /\ Forall (fun j => meaning j = Skip) skipped /\
     meaning i = match r with Some f => Yield f | None => Finish end) \/
  r = None /\ rest = [] /\ Forall (fun j => meaning j = Skip) items.

Lemma first_meaning_here i rest r :
  meaning i = match r with Some f => Yield f | None => Finish end -> first_meaning (i :: rest) r rest.
Proof. intros Hi. left. by exists [], i. Qed.

Lemma first_meaning_skip i items r rest : meaning i = Skip -> first_meaning items r rest -> first_meaning (i :: items) r rest.
Proof.
  intros Hi [(sk & j & -> & Hs & Hj)|(-> & -> & Hs)]; [left; exists (i :: sk), j; split_and!; [done|by constructor|done]|].
  right. split_and!; [done..|by constructor].
Qed.

(** [next_frame] stops at the first item with a meaning, and consumes it. *)
Lemma next_frame_spec items : first_meaning items (next_frame code_into items).1 (next_frame code_into items).2.
Proof.
  induction items as [|i items IH]; [by right|].
  destruct i as [[| | | |[[]|]|]|[]]; cbn [next_frame fst snd]; first [by apply first_meaning_here|by apply first_meaning_skip].
Qed.

(** What a peer's source makes of a frame written by this sink, the codecs
    carrying messages unchanged: payloads are intact, a text that is not UTF-8
    arrives as binary, and the close code survives. *)
Lemma sink_then_source f rest : (forall c, u16_ok c -> code_into (code_from c) = c) ->
  match f with
  | OutText b => next_frame code_into (inl (to_message code_from f) :: rest) = (Some (inl (if utf8_valid b then InText b else InBinary b)), rest)
  | OutBinary b => next_frame code_into (inl (to_message code_from f) :: rest) = (Some (inl (InBinary b)), rest)
  | OutPing _ => next_frame code_into (inl (to_message code_from f) :: rest) = next_frame code_into rest
  | OutClose code reason => u16_ok code ->
      next_frame code_into (inl (to_message code_from f) :: rest) = (Some (inl (InClose code reason)), rest)
  end.
Proof.
  intros Hc. destruct f as [b|b|b|code reason]; try done.
  - cbn. unfold from_utf8. by destruct (utf8_valid b).
  - intros Hu. cbn. by rewrite Hc.
Qed.
End CodecFacts.

(** ** Admission inside the handshake *)

Section AcceptFacts.
Context {SL : Type -> Type} {slab_ops : Slab SL} {Ch : Type -> Type} {mpsc_ops : Mpsc Ch}.
Context {M : Type} `{Mesh M}.
Context {Net : Type} (parse_net : rstring -> Net + rstring) (net_contains : Net -> IpAddr -> bool).
Import Engine Transport.
Implicit Types (e : Engine.t SL Ch M Net) (s : Sys (SL := SL) (Ch := Ch) (M := M) (Net := Net)).

(** The slots an address holds. *)
Definition slots_held (ip : IpAddr) e : Z := IpLimiter.current ip (Gate.limiter (gate e)).
(** The address the gate charges for a request. *)
Definition client_of (peer : IpAddr) (rq : Request) e : IpAddr := Gate.resolve_client_ip net_contains peer (capture_headers rq) (gate e).

Lemma slots_nonneg s ip : engine_inv s -> 0 <= slots_held ip (eng s) /\
  IpLimiter.max_per_ip (Gate.limiter (gate (eng s))) = max_connections_per_ip (limits (config (eng s))).
Proof.
  intros [_ [Hm Hf Hi] _]. split; [|exact Hm]. unfold slots_held.
  destruct (decide (max_connections_per_ip (limits (config (eng s))) = 0)) as [Hz|Hnz].
  - destruct (Hf Hz) as [E _]. unfold IpLimiter.current. by rewrite E, lookup_empty.
  - destruct (Hi Hnz) as [_ Hc _ _]. cbn [lim live] in Hc. rewrite Hc. unfold guards. lia.
Qed.

(** Every way the gate can answer. *)
Lemma gate_admit_spec peer headers url e r e' :
  let lm := Gate.limiter (gate e) in
  let ip := Gate.resolve_client_ip net_contains peer headers (gate e) in
  0 <= IpLimiter.max_per_ip lm < 2 ^ 32 -> 0 <= slots_held ip e -> gate_admit net_contains peer headers url e = (r, e') ->
  match r with
  | inl up => Gate.draining (gate e) = false /\ Gate.au_client_ip up = ip /\ Gate.au_headers up = headers /\ Gate.au_url up = url /\
      IpLimiter.try_admit ip lm = (Some (Gate.au_guard up), Gate.limiter (gate e'))
  | inr status => (forall j, slots_held j e' = slots_held j e) /\
      if Gate.draining (gate e) then status = HTTP_SERVICE_UNAVAILABLE /\ l_metrics (local e') = l_metrics (local e)
      else status = HTTP_TOO_MANY_REQUESTS /\ IpLimiter.max_per_ip lm <> 0 /\ IpLimiter.max_per_ip lm <= slots_held ip e /\
        l_metrics (local e') = Metrics.add Metrics.AdmissionRejectedIp 1 (l_metrics (local e))
  end.
Proof.
  intros lm ip Hm Hs E. unfold gate_admit, Gate.admit_upgrade in E. cbn [Gate.draining Gate.limiter Gate.metrics] in E.
  destruct (Gate.draining (gate e)); [by simplify_eq/=|].
  change (Gate.resolve_client_ip _ _ _ _) with ip in E. fold lm in E.
  destruct (IpLimiter.try_admit ip lm) as [[g|] lm'] eqn:Ea; simplify_eq/=; [by split_and!|].
  destruct (try_admit_current _ _ _ _ Hm Hs Ea) as (_ & Hu & Hcap & Hsame). unfold IpLimiter.unlimited in Hu.
  split; [exact Hsame|]. split_and!; try done. by apply Z.eqb_neq.
Qed.

Lemma gate_admit_quiet peer headers url e r e' : gate_admit net_contains peer headers url e = (r, e') -> quiet (local e) (local e').
Proof.
  intros E. unfold gate_admit, Gate.admit_upgrade in E. cbn [Gate.draining Gate.limiter Gate.metrics] in E.
  repeat break_match_hyp E; simplify_eq/=; by split.
Qed.

(** One admission through the gate is the engine's admission step. *)
Lemma gate_admit_step s peer headers url r e' : gate_admit net_contains peer headers url (eng s) = (r, e') ->
  eng_step net_contains s (set_upgrades (upgrades s ++ match r with inl up => [up] | inr _ => [] end) (set_eng e' s)).
Proof.
  intros E. destruct r as [up|status].
  - apply (EAttach _ _ true true peer headers url Accepted (Some up)). unfold attach. cbn [negb]. by rewrite E.
  - apply (EAttach _ _ true true peer headers url (Rejected status) None). unfold attach. cbn [negb]. by rewrite E.
Qed.

(** C10. The gated handshake, from any reachable engine and for every way the
    request and the socket can fail: [accept] never panics, every outcome is a
    sequence of the engine's own steps, and the tables are untouched.  It
    returns a connection only for a complete request whose response was sent,
    with the captured request and exactly one slot charged to the client's
    address.  On every error no slot stays charged to any address: a malformed
    request gets no answer, a draining engine answers 503, an address at its cap
    429 (and the rejection is counted), and a handshake that fails after the
    admission is reported with the close code of its error. *)
Theorem accept_error_paths cfg mesh e0 s h peer :
  start parse_net cfg mesh = inl e0 -> 0 <= max_connections_per_ip (limits cfg) < 2 ^ 32 ->
  (forall m tg, mesh = Some m -> mesh_hosts tg m = false) -> rtc (eng_step net_contains) (sys_start e0) s ->
  exists resp out e', accept net_contains h peer (eng s) = (resp, Some out, e') /\ quiet (local (eng s)) (local e') /\
    rtc (eng_step net_contains) s (set_upgrades (upgrades s ++ match out with inl up => [up] | inr _ => [] end) (set_eng e' s)) /\
    match out with
    | inl up => exists rq refused, h = Requested rq None refused /\ resp = Some Switching /\
        Gate.au_client_ip up = client_of peer rq (eng s) /\ Gate.au_headers up = capture_headers rq /\ Gate.au_url up = capture_url rq /\
        (forall ip, slots_held ip e' = slots_held ip (eng s) +
           if decide (ip = Gate.au_client_ip up /\ max_connections_per_ip (limits cfg) <> 0) then 1 else 0)
    | inr err => (forall ip, slots_held ip e' = slots_held ip (eng s)) /\
        match h, resp with
        | Malformed _, None => err = NotAdmitted
        | Requested _ (Some io) _, Some Switching => err = HandshakeFailed (map_err io)
        | Requested rq _ _, Some (ErrorResponse status _) => err = NotAdmitted /\
            if Gate.draining (gate (eng s)) then status = 503
            else status = 429 /\ 0 < max_connections_per_ip (limits cfg) <= slots_held (client_of peer rq (eng s)) (eng s) /\
              Metrics.get Metrics.AdmissionRejectedIp (l_metrics (local e')) =
                wrap 64 (Metrics.get Metrics.AdmissionRejectedIp (l_metrics (local (eng s))) + 1)
        | _, _ => False
        end
    end.
Proof.
  intros Hst Hmax Hm Hr. destruct (reachable_inv parse_net net_contains cfg mesh e0 s Hst Hmax Hm Hr) as [Hcfg Hi].
  destruct h as [err|rq io refused].
  { exists None, (inr NotAdmitted), (eng s). rewrite app_nil_r. split_and!; try done. by destruct s. }
  destruct (slots_nonneg s (client_of peer rq (eng s)) Hi) as [Hs Hmx]. rewrite Hcfg in Hmx.
  cbn [accept]. unfold on_request.
  destruct (gate_admit net_contains peer (capture_headers rq) (capture_url rq) (eng s)) as [r e1] eqn:E.
  pose proof (gate_admit_quiet _ _ _ _ _ _ E) as Hq. pose proof (gate_admit_step _ _ _ _ _ _ E) as Hstep.
  pose proof (gate_admit_spec _ _ _ _ _ _ ltac:(by rewrite Hmx) Hs E) as Hsp. cbn zeta in Hsp. fold (client_of peer rq (eng s)) in Hsp.
  destruct r as [up|status].
  - destruct Hsp as (_ & Hip & Hh & Hu & Ha). destruct io as [err|]; cbn [accept_end].
    + eexists _, _, _. split; [done|]. split; [exact Hq|]. split; [|split; [|done]].
      * eapply rtc_l; [exact Hstep|]. apply rtc_once. rewrite app_nil_r. rewrite <-(app_nil_r (upgrades s)) at 2.
        apply (EAbandon _ (set_upgrades (upgrades s ++ [up]) (set_eng e1 s)) (upgrades s) up []). done.
      * apply (admit_then_drop _ _ _ _ ltac:(by rewrite Hmx) Hs Ha).
    + eexists _, _, _. split_and!; [done|exact Hq|by apply rtc_once|]. exists rq, refused. split_and!; [done..|].
      intros ip. destruct (try_admit_current _ _ _ _ ltac:(by rewrite Hmx) Hs Ha) as (_ & Hg & Hall). unfold slots_held. rewrite Hall, Hip, Hg.
      cbn [IpLimiter.holds]. unfold IpLimiter.unlimited. rewrite Hmx. f_equal. apply decide_ext. rewrite negb_true_iff, Z.eqb_neq. done.
  - destruct Hsp as [Hsame Hcase]. eexists _, _, _. split; [done|]. split; [exact Hq|]. split; [by apply rtc_once|]. split; [exact Hsame|].
    assert (Hans : if Gate.draining (gate (eng s)) then default HTTP_TOO_MANY_REQUESTS (status_from_u16 status) = 503
      else default HTTP_TOO_MANY_REQUESTS (status_from_u16 status) = 429 /\
        0 < max_connections_per_ip (limits cfg) <= slots_held (client_of peer rq (eng s)) (eng s) /\
        Metrics.get Metrics.AdmissionRejectedIp (l_metrics (local e1)) =
          wrap 64 (Metrics.get Metrics.AdmissionRejectedIp (l_metrics (local (eng s))) + 1)).
    { rewrite Hmx in Hcase. destruct (Gate.draining (gate (eng s))); [by destruct Hcase as [-> _]|]. destruct Hcase as (-> & Hnz & Hcap & ->).
      split_and!; [done|lia|done|by rewrite metrics_get_add_eq]. }
    by destruct io.
Qed.
End AcceptFacts.

(** A request from the demo client whose response could not be sent. *)
Definition demo_request : Request :=
  {| rq_headers := [(str "Sec-WebSocket-Key", str "k"); (str "X-Forwarded-For", [255; 49])]; rq_path_and_query := Some (str "/chat?x=1"); rq_uri := [] |}.

Lemma accept_error_paths_witness :
  exists resp out e', Transport.accept demo_contains (Requested demo_request (Some (WsCapacity (str "too long"))) (WsOther [])) (V4 7) (Engine.eng demo_sys) = (resp, Some out, e') /\
    slots_held (V4 7) e' = 1 /\ out = inr (HandshakeFailed {| close_code := 1009; message := str "too long" |}).
Proof.
  destruct (accept_error_paths demo_parse demo_contains demo_config (Some demo_node) demo_engine demo_sys
    (Requested demo_request (Some (WsCapacity (str "too long"))) (WsOther [])) (V4 7)) as (resp & out & e' & E & _ & _ & Hout).
  - reflexivity.
  - split; [vm_compute; discriminate|vm_compute; reflexivity].
  - intros m tg [= <-]. by destruct tg.
  - exact demo_engine_run.
  - exists resp, out, e'. split; [exact E|]. vm_compute in E. injection E as <- <- <-. split; [|reflexivity].
    destruct Hout as [Hsl _]. exact (Hsl (V4 7)).
Defined.

(** ** The attach completion and the listener *)

Section SetupFacts.
Context {SL : Type -> Type} {slab_ops : Slab SL} {Ch : Type -> Type} {mpsc_ops : Mpsc Ch}.
Context {M : Type} `{Mesh M}.
Context {Net : Type} (net_contains : Net -> IpAddr -> bool) {Sock : Type} (derive_accept_key : bytes -> rstring).
Import Engine Transport.
Implicit Types (s : Sys (SL := SL) (Ch := Ch) (M := M) (Net := Net)).

(** [setup_attached] gives up its slot exactly when the response could not be
    written, as the engine's abandon step; otherwise the codec reads the head
    and then the wire. *)
Lemma setup_attached_spec s up1 up up2 we fe head (io : Sock) :
  upgrades s = up1 ++ up :: up2 ->
  match setup_attached derive_accept_key we fe head io up (eng s) with
  | (text, Some (stream, up'), e') => we = None /\ fe = None /\ up' = up /\ e' = eng s /\ stream = PrefixedStream.prefixed head io /\
      text = switching_text (derive_accept_key (attach_key up))
  | (_, None, e') => (we <> None \/ fe <> None) /\
      eng_step net_contains s (set_upgrades (up1 ++ up2) (set_eng e' s))
  end.
Proof.
  intros Hup. unfold setup_attached, adopt. destruct we as [err|]; [|destruct fe as [err|]].
  - split; [by left|]. by apply EAbandon.
  - split; [by right|]. by apply EAbandon.
  - by split_and!.
Qed.

(** A draining engine answers 503, with a body that names the per-address cap. *)
Lemma draining_body peer rq (e : Engine.t SL Ch M Net) : Gate.draining (gate e) = true ->
  exists e', on_request net_contains peer rq e = (ErrorResponse 503 rejected_body, None, e').
Proof. intros Hd. unfold on_request, gate_admit, Gate.admit_upgrade. cbn [Gate.draining]. rewrite Hd. by eexists. Qed.

(** Header lookup in [attach] ignores the case of the names, so capturing them in
    lower case loses nothing. *)
Lemma captured_header name rq :
  header_value (capture_headers rq) name = header_value (map (fun '(n, v) => (n, from_utf8_lossy v)) (rq_headers rq)) name.
Proof.
  unfold header_value, capture_headers. induction (rq_headers rq) as [|[n v] hs IH]; [done|]. cbn [map List.find].
  assert (eq_ignore_ascii_case (map to_ascii_lower n) name = eq_ignore_ascii_case n name) as ->.
  { unfold eq_ignore_ascii_case. f_equal. rewrite map_map. apply bool_decide_ext. by rewrite (map_ext _ _ to_ascii_lower_idem). }
  by destruct (eq_ignore_ascii_case n name).
Qed.
End SetupFacts.

(** The loop accepts until the shutdown is signalled, and nothing after. *)
Lemma accept_loop_stops evs1 evs2 : ~ Listener.ShutdownChanged true ∈ evs1 ->
  Listener.accept_loop (evs1 ++ Listener.ShutdownChanged true :: evs2) =
    (omap (fun ev => match ev with Listener.AcceptOk peer => Some peer | _ => None end) evs1, true).
Proof.
  induction evs1 as [|ev evs1 IH]; intros Hn; [done|]. apply not_elem_of_cons in Hn as [Hne Hn]. specialize (IH Hn).
  destruct ev as [[]|peer|]; cbn; rewrite ?IH; done.
Qed.

(** The wait of [close]: when every sleep takes at least [nap], the loop ends with
    the registry empty or the deadline passed, and at most [timeout / nap + 1]
    sleeps after it began. *)
Lemma wait_drained_ends nap deadline obs start :
  0 < nap -> obs <> [] -> (forall i b t, obs !! i = Some (b, t) -> start + Z.of_nat i * nap <= t) ->
  deadline - start <= (Z.of_nat (length obs) - 1) * nap ->
  exists n b t, Listener.wait_drained deadline obs = Some n /\ obs !! n = Some (b, t) /\ (b = true \/ deadline <= t) /\
    (n = O \/ (Z.of_nat n - 1) * nap < deadline - start).
Proof.
  intros Hnap. revert start. induction obs as [|[b t] obs IH]; intros start Hne Hobs Hlen; [done|]. cbn [Listener.wait_drained].
  pose proof (Hobs 0%nat b t eq_refl) as Ht. destruct (negb b && (t <? deadline)) eqn:Ec.
  - bool_facts. subst b. cbn [length] in Hlen. rewrite Nat2Z.inj_succ in Hlen.
    destruct (IH (start + nap)) as (n & b & t' & -> & Hn & Hend & Hbound).
    + intros ->. cbn in Hlen. lia.
    + intros i b t' Hi. specialize (Hobs (S i) b t' Hi). lia.
    + lia.
    + exists (S n), b, t'. split_and!; [done..|]. right. destruct Hbound as [->|Hb]; [lia|]. lia.
  - exists 0%nat, b, t. split_and!; [done..| |by left]. destruct b; [by left|right]. cbn [negb andb] in Ec. by apply Z.ltb_ge.
Qed.
