(* ===== verification/Telemetry.v ===== *)
(** * Rates and the Prometheus text (crates/core/src/sampler.rs, metrics.rs, engine.rs)

    The rate sampler over the counters, the pressure gauges, and
    [Engine::metrics_text].  Floats are [Float.f64]; [f64::exp] and the
    [Display] of a float are parameters. *)

From S2P Require Import Prelude Text Float Ids Runtime Config Metrics Registry Rooms Limits Identity Broadcast Frame MeshWire Interest MeshNode Cluster Engine.

(** ** Rates *)

(** [struct Rates]: each slot holds the bits of an f64. *)
Record Rates := {
  messages_in_1s : f64; messages_in_10s : f64; messages_out_1s : f64; messages_out_10s : f64;
  bytes_in_1s : f64; bytes_in_10s : f64; bytes_out_1s : f64; bytes_out_10s : f64;
}.
Definition Rates_default : Rates :=
  {| messages_in_1s := f0; messages_in_10s := f0; messages_out_1s := f0; messages_out_10s := f0;
     bytes_in_1s := f0; bytes_in_10s := f0; bytes_out_1s := f0; bytes_out_10s := f0 |}.

Module Sampler.

(** [struct Counts] and [Counts::read]. *)
Record Counts := { c_messages_in : Z; c_messages_out : Z; c_bytes_in : Z; c_bytes_out : Z }.
Definition read (m : Metrics.t) : Counts :=
  {| c_messages_in := Metrics.get Metrics.MessagesIn m; c_messages_out := Metrics.get Metrics.MessagesOut m;
     c_bytes_in := Metrics.get Metrics.BytesIn m; c_bytes_out := Metrics.get Metrics.BytesOut m |}.

(** [fn ewma]. *)
Definition ewma (prev sample alpha : f64) : f64 := fadd prev (fmul alpha (fsub sample prev)).

Section Sampler.
Context (exp : f64 -> f64).

(** [fn alphas]. *)
Definition alphas (dt : f64) : f64 * f64 :=
  (fsub f1 (exp (fdiv (fopp dt) f1)), fsub f1 (exp (fdiv (fopp dt) (f64_of 10)))).

(** [fn ewma_step] on one pair of slots. *)
Definition ewma_step (rate_1s rate_10s : f64) (delta : Z) (dt alpha_1s alpha_10s : f64) : f64 * f64 :=
  let inst := if fltb f0 dt then fdiv (f64_of delta) dt else f0 in
  (ewma rate_1s inst alpha_1s, ewma rate_10s inst alpha_10s).

(** [interval.as_secs_f64().max(1e-3)] for an interval in milliseconds. *)
Definition interval_secs (ms : Z) : f64 :=
  fmax (fadd (f64_of (ms / 1000)) (fdiv (f64_of (ms mod 1000 * 1000000)) (f64_of 1000000000))) (fdiv f1 (f64_of 1000)).

(** [now.c.wrapping_sub(last.c)]. *)
Definition delta (now last : Z) : Z := wrap 64 (now - last).

(** One round of the loop of [run]: the counters as they are now. *)
Definition tick (interval_ms : Z) (now last : Counts) (r : Rates) : Rates :=
  let dt := interval_secs interval_ms in
  let '(a1, a10) := alphas dt in
  let '(mi1, mi10) := ewma_step (messages_in_1s r) (messages_in_10s r) (delta (c_messages_in now) (c_messages_in last)) dt a1 a10 in
  let '(mo1, mo10) := ewma_step (messages_out_1s r) (messages_out_10s r) (delta (c_messages_out now) (c_messages_out last)) dt a1 a10 in
  let '(bi1, bi10) := ewma_step (bytes_in_1s r) (bytes_in_10s r) (delta (c_bytes_in now) (c_bytes_in last)) dt a1 a10 in
  let '(bo1, bo10) := ewma_step (bytes_out_1s r) (bytes_out_10s r) (delta (c_bytes_out now) (c_bytes_out last)) dt a1 a10 in
  {| messages_in_1s := mi1; messages_in_10s := mi10; messages_out_1s := mo1; messages_out_10s := mo10;
     bytes_in_1s := bi1; bytes_in_10s := bi10; bytes_out_1s := bo1; bytes_out_10s := bo10 |}.

(** [run], over the counters read at each tick. *)
Fixpoint run (interval_ms : Z) (reads : list Counts) (last : Counts) (r : Rates) : Rates :=
  match reads with
  | [] => r
  | now :: reads => run interval_ms reads now (tick interval_ms now last r)
  end.

End Sampler.
End Sampler.

(** ** Gauges *)

(** [EventSender::pressure] (events.rs), [PeerQueue::pressure] (mesh queue.rs)
    and the percentage of [backpressure_report]. *)
Definition event_pressure (max capacity : Z) : f64 :=
  if max =? 0 then f0 else fdiv (f64_of (max - capacity)) (f64_of max).
Definition fmin (x y : f64) : f64 :=
  match x, y with
  | S754_nan, _ => y
  | _, S754_nan => x
  | _, _ => if fltb y x then y else x
  end.
Definition queue_pressure (hwm_bytes queued : Z) : f64 :=
  if hwm_bytes =? 0 then f0 else fmin (fdiv (f64_of queued) (f64_of hwm_bytes)) f1.
Definition hwm_percent (depth hwm : Z) : f64 :=
  if 0 <? hwm then fmul (fdiv (f64_of depth) (f64_of hwm)) (f64_of 100) else f0.

(** ** [Engine::metrics_text] *)

Definition nl : bytes := [10].
Definition quote : bytes := [34].

(** The closures [gauge] and [counter]. *)
Definition metric_row (kind name help : rstring) (value : rstring) : bytes :=
  str "# HELP " ++ name ++ str " " ++ help ++ nl ++ str "# TYPE " ++ name ++ str " " ++ kind ++ nl ++ name ++ str " " ++ value ++ nl.
Definition gauge (name help : string) (v : Z) : bytes := metric_row (str "gauge") (str name) (str help) (dec v).
Definition counter (name help : string) (v : Z) : bytes := metric_row (str "counter") (str name) (str help) (dec v).

(** A row whose samples follow: [# HELP] and [# TYPE] alone. *)
Definition head_row (kind name help : rstring) : bytes :=
  str "# HELP " ++ name ++ str " " ++ help ++ nl ++ str "# TYPE " ++ name ++ str " " ++ kind ++ nl.
(** [{name}{{label="v"}} value]. *)
Definition labelled (name label v value : rstring) : bytes :=
  name ++ str "{" ++ label ++ str "=" ++ quote ++ v ++ quote ++ str "} " ++ value ++ nl.

Section MetricsText.
Context {SL : Type -> Type} {slab_ops : Slab SL} {Ch : Type -> Type} {mpsc_ops : Mpsc Ch}.
Context {M : Type} `{Mesh M} {Net : Type}.
Context (show : f64 -> rstring).

(** The closure [rate]. *)
Definition rate (name help : string) (v1 v10 : f64) : bytes :=
  head_row (str "gauge") (str name) (str help) ++ labelled (str name) (str "window") (str "1s") (show v1) ++
  labelled (str name) (str "window") (str "10s") (show v10).

(** The rows of every engine. *)
Definition text_core (e : Engine.t SL Ch M Net) (uptime_ms : Z) (pressure : f64) : bytes :=
  let m := l_metrics (Engine.local e) in
  gauge "beamsocket_connections" "Currently open connections." (Metrics.get Metrics.Connections m) ++
  gauge "beamsocket_users" "Distinct users with at least one live connection." (Engine.user_count e) ++
  gauge "beamsocket_rooms" "Live rooms." (Engine.room_count e) ++
  gauge "beamsocket_uptime_seconds" "Seconds since the engine booted." (uptime_ms / 1000) ++
  counter "beamsocket_messages_in_total" "Messages received from clients." (Metrics.get Metrics.MessagesIn m) ++
  counter "beamsocket_messages_out_total" "Messages sent to clients." (Metrics.get Metrics.MessagesOut m) ++
  counter "beamsocket_bytes_in_total" "Bytes received from clients." (Metrics.get Metrics.BytesIn m) ++
  counter "beamsocket_bytes_out_total" "Bytes sent to clients." (Metrics.get Metrics.BytesOut m) ++
  counter "beamsocket_backpressure_drops_total" "Frames dropped / connections cut by a send-queue backpressure policy."
    (Metrics.get Metrics.BackpressureDrops m) ++
  counter "beamsocket_bridge_dropped_total" "Message events shed at the bounded engine-to-bridge queue."
    (Metrics.get Metrics.BridgeDropped m) ++
  counter "beamsocket_admission_rejected_ip_total" "Handshakes rejected by maxConnectionsPerIp."
    (Metrics.get Metrics.AdmissionRejectedIp m) ++
  counter "beamsocket_authorize_rejected_total" "Connections closed by an authorize rejection."
    (Metrics.get Metrics.AuthorizeRejected m) ++
  counter "beamsocket_authorize_timed_out_total" "Connections closed because authorize never settled in time."
    (Metrics.get Metrics.AuthorizeTimedOut m) ++
  counter "beamsocket_pending_overflow_total" "Handshakes shed because the pending-upgrade table was full."
    (Metrics.get Metrics.PendingOverflow m) ++
  counter "beamsocket_admin_disconnects_total" "Connections closed by disconnectSocket/disconnectUser."
    (Metrics.get Metrics.AdminDisconnects m) ++
  counter "beamsocket_admin_room_closes_total" "Rooms closed by closeRoom." (Metrics.get Metrics.AdminRoomCloses m) ++
  metric_row (str "gauge") (str "beamsocket_bridge_pressure") (str "Rust-to-JS bridge saturation (0..1).") (show pressure).

(** The rows of the sampler, when it runs. *)
Definition text_rates (rates : option Rates) : bytes :=
  match rates with
  | None => []
  | Some r =>
      rate "beamsocket_messages_in_per_second" "EWMA inbound message rate." (messages_in_1s r) (messages_in_10s r) ++
      rate "beamsocket_messages_out_per_second" "EWMA outbound message rate." (messages_out_1s r) (messages_out_10s r) ++
      rate "beamsocket_bytes_in_per_second" "EWMA inbound byte rate." (bytes_in_1s r) (bytes_in_10s r) ++
      rate "beamsocket_bytes_out_per_second" "EWMA outbound byte rate." (bytes_out_1s r) (bytes_out_10s r)
  end.

(** The rows of a cluster node. *)
Definition text_cluster (summary : option (Z * Z * Z * Z * Z)) (pressures : list (Z * f64)) : bytes :=
  match summary with
  | None => []
  | Some (node_id, peers, relay_in, relay_out, relay_drops) =>
      gauge "beamsocket_cluster_node_id" "This node's cluster id." node_id ++
      gauge "beamsocket_cluster_peers" "Live mesh peer links." peers ++
      counter "beamsocket_cluster_relay_in_total" "Relay frames received and fanned out locally." relay_in ++
      counter "beamsocket_cluster_relay_out_total" "Relay frames sent to peers." relay_out ++
      counter "beamsocket_cluster_relay_drops_total" "Relay frames dropped (full peer queue or unreachable peer)." relay_drops ++
      head_row (str "gauge") (str "beamsocket_cluster_peer_pressure") (str "Per-peer outbound mesh queue pressure (0..1).") ++
      concat (map (fun '(peer, p) => labelled (str "beamsocket_cluster_peer_pressure") (str "peer") (dec peer) (show p)) pressures)
  end.

(** [Engine::metrics_text]. *)
Definition metrics_text (e : Engine.t SL Ch M Net) (uptime_ms : Z) (pressure : f64) (rates : option Rates) (pressures : list (Z * f64)) : bytes :=
  text_core e uptime_ms pressure ++ text_rates rates ++ text_cluster (Engine.cluster_summary e) pressures.

End MetricsText.

(** ** Reading the text back *)

(** A line up to its first space, and the rest. *)
Fixpoint cut (s : bytes) : bytes * bytes :=
  match s with
  | [] => ([], [])
  | b :: s => if b =? 32 then ([], s) else let '(a, r) := cut s in (b :: a, r)
  end.

(** The samples of an exposition: comments and empty lines are skipped. *)
Definition sample (line : bytes) : option (rstring * rstring) :=
  match line with
  | [] => None
  | b :: _ => if b =? 35 then None else Some (cut line)
  end.
Definition scrape (text : bytes) : list (rstring * rstring) := omap sample (split 10 text).

(** The first sample of a name, and its value as a number. *)
Fixpoint find_sample (name : rstring) (l : list (rstring * rstring)) : option rstring :=
  match l with
  | [] => None
  | (n, v) :: l => if bool_decide (n = name) then Some v else find_sample name l
  end.
Definition number (v : rstring) : option Z :=
  let '(z, rest) := scan_dec 0 v in if bool_decide (v = []) || negb (bool_decide (rest = [])) then None else Some z.
Definition read_metric (name : string) (text : bytes) : option Z := v ← find_sample (str name) (scrape text); number v.

Definition free (c : Z) (s : bytes) : bool := forallb (fun b => negb (b =? c)) s.

Lemma free_app c s t : free c (s ++ t) = free c s && free c t.
Proof. apply forallb_app. Qed.

Lemma split_free c s : free c s = true -> split c s = [s].
Proof.
  induction s as [|b s IH]; [done|]. unfold free. cbn [forallb split]. intros [Hb Hs]%andb_prop. apply negb_true_iff in Hb. by rewrite Hb, IH.
Qed.

Lemma scrape_line line rest : free 10 line = true -> scrape (line ++ nl ++ rest) = option_list (sample line) ++ scrape rest.
Proof.
  intros Hl. unfold scrape, nl. change ([10] ++ rest) with (10 :: rest). rewrite split_app, split_free by done. cbn. by destruct (sample line).
Qed.

Lemma cut_free s v : free 32 s = true -> cut (s ++ 32 :: v) = (s, v).
Proof.
  induction s as [|b s IH]; [done|]. unfold free. cbn [forallb app cut]. intros [Hb Hs]%andb_prop. apply negb_true_iff in Hb. by rewrite Hb, IH.
Qed.

Lemma dec_free c n : 0 <= n -> is_digit c = false -> free c (dec n) = true.
Proof.
  intros Hn Hc. apply forallb_forall. intros b Hb. destruct (dec_digits n Hn) as [Ha _]. rewrite Forall_forall in Ha.
  specialize (Ha b ltac:(by apply list_elem_of_In)). apply negb_true_iff, Z.eqb_neq. congruence.
Qed.

Lemma number_dec n : 0 <= n -> number (dec n) = Some n.
Proof.
  intros Hn. unfold number. pose proof (dec_scan n [] Hn I) as E. rewrite app_nil_r in E. rewrite E.
  by rewrite bool_decide_false by apply (dec_digits n Hn).
Qed.

(** What a metric's name must be: no line break, no space, not a comment. *)
Definition name_ok (name : rstring) : bool :=
  free 10 name && free 32 name && match name with [] => false | b :: _ => negb (b =? 35) end.

Lemma sample_comment s : sample (35 :: s) = None.
Proof. done. Qed.

Lemma sample_named name v : name_ok name = true -> sample (name ++ 32 :: v) = Some (name, v).
Proof.
  unfold name_ok. intros [[_ H32]%andb_prop H35]%andb_prop. destruct name as [|b name]; [done|]. apply negb_true_iff in H35.
  unfold sample. cbn [app]. rewrite H35. f_equal. by apply (cut_free (b :: name)).
Qed.

Lemma scrape_head kind name help rest : free 10 kind = true -> free 10 name = true -> free 10 help = true ->
  scrape (head_row kind name help ++ rest) = scrape rest.
Proof.
  intros Hk Hn Hh. unfold head_row.
  replace ((str "# HELP " ++ name ++ str " " ++ help ++ nl ++ str "# TYPE " ++ name ++ str " " ++ kind ++ nl) ++ rest)
    with ((str "# HELP " ++ name ++ str " " ++ help) ++ nl ++ (str "# TYPE " ++ name ++ str " " ++ kind) ++ nl ++ rest) by (by rewrite <-!app_assoc).
  rewrite !scrape_line by (by rewrite !free_app, Hn, ?Hh, ?Hk). done.
Qed.

(** Every row yields its sample. *)
Lemma scrape_row kind name help v rest : free 10 kind = true -> name_ok name = true -> free 10 help = true -> free 10 v = true ->
  scrape (metric_row kind name help v ++ rest) = (name, v) :: scrape rest.
Proof.
  intros Hk Hn Hh Hv. assert (Hn10 : free 10 name = true) by (unfold name_ok in Hn; by destruct (free 10 name)).
  replace (metric_row kind name help v ++ rest) with (head_row kind name help ++ (name ++ 32 :: v) ++ nl ++ rest)
    by (unfold metric_row, head_row; by rewrite <-!app_assoc).
  rewrite scrape_head, scrape_line by (done || by rewrite free_app, Hn10). by rewrite sample_named.
Qed.

Lemma scrape_labelled name label l v rest :
  let key := name ++ str "{" ++ label ++ str "=" ++ quote ++ l ++ quote ++ str "}" in
  name_ok key = true -> free 10 v = true -> scrape (labelled name label l v ++ rest) = (key, v) :: scrape rest.
Proof.
  intros key Hn Hv. assert (Hn10 : free 10 key = true) by (unfold name_ok in Hn; by destruct (free 10 key)).
  replace (labelled name label l v ++ rest) with ((key ++ 32 :: v) ++ nl ++ rest) by (unfold labelled, key; by rewrite <-!app_assoc).
  rewrite scrape_line by (by rewrite free_app, Hn10). by rewrite sample_named.
Qed.

Lemma find_sample_app name l1 l2 : find_sample name (l1 ++ l2) =
  match find_sample name l1 with Some v => Some v | None => find_sample name l2 end.
Proof. induction l1 as [|[n v] l1 IH]; cbn [app find_sample]; [done|]. by destruct (bool_decide (n = name)). Qed.

(** ** The exposition is exact *)

(** The name a counter is exposed under. *)
Definition metric_name (c : Metrics.counter) : string :=
  match c with
  | Metrics.Connections => "beamsocket_connections"
  | Metrics.MessagesIn => "beamsocket_messages_in_total"
  | Metrics.MessagesOut => "beamsocket_messages_out_total"
  | Metrics.BytesIn => "beamsocket_bytes_in_total"
  | Metrics.BytesOut => "beamsocket_bytes_out_total"
  | Metrics.BackpressureDrops => "beamsocket_backpressure_drops_total"
  | Metrics.BridgeDropped => "beamsocket_bridge_dropped_total"
  | Metrics.AdmissionRejectedIp => "beamsocket_admission_rejected_ip_total"
  | Metrics.AuthorizeRejected => "beamsocket_authorize_rejected_total"
  | Metrics.AuthorizeTimedOut => "beamsocket_authorize_timed_out_total"
  | Metrics.PendingOverflow => "beamsocket_pending_overflow_total"
  | Metrics.AdminDisconnects => "beamsocket_admin_disconnects_total"
  | Metrics.AdminRoomCloses => "beamsocket_admin_room_closes_total"
  end.

Section Exposition.
Context {SL : Type -> Type} {slab_ops : Slab SL} {Ch : Type -> Type} {mpsc_ops : Mpsc Ch}.
Context {M : Type} `{Mesh M} {Net : Type}.
(** A float prints on one line. *)
Context (show : f64 -> rstring) (show_line : forall v, free 10 (show v) = true).
Implicit Types (e : Engine.t SL Ch M Net).

Definition core_samples e (uptime_ms : Z) (pressure : f64) : list (rstring * rstring) :=
  let m := l_metrics (Engine.local e) in
  [(str "beamsocket_connections", dec (Metrics.get Metrics.Connections m)); (str "beamsocket_users", dec (Engine.user_count e));
   (str "beamsocket_rooms", dec (Engine.room_count e)); (str "beamsocket_uptime_seconds", dec (uptime_ms / 1000))] ++
  map (fun c => (str (metric_name c), dec (Metrics.get c m)))
    [Metrics.MessagesIn; Metrics.MessagesOut; Metrics.BytesIn; Metrics.BytesOut; Metrics.BackpressureDrops; Metrics.BridgeDropped;
     Metrics.AdmissionRejectedIp; Metrics.AuthorizeRejected; Metrics.AuthorizeTimedOut; Metrics.PendingOverflow;
     Metrics.AdminDisconnects; Metrics.AdminRoomCloses] ++
  [(str "beamsocket_bridge_pressure", show pressure)].

Lemma scrape_core e uptime_ms pressure rest :
  (forall c, 0 <= Metrics.get c (l_metrics (Engine.local e))) -> 0 <= uptime_ms ->
  scrape (text_core show e uptime_ms pressure ++ rest) = core_samples e uptime_ms pressure ++ scrape rest.
Proof.
  intros Hm Hu. pose proof (Z.div_pos uptime_ms 1000 Hu ltac:(lia)).
  unfold text_core, gauge, counter. cbn zeta. rewrite <-!app_assoc.
  rewrite !scrape_row by first [reflexivity | apply show_line | apply dec_free; [first [apply Hm | apply Nat2Z.is_nonneg | done]|reflexivity]].
  done.
Qed.

Definition window (name w : string) : rstring := str name ++ str "{" ++ str "window" ++ str "=" ++ quote ++ str w ++ quote ++ str "}".
Definition rate_samples (rates : option Rates) : list (rstring * rstring) :=
  match rates with
  | None => []
  | Some r =>
      [(window "beamsocket_messages_in_per_second" "1s", show (messages_in_1s r)); (window "beamsocket_messages_in_per_second" "10s", show (messages_in_10s r));
       (window "beamsocket_messages_out_per_second" "1s", show (messages_out_1s r)); (window "beamsocket_messages_out_per_second" "10s", show (messages_out_10s r));
       (window "beamsocket_bytes_in_per_second" "1s", show (bytes_in_1s r)); (window "beamsocket_bytes_in_per_second" "10s", show (bytes_in_10s r));
       (window "beamsocket_bytes_out_per_second" "1s", show (bytes_out_1s r)); (window "beamsocket_bytes_out_per_second" "10s", show (bytes_out_10s r))]
  end.

Lemma scrape_rates rates rest : scrape (text_rates show rates ++ rest) = rate_samples rates ++ scrape rest.
Proof.
  destruct rates as [r|]; [|done]. unfold text_rates, rate. rewrite <-!app_assoc.
  repeat first [rewrite scrape_head by reflexivity | rewrite scrape_labelled by first [reflexivity|apply show_line]].
  done.
Qed.

Definition peer_key (peer : Z) : rstring :=
  str "beamsocket_cluster_peer_pressure" ++ str "{" ++ str "peer" ++ str "=" ++ quote ++ dec peer ++ quote ++ str "}".
Definition cluster_samples (summary : option (Z * Z * Z * Z * Z)) (pressures : list (Z * f64)) : list (rstring * rstring) :=
  match summary with
  | None => []
  | Some (node_id, peers, relay_in, relay_out, relay_drops) =>
      [(str "beamsocket_cluster_node_id", dec node_id); (str "beamsocket_cluster_peers", dec peers);
       (str "beamsocket_cluster_relay_in_total", dec relay_in); (str "beamsocket_cluster_relay_out_total", dec relay_out);
       (str "beamsocket_cluster_relay_drops_total", dec relay_drops)] ++ map (fun '(peer, p) => (peer_key peer, show p)) pressures
  end.

Lemma scrape_pressures pressures rest : Forall (fun p => 0 <= p.1) pressures ->
  scrape (concat (map (fun '(peer, p) => labelled (str "beamsocket_cluster_peer_pressure") (str "peer") (dec peer) (show p)) pressures) ++ rest) =
  map (fun '(peer, p) => (peer_key peer, show p)) pressures ++ scrape rest.
Proof.
  induction 1 as [|[peer p] l Hp _ IH]; [done|]. cbn [map concat]. rewrite <-app_assoc, scrape_labelled; [by rewrite IH| |apply show_line].
  unfold name_ok. rewrite !free_app, !dec_free by done. reflexivity.
Qed.

Definition summary_ok (summary : option (Z * Z * Z * Z * Z)) : Prop :=
  match summary with Some (a, b, c, d, e) => 0 <= a /\ 0 <= b /\ 0 <= c /\ 0 <= d /\ 0 <= e | None => True end.

Lemma scrape_cluster summary pressures : summary_ok summary -> Forall (fun p => 0 <= p.1) pressures ->
  scrape (text_cluster show summary pressures) = cluster_samples summary pressures.
Proof.
  destruct summary as [[[[[a b] c] d] f]|]; [|done]. intros (Ha & Hb & Hc & Hd & Hf) Hp. unfold text_cluster, gauge, counter.
  rewrite !scrape_row by first [reflexivity | apply dec_free; [done|reflexivity]].
  rewrite scrape_head by reflexivity.
  rewrite <-(app_nil_r (concat _)), scrape_pressures by done. cbn [cluster_samples app]. by rewrite app_nil_r.
Qed.

(** All the samples, in order. *)
Lemma scrape_text e uptime_ms pressure rates pressures :
  (forall c, 0 <= Metrics.get c (l_metrics (Engine.local e))) -> 0 <= uptime_ms ->
  summary_ok (Engine.cluster_summary e) -> Forall (fun p => 0 <= p.1) pressures ->
  scrape (metrics_text show e uptime_ms pressure rates pressures) =
    core_samples e uptime_ms pressure ++ rate_samples rates ++ cluster_samples (Engine.cluster_summary e) pressures.
Proof. intros. unfold metrics_text. by rewrite scrape_core, scrape_rates, scrape_cluster. Qed.

Lemma find_sample_none name l : Forall (fun kv => take 25 kv.1 <> take 25 name) l -> find_sample name l = None.
Proof. induction 1 as [|[n v] l Hn _ IH]; [done|]. cbn [find_sample]. rewrite bool_decide_false; [done|]. intros ->. by apply Hn. Qed.

Lemma find_sample_unique (key : Z -> rstring) pressures peer p :
  (forall a b, a ∈ pressures.*1 -> b ∈ pressures.*1 -> key a = key b -> a = b) -> NoDup pressures.*1 -> (peer, p) ∈ pressures ->
  find_sample (key peer) (map (fun '(peer, p) => (key peer, show p)) pressures) = Some (show p).
Proof.
  induction pressures as [|[q v] l IH]; intros Hk Hnd Hin; [by apply not_elem_of_nil in Hin|]. cbn in Hnd. apply NoDup_cons in Hnd as [Hq Hnd]. cbn [map find_sample].
  apply elem_of_cons in Hin as [[= <- <-]|Hin]; [by rewrite bool_decide_true|]. apply (list_elem_of_fmap_2 fst) in Hin as Hp. cbn in Hp.
  rewrite bool_decide_false; [apply IH; [|done|done]|].
  - intros a b Ha Hb. apply Hk; cbn; by right.
  - intros E. apply Hk in E; cbn; [by subst|by left|by right].
Qed.

Lemma peer_key_inj a b : 0 <= a -> 0 <= b -> peer_key a = peer_key b -> a = b.
Proof. intros Ha Hb E. unfold peer_key in E. simplify_list_eq. by apply dec_inj. Qed.

(** The rate gauges: name, window and the rate each shows. *)
Definition rate_gauges : list (string * string * (Rates -> f64)) :=
  [("beamsocket_messages_in_per_second", "1s", messages_in_1s); ("beamsocket_messages_in_per_second", "10s", messages_in_10s);
   ("beamsocket_messages_out_per_second", "1s", messages_out_1s); ("beamsocket_messages_out_per_second", "10s", messages_out_10s);
   ("beamsocket_bytes_in_per_second", "1s", bytes_in_1s); ("beamsocket_bytes_in_per_second", "10s", bytes_in_10s);
   ("beamsocket_bytes_out_per_second", "1s", bytes_out_1s); ("beamsocket_bytes_out_per_second", "10s", bytes_out_10s)]%string.

Lemma rates_read_back core_part rates cluster_part name w field : (name, w, field) ∈ rate_gauges ->
  find_sample (window name w) core_part = None -> find_sample (window name w) cluster_part = None ->
  find_sample (window name w) (core_part ++ rate_samples rates ++ cluster_part) = (fun r => show (field r)) <$> rates.
Proof.
  intros Hin Hc Hl. rewrite !find_sample_app, Hc, Hl. destruct rates as [r|]; [|done].
  repeat (apply elem_of_cons in Hin as [[= -> -> ->]|Hin]; [done|]). by apply not_elem_of_nil in Hin.
Qed.

Lemma no_rate_in_core e uptime_ms pressure name w field : (name, w, field) ∈ rate_gauges ->
  find_sample (window name w) (core_samples e uptime_ms pressure) = None.
Proof. intros Hin. repeat (apply elem_of_cons in Hin as [[= -> -> ->]|Hin]; [done|]). by apply not_elem_of_nil in Hin. Qed.

Lemma no_rate_in_cluster summary pressures name w field : (name, w, field) ∈ rate_gauges ->
  find_sample (window name w) (cluster_samples summary pressures) = None.
Proof.
  intros Hin. destruct summary as [[[[[a b] c] d] f]|]; [|done]. cbn [cluster_samples].
  assert (Hpre : take 12 (window name w) <> take 12 (str "beamsocket_cluster")).
  { repeat (apply elem_of_cons in Hin as [[= -> -> ->]|Hin]; [vm_compute; discriminate|]). by apply not_elem_of_nil in Hin. }
  assert (Hne : forall k, take 12 k = take 12 (str "beamsocket_cluster") -> take 25 k <> take 25 (window name w)).
  { intros k Hk E. apply Hpre. rewrite <-Hk. apply (f_equal (take 12)) in E. rewrite !take_take in E. symmetry. exact E. }
  apply find_sample_none. apply Forall_app. split; [repeat (constructor; [by apply Hne|]); constructor|].
  apply Forall_map, Forall_forall. intros [peer p] _. by apply Hne.
Qed.

(** C30. The Prometheus text read back: a scraper recovers every counter under
    its name, and the connection, user, room and uptime gauges, as the exact
    integers, and the bridge pressure as the text of its float; the eight rate
    gauges as the text of their rates when the sampler runs, and none of them when
    it does not; on a cluster node the node id, the peer count and the three relay
    counters as exact integers and every peer's pressure under that peer's label,
    and on a single node no cluster sample. *)
Theorem metrics_text_reads_back e uptime_ms pressure rates pressures :
  (forall c, u64_ok (Metrics.get c (l_metrics (Engine.local e)))) -> u64_ok uptime_ms ->
  summary_ok (Engine.cluster_summary e) -> Forall (fun p => 0 <= p.1) pressures -> NoDup pressures.*1 ->
  let text := metrics_text show e uptime_ms pressure rates pressures in
  (forall c, read_metric (metric_name c) text = Some (Metrics.get c (l_metrics (Engine.local e)))) /\
  read_metric "beamsocket_users" text = Some (Engine.user_count e) /\
  read_metric "beamsocket_rooms" text = Some (Engine.room_count e) /\
  read_metric "beamsocket_uptime_seconds" text = Some (uptime_ms / 1000) /\
  find_sample (str "beamsocket_bridge_pressure") (scrape text) = Some (show pressure) /\
  (forall name w field, (name, w, field) ∈ rate_gauges -> find_sample (window name w) (scrape text) = (fun r => show (field r)) <$> rates) /\
  match Engine.cluster_summary e with
  | Some (node_id, peers, relay_in, relay_out, relay_drops) =>
      read_metric "beamsocket_cluster_node_id" text = Some node_id /\ read_metric "beamsocket_cluster_peers" text = Some peers /\
      read_metric "beamsocket_cluster_relay_in_total" text = Some relay_in /\
      read_metric "beamsocket_cluster_relay_out_total" text = Some relay_out /\
      read_metric "beamsocket_cluster_relay_drops_total" text = Some relay_drops /\
      (forall peer p, (peer, p) ∈ pressures -> find_sample (peer_key peer) (scrape text) = Some (show p))
  | None => length (scrape text) = (17 + length (rate_samples rates))%nat
  end.
Proof.
  intros Hm Hu Hs Hp Hnd text. assert (Hm0 : forall c, 0 <= Metrics.get c (l_metrics (Engine.local e))) by (intros c; apply Hm).
  pose proof (proj1 Hu) as Hu0. unfold read_metric. pose proof (scrape_text e uptime_ms pressure rates pressures Hm0 Hu0 Hs Hp) as E. fold text in E. rewrite E. clear E text.
  assert (Hcore : forall name v, find_sample name (core_samples e uptime_ms pressure) = Some v ->
    find_sample name (core_samples e uptime_ms pressure ++ rate_samples rates ++ cluster_samples (Engine.cluster_summary e) pressures) = Some v).
  { intros name v Hv. by rewrite find_sample_app, Hv. }
  split_and!.
  - intros c. erewrite Hcore; [apply number_dec, Hm0|]. by destruct c.
  - erewrite Hcore; [apply number_dec, Nat2Z.is_nonneg|done].
  - erewrite Hcore; [apply number_dec, Nat2Z.is_nonneg|done].
  - erewrite Hcore; [apply number_dec, Z.div_pos; lia|done].
  - by apply Hcore.
  - intros name w field Hin. eapply rates_read_back; [exact Hin|by eapply no_rate_in_core|by eapply no_rate_in_cluster].
  - destruct (Engine.cluster_summary e) as [[[[[a b] c] d] f]|]; [|by rewrite !length_app, Nat.add_0_r].
    destruct Hs as (Ha & Hb & Hc & Hd & Hf).
    assert (Hlate : forall name v, find_sample name (core_samples e uptime_ms pressure ++ rate_samples rates) = None ->
      find_sample name (cluster_samples (Some (a, b, c, d, f)) pressures) = Some v ->
      find_sample name (core_samples e uptime_ms pressure ++ rate_samples rates ++ cluster_samples (Some (a, b, c, d, f)) pressures) = Some v).
    { intros name v Hn Hv. by rewrite app_assoc, find_sample_app, Hn. }
    split_and!; try (erewrite Hlate; [by apply number_dec|by destruct rates|done]).
    intros peer p Hin. apply Hlate; [destruct rates; apply find_sample_none; repeat (constructor; [vm_compute; discriminate|]); constructor|].
    cbn [cluster_samples]. rewrite find_sample_app, find_sample_none by (repeat (constructor; [vm_compute; discriminate|]); constructor).
    apply find_sample_unique; [|done|done]. rewrite Forall_forall in Hp.
    intros x y ([? ?] & -> & Hx)%list_elem_of_fmap ([? ?] & -> & Hy)%list_elem_of_fmap. by apply peer_key_inj; [apply Hp in Hx|apply Hp in Hy].
Qed.
End Exposition.

Lemma metrics_text_reads_back_witness :
  read_metric "beamsocket_connections" (metrics_text (fun _ => str "0") (eng demo_sys) 61000 f0 (Some Rates_default) [(2, f0)]) = Some 1 /\
  read_metric "beamsocket_cluster_node_id" (metrics_text (fun _ => str "0") (eng demo_sys) 61000 f0 (Some Rates_default) [(2, f0)]) = Some 1.
Proof.
  destruct (metrics_text_reads_back (fun _ => str "0") (fun _ => eq_refl) (eng demo_sys) 61000 f0 (Some Rates_default) [(2, f0)])
    as (Hc & _ & _ & _ & _ & _ & Hn).
  - intros c. destruct c; vm_compute; by split.
  - vm_compute. by split.
  - vm_compute. by split_and!.
  - by repeat constructor.
  - apply NoDup_singleton.
  - split; [exact (Hc Metrics.Connections)|exact (proj1 Hn)].
Defined.

(** ** The sampler *)

Section SamplerFacts.
Context (exp : f64 -> f64).
Import Sampler.

(** A delta is what was added since the last read, across a wrap of the counter. *)
Lemma delta_exact c n : u64_ok c -> u64_ok n -> delta (wrap 64 (c + n)) c = n.
Proof.
  intros Hc Hn. unfold delta, wrap. rewrite Zminus_mod_idemp_l. replace (c + n - c) with n by lia. by apply Z.mod_small.
Qed.

Definition finite (v : f64) : Prop := match v with S754_zero _ | S754_finite _ _ _ => True | _ => False end.

Lemma idle_step dt a1 a10 : finite a1 -> finite a10 -> ewma_step f0 f0 0 dt a1 a10 = (f0, f0).
Proof.
  intros H1 H10. unfold ewma_step. assert ((if fltb f0 dt then fdiv (f64_of 0) dt else f0) = f0) as ->.
  { destruct dt as [[]|[]| |[] ? ?]; done. }
  unfold ewma. by rewrite !fmul_zero_finite.
Qed.

(** Without traffic the rates of a fresh sampler stay zero, whatever the interval. *)
Lemma idle_rates_zero ms c reads : let '(a1, a10) := alphas exp (interval_secs ms) in finite a1 -> finite a10 ->
  Forall (fun now => now = c) reads -> run exp ms reads c Rates_default = Rates_default.
Proof.
  destruct (alphas exp (interval_secs ms)) as [a1 a10] eqn:Ea. intros H1 H10 Hr.
  assert (Ht : tick exp ms c c Rates_default = Rates_default).
  { unfold tick. rewrite Ea. unfold delta. rewrite !Z.sub_diag. change (wrap 64 0) with 0. by rewrite !idle_step. }
  induction Hr as [|now reads -> _ IH]; [done|]. cbn [run]. by rewrite Ht.
Qed.

(** The rates of one tick depend only on the four deltas. *)
Lemma tick_delta ms now last now' last' r :
  delta (c_messages_in now) (c_messages_in last) = delta (c_messages_in now') (c_messages_in last') ->
  delta (c_messages_out now) (c_messages_out last) = delta (c_messages_out now') (c_messages_out last') ->
  delta (c_bytes_in now) (c_bytes_in last) = delta (c_bytes_in now') (c_bytes_in last') ->
  delta (c_bytes_out now) (c_bytes_out last) = delta (c_bytes_out now') (c_bytes_out last') ->
  tick exp ms now last r = tick exp ms now' last' r.
Proof. intros E1 E2 E3 E4. unfold tick. by rewrite E1, E2, E3, E4. Qed.
End SamplerFacts.

(** The test of sampler.rs: with both factors one half, a steady 100 per second
    brings the rate above 90 in four ticks, and four idle ticks below 10. *)
Example ewma_rises_and_decays :
  let half := fdiv f1 (f64_of 2) in
  let step n r := (Sampler.ewma_step r r n f1 half half).1 in
  fltb (f64_of 90) (Nat.iter 4 (step 100) f0) = true /\ fltb (Nat.iter 4 (step 0) (Nat.iter 4 (step 100) f0)) (f64_of 10) = true.
Proof. split; vm_compute; reflexivity. Qed.

(** The gauges stay within 0 and 1 at the ends of their range. *)
Example pressure_ends :
  event_pressure 65536 65536 = f0 /\ event_pressure 65536 0 = f1 /\ queue_pressure 0 7 = f0 /\ queue_pressure 4 9 = f1 /\ event_pressure 0 0 = f0.
Proof. by split_and!; vm_compute. Qed.
