(* ===== verification/Bridge.v ===== *)
(** * The Rust-to-JS bridge (crates/node/src/bridge.rs, buffers.rs, binding.rs)

    The flush format, the drain loop that batches engine events into flushes,
    and the small conversions of the binding.  [deliver], which hands a flush to
    the JS thread, is the list of flushes: the status [tsfn.call] returns is not
    read by the code and not modelled.  A panic of the decoder is [None]. *)

From S2P Require Import Prelude Wire Ids Runtime Config Metrics Registry Events Connection Rooms Identity Broadcast Frame MeshWire Interest MeshNode Cluster Engine.

Definition BRIDGE_BATCH : nat := 256.
Definition BRIDGE_FLUSH_INTERVAL : Z := 1.
Definition LOW_LOAD_THRESHOLD : nat := 16.
Definition ENGINE_BRIDGE_QUEUE_CAPACITY : Z := 8192.
Definition EXTERNAL_BUFFER_THRESHOLD : Z := 16 * 1024.

(** [buffers::should_externalize]. *)
Definition should_externalize (len : Z) : bool := EXTERNAL_BUFFER_THRESHOLD <=? len.

(** ** The flush format ([mod flat]) *)

Module flat.

Definition HEADER : nat := 4.
Definition PER_EVENT_OVERHEAD : nat := 13.
Definition KIND_TEXT : Z := 0.
Definition KIND_BINARY : Z := 1.
Definition KIND_OPEN : Z := 2.
Definition KIND_CLOSE : Z := 3.
Definition KIND_AUTHORIZE : Z := 4.

(** [lp_len], [authorize_payload_len] and [event_payload_len]. *)
Definition lp_len (n : nat) : nat := 4 + n.
Definition authorize_payload_len (client_ip url : rstring) (headers : list (rstring * rstring)) : nat :=
  lp_len (length client_ip) + lp_len (length url) + 4 + sum_list_with (fun '(k, v) => lp_len (length k) + lp_len (length v))%nat headers.
Definition event_payload_len (ev : EngineEvent) : nat :=
  match ev with
  | Message _ payload _ => length payload
  | ConnectionOpened _ auth_request => match auth_request with Some _ => 8 | None => 0 end
  | ConnectionClosed _ _ reason => 2 + length reason
  | EvAuthorize _ client_ip url headers => authorize_payload_len client_ip url headers
  end.

(** [encoded_len]. *)
Definition encoded_len (batch : list EngineEvent) : nat :=
  HEADER + sum_list_with (fun e => PER_EVENT_OVERHEAD + event_payload_len e)%nat batch.

(** [as u32]. *)
Definition len32 (n : nat) : bytes := to_le_bytes 4 (wrap 32 (Z.of_nat n)).

(** [write_lp]. *)
Definition write_lp (bs : bytes) : bytes := len32 (length bs) ++ bs.

(** One round of [encode_batch]. *)
Definition encode_event (ev : EngineEvent) : bytes :=
  match ev with
  | Message id payload is_binary =>
      to_le_bytes 8 id ++ [if is_binary then KIND_BINARY else KIND_TEXT] ++ len32 (length payload) ++ payload
  | ConnectionOpened id auth_request =>
      to_le_bytes 8 id ++ [KIND_OPEN] ++
      match auth_request with
      | Some request_id => to_le_bytes 4 8 ++ to_le_bytes 8 request_id
      | None => to_le_bytes 4 0
      end
  | ConnectionClosed id code reason =>
      to_le_bytes 8 id ++ [KIND_CLOSE] ++ len32 (2 + length reason) ++ to_le_bytes 2 code ++ reason
  | EvAuthorize request_id client_ip url headers =>
      to_le_bytes 8 request_id ++ [KIND_AUTHORIZE] ++ len32 (authorize_payload_len client_ip url headers) ++
      write_lp client_ip ++ write_lp url ++ len32 (length headers) ++ put_many (fun '(k, v) => write_lp k ++ write_lp v) headers
  end.

(** [encode_batch]. *)
Definition encode_batch (batch : list EngineEvent) : bytes := len32 (length batch) ++ put_many encode_event batch.

(** [read_lp]. *)
Definition read_lp (buf : bytes) (off : nat) : option (bytes * nat) :=
  '(len, off) ← get_le 4 buf off; bs ← slice buf off (Z.to_nat len); Some (bs, (off + Z.to_nat len)%nat).
Definition read_header (buf : bytes) (off : nat) : option ((bytes * bytes) * nat) :=
  '(k, off) ← read_lp buf off; '(v, off) ← read_lp buf off; Some ((k, v), off).

(** [enum DecodedEvent]. *)
Inductive DecodedEvent :=
  | DMessage (conn_id : ConnectionId) (is_binary : bool) (payload : bytes)
  | DOpened (conn_id : ConnectionId) (auth_request : option Z)
  | DClosed (conn_id : ConnectionId) (code : Z) (reason : bytes)
  | DAuthorize (request_id : Z) (client_ip url : bytes) (headers : list (bytes * bytes)).

(** The match on the kind byte in [decode]. *)
Definition decode_payload (conn_id kind : Z) (payload : bytes) : option DecodedEvent :=
  if (kind =? KIND_TEXT) || (kind =? KIND_BINARY) then Some (DMessage conn_id (kind =? KIND_BINARY) payload)
  else if kind =? KIND_OPEN then
    if (length payload =? 8)%nat then Some (DOpened conn_id (Some (from_le_bytes payload))) else Some (DOpened conn_id None)
  else if kind =? KIND_CLOSE then
    '(code, off) ← get_le 2 payload 0; Some (DClosed conn_id code (drop off payload))
  else if kind =? KIND_AUTHORIZE then
    '(client_ip, p) ← read_lp payload 0; '(url, p) ← read_lp payload p; '(hcount, p) ← get_le 4 payload p;
    '(headers, _) ← get_many read_header (Z.to_nat hcount) payload p;
    Some (DAuthorize conn_id client_ip url headers)
  else None.

(** One round of [decode]. *)
Definition decode_event (buf : bytes) (off : nat) : option (DecodedEvent * nat) :=
  '(conn_id, off) ← get_le 8 buf off;
  '(kind, off) ← get_u8 buf off;
  '(len, off) ← get_le 4 buf off;
  payload ← slice buf off (Z.to_nat len);
  ev ← decode_payload conn_id kind payload;
  Some (ev, (off + Z.to_nat len)%nat).

(** [decode]. *)
Definition decode (buf : bytes) : option (list DecodedEvent) :=
  if (length buf <? HEADER)%nat then Some []
  else
    '(count, off) ← get_le 4 buf 0;
    '(evs, _) ← get_many decode_event (Z.to_nat count) buf off;
    Some evs.

End flat.

(** ** The drain loop *)

(** Where [drain_loop] is: at [rx.recv().await], in the greedy loop, in the
    timed loop with its deadline, or returned. *)
Inductive DrainPc := Waiting | Greedy | Filling (deadline : Z) | Ended.

#[global] Instance DrainPc_eq_dec : EqDecision DrainPc.
Proof. solve_decision. Defined.

Section Drain.
Context {Ch : Type -> Type} `{Mpsc Ch}.

(** The loop's locals, the channel with whether a sender is alive, the clock in
    milliseconds, the flushes handed to [deliver], and (for the statements) the
    events accepted by the channel. *)
Record Drain := {
  rx : Ch EngineEvent; senders : bool; pc : DrainPc; batch : list EngineEvent;
  flushes : list bytes; clock : Z; accepted : list EngineEvent;
}.

Definition drain_start (q : Ch EngineEvent) : Drain :=
  {| rx := q; senders := true; pc := Waiting; batch := []; flushes := []; clock := 0; accepted := [] |}.

(** [batch.push(ev)] of a received event. *)
Definition take_event (p : DrainPc) (ev : EngineEvent) (q : Ch EngineEvent) (d : Drain) : Drain :=
  {| rx := q; senders := senders d; pc := p; batch := batch d ++ [ev]; flushes := flushes d; clock := clock d; accepted := accepted d |}.

(** [flush], then on to [p]. *)
Definition flush (p : DrainPc) (d : Drain) : Drain :=
  {| rx := rx d; senders := senders d; pc := p; batch := [];
     flushes := match batch d with [] => flushes d | _ => flushes d ++ [flat.encode_batch (batch d)] end;
     clock := clock d; accepted := accepted d |}.

Definition set_pc (p : DrainPc) (d : Drain) : Drain :=
  {| rx := rx d; senders := senders d; pc := p; batch := batch d; flushes := flushes d; clock := clock d; accepted := accepted d |}.

(** One step of [drain_loop]; [None] while it is suspended at an [await].
    [timer] is the choice of the [select!] when both branches are ready. *)
Definition drain_poll (timer : bool) (d : Drain) : option Drain :=
  match pc d with
  | Ended => None
  | Waiting =>
      match recv (rx d) with
      | Some (ev, q) => Some (take_event Greedy ev q d)
      | None => if senders d then None else Some (flush Ended d)
      end
  | Greedy =>
      if (length (batch d) <? BRIDGE_BATCH)%nat then
        match recv (rx d) with
        | Some (ev, q) => Some (take_event Greedy ev q d)
        | None =>
            if negb (senders d) then Some (flush Ended d)
            else if (length (batch d) <? LOW_LOAD_THRESHOLD)%nat then Some (flush Waiting d)
            else Some (set_pc (Filling (clock d + BRIDGE_FLUSH_INTERVAL)) d)
        end
      else Some (set_pc (Filling (clock d + BRIDGE_FLUSH_INTERVAL)) d)
  | Filling deadline =>
      if (length (batch d) <? BRIDGE_BATCH)%nat then
        let due := deadline <=? clock d in
        match recv (rx d) with
        | Some (ev, q) => if due && timer then Some (flush Waiting d) else Some (take_event (Filling deadline) ev q d)
        | None =>
            if due && (timer || senders d) then Some (flush Waiting d)
            else if negb (senders d) then Some (flush Ended d)
            else None
        end
      else Some (flush Waiting d)
  end.

(** The loop and the rest of the world: a sender's event enters the channel,
    the last sender goes away, time passes. *)
Inductive drain_step (d : Drain) : Drain -> Prop :=
  | DPoll timer d' : drain_poll timer d = Some d' -> drain_step d d'
  | DSend ev q : senders d = true -> try_send ev (rx d) = (SendOk, q) ->
      drain_step d {| rx := q; senders := true; pc := pc d; batch := batch d; flushes := flushes d; clock := clock d; accepted := accepted d ++ [ev] |}
  | DDrop : drain_step d {| rx := rx d; senders := false; pc := pc d; batch := batch d; flushes := flushes d; clock := clock d; accepted := accepted d |}
  | DTime t : clock d <= t ->
      drain_step d {| rx := rx d; senders := senders d; pc := pc d; batch := batch d; flushes := flushes d; clock := t; accepted := accepted d |}.

End Drain.
#[global] Arguments Drain : clear implicits.

(** ** Conversions of the binding *)

(** [halves_to_u64]. *)
Definition halves_to_u64 (hi lo : Z) : Z := Z.lor (Z.shiftl hi 32) lo.

(** [except_ids] and [except_ids_remote]: whole chunks only. *)
Fixpoint except_ids (pairs : list Z) : list ConnectionId :=
  match pairs with hi :: lo :: rest => halves_to_u64 hi lo :: except_ids rest | _ => [] end.
Fixpoint except_ids_remote (triples : list Z) : list NodeConnId :=
  match triples with
  | node :: hi :: lo :: rest => {| nc_node := wrap 16 node; nc_local := halves_to_u64 hi lo |} :: except_ids_remote rest
  | _ => []
  end.

(** [clamp_top_n], [status_code] and [membership_code]. *)
Definition clamp_top_n (n : Z) : option nat := if n <=? 0 then None else Some (Nat.min (Z.to_nat n) 100).
Definition status_code (s : SendStatus) : Z := match s with StQueued => 0 | StBackpressure => 1 | StNotFound => 2 end.
Definition membership_code (c : MembershipChange) : Z :=
  match c with Changed => 0 | NoOp => 1 | NotFound => 2 | LimitExceeded => 3 end.

(** ** A flush carries its batch *)

Section FlatFacts.
Import flat.

(** Field widths: ids and codes as typed, lengths that fit their prefix. *)
Definition len_ok (n : nat) : Prop := Z.of_nat n < 2 ^ 32.
Definition event_ok (ev : EngineEvent) : Prop :=
  len_ok (event_payload_len ev) /\
  match ev with
  | Message id _ _ => u64_ok id
  | ConnectionOpened id auth_request => u64_ok id /\ match auth_request with Some rid => u64_ok rid | None => True end
  | ConnectionClosed id code _ => u64_ok id /\ u16_ok code
  | EvAuthorize rid _ _ _ => u64_ok rid
  end.

(** What the reader makes of an event. *)
Definition seen_as (ev : EngineEvent) : DecodedEvent :=
  match ev with
  | Message id payload is_binary => DMessage id is_binary payload
  | ConnectionOpened id auth_request => DOpened id auth_request
  | ConnectionClosed id code reason => DClosed id code reason
  | EvAuthorize rid client_ip url headers => DAuthorize rid client_ip url headers
  end.

Lemma length_len32 n : length (len32 n) = 4%nat.
Proof. apply length_to_le_bytes. Qed.

Lemma len32_At n buf off rest : len_ok n -> At buf off (len32 n ++ rest) -> get_le 4 buf off = Some (Z.of_nat n, (off + 4)%nat) /\ At buf (off + 4) rest.
Proof. unfold len_ok, len32. intros Hn. rewrite wrap_small by lia. apply get_le_At. lia. Qed.

Lemma read_write_lp bs buf off rest : len_ok (length bs) -> At buf off (write_lp bs ++ rest) ->
  exists off', read_lp buf off = Some (bs, off') /\ At buf off' rest.
Proof.
  intros Hb HA. unfold write_lp in HA. rewrite <-app_assoc in HA. apply len32_At in HA as [E HA]; [|done]. unfold read_lp. rewrite E.
  cbn [mbind option_bind]. rewrite Nat2Z.id. apply At_slice in HA as [-> HA]. cbn [mbind option_bind]. eauto.
Qed.

Lemma read_write_header h buf off rest : len_ok (length h.1) /\ len_ok (length h.2) ->
  At buf off ((let '(k, v) := h in write_lp k ++ write_lp v) ++ rest) -> exists off', read_header buf off = Some (h, off') /\ At buf off' rest.
Proof.
  destruct h as [k v]. intros [Hk Hv] HA. rewrite <-app_assoc in HA. unfold read_header.
  destruct (read_write_lp _ _ _ _ Hk HA) as (o & -> & HA1). cbn [mbind option_bind].
  destruct (read_write_lp _ _ _ _ Hv HA1) as (o' & -> & HA2). cbn [mbind option_bind]. eauto.
Qed.

Lemma length_put_headers (headers : list (rstring * rstring)) :
  length (put_many (fun '(k, v) => write_lp k ++ write_lp v) headers) = sum_list_with (fun '(k, v) => lp_len (length k) + lp_len (length v))%nat headers.
Proof.
  induction headers as [|[k v] hs IH]; [done|]. unfold put_many in *. cbn [map concat sum_list_with]. rewrite length_app, IH. unfold write_lp, lp_len.
  rewrite !length_app, !length_len32. lia.
Qed.

(** The payload of an event, as the length prefix counts it. *)
Definition payload_of (ev : EngineEvent) : bytes :=
  match ev with
  | Message _ payload _ => payload
  | ConnectionOpened _ (Some rid) => to_le_bytes 8 rid
  | ConnectionOpened _ None => []
  | ConnectionClosed _ code reason => to_le_bytes 2 code ++ reason
  | EvAuthorize _ client_ip url headers =>
      write_lp client_ip ++ write_lp url ++ len32 (length headers) ++ put_many (fun '(k, v) => write_lp k ++ write_lp v) headers
  end.
Definition key_of (ev : EngineEvent) : Z :=
  match ev with Message id _ _ | ConnectionOpened id _ | ConnectionClosed id _ _ => id | EvAuthorize rid _ _ _ => rid end.
Definition kind_of (ev : EngineEvent) : Z :=
  match ev with
  | Message _ _ is_binary => if is_binary then KIND_BINARY else KIND_TEXT
  | ConnectionOpened _ _ => KIND_OPEN | ConnectionClosed _ _ _ => KIND_CLOSE | EvAuthorize _ _ _ _ => KIND_AUTHORIZE
  end.

Lemma length_payload ev : length (payload_of ev) = event_payload_len ev.
Proof.
  destruct ev as [rid ip url hs|id [rid|]|id p b|id code reason]; cbn [payload_of event_payload_len]; rewrite ?length_app, ?length_to_le_bytes; try done.
  unfold authorize_payload_len. rewrite length_put_headers. unfold write_lp, lp_len. rewrite !length_app, !length_len32. lia.
Qed.

Lemma encode_event_shape ev : encode_event ev = to_le_bytes 8 (key_of ev) ++ [kind_of ev] ++ len32 (event_payload_len ev) ++ payload_of ev.
Proof. by destruct ev as [rid ip url hs|id [rid|]|id p b|id code reason]. Qed.

Lemma headers_fit (hs : list (rstring * rstring)) n : (sum_list_with (fun '(k, v) => lp_len (length k) + lp_len (length v))%nat hs <= n)%nat -> len_ok n ->
  len_ok (length hs) /\ Forall (fun h : rstring * rstring => len_ok (length h.1) /\ len_ok (length h.2)) hs.
Proof.
  unfold len_ok, lp_len. set (f := fun '(k, v) => _). intros Hs Hn.
  assert (Hf : forall k v, f (k, v) = (4 + length k + (4 + length v))%nat) by done. clearbody f.
  assert (Hle : (length hs <= sum_list_with f hs)%nat).
  { clear Hs. induction hs as [|[k v] hs IH]; cbn [length sum_list_with]; [lia|]. rewrite Hf. lia. }
  split; [lia|]. clear Hle. induction hs as [|[k v] hs IH]; [constructor|]. cbn [sum_list_with] in Hs. rewrite Hf in Hs.
  constructor; [cbn [fst snd]; lia|apply IH; lia].
Qed.

Lemma decode_payload_exact ev : event_ok ev -> decode_payload (key_of ev) (kind_of ev) (payload_of ev) = Some (seen_as ev).
Proof.
  intros [Hl Hok]. destruct ev as [rid ip url hs|id [rid|]|id p b|id code reason]; cbn [key_of kind_of payload_of seen_as].
  - unfold decode_payload. cbn -[read_lp get_le get_many write_lp len32 put_many]. cbn [event_payload_len] in Hl. unfold authorize_payload_len, lp_len in Hl.
    assert (Hip : len_ok (length ip)) by (unfold len_ok in *; lia). assert (Hurl : len_ok (length url)) by (unfold len_ok in *; lia).
    destruct (headers_fit hs _ ltac:(unfold lp_len; apply Nat.le_add_l) Hl) as [Hh Hall].
    set (buf := write_lp ip ++ _). destruct (read_write_lp ip buf 0 _ Hip (At_start _)) as (o1 & -> & HA1). cbn [mbind option_bind].
    destruct (read_write_lp url buf o1 _ Hurl HA1) as (o2 & -> & HA2). cbn [mbind option_bind].
    destruct (len32_At (length hs) buf o2 _ Hh HA2) as [-> HA3]. cbn [mbind option_bind]. rewrite Nat2Z.id.
    rewrite <-(app_nil_r (put_many _ _)) in HA3.
    destruct (get_many_put_many (fun '(k, v) => write_lp k ++ write_lp v) read_header _ (fun buf off x rest Hx HA => read_write_header x buf off rest Hx HA)
      hs buf _ [] Hall HA3) as (o4 & -> & _). done.
  - destruct Hok as [_ Hrid]. unfold decode_payload. cbn -[to_le_bytes from_le_bytes length]. rewrite length_to_le_bytes. cbn -[to_le_bytes from_le_bytes].
    by rewrite from_to_le_bytes.
  - done.
  - by destruct b.
  - destruct Hok as [_ Hc]. unfold decode_payload. cbn -[get_le to_le_bytes]. pose proof (At_start (to_le_bytes 2 code ++ reason)) as HA.
    apply get_le_At in HA as [-> HA]; [|exact Hc]. cbn [mbind option_bind]. by rewrite (At_drop _ _ _ HA).
Qed.

Lemma key_of_ok ev : event_ok ev -> u64_ok (key_of ev).
Proof. intros [_ Hok]. destruct ev as [?|? [?|]|?|?]; cbn in *; naive_solver. Qed.

Lemma decode_event_exact buf off ev rest : event_ok ev -> At buf off (encode_event ev ++ rest) ->
  exists off', decode_event buf off = Some (seen_as ev, off') /\ At buf off' rest.
Proof.
  intros Hok HA. rewrite encode_event_shape, <-!app_assoc in HA. unfold decode_event.
  apply get_le_At in HA as [-> HA]; [|by apply key_of_ok]. cbn [mbind option_bind].
  apply get_u8_At in HA as [-> HA]. cbn [mbind option_bind].
  apply len32_At in HA as [-> HA]; [|apply Hok]. cbn [mbind option_bind]. rewrite Nat2Z.id, <-length_payload.
  apply At_slice in HA as [-> HA]. cbn [mbind option_bind]. rewrite decode_payload_exact by done. cbn [mbind option_bind]. eauto.
Qed.

(** A flush decodes to its batch, and its buffer was sized exactly. *)
Lemma flat_roundtrip batch : Forall event_ok batch -> len_ok (length batch) ->
  decode (encode_batch batch) = Some (map seen_as batch) /\ length (encode_batch batch) = encoded_len batch.
Proof.
  intros Hok Hl. split.
  - unfold decode. rewrite (proj2 (Nat.ltb_ge _ _)) by (unfold encode_batch, HEADER; rewrite length_app, length_len32; lia).
    pose proof (At_start (encode_batch batch)) as HA. unfold encode_batch in HA at 2. apply len32_At in HA as [-> HA]; [|done]. cbn [mbind option_bind].
    rewrite Nat2Z.id. rewrite <-(app_nil_r (put_many _ _)) in HA.
    destruct (get_many_view encode_event decode_event seen_as event_ok (fun buf off x rest Hx HA => decode_event_exact buf off x rest Hx HA)
      batch _ _ [] Hok HA) as (o & -> & _). done.
  - unfold encode_batch, encoded_len. rewrite length_app, length_len32. unfold HEADER. f_equal. clear. induction batch as [|ev l IH]; [done|].
    unfold put_many in *. cbn [map concat sum_list_with]. rewrite length_app, IH. f_equal. rewrite encode_event_shape, !length_app, length_to_le_bytes, length_len32, length_payload.
    unfold PER_EVENT_OVERHEAD. simpl. lia.
Qed.

End FlatFacts.

(** ** The drain loop delivers everything, in order, in bounded batches *)

Section DrainFacts.
Context {Ch : Type -> Type} `{Mpsc Ch}.
Implicit Types (d : Drain Ch).

Definition batch_ok (b : list EngineEvent) : Prop := (1 <= length b <= BRIDGE_BATCH)%nat.

(** What the loop's position says about the batch in hand. *)
Definition pc_ok d : Prop :=
  match pc d with
  | Waiting => batch d = []
  | Greedy => (1 <= length (batch d))%nat
  | Filling t => (LOW_LOAD_THRESHOLD <= length (batch d))%nat /\ t <= clock d + BRIDGE_FLUSH_INTERVAL
  | Ended => batch d = [] /\ ch_items (rx d) = [] /\ senders d = false
  end.

Record drain_inv d : Prop := {
  dr_sent : exists bs, flushes d = map flat.encode_batch bs /\ Forall batch_ok bs /\
    concat bs ++ batch d ++ ch_items (rx d) = accepted d;
  dr_size : (length (batch d) <= BRIDGE_BATCH)%nat;
  dr_pc : pc_ok d;
}.

Lemma flush_inv p d : drain_inv d -> (p = Waiting \/ p = Ended /\ ch_items (rx d) = [] /\ senders d = false) -> drain_inv (flush p d).
Proof.
  intros [(bs & Hf & Hb & Ha) Hs _] Hp. split; [|cbn; lia|by destruct Hp as [->|(-> & ? & ?)]]. cbn [flush flushes batch rx accepted].
  destruct (batch d) as [|ev l] eqn:E; [by exists bs|]. exists (bs ++ [ev :: l]). rewrite map_app, Hf. split_and!; [done| |].
  - apply Forall_app. split; [done|]. constructor; [|constructor]. split; [cbn; lia|exact Hs].
  - by rewrite concat_app, concat_cons, concat_nil, app_nil_r, <-app_assoc, app_nil_l.
Qed.

Lemma take_event_inv p ev q d : drain_inv d -> recv (rx d) = Some (ev, q) -> (length (batch d) < BRIDGE_BATCH)%nat ->
  (p = Greedy \/ exists t, p = Filling t /\ pc d = Filling t) -> drain_inv (take_event p ev q d).
Proof.
  intros [(bs & Hf & Hb & Ha) Hs Hp] Hr Hlt Hpc. unfold recv in Hr. destruct (ch_items (rx d)) as [|x its] eqn:Ei; [done|]. injection Hr as -> <-.
  split; cbn [take_event flushes batch rx accepted].
  - exists bs. split_and!; [done..|]. rewrite ch_items_dequeue, Ei. cbn [tail]. by rewrite <-!app_assoc.
  - rewrite length_app. cbn. lia.
  - unfold pc_ok in *. cbn. rewrite length_app. destruct Hpc as [->|(t & -> & Et)]; [cbn; lia|]. rewrite Et in Hp. cbn. lia.
Qed.

Lemma fill_inv d : drain_inv d -> (LOW_LOAD_THRESHOLD <= length (batch d))%nat -> drain_inv (set_pc (Filling (clock d + BRIDGE_FLUSH_INTERVAL)) d).
Proof. intros [Hf Hs _] Hl. split; [exact Hf|exact Hs|]. unfold pc_ok. cbn. lia. Qed.

Lemma recv_None d : recv (rx d) = None -> ch_items (rx d) = [].
Proof. unfold recv. by destruct (ch_items (rx d)). Qed.

Lemma drain_poll_inv timer d d' : drain_inv d -> drain_poll timer d = Some d' -> drain_inv d'.
Proof.
  intros Hi E. pose proof (dr_pc _ Hi) as Hp. unfold drain_poll in E. unfold pc_ok in Hp. destruct (pc d) eqn:Epc; [..|done].
  - destruct (recv (rx d)) as [[ev q]|] eqn:Er.
    + injection E as <-. apply take_event_inv; [done..|rewrite Hp; vm_compute; lia|by left].
    + destruct (senders d) eqn:Es; [done|]. injection E as <-. apply flush_inv; [done|right]. by rewrite (recv_None _ Er).
  - destruct (Nat.ltb_spec (length (batch d)) BRIDGE_BATCH) as [Hlt|Hge].
    + destruct (recv (rx d)) as [[ev q]|] eqn:Er; [injection E as <-; apply take_event_inv; auto|].
      destruct (senders d) eqn:Es; cbn [negb] in E; [|injection E as <-; apply flush_inv; [done|right; by rewrite (recv_None _ Er)]].
      destruct (Nat.ltb_spec (length (batch d)) LOW_LOAD_THRESHOLD); injection E as <-; [apply flush_inv; auto|by apply fill_inv].
    + injection E as <-. apply fill_inv; [done|]. unfold BRIDGE_BATCH, LOW_LOAD_THRESHOLD in *. lia.
  - destruct (Nat.ltb_spec (length (batch d)) BRIDGE_BATCH) as [Hlt|Hge]; [|injection E as <-; apply flush_inv; auto].
    destruct (recv (rx d)) as [[ev q]|] eqn:Er.
    + destruct (_ && timer); injection E as <-; [apply flush_inv; auto|apply take_event_inv; eauto].
    + destruct (_ && _); [injection E as <-; apply flush_inv; auto|]. destruct (senders d) eqn:Es; [done|].
      injection E as <-. apply flush_inv; [done|right; by rewrite (recv_None _ Er)].
Qed.

Lemma bridge_step_inv d d' : drain_step d d' -> drain_inv d -> drain_inv d'.
Proof.
  intros Hst Hi. destruct Hst as [timer d' E|ev q Hs E| |t Ht]; [by eapply drain_poll_inv|..]; destruct Hi as [(bs & Hf & Hb & Ha) Hsz Hp].
  - apply try_send_items in E as (Ei & _). rewrite decide_True in Ei by done. split; cbn [rx batch flushes accepted]; [|done|].
    + exists bs. rewrite Ei, <-Ha, <-!app_assoc. done.
    + unfold pc_ok in *. cbn. destruct (pc d); try done. destruct Hp as (_ & _ & ?). congruence.
  - split; [by exists bs|done|]. unfold pc_ok in *. cbn. destruct (pc d); naive_solver.
  - split; [by exists bs|done|]. unfold pc_ok in *. cbn. destruct (pc d); try done. lia.
Qed.

(** How much a loop whose senders are gone has left to do. *)
Definition todo d : nat :=
  let n := length (ch_items (rx d)) in
  match pc d with Ended => 0 | Waiting => 4 * n + 1 | Filling _ => 4 * n + 2 | Greedy => 4 * n + 3 end.

Lemma bridge_progress d : senders d = false -> pc d <> Ended ->
  exists d', drain_poll false d = Some d' /\ senders d' = false /\ accepted d' = accepted d /\ (todo d' < todo d)%nat.
Proof.
  intros Hs Hp. unfold drain_poll, todo. assert (Hrec : forall ev q, recv (rx d) = Some (ev, q) -> (length (ch_items q) < length (ch_items (rx d)))%nat).
  { intros ev q. unfold recv. destruct (ch_items (rx d)) eqn:Ei; [done|]. intros [= _ <-]. rewrite ch_items_dequeue, Ei. cbn. lia. }
  destruct (pc d) eqn:Ep; [..|done]; rewrite Hs; cbn [negb].
  - destruct (recv (rx d)) as [[ev q]|] eqn:Er; eexists; (split; [done|]); cbn; split_and!; try done; [|lia]. specialize (Hrec ev q eq_refl). lia.
  - destruct (_ <? _)%nat; [|eexists; split; [done|]; cbn; split_and!; (done || lia)].
    destruct (recv (rx d)) as [[ev q]|] eqn:Er; eexists; (split; [done|]); cbn; split_and!; try done; [|lia]. specialize (Hrec ev q eq_refl). lia.
  - destruct (_ <? _)%nat; [|eexists; split; [done|]; cbn; split_and!; (done || lia)].
    destruct (recv (rx d)) as [[ev q]|] eqn:Er; rewrite ?andb_false_r; eexists; (split; [done|]); cbn; split_and!; try done; [|lia].
    specialize (Hrec ev q eq_refl). lia.
Qed.

Lemma drain_finishes d : drain_inv d -> senders d = false -> exists d', rtc drain_step d d' /\ pc d' = Ended /\ accepted d' = accepted d /\ drain_inv d'.
Proof.
  remember (todo d) as n eqn:En. revert d En. induction (lt_wf n) as [n _ IH]. intros d -> Hi Hs.
  destruct (decide (pc d = Ended)) as [He|He]; [exists d; split_and!; (done || apply rtc_refl)|].
  destruct (bridge_progress d Hs He) as (d1 & Ep & Hs1 & Ha1 & Ht).
  destruct (IH _ Ht d1 eq_refl) as (d' & Hr & Hd & Ha & Hi'); [by eapply drain_poll_inv|done|].
  exists d'. split_and!; [|done|congruence|done]. eapply rtc_l; [by eapply DPoll|done].
Qed.

(** A run with the time at which the loop began to fill the batch in hand: it
    left the greedy loop then, and every event that joins later keeps it. *)
Definition in_fill d : bool := match pc d with Filling _ => true | _ => false end.
Definition timed_step (x y : Drain Ch * Z) : Prop :=
  drain_step x.1 y.1 /\ y.2 = if in_fill x.1 && in_fill y.1 then x.2 else clock x.1.

Lemma timed_steps x y : rtc timed_step x y -> rtc drain_step x.1 y.1.
Proof. induction 1 as [|x y z [Hs _] _ IH]; [done|]. by eapply rtc_l. Qed.

Definition timer_ok (x : Drain Ch * Z) : Prop := forall t, pc x.1 = Filling t -> t = x.2 + BRIDGE_FLUSH_INTERVAL /\ x.2 <= clock x.1.

Lemma timed_step_ok x y : timed_step x y -> timer_ok x -> timer_ok y.
Proof.
  destruct x as [d since], y as [d' since']. intros [Hs E] Hok t Ht. unfold timer_ok, in_fill in *. cbn [fst snd] in *. rewrite Ht in E. subst since'.
  destruct Hs as [timer d' Hp|ev q _ _| |t' Hle]; cbn [pc clock] in *; try (rewrite Ht; cbn [andb]; destruct (Hok t Ht); split; [done|lia]).
  unfold drain_poll in Hp. destruct (pc d) as [| |deadline|] eqn:Epc; cbn [andb]; repeat break_match_hyp Hp; simplify_eq/=; try done; by destruct (Hok _ eq_refl).
Qed.

(** Decoding the flushes of a run. *)
Lemma flushes_decode bs : Forall batch_ok bs -> Forall event_ok (concat bs) -> map flat.decode (map flat.encode_batch bs) = map (fun b => Some (map seen_as b)) bs.
Proof.
  induction bs as [|b bs IH]; intros Hb He; [done|]. apply Forall_cons in Hb as [[H1 H2] Hb]. cbn [concat] in He. apply Forall_app in He as [He He'].
  cbn [map]. rewrite IH by done. f_equal. apply flat_roundtrip; [done|]. unfold len_ok, BRIDGE_BATCH in *. lia.
Qed.

(** C8. The bridge delivers: at every moment of the drain loop the flushes
    handed to JS decode, in order, to a prefix of the events the channel
    accepted, the rest being the batch in hand and the queue; every flush has
    between 1 and [BRIDGE_BATCH] events.  While it fills a batch, its timer is due
    [BRIDGE_FLUSH_INTERVAL] after the end of the greedy drain that began the
    batch, however many events join it meanwhile, and the loop is suspended only
    with the queue empty and either no event in hand or that timer not yet due.
    And once the senders are gone it finishes with every accepted event delivered
    exactly once. *)
Theorem bridge_delivers q d since :
  ch_items q = [] -> rtc timed_step (drain_start q, 0) (d, since) -> Forall event_ok (accepted d) ->
  (exists bs, map flat.decode (flushes d) = map (fun b => Some (map seen_as b)) bs /\ Forall batch_ok bs /\
     concat bs ++ batch d ++ ch_items (rx d) = accepted d) /\
  (forall t, pc d = Filling t -> t = since + BRIDGE_FLUSH_INTERVAL) /\
  (forall timer, drain_poll timer d = None -> pc d <> Ended ->
     ch_items (rx d) = [] /\ (batch d = [] \/ in_fill d = true /\ since <= clock d < since + BRIDGE_FLUSH_INTERVAL)) /\
  (senders d = false -> exists d' bs, rtc drain_step d d' /\ pc d' = Ended /\
     map flat.decode (flushes d') = map (fun b => Some (map seen_as b)) bs /\ concat bs = accepted d).
Proof.
  intros Hq Hrt Hok. pose proof (timed_steps _ _ Hrt) as Hr. cbn [fst] in Hr.
  assert (Htm : timer_ok (d, since)).
  { revert Hrt. apply (rtc_ind_r timer_ok); [by intros t ?|]. intros y z _ Hs Hy. by eapply timed_step_ok. }
  assert (Hi : drain_inv d).
  { revert Hr. apply (rtc_ind_r (fun d => drain_inv d)); [|intros y z _ Hs Hy; by eapply bridge_step_inv].
    split; [exists []; cbn; rewrite Hq; by split_and!|cbn; lia|done]. }
  assert (Hdec : forall d bs, concat bs ++ batch d ++ ch_items (rx d) = accepted d -> Forall event_ok (accepted d) ->
    Forall batch_ok bs -> map flat.decode (map flat.encode_batch bs) = map (fun b => Some (map seen_as b)) bs).
  { intros d0 bs Ha Hf Hb. rewrite <-Ha in Hf. apply Forall_app in Hf as [Hf _]. by apply flushes_decode. }
  split_and!.
  - destruct (dr_sent _ Hi) as (bs & Hf & Hb & Ha). exists bs. rewrite Hf. split_and!; [by apply (Hdec d)|done..].
  - intros t Ht. by apply (Htm t).
  - intros timer Hn He. pose proof (dr_pc _ Hi) as Hp. unfold pc_ok in Hp. unfold drain_poll in Hn. destruct (pc d) eqn:Epc; [..|done].
    + destruct (recv (rx d)) as [[]|] eqn:Er; [done|]. split; [by apply recv_None|by left].
    + exfalso. repeat break_match_hyp Hn; done.
    + destruct (_ <? _)%nat; [|done]. destruct (recv (rx d)) as [[]|] eqn:Er; [by destruct (_ && timer)|].
      split; [by apply recv_None|right]. split; [unfold in_fill; by rewrite Epc|]. destruct (senders d); [|by repeat break_match_hyp Hn].
      rewrite orb_true_r, andb_true_r in Hn. destruct (Htm deadline Epc) as [-> Hle]. cbn [fst snd] in *.
      destruct (Z.leb_spec (since + BRIDGE_FLUSH_INTERVAL) (clock d)); [done|]. lia.
  - intros Hs. destruct (drain_finishes d Hi Hs) as (d' & Hr' & He & Ha & Hi'). destruct (dr_sent _ Hi') as (bs & Hf & Hb & Hc).
    pose proof (dr_pc _ Hi') as Hp. unfold pc_ok in Hp. rewrite He in Hp. destruct Hp as (Hb' & Hit & _).
    exists d', bs. split_and!; [done..| |]; [rewrite Hf; apply (Hdec d'); [done|by rewrite Ha|done]|].
    by rewrite <-Ha, <-Hc, Hb', Hit, !app_nil_r.
Qed.

End DrainFacts.

Section BridgeWitness.

Definition demo_event : EngineEvent := Message 5 (str "hi") false.
Definition demo_drain : Drain ListChan.t :=
  {| rx := ch_enqueue (ch_new 4) demo_event; senders := true; pc := Waiting; batch := []; flushes := []; clock := 0; accepted := [demo_event] |}.

Lemma bridge_delivers_witness :
  (exists bs, map flat.decode (flushes demo_drain) = map (fun b => Some (map seen_as b)) bs /\ Forall batch_ok bs /\
     concat bs ++ batch demo_drain ++ ch_items (rx demo_drain) = [demo_event]) /\ flat.decode (flat.encode_batch [demo_event]) = Some [seen_as demo_event].
Proof.
  split; [|vm_compute; reflexivity]. destruct (bridge_delivers (ch_new 4) demo_drain 0) as [Hd _].
  - reflexivity.
  - eapply rtc_l; [|apply rtc_refl]. split; [|reflexivity]. apply (DSend (drain_start (ch_new 4)) demo_event); reflexivity.
  - constructor; [|constructor]. repeat split; vm_compute; (reflexivity || discriminate).
  - exact Hd.
Defined.

(** The timer of a partial batch starts after the greedy drain, so an event can
    be in hand for longer than the interval before it is flushed: here it was
    taken at time 0 and its timer is due at 6. *)
Lemma timer_starts_after_greedy :
  let d := {| rx := ch_new (Ch := ListChan.t) (A := EngineEvent) 4; senders := true; pc := Greedy; batch := replicate 16 demo_event; flushes := [];
              clock := 5; accepted := replicate 16 demo_event |} in
  pc <$> drain_poll false d = Some (Filling 6).
Proof. reflexivity. Qed.

(** The ids cross the boundary as two halves and come back whole. *)
Lemma halves_roundtrip id : u64_ok id -> halves_to_u64 (Z.shiftr id 32) (wrap 32 id) = id.
Proof.
  unfold u64_ok, halves_to_u64, wrap. intros Hid. rewrite Z.shiftl_mul_pow2, Z.shiftr_div_pow2 by lia.
  rewrite lor_disjoint_add by (try apply Z.mod_pos_bound; lia). symmetry. apply halves_sum.
Qed.

Lemma except_ids_roundtrip ids : Forall u64_ok ids -> except_ids (concat (map (fun id => [Z.shiftr id 32; wrap 32 id]) ids)) = ids.
Proof. induction 1 as [|id ids Hid _ IH]; [done|]. cbn [map concat app except_ids]. by rewrite IH, halves_roundtrip. Qed.

End BridgeWitness.
