(* ===== verification/ProtoBridge.v ===== *)
(** * The prototype bridge (src/spike/bridge-core, src/spike/bridge-node)

    The bridge experiment: a generator offers synthetic events to a bounded
    channel, a drain thread carries them to JS in one of three designs (a call per
    event, a call per batch of objects, a call per batch in one buffer), and
    [pressure] reports what is in flight.  tokio's channel and the queue of napi's
    threadsafe function are the class [Mpsc]; the generator task, the drain thread,
    JS, the clock and [stop] interleave as the steps of [run_step]. *)

From S2P Require Import Prelude Wire Float Runtime Bridge.

(** ** bridge-core *)

Record Event := { conn_id : Z; enqueued_at_ns : Z; payload : bytes }.
Record GeneratorConfig := { events_per_sec : Z; payload_bytes : Z; duration_secs : Z; queue_capacity : Z }.

(** [now_ns] of a [timespec]; [t] is CLOCK_MONOTONIC as a number of nanoseconds. *)
Definition now_ns (t : Z) : Z := wrap 64 (wrap 64 (t / 1000000000) * 1000000000 + t mod 1000000000).

(** [make_payload]: an object with one string of [a]s. *)
Definition make_payload (n : Z) : bytes :=
  let pad := Z.max (Z.max 0 (n - 8)) 1 in
  [123; 34; 100; 34; 58; 34] ++ replicate (Z.to_nat pad) 97 ++ [34; 125].

(** [mod flat]: the buffer of a flush. *)
Module flat.

Record FlatEvent := { fe_conn_id : Z; fe_rel_ns : f64; fe_payload : bytes }.

(** [encoded_len], [push_event], [push_header]. *)
Definition encoded_len (payload_lens : list nat) : nat := 4 + sum_list_with (fun l => 4 + 8 + 4 + l)%nat payload_lens.
Definition push_event (out : bytes) (conn_id : Z) (rel_ns : f64) (payload : bytes) : bytes :=
  out ++ to_le_bytes 4 conn_id ++ to_le_bytes 8 (f64_to_bits rel_ns) ++ Bridge.flat.len32 (length payload) ++ payload.
Definition push_header (out : bytes) (count : Z) : bytes := out ++ to_le_bytes 4 count.

(** One turn of the loop of [decode]; a read past the end panics ([None]). *)
Definition decode_one (buf : bytes) (off : nat) : option (FlatEvent * nat) :=
  '(conn_id, off) ← get_le 4 buf off;
  '(rel_ns, off) ← get_le 8 buf off;
  '(len, off) ← get_le 4 buf off;
  payload ← slice buf off (Z.to_nat len);
  Some ({| fe_conn_id := conn_id; fe_rel_ns := f64_of_bits rel_ns; fe_payload := payload |}, (off + Z.to_nat len)%nat).

(** [decode]. *)
Definition decode (buf : bytes) : option (list FlatEvent) :=
  if (length buf <? 4)%nat then Some []
  else
    '(count, off) ← get_le 4 buf 0;
    '(evs, _) ← get_many decode_one (Z.to_nat count) buf off;
    Some evs.

End flat.

(** ** bridge-node: configuration and messages *)

Inductive Design := NaiveTsfn | BatchedObjects | BatchedFlat.

#[global] Instance Design_eq_dec : EqDecision Design.
Proof. solve_decision. Defined.

(** [Design::parse]; the error carries the text it quotes. *)
Definition parse (s : rstring) : Design + rstring :=
  if decide (s = str "A") then inl NaiveTsfn
  else if decide (s = str "B") then inl BatchedObjects
  else if decide (s = str "C") then inl BatchedFlat
  else inr s.

Record JsConfig := {
  js_design : rstring; js_events_per_sec : f64; js_payload_bytes : f64; js_duration_secs : f64; js_queue_capacity : f64;
  js_batch : f64; js_timer_ms : f64; js_external : bool;
}.

(** [struct EvLite] and [EvLite::from]. *)
Record EvLite := { lite_conn_id : Z; lite_rel_ns : f64; lite_payload : bytes }.
Definition EvLite_from (epoch_ns : Z) (ev : Event) : EvLite :=
  {| lite_conn_id := wrap 32 (conn_id ev); lite_rel_ns := f64_of (Z.max 0 (enqueued_at_ns ev - epoch_ns)); lite_payload := payload ev |}.

(** [MsgA], [MsgB] and [MsgC]: what a call of the threadsafe function carries. *)
Inductive Msg :=
  | MsgA (ev : EvLite) (external : bool)
  | MsgB (events : list EvLite) (external : bool)
  | MsgC (buf : bytes) (external : bool).

(** [MsgC::build]. *)
Definition encode (events : list EvLite) : bytes :=
  foldl (fun out e => flat.push_event out (lite_conn_id e) (lite_rel_ns e) (lite_payload e))
    (flat.push_header [] (wrap 32 (Z.of_nat (length events)))) events.

(** [FlushMsg::build]. *)
Definition build (design : Design) (external : bool) (events : list EvLite) : Msg :=
  match design with
  | BatchedFlat => MsgC (encode events) external
  | _ => MsgB events external
  end.

(** The argument of the callback: the closures of [start]; [payload_buffer] makes
    a buffer of the same bytes whether they are lent or copied. *)
Record JsEvent := { connId : f64; js_payload : bytes; t : f64 }.
Inductive JsArg := JsObject (o : JsEvent) | JsArray (os : list JsEvent) | JsBuffer (buf : bytes).

Definition js_event (e : EvLite) : JsEvent := {| connId := f64_of (lite_conn_id e); js_payload := lite_payload e; t := lite_rel_ns e |}.
Definition to_js (m : Msg) : JsArg :=
  match m with
  | MsgA e _ => JsObject (js_event e)
  | MsgB es _ => JsArray (map js_event es)
  | MsgC buf _ => JsBuffer buf
  end.

(** What the consumer of a design reads from an argument: the fields of the
    objects, or the cursor reader that [flat::decode] mirrors. *)
Definition js_read (a : JsArg) : option (list JsEvent) :=
  match a with
  | JsObject o => Some [o]
  | JsArray os => Some os
  | JsBuffer buf =>
      map (fun e => {| connId := f64_of (flat.fe_conn_id e); js_payload := flat.fe_payload e; t := flat.fe_rel_ns e |}) <$> flat.decode buf
  end.

(** ** A flush carries its batch *)

Definition lite_ok (e : EvLite) : Prop := 0 <= lite_conn_id e < 2 ^ 32 /\ f64_ok (lite_rel_ns e) /\ len_ok (length (lite_payload e)).
Definition flat_view (e : EvLite) : flat.FlatEvent :=
  {| flat.fe_conn_id := lite_conn_id e; flat.fe_rel_ns := lite_rel_ns e; flat.fe_payload := lite_payload e |}.
Definition put_lite (e : EvLite) : bytes := flat.push_event [] (lite_conn_id e) (lite_rel_ns e) (lite_payload e).

Lemma encode_shape es : encode es = Bridge.flat.len32 (length es) ++ put_many put_lite es.
Proof.
  unfold encode, put_many. assert (Hgen : forall out, foldl (fun out e => flat.push_event out (lite_conn_id e) (lite_rel_ns e) (lite_payload e)) out es
    = out ++ concat (map put_lite es)).
  { induction es as [|e es IH]; intros out; [by rewrite app_nil_r|]. cbn [foldl map concat]. rewrite IH. unfold put_lite, flat.push_event. by rewrite <-!app_assoc. }
  apply Hgen.
Qed.

Lemma decode_one_exact buf off e rest : lite_ok e -> At buf off (put_lite e ++ rest) ->
  exists off', flat.decode_one buf off = Some (flat_view e, off') /\ At buf off' rest.
Proof.
  intros (Hc & Hf & Hl) HA. unfold put_lite, flat.push_event in HA. rewrite app_nil_l, <-!app_assoc in HA.
  destruct (f64_bits_roundtrip _ Hf) as [Hb Hr]. unfold flat.decode_one.
  apply get_le_At in HA as [-> HA]; [|lia]. cbn [mbind option_bind]. apply get_le_At in HA as [-> HA]; [|lia]. cbn [mbind option_bind].
  apply len32_At in HA as [-> HA]; [|done]. cbn [mbind option_bind]. rewrite Nat2Z.id. apply At_slice in HA as [-> HA]. cbn [mbind option_bind].
  rewrite Hb. eexists. split; [done|]. exact HA.
Qed.

(** Every field of every event of a flush survives, and [encoded_len] is the
    exact length, so the buffer is allocated once. *)
Lemma proto_flat_roundtrip es : Forall lite_ok es -> len_ok (length es) ->
  flat.decode (encode es) = Some (map flat_view es) /\ length (encode es) = flat.encoded_len (map (fun e => length (lite_payload e)) es).
Proof.
  intros Hok Hl. rewrite encode_shape. split.
  - unfold flat.decode. rewrite (proj2 (Nat.ltb_ge _ _)) by (rewrite length_app, length_len32; lia).
    pose proof (At_start (Bridge.flat.len32 (length es) ++ put_many put_lite es)) as HA. apply len32_At in HA as [-> HA]; [|done]. cbn [mbind option_bind].
    rewrite Nat2Z.id. rewrite <-(app_nil_r (put_many _ _)) in HA.
    rewrite <-(app_nil_r (put_many _ _)). destruct (get_many_view put_lite flat.decode_one flat_view lite_ok decode_one_exact es _ _ [] Hok HA) as (o & -> & _). done.
  - rewrite length_app, length_len32. unfold flat.encoded_len. f_equal. clear. induction es as [|e es IH]; [done|].
    unfold put_many in *. cbn [map concat sum_list_with]. rewrite length_app, IH. unfold put_lite, flat.push_event.
    rewrite app_nil_l, !length_app, !length_to_le_bytes, length_len32. lia.
Qed.

Lemma length_make_payload n : Z.of_nat (length (make_payload n)) = Z.max n 9.
Proof. unfold make_payload. rewrite !length_app, length_replicate. cbn [length]. lia. Qed.

(** The event of the generator at the bridge: its id is the low half, its time is
    exact for the first 2^53 nanoseconds of a run. *)
Lemma EvLite_from_ok epoch ev : Z.max 0 (enqueued_at_ns ev - epoch) < 2 ^ 53 -> len_ok (length (payload ev)) ->
  lite_ok (EvLite_from epoch ev) /\ is_int (lite_rel_ns (EvLite_from epoch ev)) (Z.max 0 (enqueued_at_ns ev - epoch)).
Proof.
  intros Ht Hl. destruct (f64_of_exact (Z.max 0 (enqueued_at_ns ev - epoch))) as [Hok Hi]; [lia|]. split; [|exact Hi].
  split; [apply wrap_range; lia|split; [exact Hok|exact Hl]].
Qed.

(** ** The run: generator, drain thread and JS *)

(** Where the generator task is: at the check of its loop, in the burst of a tick
    with [rest] events to emit, inside [emit] (before [try_send], before the count
    of a drop), asleep until [at], or returned, its sender dropped. *)
Inductive GenPc := GTop | GBurst (rest : Z) | GSend (ev : Event) (rest : Z) | GDrop (rest : Z) | GSleep (at_ns : Z) | GDone.

(** [GeneratorStats], the stop flag and the locals of the task. *)
Record Gen := {
  cfg : GeneratorConfig; epoch_ns : Z; template : bytes; gpc : GenPc; conn : Z; since_yield : Z; next : Z;
  produced : Z; dropped : Z; stopped : bool;
}.

(** Where the drain thread is: at the top of a turn, at the first [recv], filling
    until [deadline], inside [tsfn.call] with the place it returns to, before the
    last flush, or returned, its receiver dropped. *)
Inductive Resume := ToTop | ToLast | ToEnd.
Inductive DrainPc := DTop | DFirst | DFill (deadline : Z) | DCall (m : Msg) (k : Resume) | DLast | DEnded.

(** [TICK_NS]. *)
Definition TICK_NS : Z := 1000000.

Section Run.
Context {Ch : Type -> Type} `{Mpsc Ch}.

(** What [start] fixes for a run. *)
Record Settings := { design : Design; batch : nat; timer : Z; external : bool; capacity : f64 }.

(** The shared state; [offered], [accepted] and [handled] record, for the
    statements, the events emitted, those the channel took, and the arguments JS
    was called with. *)
Record Run := {
  gen : Gen; rx : Ch Event; dpc : DrainPc; buf : list EvLite; tsfn : Ch Msg; delivered : Z; flushes : Z; abort : bool; clock : Z;
  offered : list Event; accepted : list Event; handled : list JsArg;
}.

Definition set_gen (g : Gen) (r : Run) : Run :=
  {| gen := g; rx := rx r; dpc := dpc r; buf := buf r; tsfn := tsfn r; delivered := delivered r; flushes := flushes r; abort := abort r;
     clock := clock r; offered := offered r; accepted := accepted r; handled := handled r |}.
Definition set_dpc (p : DrainPc) (r : Run) : Run :=
  {| gen := gen r; rx := rx r; dpc := p; buf := buf r; tsfn := tsfn r; delivered := delivered r; flushes := flushes r; abort := abort r;
     clock := clock r; offered := offered r; accepted := accepted r; handled := handled r |}.

Definition gen_goto (p : GenPc) (g : Gen) : Gen :=
  {| cfg := cfg g; epoch_ns := epoch_ns g; template := template g; gpc := p; conn := conn g; since_yield := since_yield g; next := next g;
     produced := produced g; dropped := dropped g; stopped := stopped g |}.

(** [deadline_ns] and [per_tick]. *)
Definition deadline_ns (g : Gen) : Z :=
  if duration_secs (cfg g) =? 0 then 2 ^ 64 - 1 else wrap 64 (epoch_ns g + wrap 64 (duration_secs (cfg g) * 1000000000)).
Definition per_tick (c : GeneratorConfig) : Z := Z.max ((events_per_sec c + 999) / 1000) 1.

(** [emit] up to [try_send]: the event, the next id, the count. *)
Definition emit_begin (rest : Z) (r : Run) : Run :=
  let g := gen r in
  let ev := {| conn_id := conn g; enqueued_at_ns := now_ns (clock r); payload := template g |} in
  {| gen := {| cfg := cfg g; epoch_ns := epoch_ns g; template := template g; gpc := GSend ev rest; conn := wrap 64 (conn g + 1);
               since_yield := since_yield g; next := next g; produced := wrap 64 (produced g + 1); dropped := dropped g; stopped := stopped g |};
     rx := rx r; dpc := dpc r; buf := buf r; tsfn := tsfn r; delivered := delivered r; flushes := flushes r; abort := abort r;
     clock := clock r; offered := offered r ++ [ev]; accepted := accepted r; handled := handled r |}.

(** [tx.try_send(ev)]: it fails on a full queue and when the receiver is gone. *)
Definition emit_send (ev : Event) (rest : Z) (r : Run) : Run :=
  match dpc r, try_send ev (rx r) with
  | DEnded, _ => set_gen (gen_goto (GDrop rest) (gen r)) r
  | _, (SendOk, q) =>
      {| gen := gen_goto (GBurst rest) (gen r); rx := q; dpc := dpc r; buf := buf r; tsfn := tsfn r; delivered := delivered r;
         flushes := flushes r; abort := abort r; clock := clock r; offered := offered r; accepted := accepted r ++ [ev]; handled := handled r |}
  | _, _ => set_gen (gen_goto (GDrop rest) (gen r)) r
  end.

(** [stats.dropped.fetch_add(1)]. *)
Definition emit_drop (rest : Z) (g : Gen) : Gen :=
  {| cfg := cfg g; epoch_ns := epoch_ns g; template := template g; gpc := GBurst rest; conn := conn g; since_yield := since_yield g; next := next g;
     produced := produced g; dropped := wrap 64 (dropped g + 1); stopped := stopped g |}.

(** After the burst: the yield counter of the unpaced loop, or the sleep to the
    next tick; a [yield_now] returns to the loop. *)
Definition gen_pause (now : Z) (g : Gen) : Gen :=
  if events_per_sec (cfg g) =? 0 then
    {| cfg := cfg g; epoch_ns := epoch_ns g; template := template g; gpc := GTop; conn := conn g;
       since_yield := if 1024 <=? since_yield g + 1 then 0 else since_yield g + 1; next := next g;
       produced := produced g; dropped := dropped g; stopped := stopped g |}
  else
    {| cfg := cfg g; epoch_ns := epoch_ns g; template := template g; gpc := if now <? next g then GSleep (next g) else GTop; conn := conn g;
       since_yield := since_yield g; next := wrap 64 (next g + TICK_NS);
       produced := produced g; dropped := dropped g; stopped := stopped g |}.

(** One step of the generator task; [None] while it sleeps and once it returned. *)
Definition gen_poll (r : Run) : option Run :=
  let g := gen r in
  match gpc g with
  | GTop =>
      if stopped g || (deadline_ns g <=? now_ns (clock r)) then Some (set_gen (gen_goto GDone g) r)
      else Some (set_gen (gen_goto (GBurst (if events_per_sec (cfg g) =? 0 then 1 else per_tick (cfg g))) g) r)
  | GBurst rest => if 0 <? rest then Some (emit_begin (rest - 1) r) else Some (set_gen (gen_pause (now_ns (clock r)) g) r)
  | GSend ev rest => Some (emit_send ev rest r)
  | GDrop rest => Some (set_gen (emit_drop rest g) r)
  | GSleep at_ns => if at_ns <=? now_ns (clock r) then Some (set_gen (gen_goto GTop g) r) else None
  | GDone => None
  end.

Definition resume (k : Resume) : DrainPc := match k with ToTop => DTop | ToLast => DLast | ToEnd => DEnded end.

(** [flush]: nothing without events, else the counts and the call. *)
Definition flush (st : Settings) (k : Resume) (r : Run) : Run :=
  match buf r with
  | [] => set_dpc (resume k) r
  | events =>
      {| gen := gen r; rx := rx r; dpc := DCall (build (design st) (external st) events) k; buf := []; tsfn := tsfn r;
         delivered := wrap 64 (delivered r + Z.of_nat (length events)); flushes := wrap 64 (flushes r + 1); abort := abort r;
         clock := clock r; offered := offered r; accepted := accepted r; handled := handled r |}
  end.

(** [buf.push(EvLite::from(ev, epoch_ns))]. *)
Definition take_event (p : DrainPc) (ev : Event) (q : Ch Event) (r : Run) : Run :=
  {| gen := gen r; rx := q; dpc := p; buf := buf r ++ [EvLite_from (epoch_ns (gen r)) ev]; tsfn := tsfn r; delivered := delivered r;
     flushes := flushes r; abort := abort r; clock := clock r; offered := offered r; accepted := accepted r; handled := handled r |}.

(** The body of [drain_a] for a received event; on [abort] the event is
    discarded: it stays in [buf], which nothing reads any more. *)
Definition naive_event (st : Settings) (ev : Event) (q : Ch Event) (r : Run) : Run :=
  if abort r then take_event DEnded ev q r
  else
    {| gen := gen r; rx := q; dpc := DCall (MsgA (EvLite_from (epoch_ns (gen r)) ev) (external st)) ToTop; buf := buf r; tsfn := tsfn r;
       delivered := wrap 64 (delivered r + 1); flushes := wrap 64 (flushes r + 1); abort := abort r;
       clock := clock r; offered := offered r; accepted := accepted r; handled := handled r |}.

(** The senders are gone once the generator task has returned. *)
Definition senders_gone (r : Run) : bool := match gpc (gen r) with GDone => true | _ => false end.

(** [drain_a] and [drain_batched], one step; [None] while the thread waits.
    [late] is the choice of the [select!] when both branches are ready. *)
Definition drain_a (st : Settings) (r : Run) : option Run :=
  match recv (rx r) with
  | Some (ev, q) => Some (naive_event st ev q r)
  | None => if senders_gone r then Some (set_dpc DEnded r) else None
  end.
Definition drain_batched (st : Settings) (late : bool) (p : DrainPc) (r : Run) : option Run :=
  match p with
  | DTop => Some (set_dpc (if abort r then DLast else DFirst) r)
  | DFirst =>
      match recv (rx r) with
      | Some (ev, q) => Some (take_event (DFill (clock r + timer st)) ev q r)
      | None => if senders_gone r then Some (set_dpc DLast r) else None
      end
  | DFill deadline =>
      if (length (buf r) <? batch st)%nat then
        let due := deadline <=? clock r in
        match recv (rx r) with
        | Some (ev, q) => if due && late then Some (flush st ToTop r) else Some (take_event (DFill deadline) ev q r)
        | None =>
            if due && (late || negb (senders_gone r)) then Some (flush st ToTop r)
            else if senders_gone r then Some (flush st ToLast r)
            else None
        end
      else Some (flush st ToTop r)
  | _ => Some (flush st ToEnd r)
  end.

(** [tsfn.call(m, Blocking)]: waits for room in the queue of the function. *)
Definition tsfn_call (m : Msg) (k : Resume) (r : Run) : option Run :=
  match send m (tsfn r) with
  | Some (_, q) =>
      Some {| gen := gen r; rx := rx r; dpc := resume k; buf := buf r; tsfn := q; delivered := delivered r; flushes := flushes r;
              abort := abort r; clock := clock r; offered := offered r; accepted := accepted r; handled := handled r |}
  | None => None
  end.

Definition drain_poll (st : Settings) (late : bool) (r : Run) : option Run :=
  match dpc r with
  | DEnded => None
  | DCall m k => tsfn_call m k r
  | p => if decide (design st = NaiveTsfn) then drain_a st r else drain_batched st late p r
  end.

(** [Bridge::stop], and [drop], which hands the rest of the tear-down to a thread. *)
Definition stop (r : Run) : Run :=
  let g := gen r in
  {| gen := {| cfg := cfg g; epoch_ns := epoch_ns g; template := template g; gpc := gpc g; conn := conn g; since_yield := since_yield g;
               next := next g; produced := produced g; dropped := dropped g; stopped := true |};
     rx := rx r; dpc := dpc r; buf := buf r; tsfn := tsfn r; delivered := delivered r; flushes := flushes r; abort := true;
     clock := clock r; offered := offered r; accepted := accepted r; handled := handled r |}.

(** The event loop of JS takes one call from the queue of the function. *)
Definition js_turn (r : Run) : option Run :=
  match recv (tsfn r) with
  | Some (m, q) =>
      Some {| gen := gen r; rx := rx r; dpc := dpc r; buf := buf r; tsfn := q; delivered := delivered r; flushes := flushes r;
              abort := abort r; clock := clock r; offered := offered r; accepted := accepted r; handled := handled r ++ [to_js m] |}
  | None => None
  end.

Definition set_clock (now : Z) (r : Run) : Run :=
  {| gen := gen r; rx := rx r; dpc := dpc r; buf := buf r; tsfn := tsfn r; delivered := delivered r; flushes := flushes r; abort := abort r;
     clock := now; offered := offered r; accepted := accepted r; handled := handled r |}.

Inductive run_step (st : Settings) (r : Run) : Run -> Prop :=
  | RGen r' : gen_poll r = Some r' -> run_step st r r'
  | RDrain late r' : drain_poll st late r = Some r' -> run_step st r r'
  | RJs r' : js_turn r = Some r' -> run_step st r r'
  | RTime now : clock r <= now -> run_step st r (set_clock now r)
  | RStop : run_step st r (stop r).

(** [spawn_generator] and [Bridge::start]: [Duration::from_secs_f64] rounds to
    nanoseconds, ties to even, and panics ([None]) when it does not fit; the error
    is the text of an unknown design. *)
Definition spawn_generator (c : GeneratorConfig) (now : Z) : Gen * Ch Event :=
  let epoch := now_ns now in
  ({| cfg := c; epoch_ns := epoch; template := make_payload (payload_bytes c); gpc := GTop; conn := 0; since_yield := 0;
      next := wrap 64 (epoch + TICK_NS); produced := 0; dropped := 0; stopped := false |},
   ch_new (Z.to_nat (Z.max (queue_capacity c) 1))).

Definition from_secs_f64 (v : f64) : option Z :=
  let fits n := if n <? 2 ^ 64 * 1000000000 then Some n else None in
  match v with
  | S754_zero _ => Some 0
  | S754_finite false m e =>
      if 0 <=? e then fits (Z.shiftl (Z.pos m) e * 1000000000)
      else
        let d := 2 ^ (- e) in
        let q := Z.pos m * 1000000000 / d in
        let rm := (Z.pos m * 1000000000) mod d in
        fits (if (2 * rm <? d) || ((2 * rm =? d) && Z.even q) then q else q + 1)
  | _ => None
  end.

Definition tsfn_bound (d : Design) : nat := match d with NaiveTsfn => 512 | _ => 4 end.

Definition start (c : JsConfig) (now : Z) : option ((Settings * Run) + rstring) :=
  match parse (js_design c) with
  | inr other => Some (inr other)
  | inl d =>
      let gcfg := {| events_per_sec := as_unsigned 64 (js_events_per_sec c); payload_bytes := as_unsigned 64 (js_payload_bytes c);
                     duration_secs := as_unsigned 64 (js_duration_secs c); queue_capacity := Z.max (as_unsigned 64 (js_queue_capacity c)) 1 |} in
      t ← from_secs_f64 (fmax (fdiv (js_timer_ms c) (f64_of 1000)) f0);
      let '(g, q) := spawn_generator gcfg now in
      Some (inl ({| design := d; batch := Z.to_nat (Z.max (as_unsigned 64 (js_batch c)) 1); timer := t; external := js_external c;
                    capacity := fmax (js_queue_capacity c) f1 |},
                 {| gen := g; rx := q; dpc := DTop; buf := []; tsfn := ch_new (tsfn_bound d); delivered := 0; flushes := 0; abort := false;
                    clock := now; offered := []; accepted := []; handled := [] |}))
  end.

(** [rel_now_ns] and [pressure]; the counters are read one after the other. *)
Definition rel_now_ns (r : Run) : f64 := f64_of (Z.max 0 (now_ns (clock r) - epoch_ns (gen r))).

Record Pressure := { p_produced : f64; p_dropped : f64; p_delivered : f64; p_flushes : f64; queue_depth : f64; bridge_pressure : f64 }.
Definition depth_of (produced dropped delivered : Z) : Z := Z.max 0 (Z.max 0 (produced - dropped) - delivered).
Definition pressure (st : Settings) (produced dropped delivered flushes : Z) : Pressure :=
  let depth := depth_of produced dropped delivered in
  {| p_produced := f64_of produced; p_dropped := f64_of dropped; p_delivered := f64_of delivered; p_flushes := f64_of flushes;
     queue_depth := f64_of depth; bridge_pressure := fdiv (f64_of depth) (capacity st) |}.

End Run.
#[global] Arguments Run : clear implicits.

(** ** Every event is accounted for *)

Section RunFacts.
Context {Ch : Type -> Type} `{Mpsc Ch}.
Implicit Types (r : Run Ch) (st : Settings).

(** The event inside [emit]: counted, not yet taken or dropped. *)
Definition pending (p : GenPc) : list Event := match p with GSend ev _ => [ev] | _ => [] end.
Definition inflight (p : GenPc) : nat := match p with GSend _ _ | GDrop _ => 1 | _ => 0 end.

Definition count (n : nat) : Z := wrap 64 (Z.of_nat n).

(** The generator numbers its events; the channel takes some of them, in order. *)
Record gen_inv r : Prop := {
  gi_ids : forall i ev, offered r !! i = Some ev -> conn_id ev = count i;
  gi_conn : conn (gen r) = count (length (offered r));
  gi_produced : produced (gen r) = count (length (offered r));
  gi_sub : accepted r ++ pending (gpc (gen r)) `sublist_of` offered r;
  gi_dropped : exists n, dropped (gen r) = count n /\ length (offered r) = (length (accepted r) + n + inflight (gpc (gen r)))%nat;
}.

(** A message per batch; the largest batch of a design. *)
Definition bsize st : nat := if decide (design st = NaiveTsfn) then 1 else batch st.
Definition message st (b : list EvLite) : Msg :=
  match design st, b with NaiveTsfn, [e] => MsgA e (external st) | _, _ => build (design st) (external st) b end.
Definition calling (p : DrainPc) : list Msg := match p with DCall m _ => [m] | _ => [] end.
Definition size_ok st (b : list EvLite) : Prop := (1 <= length b <= bsize st)%nat.

(** A thread that has left its loop without [abort] has seen the channel close. *)
Definition closed_ok r : Prop := abort r = false -> ch_items (rx r) = [] /\ senders_gone r = true.
Definition dpc_ok st r : Prop :=
  match dpc r with
  | DTop | DFirst => buf r = []
  | DFill _ => (1 <= length (buf r))%nat /\ design st <> NaiveTsfn
  | DCall _ k => buf r = [] /\ match k with ToTop => True | ToLast => closed_ok r | ToEnd => False end
  | DLast => buf r = [] /\ closed_ok r
  | DEnded => (abort r = false -> buf r = []) /\ closed_ok r
  end.

Definition lites r (evs : list Event) : list EvLite := map (EvLite_from (epoch_ns (gen r))) evs.

(** What went to the function, in batches; then the batch in hand, then the queue. *)
Record drain_inv st (cap : nat) r : Prop := {
  di_sent : exists bs, handled r ++ map to_js (ch_items (tsfn r) ++ calling (dpc r)) = map (fun b => to_js (message st b)) bs /\
    Forall (size_ok st) bs /\ concat bs ++ buf r ++ lites r (ch_items (rx r)) = lites r (accepted r) /\
    delivered r = count (length (concat bs)) /\ flushes r = count (length bs);
  di_size : (length (buf r) <= bsize st)%nat;
  di_rx : ch_capacity (rx r) = cap /\ (length (ch_items (rx r)) <= cap)%nat;
  di_tsfn : ch_capacity (tsfn r) = tsfn_bound (design st) /\ ch_closed (tsfn r) = false /\ (length (ch_items (tsfn r)) <= tsfn_bound (design st))%nat;
  di_pc : dpc_ok st r;
}.

Lemma count_plus n k : wrap 64 (count n + Z.of_nat k) = count (n + k).
Proof. unfold count, wrap. rewrite Zplus_mod_idemp_l. f_equal. lia. Qed.

Lemma count_small n : Z.of_nat n < 2 ^ 64 -> count n = Z.of_nat n.
Proof. intros Hn. apply wrap_small. lia. Qed.

Lemma gen_moves_inv r g' :
  gen_inv r -> pending (gpc g') = pending (gpc (gen r)) -> inflight (gpc g') = inflight (gpc (gen r)) ->
  conn g' = conn (gen r) -> produced g' = produced (gen r) -> dropped g' = dropped (gen r) -> gen_inv (set_gen g' r).
Proof.
  intros [Hi Hc Hp Hs Hd] E1 E2 E3 E4 E5. split; cbn [set_gen gen offered accepted]; [done|congruence|congruence|by rewrite E1|by rewrite E2, E5].
Qed.

Lemma emit_begin_inv rest r : gen_inv r -> inflight (gpc (gen r)) = 0%nat -> gen_inv (emit_begin rest r).
Proof.
  intros [Hi Hc Hp Hs (n & Hd & Hl)] E0. rewrite E0 in Hl. pose proof (count_plus (length (offered r)) 1) as Hn. change (Z.of_nat 1) with 1 in Hn.
  split; cbn [emit_begin gen offered accepted conn produced dropped gpc pending inflight].
  - intros i ev Hlk. apply lookup_app_Some in Hlk as [Hlk|[Hge Hlk]]; [by apply Hi|]. apply list_lookup_singleton_Some in Hlk as [Hi0 <-]. cbn [conn_id]. rewrite Hc. f_equal. lia.
  - by rewrite Hc, Hn, length_app.
  - by rewrite Hp, Hn, length_app.
  - apply sublist_app; [|done]. etrans; [|exact Hs]. apply sublist_inserts_r. done.
  - exists n. rewrite length_app. cbn [length]. split; [done|lia].
Qed.

Lemma emit_send_inv ev rest r : gen_inv r -> gpc (gen r) = GSend ev rest -> gen_inv (emit_send ev rest r).
Proof.
  intros [Hi Hc Hp Hs (n & Hd & Hl)] Eg. rewrite Eg in Hs, Hl. cbn [pending inflight] in Hs, Hl.
  assert (Hdrop : gen_inv (set_gen (gen_goto (GDrop rest) (gen r)) r)).
  { split; cbn [set_gen gen_goto gen offered accepted conn produced dropped gpc pending inflight]; [done..| |by exists n].
    rewrite app_nil_r. etrans; [|exact Hs]. apply sublist_inserts_r. done. }
  unfold emit_send. destruct (try_send ev (rx r)) as [[] q]; destruct (dpc r); try exact Hdrop.
  all: split; cbn [gen_goto gen offered accepted conn produced dropped gpc pending inflight]; [done..|by rewrite app_nil_r|]; exists n; rewrite length_app; cbn [length]; split; [done|lia].
Qed.

Lemma emit_drop_inv rest r : gen_inv r -> gpc (gen r) = GDrop rest -> gen_inv (set_gen (emit_drop rest (gen r)) r).
Proof.
  intros [Hi Hc Hp Hs (n & Hd & Hl)] Eg. rewrite Eg in Hs, Hl. cbn [pending inflight] in Hs, Hl.
  split; cbn [set_gen emit_drop gen offered accepted conn produced dropped gpc pending inflight]; [done..|].
  exists (n + 1)%nat. rewrite Hd, <-count_plus. split; [done|lia].
Qed.

Lemma gen_poll_inv r r' : gen_inv r -> gen_poll r = Some r' -> gen_inv r'.
Proof.
  intros Hi E. unfold gen_poll in E. destruct (gpc (gen r)) as [|rest|ev rest|rest|at_ns|] eqn:Eg; [..|done].
  - destruct (_ || _); injection E as <-; apply gen_moves_inv; rewrite ?Eg; done.
  - destruct (0 <? rest); injection E as <-; [apply emit_begin_inv; [done|by rewrite Eg]|].
    unfold gen_pause. destruct (_ =? 0); [|destruct (_ <? _)]; apply gen_moves_inv; rewrite ?Eg; done.
  - injection E as <-. by apply emit_send_inv.
  - injection E as <-. by apply emit_drop_inv.
  - destruct (_ <=? _); [|done]. injection E as <-. apply gen_moves_inv; rewrite ?Eg; done.
Qed.

(** What a step of the generator leaves alone. *)
Record drain_same r r' : Prop := {
  ds_dpc : dpc r' = dpc r; ds_buf : buf r' = buf r; ds_tsfn : tsfn r' = tsfn r; ds_delivered : delivered r' = delivered r;
  ds_flushes : flushes r' = flushes r; ds_abort : abort r' = abort r; ds_handled : handled r' = handled r;
  ds_epoch : epoch_ns (gen r') = epoch_ns (gen r);
}.

Lemma gen_poll_frame r r' : gen_poll r = Some r' ->
  drain_same r r' /\ senders_gone r = false /\
  (rx r' = rx r /\ accepted r' = accepted r \/
   exists ev q, try_send ev (rx r) = (SendOk, q) /\ rx r' = q /\ accepted r' = accepted r ++ [ev]).
Proof.
  intros E. unfold gen_poll in E. unfold senders_gone. destruct (gpc (gen r)) as [|rest|ev rest|rest|at_ns|] eqn:Eg; [..|done].
  - destruct (_ || _); injection E as <-; split_and!; (done || by left).
  - destruct (0 <? rest); injection E as <-; [split_and!; (done || by left)|].
    unfold gen_pause. destruct (_ =? 0); split_and!; (done || by left).
  - injection E as <-. unfold emit_send. destruct (try_send ev (rx r)) as [[] q] eqn:Et; destruct (dpc r) eqn:Ed; split_and!; try done; try (by left);
      try (by right; exists ev, q); by split.
  - injection E as <-. split_and!; (done || by left).
  - destruct (_ <=? _); [|done]. injection E as <-. split_and!; (done || by left).
Qed.

Lemma gen_step_drain_inv st cap r r' : drain_inv st cap r -> gen_poll r = Some r' -> drain_inv st cap r'.
Proof.
  intros [(bs & Hh & Hb & Ha & Hd & Hf) Hsz [Hc Hl] Ht Hp] E. destruct (gen_poll_frame r r' E) as ([E1 E2 E3 E4 E5 E6 E7 E8] & Hg & Hrx).
  assert (Hp' : dpc_ok st r').
  { assert (Hcl : closed_ok r -> closed_ok r') by (intros Hcl Hab; rewrite E6 in Hab; destruct (Hcl Hab); congruence).
    unfold dpc_ok in *. rewrite E1, E2, E6. destruct (dpc r) as [| | |m []| |]; naive_solver. }
  split; [|by rewrite E2| |by rewrite E3|done].
  - exists bs. unfold lites in *. rewrite E1, E2, E3, E4, E5, E7, E8. split_and!; [done..| |done|done].
    destruct Hrx as [[-> ->]|(ev & q & Es & -> & ->)]; [done|]. apply try_send_items in Es as (-> & _). rewrite decide_True by done.
    rewrite !map_app, <-Ha, <-!app_assoc. done.
  - destruct Hrx as [[-> _]|(ev & q & Es & -> & _)]; [done|]. apply try_send_items in Es as (_ & -> & _ & Hle). split; [done|]. rewrite <-Hc. apply Hle. lia.
Qed.

Lemma stop_drain_inv st cap r : drain_inv st cap r -> drain_inv st cap (stop r).
Proof.
  intros [Hs Hsz Hc Ht Hp]. split; [exact Hs|done..|]. assert (Hcl : closed_ok (stop r)) by (intros [=]).
  unfold dpc_ok in *. cbn [stop dpc buf abort]. destruct (dpc r) as [| | |m []| |]; naive_solver.
Qed.

Lemma clock_drain_inv st cap now r : drain_inv st cap r -> drain_inv st cap (set_clock now r).
Proof. intros [Hs Hsz Hc Ht Hp]. by split. Qed.

Lemma js_drain_inv st cap r r' : drain_inv st cap r -> js_turn r = Some r' -> drain_inv st cap r'.
Proof.
  intros [(bs & Hh & Hb) Hsz Hc (Ht & Ho & Hl) Hp] E. unfold js_turn, recv in E. destruct (ch_items (tsfn r)) as [|m its] eqn:Ei; [done|]. injection E as <-.
  split; [|done|done| |done]; cbn [handled tsfn dpc buf rx accepted delivered flushes gen].
  - exists bs. split; [|exact Hb]. rewrite ch_items_dequeue, Ei. cbn [tail]. by rewrite <-Hh, <-!app_assoc.
  - rewrite ch_items_dequeue, ch_capacity_dequeue, ch_closed_dequeue, Ei. cbn [length tail] in *. split_and!; [done..|lia].
Qed.

(** Receiving from the channel. *)
Lemma recv_Some (c : Ch Event) ev q : recv c = Some (ev, q) -> ch_items c = ev :: ch_items q /\ ch_capacity q = ch_capacity c.
Proof. unfold recv. destruct (ch_items c) as [|x its] eqn:Ei; [done|]. intros [= -> <-]. by rewrite ch_items_dequeue, ch_capacity_dequeue, Ei. Qed.

Lemma recv_empty (c : Ch Event) : recv c = None -> ch_items c = [].
Proof. unfold recv. by destruct (ch_items c). Qed.

Lemma set_dpc_inv st cap p r : drain_inv st cap r -> calling (dpc r) = [] -> calling p = [] -> dpc_ok st (set_dpc p r) -> drain_inv st cap (set_dpc p r).
Proof.
  intros [(bs & Hh & Hb) Hsz Hc Ht Hp] E1 E2 Hp'. split; [|done..]. exists bs. cbn [set_dpc handled tsfn dpc]. rewrite E2, <-E1. by split.
Qed.

Lemma thread_take_inv st cap p ev q r : drain_inv st cap r -> recv (rx r) = Some (ev, q) -> (length (buf r) < bsize st)%nat ->
  calling (dpc r) = [] -> calling p = [] -> dpc_ok st (take_event p ev q r) -> drain_inv st cap (take_event p ev q r).
Proof.
  intros [(bs & Hh & Hb & Ha & Hd) Hsz [Hc Hl] Ht Hp] [Ei Eq]%recv_Some Hlt E1 E2 Hp'. split; [| | |done|done]; cbn [take_event handled tsfn dpc buf rx accepted delivered flushes gen].
  - exists bs. rewrite E2, <-E1. split_and!; [done..| |by destruct Hd|by destruct Hd]. unfold lites in *. cbn [take_event gen]. rewrite <-Ha, Ei. cbn [map]. by rewrite <-app_assoc.
  - rewrite length_app. cbn. lia.
  - rewrite Ei in Hl. cbn [length] in Hl. split; [congruence|lia].
Qed.

(** A batch goes to the function: it leaves the buffer or the channel and is
    counted before the call. *)
Lemma sent_inv st cap m b k r r' : drain_inv st cap r -> calling (dpc r) = [] -> size_ok st b -> m = message st b ->
  handled r' = handled r -> tsfn r' = tsfn r -> dpc r' = DCall m k -> gen r' = gen r -> accepted r' = accepted r -> buf r' = [] -> abort r' = abort r ->
  b ++ lites r (ch_items (rx r')) = buf r ++ lites r (ch_items (rx r)) ->
  ch_capacity (rx r') = ch_capacity (rx r) -> (length (ch_items (rx r')) <= length (ch_items (rx r)))%nat ->
  delivered r' = wrap 64 (delivered r + Z.of_nat (length b)) -> flushes r' = wrap 64 (flushes r + 1) ->
  match k with ToTop => True | ToLast => closed_ok r' | ToEnd => False end -> drain_inv st cap r'.
Proof.
  intros [(bs & Hh & Hb & Ha & Hd & Hf) Hsz [Hc Hl] Ht Hp] E0 Hb1 -> E1 E2 E3 E4 E5 E6 E7 Hmv Hcap Hle Ed Ef Hk.
  split; [| |by split; [congruence|lia]|by rewrite E2|by unfold dpc_ok; rewrite E3].
  - exists (bs ++ [b]). rewrite E1, E2, E3, E5, E6, Ed, Ef, Hd, Hf. cbn [calling]. rewrite E0, app_nil_r in Hh. unfold lites in *. rewrite E4.
    rewrite concat_app, length_app, concat_cons, concat_nil, app_nil_r, length_app, !map_app, <-Hh, count_plus. split_and!.
    + by rewrite <-app_assoc.
    + apply Forall_app. split; [done|]. by constructor.
    + by rewrite <-Ha, app_nil_l, <-app_assoc, Hmv.
    + done.
    + by rewrite <-count_plus.
  - rewrite E6. cbn. lia.
Qed.

Lemma thread_flush_inv st cap k r : drain_inv st cap r -> calling (dpc r) = [] -> design st <> NaiveTsfn ->
  (buf r = [] -> dpc_ok st (set_dpc (resume k) r)) -> match k with ToTop => True | ToLast => closed_ok r | ToEnd => buf r = [] end ->
  drain_inv st cap (flush st k r).
Proof.
  intros Hi E0 Hd Hp Hk. unfold flush. destruct (buf r) as [|e l] eqn:Eb; [apply set_dpc_inv; [done|done|by destruct k|by apply Hp]|].
  eapply (sent_inv st cap _ (e :: l) k r _ Hi E0); try done.
  - split; [cbn; lia|]. rewrite <-Eb. apply (di_size _ _ _ Hi).
  - unfold message. by destruct (design st).
  - by rewrite Eb.
  - by destruct k.
Qed.

Lemma naive_event_inv st cap ev q r : drain_inv st cap r -> design st = NaiveTsfn -> calling (dpc r) = [] -> buf r = [] ->
  recv (rx r) = Some (ev, q) -> drain_inv st cap (naive_event st ev q r).
Proof.
  intros Hi Hd E0 Eb Er. assert (Hs : bsize st = 1%nat) by (unfold bsize; by rewrite decide_True). unfold naive_event. destruct (abort r) eqn:Eab.
  - apply thread_take_inv; try done; [rewrite Eb, Hs; cbn; lia|]. unfold dpc_ok, closed_ok. cbn. rewrite Eab. by split.
  - destruct (recv_Some _ _ _ Er) as [Ei Eq]. eapply (sent_inv st cap _ [EvLite_from (epoch_ns (gen r)) ev] ToTop r _ Hi E0); try done.
    + unfold size_ok. rewrite Hs. cbn. lia.
    + unfold message. by rewrite Hd.
    + by rewrite Eb, Ei.
    + cbn [rx]. rewrite Ei. cbn. lia.
Qed.

Lemma tsfn_call_inv st cap m k r r' : drain_inv st cap r -> dpc r = DCall m k -> tsfn_call m k r = Some r' -> drain_inv st cap r'.
Proof.
  intros [(bs & Hh & Hb) Hsz Hc (Ht & Ho & Hl) Hp] Ep E. unfold tsfn_call, send, ch_room in E. rewrite Ho in E. case_bool_decide as Hr; [|done]. injection E as <-.
  unfold dpc_ok in Hp. rewrite Ep in Hp, Hh. destruct Hp as [Hbuf Hk].
  split; [|done|done| |]; cbn [handled tsfn dpc buf rx accepted delivered flushes gen].
  - exists bs. split; [|exact Hb]. rewrite <-Hh, ch_items_enqueue, <-app_assoc. by destruct k.
  - rewrite ch_items_enqueue, ch_capacity_enqueue, ch_closed_enqueue, length_app. cbn [length]. split_and!; [done..|lia].
  - unfold dpc_ok. cbn [dpc buf abort]. destruct k; cbn [resume]; done.
Qed.

Lemma thread_poll_inv st cap late r r' : (0 < batch st)%nat -> drain_inv st cap r -> drain_poll st late r = Some r' -> drain_inv st cap r'.
Proof.
  intros Hbt Hi E. pose proof (di_pc _ _ _ Hi) as Hp. unfold drain_poll in E. destruct (dpc r) as [| |dl|m k| |] eqn:Ep; [..|done].
  4: by eapply tsfn_call_inv.
  all: assert (E0 : calling (dpc r) = []) by (by rewrite Ep); unfold dpc_ok in Hp; rewrite Ep in Hp.
  all: case_decide as Hd; [unfold drain_a in E|assert (Hs : bsize st = batch st) by (unfold bsize; by rewrite decide_False); unfold drain_batched in E].
  3: destruct (recv (rx r)) as [[ev q]|] eqn:Er; [injection E as <-; apply naive_event_inv; done|].
  1: destruct (recv (rx r)) as [[ev q]|] eqn:Er; [injection E as <-; apply naive_event_inv; done|].
  1, 3: destruct (senders_gone r) eqn:Eg; [|done]; injection E as <-; apply set_dpc_inv; try done; unfold dpc_ok, closed_ok; cbn; rewrite (recv_empty _ Er); done.
  - injection E as <-. apply set_dpc_inv; [done..|by destruct (abort r)|]. unfold dpc_ok, closed_ok. destruct (abort r) eqn:Ea; cbn; rewrite ?Ea; done.
  - destruct (recv (rx r)) as [[ev q]|] eqn:Er.
    + injection E as <-. apply thread_take_inv; try done; [rewrite Hp, Hs; cbn; lia|]. unfold dpc_ok. cbn. rewrite Hp. cbn. split; [lia|done].
    + destruct (senders_gone r) eqn:Eg; [|done]. injection E as <-. apply set_dpc_inv; try done. unfold dpc_ok, closed_ok. cbn. rewrite (recv_empty _ Er). done.
  - by destruct Hp.
  - destruct Hp as [Hp _]. assert (Hnil : buf r = [] -> dpc_ok st (set_dpc DTop r)) by done.
    destruct (Nat.ltb_spec (length (buf r)) (batch st)) as [Hlt|Hge]; [|injection E as <-; by apply thread_flush_inv].
    destruct (recv (rx r)) as [[ev q]|] eqn:Er.
    + destruct (_ && late); injection E as <-; [by apply thread_flush_inv|]. apply thread_take_inv; try done; [by rewrite Hs|]. unfold dpc_ok. cbn. rewrite length_app. split; [lia|done].
    + destruct (_ && _); [injection E as <-; by apply thread_flush_inv|]. destruct (senders_gone r) eqn:Eg; [|done]. injection E as <-.
      assert (Hcl : closed_ok r) by (intros _; by rewrite (recv_empty _ Er)). by apply thread_flush_inv.
  - destruct Hp as [Hb Hcl]. destruct (recv (rx r)) as [[ev q]|] eqn:Er; [injection E as <-; by apply naive_event_inv|].
    destruct (senders_gone r) eqn:Eg; [|done]. injection E as <-. apply set_dpc_inv; try done.
  - destruct Hp as [Hb Hcl]. injection E as <-. by apply thread_flush_inv.
Qed.

Definition run_inv st cap r : Prop := (0 < batch st)%nat /\ gen_inv r /\ drain_inv st cap r.

Lemma drain_poll_frame st late r r' : drain_poll st late r = Some r' ->
  gen r' = gen r /\ offered r' = offered r /\ accepted r' = accepted r /\ abort r' = abort r /\ handled r' = handled r /\ clock r' = clock r.
Proof.
  intros E. assert (Hf : forall k, let r' := flush st k r in gen r' = gen r /\ offered r' = offered r /\ accepted r' = accepted r /\ abort r' = abort r /\ handled r' = handled r /\ clock r' = clock r).
  { intros k. unfold flush. by destruct (buf r). }
  unfold drain_poll, drain_a, drain_batched, tsfn_call, naive_event in E. destruct (dpc r); repeat case_decide; repeat break_match_hyp E; simplify_eq; try done; apply Hf.
Qed.

Lemma run_step_inv st cap r r' : run_step st r r' -> run_inv st cap r -> run_inv st cap r'.
Proof.
  intros Hst (Hb & Hg & Hd). split; [done|]. destruct Hst as [r' E|late r' E|r' E|now Hn|].
  - split; [by eapply gen_poll_inv|by eapply gen_step_drain_inv].
  - split; [|by eapply thread_poll_inv]. destruct (drain_poll_frame _ _ _ _ E) as (E1 & E2 & E3 & _). destruct Hg. split; rewrite ?E1, ?E2, ?E3; done.
  - split; [|by eapply js_drain_inv]. unfold js_turn in E. destruct (recv (tsfn r)) as [[m q]|]; [|done]. injection E as <-. destruct Hg. by split.
  - split; [|by apply clock_drain_inv]. destruct Hg. by split.
  - split; [|by apply stop_drain_inv]. destruct Hg. by split.
Qed.

Lemma run_steps_inv st cap r r' : rtc (run_step st) r r' -> run_inv st cap r -> run_inv st cap r'.
Proof. intros Hr. induction Hr as [|r1 r2 r3 Hs _ IH]; [done|]. intros Hi. apply IH. by eapply run_step_inv. Qed.

(** The capacity [start] gives the channel. *)
Definition start_capacity (c : JsConfig) : nat := Z.to_nat (Z.max (Z.max (as_unsigned 64 (js_queue_capacity c)) 1) 1).

Lemma run_started_inv c now st r : start c now = Some (inl (st, r)) -> run_inv st (start_capacity c) r.
Proof.
  intros E. unfold start in E. destruct (parse (js_design c)) as [d|]; [|done]. destruct (from_secs_f64 _) as [tm|]; [|done].
  cbn [mbind option_bind spawn_generator] in E. injection E as <- <-. split; [cbn [batch]; lia|]. split.
  - split; cbn [gen offered accepted conn produced dropped gpc pending inflight]; [done..|]. by exists 0%nat.
  - split; cbn [handled tsfn dpc buf rx accepted delivered flushes gen calling design queue_capacity].
    + exists []. unfold lites. cbn [gen]. by rewrite !ch_items_new.
    + cbn. lia.
    + rewrite ch_capacity_new, ch_items_new. split; [done|]. cbn. lia.
    + rewrite ch_capacity_new, ch_items_new, ch_closed_new. split_and!; [done..|]. cbn. lia.
    + done.
Qed.

(** ** A run whose generator is done empties *)

Definition weight (p : DrainPc) : nat :=
  match p with
  | DEnded => 0 | DLast => 1 | DFirst => 2 | DTop => 3 | DFill _ => 6
  | DCall _ ToEnd => 2 | DCall _ ToLast => 3 | DCall _ ToTop => 5
  end.
Definition todo r : nat := 8 * length (ch_items (rx r)) + weight (dpc r) + length (ch_items (tsfn r)).

Lemma flush_todo st k r : (k = ToTop \/ k = ToLast) -> (5 < weight (dpc r))%nat -> (todo (flush st k r) < todo r)%nat.
Proof. intros Hk Hw. unfold flush, todo. destruct (buf r); cbn [rx dpc tsfn set_dpc weight]; destruct Hk as [-> | ->]; cbn [resume weight]; lia. Qed.

Lemma recv_shorter r ev q : recv (rx r) = Some (ev, q) -> length (ch_items (rx r)) = S (length (ch_items q)).
Proof. intros [E _]%recv_Some. by rewrite E. Qed.

Lemma drain_a_progress st r : senders_gone r = true -> abort r = false -> (0 < weight (dpc r))%nat ->
  exists r', drain_a st r = Some r' /\ (todo r' < todo r)%nat.
Proof.
  intros Hg Ha Hw. unfold drain_a. destruct (recv (rx r)) as [[ev q]|] eqn:Er.
  - eexists. split; [done|]. pose proof (recv_shorter _ _ _ Er). unfold naive_event. rewrite Ha. unfold todo. cbn [rx dpc tsfn weight]. lia.
  - rewrite Hg. eexists. split; [done|]. unfold todo. cbn [rx dpc tsfn set_dpc weight]. lia.
Qed.

Lemma drain_batched_progress st r : senders_gone r = true -> abort r = false -> dpc_ok st r -> (0 < weight (dpc r))%nat -> calling (dpc r) = [] ->
  exists r', drain_batched st false (dpc r) r = Some r' /\ (todo r' < todo r)%nat.
Proof.
  intros Hg Ha Hp Hw Hc. unfold dpc_ok in Hp. unfold drain_batched. destruct (dpc r) as [| |dl|m k| |] eqn:Ep; [| | |done| |cbn in Hw; lia].
  - eexists. split; [done|]. rewrite Ha. unfold todo. rewrite Ep. cbn. lia.
  - destruct (recv (rx r)) as [[ev q]|] eqn:Er; [|rewrite Hg]; (eexists; split; [done|]); unfold todo; rewrite Ep; cbn [rx dpc tsfn take_event set_dpc weight]; [|lia].
    pose proof (recv_shorter _ _ _ Er). lia.
  - assert (Hfl : forall k, k = ToTop \/ k = ToLast -> (todo (flush st k r) < todo r)%nat) by (intros k Hk; apply flush_todo; [done|rewrite Ep; cbn; lia]).
    destruct (_ <? _)%nat; [|eauto]. destruct (recv (rx r)) as [[ev q]|] eqn:Er; rewrite ?Hg, ?andb_false_r; cbn [negb orb]; rewrite ?andb_false_r; [|eauto].
    eexists. split; [done|]. pose proof (recv_shorter _ _ _ Er). unfold todo. rewrite Ep. cbn [rx dpc tsfn take_event weight]. lia.
  - eexists. split; [done|]. destruct Hp as [Hbuf _]. unfold flush. rewrite Hbuf. unfold todo. rewrite Ep. cbn. lia.
Qed.

(** With the queue of the function empty the drain thread is not blocked. *)
Lemma thread_progress st cap r : drain_inv st cap r -> ch_items (tsfn r) = [] -> senders_gone r = true -> abort r = false -> (0 < todo r)%nat ->
  exists r', drain_poll st false r = Some r' /\ (todo r' < todo r)%nat.
Proof.
  intros Hd Ets Hg Ha Ht. pose proof (di_pc _ _ _ Hd) as Hp. destruct (di_tsfn _ _ _ Hd) as (Hcap & Ho & _).
  pose proof (drain_a_progress st r Hg Ha) as HA. pose proof (drain_batched_progress st r Hg Ha Hp) as HB.
  unfold drain_poll. destruct (dpc r) as [| |dl|m k| |] eqn:Ep.
  4: { unfold tsfn_call, send, ch_room. rewrite Ho, Ets, Hcap. rewrite bool_decide_true by (unfold tsfn_bound; destruct (design st); cbn; lia).
       eexists. split; [done|]. unfold todo. cbn [rx dpc tsfn]. rewrite Ep, ch_items_enqueue, Ets. destruct k; cbn; lia. }
  5: { unfold todo in Ht. unfold dpc_ok in Hp. rewrite Ep in Hp. destruct Hp as [_ Hcl]. destruct (Hcl Ha) as [Hit _]. rewrite Ets, Ep, Hit in Ht. cbn in Ht. lia. }
  all: case_decide as Hds; [apply HA; cbn; lia|apply HB; [cbn; lia|done]].
Qed.

Lemma run_progress st cap r : run_inv st cap r -> senders_gone r = true -> abort r = false -> (0 < todo r)%nat ->
  exists r', run_step st r r' /\ senders_gone r' = true /\ abort r' = false /\ accepted r' = accepted r /\ gen r' = gen r /\ (todo r' < todo r)%nat.
Proof.
  intros (Hb & _ & Hd) Hg Ha Ht. destruct (recv (tsfn r)) as [[m q]|] eqn:Em.
  { eexists. split; [apply RJs; unfold js_turn; by rewrite Em|]. split_and!; try done. unfold todo. cbn [rx dpc tsfn].
    unfold recv in Em. destruct (ch_items (tsfn r)) as [|x l] eqn:Ei; [done|]. injection Em as _ <-. rewrite ch_items_dequeue, Ei. cbn. lia. }
  destruct (thread_progress st cap r Hd) as (r' & E & Hlt); [|done..|].
  { unfold recv in Em. by destruct (ch_items (tsfn r)). }
  exists r'. destruct (drain_poll_frame _ _ _ _ E) as (E1 & E2 & E3 & E4 & _). split; [by eapply RDrain|]. unfold senders_gone. rewrite E1, E3, E4. done.
Qed.

Lemma run_finishes st cap r : run_inv st cap r -> senders_gone r = true -> abort r = false ->
  exists r', rtc (run_step st) r r' /\ run_inv st cap r' /\ dpc r' = DEnded /\ ch_items (tsfn r') = [] /\ abort r' = false /\ accepted r' = accepted r /\ gen r' = gen r.
Proof.
  remember (todo r) as n eqn:En. revert r En. induction (lt_wf n) as [n _ IH]. intros r -> Hi Hg Ha. destruct (decide (todo r = 0)%nat) as [Hz|Hz].
  - exists r. unfold todo in Hz. split; [apply rtc_refl|]. split; [done|]. split; [|split; [|done]].
    + destruct (dpc r) as [| | |m []| |]; cbn in Hz; (done || lia).
    + apply length_zero_iff_nil. lia.
  - destruct (run_progress st cap r Hi Hg Ha) as (r1 & Hst & Hg1 & Ha1 & Hac & Hgn & Hlt); [lia|].
    destruct (IH _ Hlt r1 eq_refl) as (r' & Hr & Hi' & He & Ht & Ha' & Hac' & Hgn'); [by eapply run_step_inv|done..|].
    exists r'. split; [by eapply rtc_l|]. split; [done|]. split_and!; (done || congruence).
Qed.

(** ** What JS reads *)

(** Times below 2^53 nanoseconds from the start, payloads of at most 4 GiB. *)
Definition fits r (ev : Event) : Prop := Z.max 0 (enqueued_at_ns ev - epoch_ns (gen r)) < 2 ^ 53 /\ len_ok (length (payload ev)).

Lemma fits_lites r evs : Forall (fits r) evs -> Forall lite_ok (lites r evs).
Proof. intros Hf. apply Forall_map. eapply Forall_impl; [exact Hf|]. intros ev [Ht Hl]. by apply EvLite_from_ok. Qed.

Lemma js_read_message st b : Forall lite_ok b -> len_ok (length b) -> js_read (to_js (message st b)) = Some (map js_event b).
Proof.
  intros Hok Hl. assert (Hfl : js_read (JsBuffer (encode b)) = Some (map js_event b)).
  { cbn [js_read]. destruct (proto_flat_roundtrip b Hok Hl) as [-> _]. cbn [fmap option_fmap option_map]. f_equal. rewrite map_map. done. }
  unfold message. destruct (design st); [by destruct b as [|e [|? ?]]|done|exact Hfl].
Qed.

Lemma js_reads st bs : Forall (size_ok st) bs -> Forall lite_ok (concat bs) -> len_ok (bsize st) ->
  map js_read (map (fun b => to_js (message st b)) bs) = map (fun b => Some (map js_event b)) bs.
Proof.
  intros Hs Hok Hl. induction bs as [|b bs IH]; [done|]. apply Forall_cons in Hs as [[_ Hb] Hs]. cbn [concat] in Hok. apply Forall_app in Hok as [Hb' Hok].
  cbn [map]. rewrite IH by done. f_equal. apply js_read_message; [done|]. unfold len_ok in *. lia.
Qed.

(** The batches JS has handled are the first ones sent. *)
Lemma handled_prefix st cap r : run_inv st cap r -> exists bs later, handled r = map (fun b => to_js (message st b)) bs /\ Forall (size_ok st) bs /\
  concat bs ++ later = lites r (accepted r) /\
  (dpc r = DEnded -> ch_items (tsfn r) = [] -> abort r = false -> later = []).
Proof.
  intros (_ & _ & [(bs & Hh & Hb & Ha & _) _ _ _ Hp]). set (n := length (handled r)).
  assert (Hn : handled r = map (fun b => to_js (message st b)) (take n bs)).
  { rewrite <-(take_app_length (handled r) (map to_js (ch_items (tsfn r) ++ calling (dpc r)))) at 1. rewrite Hh. fold n. by rewrite <-firstn_map. }
  exists (take n bs), (concat (drop n bs) ++ buf r ++ lites r (ch_items (rx r))). split; [exact Hn|]. split; [by apply Forall_take|]. split.
  - by rewrite app_assoc, <-concat_app, take_drop.
  - intros He Ht Hab. unfold dpc_ok, closed_ok in Hp. rewrite He in Hp. destruct Hp as [Hbuf Hcl]. rewrite (Hbuf Hab). destruct (Hcl Hab) as [-> _].
    rewrite He, Ht in Hh. cbn [map calling app] in Hh. rewrite app_nil_r in Hh. rewrite drop_ge; [done|]. unfold n. by rewrite Hh, length_map.
Qed.

(** C38. The prototype bridge delivers, in every design: what JS reads from the
    arguments it was called with is a prefix of the events the channel took, in
    order, each once, in batches of 1 to [bsize] events; the events taken are among
    those offered, in order, and the i-th event offered carries the id [i].  And
    once the generator task has returned the run finishes, unless it is stopped,
    with every event the channel took read by JS. *)
Theorem prototype_bridge_delivers c now st r0 r :
  start c now = Some (inl (st, r0)) -> rtc (run_step st) r0 r -> Forall (fits r) (accepted r) -> len_ok (bsize st) ->
  (exists bs later, map js_read (handled r) = map (fun b => Some (map js_event b)) bs /\ Forall (size_ok st) bs /\ concat bs ++ later = lites r (accepted r)) /\
  accepted r `sublist_of` offered r /\
  (forall i ev, offered r !! i = Some ev -> conn_id ev = count i) /\
  (senders_gone r = true -> abort r = false -> exists r' bs, rtc (run_step st) r r' /\ dpc r' = DEnded /\ accepted r' = accepted r /\
     map js_read (handled r') = map (fun b => Some (map js_event b)) bs /\ concat bs = lites r (accepted r)).
Proof.
  intros Hst Hr Hf Hl. pose proof (run_steps_inv _ _ _ _ Hr (run_started_inv _ _ _ _ Hst)) as Hi. pose proof (fits_lites _ _ Hf) as Hok.
  split; [|split; [|split]].
  - destruct (handled_prefix _ _ _ Hi) as (bs & later & Hh & Hb & Hc & _). exists bs, later. rewrite Hh. split; [|done].
    apply js_reads; [done| |done]. rewrite <-Hc in Hok. by apply Forall_app in Hok as [? _].
  - destruct Hi as (_ & Hg & _). etrans; [|exact (gi_sub _ Hg)]. by apply sublist_inserts_r.
  - destruct Hi as (_ & Hg & _). exact (gi_ids _ Hg).
  - intros Hg Ha. destruct (run_finishes _ _ _ Hi Hg Ha) as (r' & Hr' & Hi' & He & Ht & Ha' & Hac & Hgn).
    destruct (handled_prefix _ _ _ Hi') as (bs & later & Hh & Hb & Hc & Hlast). specialize (Hlast He Ht Ha'). subst later. rewrite app_nil_r in Hc.
    unfold lites in *. rewrite Hac, Hgn in Hc. exists r', bs. split_and!; try done. rewrite Hh. apply js_reads; [done|by rewrite Hc|done].
Qed.

(** ** Pressure *)

(** What [pressure] calls the depth: the queue, the batch in hand and the event
    inside [emit]. *)
Definition in_bridge r : nat := length (ch_items (rx r)) + length (buf r) + inflight (gpc (gen r)).

Lemma counters_exact st cap r : run_inv st cap r -> Z.of_nat (length (offered r)) < 2 ^ 64 ->
  produced (gen r) = Z.of_nat (length (offered r)) /\ 0 <= dropped (gen r) /\ 0 <= delivered r /\
  produced (gen r) = dropped (gen r) + delivered r + Z.of_nat (in_bridge r) /\ (in_bridge r <= cap + bsize st + 1)%nat.
Proof.
  intros (_ & [_ _ Hp _ (n & Hd & Hn)] & [(bs & _ & _ & Ha & Hdv & _) Hsz [_ Hl] _ _]) Hlt.
  apply (f_equal length) in Ha. unfold lites in Ha. rewrite !length_app, !length_map in Ha. unfold in_bridge.
  assert (inflight (gpc (gen r)) <= 1)%nat by (destruct (gpc (gen r)); cbn; lia). rewrite Hp, Hd, Hdv, !count_small by lia. lia.
Qed.

(** The steps of a counter. *)
Lemma gen_poll_dropped r r' : gen_poll r = Some r' ->
  dropped (gen r') = dropped (gen r) \/ inflight (gpc (gen r)) = 1%nat /\ dropped (gen r') = wrap 64 (dropped (gen r) + 1).
Proof. intros E. unfold gen_poll, emit_send, gen_pause in E. repeat break_match_hyp E; simplify_eq; cbn [set_gen gen_goto gen dropped emit_begin emit_drop]; naive_solver. Qed.

Lemma drain_poll_delivered st late r r' : drain_poll st late r = Some r' -> exists k, (k <= in_bridge r)%nat /\
  (delivered r' = delivered r \/ delivered r' = wrap 64 (delivered r + Z.of_nat k)).
Proof.
  intros E. assert (Hf : forall k, exists n, (n <= in_bridge r)%nat /\ (delivered (flush st k r) = delivered r \/ delivered (flush st k r) = wrap 64 (delivered r + Z.of_nat n))).
  { intros k. exists (length (buf r)). split; [unfold in_bridge; lia|]. unfold flush. destruct (buf r); [by left|by right]. }
  assert (Hrest : delivered r' = delivered r -> exists k, (k <= in_bridge r)%nat /\ (delivered r' = delivered r \/ delivered r' = wrap 64 (delivered r + Z.of_nat k)))
    by (intros; exists 0%nat; split; [lia|by left]).
  unfold drain_poll, drain_a, drain_batched, tsfn_call, naive_event in E.
  destruct (dpc r); repeat case_decide; repeat break_match_hyp E; simplify_eq; try (by apply Hrest); try (by apply Hf).
  all: exists 1%nat; split; [|by right]; unfold in_bridge; match goal with Hr : recv (rx _) = Some _ |- _ => apply recv_shorter in Hr end; lia.
Qed.

Lemma gen_poll_offered r r' : gen_poll r = Some r' -> (length (offered r) <= length (offered r'))%nat.
Proof. intros E. unfold gen_poll, emit_send in E. repeat break_match_hyp E; simplify_eq; cbn [set_gen offered emit_begin]; rewrite ?length_app; lia. Qed.

(** Without 64-bit overflow no counter goes back. *)
Definition counters_le r r' : Prop :=
  (length (offered r) <= length (offered r'))%nat /\ dropped (gen r) <= dropped (gen r') /\ delivered r <= delivered r'.

Lemma step_monotone st cap r r' : run_inv st cap r -> run_step st r r' -> Z.of_nat (length (offered r)) < 2 ^ 64 -> counters_le r r'.
Proof.
  intros Hi Hst Hlt. destruct (counters_exact _ _ _ Hi Hlt) as (Hpr & Hd & Hv & Hc & _).
  destruct Hst as [r' E|late r' E|r' E|now Hn|].
  - destruct (gen_poll_frame _ _ E) as ([] & _). split; [by apply gen_poll_offered|]. split; [|lia].
    destruct (gen_poll_dropped _ _ E) as [->|[Hin ->]]; [done|]. unfold in_bridge in Hc. rewrite wrap_small; lia.
  - destruct (drain_poll_frame _ _ _ _ E) as (Eg & Eo & _). unfold counters_le. rewrite Eg, Eo. split; [done|]. split; [done|].
    destruct (drain_poll_delivered _ _ _ _ E) as (k & Hk & [->| ->]); [done|]. rewrite wrap_small; lia.
  - unfold js_turn in E. repeat break_match_hyp E; simplify_eq. done.
  - split; [done|]. split; [done|]. done.
  - done.
Qed.

Lemma run_monotone st cap r r' : rtc (run_step st) r r' -> run_inv st cap r -> Z.of_nat (length (offered r')) < 2 ^ 64 -> counters_le r r'.
Proof.
  intros Hr. induction Hr as [r|r1 r2 r3 Hs Hr IH]; [done|]. intros Hi Hlt.
  pose proof (IH (run_step_inv _ _ _ _ Hs Hi) Hlt) as (H1 & H2 & H3).
  assert (Hl : (length (offered r1) <= length (offered r2))%nat).
  { destruct Hs as [r' E|late r' E|r' E|now Hn|]; [by apply gen_poll_offered|by destruct (drain_poll_frame _ _ _ _ E) as (_ & -> & _)| |done|done].
    unfold js_turn in E. repeat break_match_hyp E; simplify_eq. done. }
  destruct (step_monotone _ _ _ _ Hi Hs) as (_ & H5 & H6); [lia|]. split; [|split]; lia.
Qed.

(** [pressure] is exact and bounded.  At any moment every event offered is
    counted as dropped, delivered, or in the queue, the batch in hand or [emit].
    The depth [pressure] computes from counters it reads one after the other is at
    most the capacity of the queue, plus a batch, plus one, however the other
    threads run between the reads; read at one moment it is exactly what the bridge
    holds, and what waits in the function's own queue is not part of it. *)
Lemma prototype_pressure_bounded c now st r0 r1 r2 r3 :
  start c now = Some (inl (st, r0)) -> rtc (run_step st) r0 r1 -> rtc (run_step st) r1 r2 -> rtc (run_step st) r2 r3 ->
  Z.of_nat (length (offered r3)) < 2 ^ 64 ->
  produced (gen r3) = dropped (gen r3) + delivered r3 + Z.of_nat (in_bridge r3) /\
  depth_of (produced (gen r3)) (dropped (gen r3)) (delivered r3) = Z.of_nat (in_bridge r3) /\
  depth_of (produced (gen r1)) (dropped (gen r2)) (delivered r3) <= Z.of_nat (start_capacity c + bsize st + 1) /\
  (length (ch_items (tsfn r3)) <= tsfn_bound (design st))%nat.
Proof.
  intros Hst H1 H2 H3 Hlt. pose proof (run_steps_inv _ _ _ _ H1 (run_started_inv _ _ _ _ Hst)) as I1. pose proof (run_steps_inv _ _ _ _ H2 I1) as I2.
  pose proof (run_steps_inv _ _ _ _ H3 I2) as I3. destruct (run_monotone _ _ _ _ H3 I2 Hlt) as (L2 & D2 & V2).
  destruct (run_monotone _ _ _ _ H2 I1) as (L1 & D1 & V1); [lia|]. destruct (counters_exact _ _ _ I3 Hlt) as (_ & Hd3 & Hv3 & Hc3 & _).
  destruct (counters_exact _ _ _ I1) as (_ & Hd1 & Hv1 & Hc1 & Hb1); [lia|]. unfold depth_of. split; [done|]. split; [lia|]. split; [lia|].
  destruct I3 as (_ & _ & HD). by destruct (di_tsfn _ _ _ HD) as (_ & _ & ?).
Qed.

(** After [stop] the batched designs finish the batch they are filling: [abort] is
    read only at the top of a turn. *)
Lemma stop_keeps_filling st r dl ev q : design st <> NaiveTsfn -> dpc r = DFill dl -> (length (buf r) < batch st)%nat -> recv (rx r) = Some (ev, q) ->
  drain_poll st false (stop r) = Some (take_event (DFill dl) ev q (stop r)).
Proof.
  intros Hd Hp Hl Hr. unfold drain_poll, drain_batched. cbn [stop dpc buf rx]. rewrite Hp, decide_False by done.
  rewrite (proj2 (Nat.ltb_lt _ _)) by done. rewrite Hr, andb_false_r. done.
Qed.

End RunFacts.

(** ** A run, computed *)

Section RunWitness.

(** A schedule: which thread goes next. *)
Inductive Act := AGen | ADrain (late : bool) | AJs | ATime (now : Z) | AStop.
Definition act {Ch : Type -> Type} `{Mpsc Ch} (st : Settings) (a : Act) (r : Run Ch) : option (Run Ch) :=
  match a with
  | AGen => gen_poll r
  | ADrain late => drain_poll st late r
  | AJs => js_turn r
  | ATime now => if clock r <=? now then Some (set_clock now r) else None
  | AStop => Some (stop r)
  end.
Fixpoint sched {Ch : Type -> Type} `{Mpsc Ch} (st : Settings) (acts : list Act) (r : Run Ch) : option (Run Ch) :=
  match acts with [] => Some r | a :: acts => r' ← act st a r; sched st acts r' end.

Lemma sched_rtc {Ch : Type -> Type} `{Mpsc Ch} st acts (r r' : Run Ch) : sched st acts r = Some r' -> rtc (run_step st) r r'.
Proof.
  revert r. induction acts as [|a acts IH]; intros r E; [injection E as <-; apply rtc_refl|]. cbn [sched] in E.
  destruct (act st a r) as [r1|] eqn:Ea; [|done]. apply (rtc_l _ _ r1); [|by apply IH]. destruct a; cbn [act] in Ea.
  - by apply RGen.
  - by eapply RDrain.
  - by apply RJs.
  - destruct (Z.leb_spec (clock r) now); [|done]. injection Ea as <-. by apply RTime.
  - injection Ea as <-. apply RStop.
Qed.

(** Design C, two events to a batch, a queue of two, a second of run time; three
    events offered, the third dropped; the two taken are flushed and read. *)
Definition demo_config : JsConfig :=
  {| js_design := str "C"; js_events_per_sec := f0; js_payload_bytes := f64_of 10; js_duration_secs := f1; js_queue_capacity := f64_of 2;
     js_batch := f64_of 2; js_timer_ms := f1; js_external := true |}.
Definition demo_emit : list Act := [AGen; AGen; AGen; AGen].
Definition demo_acts : list Act :=
  demo_emit ++ demo_emit ++ [AGen; AGen; AGen; AGen; AGen] ++ [ATime 2000000000; AGen; ADrain false; ADrain false; ADrain false; ADrain false; ADrain false; AJs].
Definition demo_start : option ((Settings * Run ListChan.t) + rstring) := start demo_config 0.

Definition demo_settings : Settings :=
  {| design := BatchedFlat; batch := 2; timer := 1000000; external := true; capacity := f64_of 2 |}.
Definition demo_run (acts : list Act) : option (Run ListChan.t) :=
  match demo_start with Some (inl (st, r)) => sched st acts r | _ => None end.

Example demo_reads : (fun r => (map js_read (handled r), produced (gen r), dropped (gen r), delivered r)) <$> demo_run demo_acts =
  Some ([Some [{| connId := f64_of 0; js_payload := make_payload 10; t := f0 |}; {| connId := f64_of 1; js_payload := make_payload 10; t := f0 |}]], 3, 1, 2).
Proof. vm_compute. reflexivity. Qed.

Lemma prototype_bridge_delivers_witness : exists r0 r : Run ListChan.t,
  start demo_config 0 = Some (inl (demo_settings, r0)) /\ sched demo_settings demo_acts r0 = Some r /\ length (accepted r) = 2%nat /\
  exists r' bs, rtc (run_step demo_settings) r r' /\ dpc r' = DEnded /\ accepted r' = accepted r /\
    map js_read (handled r') = map (fun b => Some (map js_event b)) bs /\ concat bs = lites r (accepted r).
Proof.
  eexists _, _. split; [vm_compute; reflexivity|]. split; [vm_compute; reflexivity|]. split; [reflexivity|].
  eapply (prototype_bridge_delivers demo_config 0 demo_settings).
  - vm_compute. reflexivity.
  - apply (sched_rtc _ demo_acts). vm_compute. reflexivity.
  - repeat constructor.
  - reflexivity.
  - reflexivity.
  - reflexivity.
Defined.

Lemma prototype_pressure_bounded_witness : exists r0 r1 r3 : Run ListChan.t,
  start demo_config 0 = Some (inl (demo_settings, r0)) /\ sched demo_settings (demo_emit ++ demo_emit ++ [AGen; AGen]) r0 = Some r1 /\ sched demo_settings demo_acts r0 = Some r3 /\
  produced (gen r1) = 3 /\ in_bridge r1 = 3%nat /\ dropped (gen r1) = 0 /\ in_bridge r3 = 0%nat /\
  depth_of (produced (gen r1)) (dropped (gen r1)) (delivered r3) <= Z.of_nat (start_capacity demo_config + bsize demo_settings + 1).
Proof.
  eexists _, _, _. split; [vm_compute; reflexivity|]. split; [vm_compute; reflexivity|]. split; [vm_compute; reflexivity|].
  split; [reflexivity|]. split; [reflexivity|]. split; [reflexivity|]. split; [reflexivity|].
  eapply (prototype_pressure_bounded demo_config 0 demo_settings).
  - vm_compute. reflexivity.
  - apply (sched_rtc _ (demo_emit ++ demo_emit ++ [AGen; AGen])). vm_compute. reflexivity.
  - apply rtc_refl.
  - apply (sched_rtc _ (drop 10 demo_acts)). vm_compute. reflexivity.
  - reflexivity.
Defined.

End RunWitness.
