(* ===== verification/ProtoAttach.v ===== *)
(** * The prototype of the descriptor hand-over (src/spike/attach)

    [adopt_and_echo] duplicates a socket's descriptor, answers the upgrade itself,
    replays the bytes Node had read and echoes.  What the operating system, tokio
    and the codec answer is an input of the run; the accept key is a parameter. *)

From S2P Require Import Prelude Wire Text Config Engine Transport.

Module Attach.

(** [impl AsyncRead for PrefixedStream]: [head] from [pos] on, then the socket. *)
Section Stream.
Context {Sock : Type} (sock_read : nat -> Sock -> Poll * Sock).

Record Stream := { head : bytes; pos : nat; inner : Sock }.
Definition poll_read (room : nat) (me : Stream) : Poll * Stream :=
  if (pos me <? length (head me))%nat then
    let remaining := drop (pos me) (head me) in
    let n := Nat.min (length remaining) room in
    (Ready (inl (take n remaining)), {| head := head me; pos := (pos me + n)%nat; inner := inner me |})
  else
    let '(p, s) := sock_read room (inner me) in (p, {| head := head me; pos := pos me; inner := s |}).

(** It is the stream the transport kept. *)
Definition production (me : Stream) : PrefixedStream.t Sock :=
  {| PrefixedStream.head := head me; PrefixedStream.pos := pos me; PrefixedStream.inner := inner me |}.

Lemma poll_read_production room me :
  PrefixedStream.poll_read sock_read room (production me) = let '(p, me') := poll_read room me in (p, production me').
Proof.
  unfold PrefixedStream.poll_read, poll_read, production. cbn [PrefixedStream.head PrefixedStream.pos PrefixedStream.inner].
  destruct (_ <? _)%nat; [done|]. by destruct (sock_read room (inner me)).
Qed.

End Stream.

Section Echo.
Context {CloseCode : Type} (derive_accept_key : bytes -> rstring).

(** What the loop of [run] does with the codec. *)
Inductive Out := Sent (m : Ws.Message CloseCode) | Closed.

(** The loop of [run] over the items the codec yields. *)
Fixpoint echo (items : list (Ws.Message CloseCode + WsError)) : list Out :=
  match items with
  | [] => []
  | inl (Ws.Text t) :: rest => Sent (Ws.Text t) :: echo rest
  | inl (Ws.Binary b) :: rest => Sent (Ws.Binary b) :: echo rest
  | inl (Ws.Close _) :: _ => [Closed]
  | inl _ :: rest => echo rest
  | inr _ :: _ => []
  end.

(** The answers of a run: [libc::dup], the thread, the runtime, the socket calls in
    order, and the codec's items. *)
Record Env := {
  dup : Z; dup_error : rstring; spawn_error : option rstring; runtime_error : option rstring;
  nonblocking_error : option rstring; from_std_error : option rstring; write_error : option rstring; flush_error : option rstring;
  items : list (Ws.Message CloseCode + WsError);
}.

(** [run]: the bytes written before framing, what the echo did, the result; the
    stream owns the descriptor, so it is closed on every path. *)
Definition run (env : Env) (ws_key : rstring) : bytes * list Out * option rstring :=
  match nonblocking_error env with
  | Some e => ([], [], Some e)
  | None =>
      match from_std_error env with
      | Some e => ([], [], Some e)
      | None =>
          let resp := switching_text (derive_accept_key ws_key) in
          match write_error env with
          | Some e => (resp, [], Some e)
          | None =>
              match flush_error env with
              | Some e => (resp, [], Some e)
              | None => (resp, echo (items env), None)
              end
          end
      end
  end.

(** [adopt_and_echo]: the error it returns, whether the duplicate is still open
    once the thread, if there is one, is done, and what [run] did. *)
Record Adopted := { error : option rstring; dup_open : bool; wire : bytes; outs : list Out }.
Definition adopt_and_echo (env : Env) (fd : Z) (ws_key : rstring) : Adopted :=
  if dup env <? 0 then
    {| error := Some (str "dup(fd=" ++ (if fd <? 0 then str "-" ++ dec (- fd) else dec fd) ++ str ") failed: " ++ dup_error env); dup_open := false; wire := []; outs := [] |}
  else
    match spawn_error env with
    | Some e => {| error := Some (str "spawn failed: " ++ e); dup_open := true; wire := []; outs := [] |}
    | None =>
        match runtime_error env with
        | Some _ => {| error := None; dup_open := false; wire := []; outs := [] |}
        | None => let '(w, o, _) := run env ws_key in {| error := None; dup_open := false; wire := w; outs := o |}
        end
    end.

(** The data messages up to the first close or error, echoed in order. *)
Definition data (it : Ws.Message CloseCode + WsError) : list Out :=
  match it with inl (Ws.Text t) => [Sent (Ws.Text t)] | inl (Ws.Binary b) => [Sent (Ws.Binary b)] | _ => [] end.
Definition is_end (it : Ws.Message CloseCode + WsError) : bool := match it with inl (Ws.Close _) | inr _ => true | _ => false end.

Lemma echo_answers pre it rest : Forall (fun it => is_end it = false) pre -> is_end it = true ->
  echo (pre ++ it :: rest) = concat (map data pre) ++ match it with inl _ => [Closed] | inr _ => [] end.
Proof.
  intros Hp Hi. induction Hp as [|x pre Hx _ IH]; [by destruct it as [[]|]|]. destruct x as [[]|]; try done; cbn [app echo map data concat]; by rewrite IH.
Qed.

(** The duplicate is closed on every path but one: when the thread cannot be
    started nothing owns it. *)
Lemma dup_leaks_without_thread env fd key : dup_open (adopt_and_echo env fd key) = true <-> 0 <= dup env /\ spawn_error env <> None.
Proof.
  unfold adopt_and_echo. destruct (Z.ltb_spec (dup env) 0); cbn [dup_open]; [split; [done|lia]|].
  destruct (spawn_error env); cbn [dup_open]; [done|]. destruct (runtime_error env); cbn [dup_open]; [naive_solver|].
  destruct (run env key) as [[w o] e]. cbn [dup_open]. naive_solver.
Qed.

End Echo.
End Attach.
