(* ===== verification/Binding.v ===== *)
(** * The napi surface (crates/node/src/binding.rs)

    The conversion of a JS configuration, the methods of [BeamEngine] over the
    engine, the close task and the hand-over of an attached socket.  A JS number
    is an f64 ([Float]); napi's own conversions of arguments, and what the
    operating system and napi answer, are inputs. *)

From S2P Require Import Prelude Text Float Wire Ids Runtime Config Metrics Mailbox Registry Events Connection Rooms Limits Addr Identity Broadcast Frame MeshWire Interest MeshNode Cluster Engine Transport Telemetry Bridge.

(** ** The JS configuration *)

(** [struct JsClusterConfig] and [struct JsConfig]. *)
Record JsClusterConfig := { jc_node_id : f64; jc_listen : rstring; jc_seeds : list rstring; jc_secret : rstring; jc_cluster_name : option rstring }.
Record JsConfig := {
  j_max_payload_bytes : option f64;
  j_high_water_mark : option f64;
  j_backpressure_policy : option rstring;
  j_ping_interval_ms : option f64;
  j_pong_timeout_ms : option f64;
  j_max_connections_per_ip : option f64;
  j_max_rooms_per_connection : option f64;
  j_trust_proxy_mode : option rstring;
  j_trust_proxy_cidrs : option (list rstring);
  j_authorize_timeout_ms : option f64;
  j_max_pending_authorizations : option f64;
  j_sampler_ms : option f64;
  j_cluster : option JsClusterConfig;
}.

(** The errors thrown to JS, one constructor per message. *)
Inductive JsError :=
  | BadNodeId (v : f64) | BadListen (s : rstring) | BadSeed (s : rstring)
  | UnknownPolicy (s : rstring) | UnknownTrustProxy (s : rstring) | InvalidConfig (e : ConfigError)
  | EngineFailed (e : EngineError) | NapiFailed (text : rstring)
  | EngineDown | BadTopN (n : Z) | BadRemoteAddr (s : rstring).

Fixpoint parse_seeds (seeds : list rstring) : list SocketAddr + JsError :=
  match seeds with
  | [] => inl []
  | s :: seeds =>
      match parse_socket_addr s with
      | None => inr (BadSeed s)
      | Some a => match parse_seeds seeds with inl l => inl (a :: l) | inr e => inr e end
      end
  end.

(** [fn to_cluster_config]. *)
Definition to_cluster_config (js : JsClusterConfig) : ClusterConfig + JsError :=
  let v := jc_node_id js in
  if fltb v f0 || fltb (f64_of u16_max) v || has_fract v then inr (BadNodeId v)
  else
    match parse_socket_addr (jc_listen js) with
    | None => inr (BadListen (jc_listen js))
    | Some listen =>
        match parse_seeds (jc_seeds js) with
        | inr e => inr e
        | inl seeds =>
            inl {| cc_node_id := as_unsigned 16 v; cc_listen := listen; cc_seeds := seeds; cc_secret := jc_secret js;
                   cc_cluster_name := default (str "default") (jc_cluster_name js) |}
        end
    end.

Definition policy_of (p : option rstring) : BackpressurePolicy + JsError :=
  match p with
  | None => inl (policy Backpressure_default)
  | Some s =>
      if bool_decide (s = str "disconnect") then inl Disconnect
      else if bool_decide (s = str "drop-newest") then inl DropNewest
      else if bool_decide (s = str "drop-oldest") then inl DropOldest
      else inr (UnknownPolicy s)
  end.
Definition trust_proxy_of (mode : option rstring) (cidrs : option (list rstring)) : TrustProxy + JsError :=
  match mode with
  | None => inl Never
  | Some s =>
      if bool_decide (s = str "never") then inl Never
      else if bool_decide (s = str "always") then inl Always
      else if bool_decide (s = str "cidrs") then inl (Cidrs (default [] cidrs))
      else inr (UnknownTrustProxy s)
  end.

(** [if let Some(v) = field { c.x = v as uW }]. *)
Definition set_number (w : Z) (v : option f64) (d : Z) : Z := match v with Some v => as_unsigned w v | None => d end.

Section ToConfig.
Context {Net : Type} (parse_net : rstring -> Net + rstring).

(** [fn to_config]. *)
Definition to_config (js : JsConfig) : Config + JsError :=
  match policy_of (j_backpressure_policy js) with
  | inr e => inr e
  | inl policy =>
      match trust_proxy_of (j_trust_proxy_mode js) (j_trust_proxy_cidrs js) with
      | inr e => inr e
      | inl trust =>
          match match j_cluster js with
                | None => inl None
                | Some jc => match to_cluster_config jc with inl cc => inl (Some cc) | inr e => inr e end
                end with
          | inr e => inr e
          | inl cluster =>
              let c := {|
                limits := {| max_payload_bytes := set_number 64 (j_max_payload_bytes js) (max_payload_bytes Limits_default);
                             max_connections_per_ip := set_number 32 (j_max_connections_per_ip js) (max_connections_per_ip Limits_default);
                             max_rooms_per_connection := set_number 32 (j_max_rooms_per_connection js) (max_rooms_per_connection Limits_default) |};
                backpressure := {| high_water_mark := set_number 64 (j_high_water_mark js) (high_water_mark Backpressure_default); Config.policy := policy |};
                keepalive := {| ping_interval := set_number 64 (j_ping_interval_ms js) (ping_interval Keepalive_default);
                                pong_timeout := set_number 64 (j_pong_timeout_ms js) (pong_timeout Keepalive_default) |};
                trust_proxy := trust;
                authorize := {| timeout := set_number 64 (j_authorize_timeout_ms js) (timeout Authorize_default);
                                max_pending := set_number 64 (j_max_pending_authorizations js) (max_pending Authorize_default) |};
                observability := {| sampler_ms := set_number 64 ((fun v => fmax v f0) <$> j_sampler_ms js) (sampler_ms Observability_default) |};
                Config.cluster := cluster |} in
              match validate parse_net c with Some e => inr (InvalidConfig e) | None => inl c end
          end
      end
  end.
End ToConfig.

(** ** What crosses to JS *)

(** [struct JsFanout], [JsStats], [JsClusterStats], [JsRoomStat], [JsMailbox],
    [JsBackpressureReport], [JsMemoryUsage], [JsPresenceEntry] and
    [JsAttachResult]; a [JsRates] is a [Rates], and the thirteen counters of
    [JsStats] are one function of the counter. *)
Record JsFanout := { f_attempted : f64; f_queued : f64; f_backpressured : f64; f_missing : f64 }.
Record JsPeerPressure := { pp_node_id : f64; pp_pressure : f64 }.
Record JsClusterStats := {
  cs_node_id : f64; cs_peers : f64; cs_relay_in : f64; cs_relay_out : f64; cs_relay_drops : f64; cs_peer_pressures : list JsPeerPressure;
}.
Record JsStats := {
  st_counter : Metrics.counter -> f64;
  st_users : f64; st_rooms : f64; st_bridge_pressure : f64; st_uptime_ms : f64;
  st_rates : option Rates; st_cluster : option JsClusterStats;
}.
Record JsRoomStat := { rs_room : rstring; rs_members : f64; rs_messages : f64; rs_exists : bool }.
Record JsMailbox := {
  jm_id_hi : Z; jm_id_lo : Z; jm_user_id : rstring; jm_has_user_id : bool; jm_depth_bytes : f64; jm_hwm_bytes : f64; jm_hwm_percent : f64;
}.
Record JsBackpressureReport := { jb_total_drops : f64; jb_mailboxes : list JsMailbox }.
Record JsMemoryUsage := {
  ju_connections : f64; ju_rooms : f64; ju_users : f64; ju_estimated_heap_bytes : f64; ju_mailbox_bytes_in_flight : f64; ju_estimated : bool;
}.
Record JsPresenceEntry := { pe_id_hi : Z; pe_id_lo : Z; pe_user_id : rstring; pe_has_user_id : bool }.
Record JsAttachResult := { at_accepted : bool; at_status : f64 }.

(** [impl From<FanoutReport> for JsFanout]. *)
Definition js_fanout (r : FanoutReport) : JsFanout :=
  {| f_attempted := f64_of (attempted r); f_queued := f64_of (queued r); f_backpressured := f64_of (backpressured r); f_missing := f64_of (missing r) |}.

(** [(id >> 32) as u32] and [id as u32]. *)
Definition id_hi (id : Z) : Z := wrap 32 (Z.shiftr id 32).
Definition id_lo (id : Z) : Z := wrap 32 id.

(** [headers_flat.as_chunks::<2>()], the keys in lower case. *)
Fixpoint pair_headers (flat : list rstring) : list (rstring * rstring) :=
  match flat with
  | k :: v :: flat => (map to_ascii_lower k, v) :: pair_headers flat
  | _ => []
  end.

(** ** The socket hand-over *)

Module FdHandoffGuard.

(** [struct FdHandoffGuard]; the descriptors open in the process are a set. *)
Record t := { fd : Z; armed : bool }.
Definition new (fd : Z) : t := {| fd := fd; armed := true |}.
(** [into_std_stream]: the stream owns the descriptor; the guard is disarmed. *)
Definition into_std_stream (g : t) : Z * t := (fd g, {| fd := fd g; armed := false |}).
(** [Drop]. *)
Definition drop (g : t) (fds : gset Z) : gset Z := if armed g then fds ∖ {[fd g]} else fds.

End FdHandoffGuard.

(** ** [BeamEngine] *)

Module BeamEngine.
Section BeamEngine.
Context {SL : Type -> Type} {slab_ops : Slab SL} {Ch : Type -> Type} {mpsc_ops : Mpsc Ch}.
Context {M : Type} `{Mesh M}.
Context {Net : Type} (parse_net : rstring -> Net + rstring) (net_contains : Net -> IpAddr -> bool).

(** What is behind the [Engine] value besides its tables: the authorizer, the
    [listening] flag and the rates. *)
Record Core := {
  core : Engine.t SL Ch M Net;
  authorizer : option Authorizer.t;
  listening : bool;
  rates : option Rates;
}.
Definition set_core (e : Engine.t SL Ch M Net) (c : Core) : Core :=
  {| core := e; authorizer := authorizer c; listening := listening c; rates := rates c |}.

(** [struct BeamEngine]; the drain thread's handle is present or not. *)
Record t := { engine : option Core; drain : bool }.

(** [fn engine] and a command through it; [query] is a command that only reads. *)
Definition with_engine {R} (f : Core -> R * Core) (st : t) : (R + JsError) * t :=
  match engine st with
  | None => (inr EngineDown, st)
  | Some c => let '(r, c') := f c in (inl r, {| engine := Some c'; drain := drain st |})
  end.
Definition query {R} (f : Core -> R) (st : t) : R + JsError :=
  match engine st with None => inr EngineDown | Some c => inl (f c) end.
(** The same for a command of the core engine. *)
Definition command {R S} (conv : R -> S) (f : Engine.t SL Ch M Net -> R * Engine.t SL Ch M Net) (st : t) : (S + JsError) * t :=
  with_engine (fun c => let '(r, e) := f (core c) in (conv r, set_core e c)) st.
(** An admin verb: [0] without an engine. *)
Definition admin (f : Engine.t SL Ch M Net -> Z * Engine.t SL Ch M Net) (st : t) : f64 * t :=
  match engine st with
  | None => (f0, st)
  | Some c => let '(n, e) := f (core c) in (f64_of n, {| engine := Some (set_core e c); drain := drain st |})
  end.

(** [BeamEngine::start]; [boot], [tsfn] and [spawn] are the failures of the
    engine's start, of napi and of the thread; [mesh] what [Cluster::start] returns. *)
Definition start (js : JsConfig) (has_authorize : bool) (mesh : option M) (boot tsfn spawn : option rstring) : t + JsError :=
  match to_config parse_net js with
  | inr e => inr e
  | inl cfg =>
      match Engine.start parse_net cfg mesh with
      | inr e => inr (EngineFailed (EConfig e))
      | inl e =>
          match boot, tsfn, spawn with
          | Some err, _, _ => inr (EngineFailed (EIo err))
          | None, Some err, _ => inr (NapiFailed err)
          | None, None, Some err => inr (NapiFailed (str "spawn drain thread: " ++ err))
          | None, None, None =>
              inl {| engine := Some {| core := e;
                       authorizer := if has_authorize then Some (Authorizer.new (max_pending (Config.authorize cfg)) Metrics.default) else None;
                       listening := false; rates := if 0 <? sampler_ms (observability cfg) then Some Rates_default else None |};
                     drain := true |}
          end
      end
  end.

(** [listen]: [port as u16] is bound. *)
Definition listen (bind : Z -> Z + rstring) (local_addr : Z + rstring) (port : Z) (st : t) : (Z + JsError) * t :=
  match engine st with
  | None => (inr EngineDown, st)
  | Some c =>
      let '(r, _, l) := Listener.listen (bind (wrap 16 port)) local_addr (listening c) in
      (match r with inl p => inl p | inr e => inr (EngineFailed e) end,
       {| engine := Some {| core := core c; authorizer := authorizer c; listening := l; rates := rates c |}; drain := drain st |})
  end.

Definition conn_id (hi lo : Z) : ConnectionId := halves_to_u64 hi lo.

(** [send], [send_text] and [send_node]. *)
Definition send (hi lo : Z) (data : bytes) (is_binary : bool) : t -> (Z + JsError) * t :=
  command status_code (Engine.send (conn_id hi lo) data is_binary).
Definition send_text (hi lo : Z) (data : rstring) : t -> (Z + JsError) * t := command status_code (Engine.send (conn_id hi lo) data false).
Definition send_node (node hi lo : Z) (data : bytes) (is_binary : bool) : t -> (Z + JsError) * t :=
  command status_code (Engine.send_node {| nc_node := wrap 16 node; nc_local := conn_id hi lo |} data is_binary).

(** [close_connection]. *)
Definition close_connection (hi lo code : Z) (reason : rstring) : t -> (bool + JsError) * t :=
  command id (Engine.close_connection (conn_id hi lo) (wrap 16 code) reason).

(** [join] and [leave]. *)
Definition join (hi lo : Z) (room : rstring) : t -> (Z + JsError) * t := command membership_code (Engine.join (conn_id hi lo) room).
Definition leave (hi lo : Z) (room : rstring) : t -> (Z + JsError) * t := command membership_code (Engine.leave (conn_id hi lo) room).

(** [broadcast_room], [broadcast_all], [broadcast_user] and their text variants. *)
Definition broadcast_room (room : rstring) (data : bytes) (is_binary : bool) (except remote : list Z) : t -> (JsFanout + JsError) * t :=
  command js_fanout (Engine.broadcast_room room data is_binary (except_ids except) (except_ids_remote remote)).
Definition broadcast_text_room (room data : rstring) (except remote : list Z) : t -> (JsFanout + JsError) * t :=
  command js_fanout (Engine.broadcast_room room data false (except_ids except) (except_ids_remote remote)).
Definition broadcast_all (data : bytes) (is_binary : bool) (except remote : list Z) : t -> (JsFanout + JsError) * t :=
  command js_fanout (Engine.broadcast_all data is_binary (except_ids except) (except_ids_remote remote)).
Definition broadcast_text_all (data : rstring) (except remote : list Z) : t -> (JsFanout + JsError) * t :=
  command js_fanout (Engine.broadcast_all data false (except_ids except) (except_ids_remote remote)).
Definition broadcast_user (user : rstring) (data : bytes) (is_binary : bool) (except remote : list Z) : t -> (JsFanout + JsError) * t :=
  command js_fanout (Engine.broadcast_user user data is_binary (except_ids except) (except_ids_remote remote)).
Definition broadcast_text_user (user data : rstring) (except remote : list Z) : t -> (JsFanout + JsError) * t :=
  command js_fanout (Engine.broadcast_user user data false (except_ids except) (except_ids_remote remote)).

(** [resolve_authorize], with [Engine::resolve_authorize] (engine.rs). *)
Definition outcome_of (accept : bool) (user_id : rstring) (has_user_id : bool) (code : Z) : AuthorizeOutcome :=
  if accept then OutAccept (if has_user_id then Some user_id else None) else OutReject (wrap 16 code).
Definition engine_resolve (rid : Z) (o : AuthorizeOutcome) (c : Core) : Core :=
  {| core := core c; authorizer := Authorizer.resolve rid o <$> authorizer c; listening := listening c; rates := rates c |}.
Definition resolve_authorize (hi lo : Z) (accept : bool) (user_id : rstring) (has_user_id : bool) (code : Z) : t -> (unit + JsError) * t :=
  with_engine (fun c => (tt, engine_resolve (halves_to_u64 hi lo) (outcome_of accept user_id has_user_id code) c)).

(** [disconnect_socket], [disconnect_user] and [close_room]. *)
Definition disconnect_socket (hi lo code : Z) : t -> f64 * t := admin (Engine.admin_disconnect_socket (conn_id hi lo) (wrap 16 code)).
Definition disconnect_user (user : rstring) (code : Z) : t -> f64 * t := admin (Engine.admin_disconnect_user user (wrap 16 code)).
Definition close_room (room : rstring) : t -> f64 * t := admin (Engine.admin_close_room room).

(** [struct CloseTask] and [close]. *)
Record CloseTask := { ct_engine : option Core; ct_drain : bool; ct_timeout : Z }.
Definition close (timeout_ms : f64) (st : t) : CloseTask * t :=
  ({| ct_engine := engine st; ct_drain := drain st; ct_timeout := as_unsigned 64 (fmax timeout_ms f0) |}, {| engine := None; drain := false |}).
(** [CloseTask::compute] up to the wait, and after it, with the join. *)
Definition compute_begin (task : CloseTask) : option (Engine.t SL Ch M Net) := (fun c => Engine.close_begin (core c)) <$> ct_engine task.
Definition compute_end (drained : option (Engine.t SL Ch M Net)) (task : CloseTask) : option (Engine.t SL Ch M Net) * bool :=
  (Engine.close_force <$> drained, ct_drain task).

(** [shutdown]: what is left of the engine, and the binding. *)
Definition shutdown (st : t) : option (Engine.t SL Ch M Net) * t :=
  ((fun c => Engine.shutdown (core c)) <$> engine st, {| engine := None; drain := false |}).

(** [attach]: [dup] is the duplicated descriptor, or [None]; the open
    descriptors are threaded through, and the stream handed to the engine is
    returned. *)
Definition attach (remote_addr url : rstring) (headers_flat : list rstring) (dup : option Z) (nonblocking running registered : bool)
    (fds : gset Z) (st : t) : (JsAttachResult + JsError) * option (Z * option Gate.AdmittedUpgrade) * gset Z * t :=
  match engine st with
  | None => (inr EngineDown, None, fds, st)
  | Some c =>
      match parse_ip remote_addr with
      | None => (inr (BadRemoteAddr remote_addr), None, fds, st)
      | Some peer =>
          match dup with
          | None => (inl {| at_accepted := false; at_status := f64_of 500 |}, None, fds, st)
          | Some fd =>
              let fds := {[fd]} ∪ fds in
              let guard := FdHandoffGuard.new fd in
              let '(stream, guard) := FdHandoffGuard.into_std_stream guard in
              let fds := FdHandoffGuard.drop guard fds in
              if negb nonblocking then (inl {| at_accepted := false; at_status := f64_of 500 |}, None, fds ∖ {[stream]}, st)
              else
                let '(o, up, e) := Engine.attach net_contains running registered peer (pair_headers headers_flat) url (core c) in
                let st := {| engine := Some (set_core e c); drain := drain st |} in
                (inl match o with
                     | Accepted => {| at_accepted := true; at_status := f0 |}
                     | Rejected s => {| at_accepted := false; at_status := f64_of s |}
                     end,
                 (* a stream that was not registered is dropped; a refused one goes to the task that answers and closes it *)
                 if running && registered then Some (stream, up) else None,
                 if running && registered then fds else fds ∖ {[stream]}, st)
          end
      end
  end.

(** ** Queries *)

Definition connection_count : t -> f64 + JsError := query (fun c => f64_of (Engine.connection_count (core c))).
Definition room_count : t -> f64 + JsError := query (fun c => f64_of (Engine.room_count (core c))).
Definition presence_list (room : rstring) : t -> list JsPresenceEntry + JsError :=
  query (fun c => map (fun '(id, user) =>
    {| pe_id_hi := id_hi id; pe_id_lo := id_lo id; pe_user_id := default [] user; pe_has_user_id := bool_decide (is_Some user) |})
    (Engine.presence_list room (core c))).
Definition stats (uptime_ms : Z) (pressure : f64) (pressures : list (Z * f64)) : t -> JsStats + JsError :=
  query (fun c =>
    {| st_counter := fun k => f64_of (Metrics.get k (l_metrics (Engine.local (core c))));
       st_users := f64_of (Engine.user_count (core c)); st_rooms := f64_of (Engine.room_count (core c));
       st_bridge_pressure := pressure; st_uptime_ms := f64_of uptime_ms; st_rates := rates c;
       st_cluster := (fun '(node_id, peers, ri, ro, rd) =>
         {| cs_node_id := f64_of node_id; cs_peers := f64_of peers; cs_relay_in := f64_of ri; cs_relay_out := f64_of ro; cs_relay_drops := f64_of rd;
            cs_peer_pressures := map (fun '(id, p) => {| pp_node_id := f64_of id; pp_pressure := p |}) pressures |})
         <$> Engine.cluster_summary (core c) |}).
Definition js_room_stat (exists_ : bool) (s : RoomStat) : JsRoomStat :=
  {| rs_room := s_room s; rs_members := f64_of (s_members s); rs_messages := f64_of (s_messages s); rs_exists := exists_ |}.
Definition top_rooms (n : Z) (st : t) : list JsRoomStat + JsError :=
  match clamp_top_n n with
  | None => inr (BadTopN n)
  | Some k => query (fun c => map (js_room_stat true) (Engine.top_rooms k (core c))) st
  end.
Definition room_info (room : rstring) : t -> JsRoomStat + JsError :=
  query (fun c => let s := Engine.room_info room (core c) in js_room_stat (0 <? s_members s) s).
Definition memory_usage : t -> JsMemoryUsage + JsError :=
  query (fun c => let u := Engine.memory_usage (core c) in
    {| ju_connections := f64_of (mu_connections u); ju_rooms := f64_of (mu_rooms u); ju_users := f64_of (mu_users u);
       ju_estimated_heap_bytes := f64_of (estimated_heap_bytes u); ju_mailbox_bytes_in_flight := f64_of (mailbox_bytes_in_flight u);
       ju_estimated := estimated u |}).
Definition js_mailbox (s : MailboxStat) : JsMailbox :=
  {| jm_id_hi := id_hi (ms_id s); jm_id_lo := id_lo (ms_id s); jm_user_id := default [] (ms_user s); jm_has_user_id := bool_decide (is_Some (ms_user s));
     jm_depth_bytes := f64_of (depth_bytes s); jm_hwm_bytes := f64_of (hwm_bytes s); jm_hwm_percent := hwm_percent (depth_bytes s) (hwm_bytes s) |}.
Definition backpressure_report (n : Z) (st : t) : JsBackpressureReport + JsError :=
  match clamp_top_n n with
  | None => inr (BadTopN n)
  | Some k => query (fun c => let r := Engine.backpressure_report k (core c) in
      {| jb_total_drops := f64_of (total_drops r); jb_mailboxes := map js_mailbox (mailboxes r) |}) st
  end.
Definition user_connections (user : rstring) : t -> list Z + JsError :=
  query (fun c => concat (map (fun id => [id_hi id; id_lo id]) (Engine.user_connections user (core c)))).
Definition metrics_text (show : f64 -> rstring) (uptime_ms : Z) (pressure : f64) (pressures : list (Z * f64)) : t -> bytes + JsError :=
  query (fun c => Telemetry.metrics_text show (core c) uptime_ms pressure (rates c) pressures).

End BeamEngine.
#[global] Arguments Core : clear implicits.
#[global] Arguments t : clear implicits.
End BeamEngine.

(** ** The configuration is well typed *)

Section ConfigFacts.
Context {Net : Type} (parse_net : rstring -> Net + rstring).

Lemma parse_seeds_ports seeds l : parse_seeds seeds = inl l -> Forall (fun a => u16_ok (port a)) l /\ length l = length seeds.
Proof.
  revert l. induction seeds as [|s seeds IH]; intros l E; cbn [parse_seeds] in E; [by simplify_eq|].
  destruct (parse_socket_addr s) as [a|] eqn:Ea; [|done]. destruct (parse_seeds seeds) as [l'|]; [|done]. simplify_eq.
  destruct (IH l' eq_refl) as [Hf Hl]. split; [constructor; [by eapply parse_socket_addr_port|done]|]. cbn. by rewrite Hl.
Qed.

(** A cluster configuration: the fields in their widths. *)
Definition cluster_ok (cc : ClusterConfig) : Prop :=
  u16_ok (cc_node_id cc) /\ u16_ok (port (cc_listen cc)) /\ Forall (fun a => u16_ok (port a)) (cc_seeds cc) /\ cc_secret cc <> [].

Lemma to_cluster_config_ok jc cc : f64_ok (jc_node_id jc) -> to_cluster_config jc = inl cc ->
  u16_ok (cc_node_id cc) /\ u16_ok (port (cc_listen cc)) /\ Forall (fun a => u16_ok (port a)) (cc_seeds cc) /\ is_int (jc_node_id jc) (cc_node_id cc).
Proof.
  intros Hok E. unfold to_cluster_config in E. cbn zeta in E. destruct (fltb (jc_node_id jc) f0 || _ || _) eqn:Ec; [done|].
  apply orb_false_iff in Ec as [[Hneg Habove]%orb_false_iff Hfr]. destruct (no_fract_int _ Hfr) as [z Hz].
  pose proof (not_negative _ _ Hneg Hz). pose proof (not_above_u16 _ _ Hok Habove Hz).
  destruct (parse_socket_addr (jc_listen jc)) as [a|] eqn:Ea; [|done]. destruct (parse_seeds (jc_seeds jc)) as [l|] eqn:El; [|done]. simplify_eq.
  cbn [cc_node_id cc_listen cc_seeds]. rewrite (as_unsigned_exact 16 _ z) by (done || lia).
  split; [unfold u16_ok; lia|]. split; [by eapply parse_socket_addr_port|]. split; [by eapply parse_seeds_ports|done].
Qed.

(** Every field of a configuration within its Rust type, and usable. *)
Record config_ok (c : Config) : Prop := {
  ok_payload : 0 < max_payload_bytes (limits c) < 2 ^ 64;
  ok_per_ip : u32_ok (max_connections_per_ip (limits c));
  ok_rooms : u32_ok (max_rooms_per_connection (limits c));
  ok_hwm : 0 < high_water_mark (backpressure c) < 2 ^ 64;
  ok_ping : 1 <= ping_interval (keepalive c) < 2 ^ 64;
  ok_pong : 1 <= pong_timeout (keepalive c) < 2 ^ 64;
  ok_auth : 1 <= timeout (Config.authorize c) < 2 ^ 64;
  ok_pending : 0 < max_pending (Config.authorize c) < 2 ^ 64;
  ok_sampler : u64_ok (sampler_ms (observability c));
  ok_cluster : forall cc, Config.cluster c = Some cc -> cluster_ok cc;
}.

Lemma set_number_range w v d : 0 <= w -> 0 <= d < 2 ^ w -> 0 <= set_number w v d < 2 ^ w.
Proof. intros Hw Hd. destruct v; [by apply as_unsigned_range|done]. Qed.

(** The node id is a float value. *)
Definition js_ok (js : JsConfig) : Prop := forall jc, j_cluster js = Some jc -> f64_ok (jc_node_id jc).

(** What [to_config] went through when it succeeds. *)
Lemma to_config_inv js c : to_config parse_net js = inl c ->
  validate parse_net c = None /\
  limits c = {| max_payload_bytes := set_number 64 (j_max_payload_bytes js) (max_payload_bytes Limits_default);
                max_connections_per_ip := set_number 32 (j_max_connections_per_ip js) (max_connections_per_ip Limits_default);
                max_rooms_per_connection := set_number 32 (j_max_rooms_per_connection js) (max_rooms_per_connection Limits_default) |} /\
  high_water_mark (backpressure c) = set_number 64 (j_high_water_mark js) (high_water_mark Backpressure_default) /\
  keepalive c = {| ping_interval := set_number 64 (j_ping_interval_ms js) (ping_interval Keepalive_default);
                   pong_timeout := set_number 64 (j_pong_timeout_ms js) (pong_timeout Keepalive_default) |} /\
  Config.authorize c = {| timeout := set_number 64 (j_authorize_timeout_ms js) (timeout Authorize_default);
                          max_pending := set_number 64 (j_max_pending_authorizations js) (max_pending Authorize_default) |} /\
  sampler_ms (observability c) = set_number 64 ((fun v => fmax v f0) <$> j_sampler_ms js) (sampler_ms Observability_default) /\
  match j_cluster js with
  | None => Config.cluster c = None
  | Some jc => exists cc, to_cluster_config jc = inl cc /\ Config.cluster c = Some cc
  end.
Proof.
  unfold to_config. intros E. destruct (policy_of _); [|done]. destruct (trust_proxy_of _ _); [|done].
  destruct (j_cluster js) as [jc|] eqn:Ej; [destruct (to_cluster_config jc) as [cc|] eqn:Ec; [|done]|];
    cbn zeta in E; destruct (validate parse_net _) eqn:Ev in E; simplify_eq; split_and!; eauto.
Qed.

Lemma to_config_cluster js c jc : js_ok js -> to_config parse_net js = inl c -> j_cluster js = Some jc ->
  exists cc, Config.cluster c = Some cc /\ cluster_ok cc /\ is_int (jc_node_id jc) (cc_node_id cc).
Proof.
  intros Hjs E Ej. destruct (to_config_inv _ _ E) as (Hv & _ & _ & _ & _ & _ & Hc). rewrite Ej in Hc. destruct Hc as (cc & Ecc & Ec).
  destruct (validate_ok _ _ Hv) as (_ & _ & _ & _ & _ & _ & _ & Hsec). exists cc.
  destruct (to_cluster_config_ok jc cc (Hjs jc Ej) Ecc) as (H1 & H2 & H3 & H4).
  split; [done|]. split; [|done]. exact (conj H1 (conj H2 (conj H3 (Hsec cc Ec)))).
Qed.

Lemma to_config_ok js c : js_ok js -> to_config parse_net js = inl c -> config_ok c.
Proof.
  intros Hjs E. pose proof (to_config_cluster js c) as Hcl. destruct (to_config_inv _ _ E) as (Hv & Hl & Hh & Hk & Ha & Hs & Hc).
  destruct (validate_ok _ _ Hv) as (V1 & V2 & V3 & V4 & V5 & V6 & _ & _).
  assert (W : forall v d, 0 <= d < 2 ^ 64 -> 0 <= set_number 64 v d < 2 ^ 64) by (intros; by apply set_number_range).
  assert (D : forall d w, (0 <=? d) && (d <? 2 ^ w) = true -> 0 <= d < 2 ^ w) by (intros d w Hd; blia).
  destruct c as [lm bp ka tp au ob cl]. cbn [limits backpressure keepalive Config.authorize observability Config.cluster] in *. subst lm ka au.
  cbn [max_payload_bytes ping_interval pong_timeout timeout max_pending] in V2, V3, V4, V5, V6.
  pose proof (W (j_max_payload_bytes js) _ (D (max_payload_bytes Limits_default) 64 eq_refl)).
  pose proof (W (j_high_water_mark js) _ (D (high_water_mark Backpressure_default) 64 eq_refl)).
  pose proof (W (j_ping_interval_ms js) _ (D (ping_interval Keepalive_default) 64 eq_refl)).
  pose proof (W (j_pong_timeout_ms js) _ (D (pong_timeout Keepalive_default) 64 eq_refl)).
  pose proof (W (j_authorize_timeout_ms js) _ (D (timeout Authorize_default) 64 eq_refl)).
  pose proof (W (j_max_pending_authorizations js) _ (D (max_pending Authorize_default) 64 eq_refl)).
  split; cbn [limits backpressure keepalive Config.authorize observability Config.cluster max_payload_bytes max_connections_per_ip max_rooms_per_connection ping_interval pong_timeout timeout max_pending];
    try lia; try (by apply (set_number_range 32)).
  - rewrite Hs. by apply W.
  - intros cc ->. destruct (j_cluster js) as [jc|]; [|done]. by destruct (Hcl jc Hjs E eq_refl) as (cc' & [= <-] & ? & _).
Qed.

(** C14. A configuration from JS, whatever numbers it holds (fractions, negative
    numbers, infinities, NaN): when [to_config] accepts it, every field is within
    the width of its Rust type and usable by the engine, the node id is exactly
    the integer given, ports are 16-bit and the secret is not empty; validation
    cannot fail again, so [Engine::start] accepts it; an integer in range is kept
    exactly, and an omitted field is the default. *)
Theorem js_config_typed js c {SL : Type -> Type} {slab_ops : Slab SL} {Ch : Type -> Type} {mpsc_ops : Mpsc Ch} {M : Type} `{Mesh M} (mesh : option M) :
  js_ok js -> to_config parse_net js = inl c ->
  config_ok c /\ (exists e : Engine.t SL Ch M Net, Engine.start parse_net c mesh = inl e) /\
  (forall v z, j_max_connections_per_ip js = Some v -> is_int v z -> u32_ok z -> max_connections_per_ip (limits c) = z) /\
  (forall v z, j_max_payload_bytes js = Some v -> is_int v z -> u64_ok z -> max_payload_bytes (limits c) = z) /\
  (forall v z, j_high_water_mark js = Some v -> is_int v z -> u64_ok z -> high_water_mark (backpressure c) = z) /\
  (forall jc, j_cluster js = Some jc -> exists cc, Config.cluster c = Some cc /\ is_int (jc_node_id jc) (cc_node_id cc)) /\
  (j_max_connections_per_ip js = None -> max_connections_per_ip (limits c) = max_connections_per_ip Limits_default) /\
  (j_cluster js = None -> Config.cluster c = None).
Proof.
  intros Hjs E. split; [by eapply to_config_ok|]. destruct (to_config_inv _ _ E) as (Hv & Hl & Hh & _ & _ & _ & Hc). split_and!.
  - unfold Engine.start. rewrite Hv. destruct (validate_ok _ _ Hv) as (_ & _ & _ & _ & _ & _ & (r & ->) & _). eauto.
  - intros v z Ev Hz Hu. rewrite Hl. cbn [max_connections_per_ip]. rewrite Ev. by apply as_unsigned_exact.
  - intros v z Ev Hz Hu. rewrite Hl. cbn [max_payload_bytes]. rewrite Ev. by apply as_unsigned_exact.
  - intros v z Ev Hz Hu. rewrite Hh, Ev. by apply as_unsigned_exact.
  - intros jc Ej. destruct (to_config_cluster _ _ _ Hjs E Ej) as (cc & ? & _ & ?). eauto.
  - intros Ev. by rewrite Hl, Ev.
  - intros Ej. by rewrite Ej in Hc.
Qed.
End ConfigFacts.

Definition demo_js : JsConfig :=
  {| j_max_payload_bytes := Some (S754_infinity false); j_high_water_mark := None; j_backpressure_policy := Some (str "drop-oldest");
     j_ping_interval_ms := Some (fdiv (f64_of 3001) (f64_of 2)); j_pong_timeout_ms := None; j_max_connections_per_ip := Some (f64_of 3);
     j_max_rooms_per_connection := Some S754_nan; j_trust_proxy_mode := None; j_trust_proxy_cidrs := None; j_authorize_timeout_ms := None;
     j_max_pending_authorizations := None; j_sampler_ms := Some (fopp f1);
     j_cluster := Some {| jc_node_id := f64_of 7; jc_listen := str "127.0.0.1:7000"; jc_seeds := [str "[::1]:7001"]; jc_secret := str "s"; jc_cluster_name := None |} |}.

Lemma js_config_typed_witness :
  exists c, to_config demo_parse demo_js = inl c /\ max_connections_per_ip (limits c) = 3 /\ config_ok c.
Proof.
  destruct (to_config demo_parse demo_js) as [c|] eqn:E; [|vm_compute in E; discriminate E]. exists c. split; [done|].
  destruct (js_config_typed demo_parse demo_js c (SL := VecSlab.t) (Ch := ListChan.t) (M := MeshNode.t bool) (Some demo_node)) as (Hok & _ & Hip & _).
  - intros jc [= <-]. vm_compute. reflexivity.
  - exact E.
  - split; [|exact Hok]. apply (Hip (f64_of 3) 3); [reflexivity|vm_compute; reflexivity|by split].
Defined.

(** A negative or fractional limit becomes 0, which means no limit. *)
Lemma negative_cap_is_unlimited : exists c, to_config demo_parse
    {| j_max_payload_bytes := None; j_high_water_mark := None; j_backpressure_policy := None; j_ping_interval_ms := None; j_pong_timeout_ms := None;
       j_max_connections_per_ip := Some (fdiv f1 (f64_of 2)); j_max_rooms_per_connection := Some (fopp f1); j_trust_proxy_mode := None;
       j_trust_proxy_cidrs := None; j_authorize_timeout_ms := None; j_max_pending_authorizations := None; j_sampler_ms := None; j_cluster := None |} = inl c /\
  max_connections_per_ip (limits c) = 0 /\ max_rooms_per_connection (limits c) = 0.
Proof. eexists. split; [vm_compute; reflexivity|]. by split. Qed.

(** The mesh address must be a literal IP address: a host name is refused. *)
Lemma host_name_refused : parse_socket_addr (str "localhost:7000") = None /\ parse_socket_addr (str "127.0.0.1:7000") <> None.
Proof. by split; vm_compute. Qed.

(** ** Calls from JS interleaved with the engine *)

Section BindingRun.
Context {SL : Type -> Type} {slab_ops : Slab SL} {Ch : Type -> Type} {mpsc_ops : Mpsc Ch}.
Context {M : Type} `{Mesh M}.
Context {Net : Type} (parse_net : rstring -> Net + rstring) (net_contains : Net -> IpAddr -> bool).
Import BeamEngine.
Abbreviation Bind := (BeamEngine.t SL Ch M Net).
Implicit Types (b : Bind).

(** The calls that change something. *)
Inductive Cmd :=
  | CListen (bind : Z -> Z + rstring) (local_addr : Z + rstring) (port : Z)
  | CSend (hi lo : Z) (data : bytes) (is_binary : bool) | CSendText (hi lo : Z) (data : rstring)
  | CSendNode (node hi lo : Z) (data : bytes) (is_binary : bool)
  | CCloseConnection (hi lo code : Z) (reason : rstring)
  | CJoin (hi lo : Z) (room : rstring) | CLeave (hi lo : Z) (room : rstring)
  | CRoom (room : rstring) (data : bytes) (is_binary : bool) (except remote : list Z) | CTextRoom (room data : rstring) (except remote : list Z)
  | CAll (data : bytes) (is_binary : bool) (except remote : list Z) | CTextAll (data : rstring) (except remote : list Z)
  | CUser (user : rstring) (data : bytes) (is_binary : bool) (except remote : list Z) | CTextUser (user data : rstring) (except remote : list Z)
  | CResolve (hi lo : Z) (accept : bool) (user_id : rstring) (has_user_id : bool) (code : Z)
  | CDisconnectSocket (hi lo code : Z) | CDisconnectUser (user : rstring) (code : Z) | CCloseRoom (room : rstring)
  | CAttach (remote_addr url : rstring) (headers : list rstring) (dup : option Z) (nonblocking running registered : bool) (fds : gset Z)
  | CClose (timeout_ms : f64) | CShutdown.

(** What a call answers. *)
Inductive Answer :=
  | Code (n : Z) | Flag (x : bool) | Fanout (r : JsFanout) | Done | Count (n : f64) | Attached (r : JsAttachResult) | Failed (e : JsError).
Definition answer {R} (val : R -> Answer) (r : (R + JsError) * Bind) : Answer * option Gate.AdmittedUpgrade * Bind :=
  (match r.1 with inl x => val x | inr e => Failed e end, None, r.2).
Definition counted (r : f64 * Bind) : Answer * option Gate.AdmittedUpgrade * Bind := (Count r.1, None, r.2).

(** A call: its answer, the upgrade it handed to the engine, and the binding. *)
Definition run_cmd (cmd : Cmd) b : Answer * option Gate.AdmittedUpgrade * Bind :=
  match cmd with
  | CListen bind la port => answer Code (listen bind la port b)
  | CSend hi lo data bin => answer Code (send hi lo data bin b)
  | CSendText hi lo data => answer Code (send_text hi lo data b)
  | CSendNode node hi lo data bin => answer Code (send_node node hi lo data bin b)
  | CCloseConnection hi lo code reason => answer Flag (close_connection hi lo code reason b)
  | CJoin hi lo room => answer Code (join hi lo room b)
  | CLeave hi lo room => answer Code (leave hi lo room b)
  | CRoom room data bin ex rex => answer Fanout (broadcast_room room data bin ex rex b)
  | CTextRoom room data ex rex => answer Fanout (broadcast_text_room room data ex rex b)
  | CAll data bin ex rex => answer Fanout (broadcast_all data bin ex rex b)
  | CTextAll data ex rex => answer Fanout (broadcast_text_all data ex rex b)
  | CUser user data bin ex rex => answer Fanout (broadcast_user user data bin ex rex b)
  | CTextUser user data ex rex => answer Fanout (broadcast_text_user user data ex rex b)
  | CResolve hi lo accept uid has code => answer (fun _ => Done) (resolve_authorize hi lo accept uid has code b)
  | CDisconnectSocket hi lo code => counted (disconnect_socket hi lo code b)
  | CDisconnectUser user code => counted (disconnect_user user code b)
  | CCloseRoom room => counted (close_room room b)
  | CAttach addr url headers dup nb running registered fds =>
      let '(r, stream, _, b') := attach net_contains addr url headers dup nb running registered fds b in
      (match r with inl x => Attached x | inr e => Failed e end, s ← stream; s.2, b')
  | CClose timeout_ms => (Done, None, (close timeout_ms b).2)
  | CShutdown => (Done, None, (shutdown b).2)
  end.

(** napi passes a [u32] for each half of an id. *)
Definition cmd_ok (cmd : Cmd) : Prop :=
  match cmd with
  | CSend hi lo _ _ | CSendText hi lo _ | CSendNode _ hi lo _ _ | CCloseConnection hi lo _ _ | CJoin hi lo _ | CLeave hi lo _
  | CResolve hi lo _ _ _ _ | CDisconnectSocket hi lo _ => u32_ok hi /\ u32_ok lo
  | _ => True
  end.

(** The binding, with what runs around its engine. *)
Abbreviation EngSys := (Sys (SL := SL) (Ch := Ch) (M := M) (Net := Net)).
Record BSys := { bound : Bind; b_sys : EngSys }.
Definition sys_of (c : Core SL Ch M Net) (bs : BSys) : EngSys := set_eng (core c) (b_sys bs).

(** What a call adds around the engine: the upgrade it handed over, and what the
    statements keep (a closed room, a room changed while a change of it was not
    yet published). *)
Definition around (cmd : Cmd) (up : option Gate.AdmittedUpgrade) b (s : EngSys) : EngSys :=
  match engine b with
  | None => s
  | Some c =>
      set_upgrades (upgrades s ++ option_list up)
        match cmd with
        | CJoin hi lo room => add_overlaps (overlaps s (changed (Engine.join (conn_id hi lo) room (core c)).1 room)) s
        | CLeave hi lo room => add_overlaps (overlaps s (changed (Engine.leave (conn_id hi lo) room (core c)).1 room)) s
        | CCloseRoom room => add_closed room s
        | _ => s
        end
  end.

(** Between calls the engine's own steps are taken. *)
Inductive bstep (bs : BSys) : BSys -> Prop :=
  | BCall cmd ans up b' : cmd_ok cmd -> run_cmd cmd (bound bs) = (ans, up, b') ->
      bstep bs {| bound := b'; b_sys := around cmd up (bound bs) (b_sys bs) |}
  | BTask c s' : engine (bound bs) = Some c -> eng_step net_contains (sys_of c bs) s' ->
      bstep bs {| bound := {| engine := Some (set_core (eng s') c); drain := drain (bound bs) |}; b_sys := s' |}.

(** ** What each call is meant to do *)

(** The connection id a pair of halves stands for. *)
Definition id_of (hi lo : Z) : ConnectionId := hi * 2 ^ 32 + lo.

(** The call is this operation of the engine, with its result. *)
Definition engine_call {R} (f : Engine.t SL Ch M Net -> R * Engine.t SL Ch M Net) (val : R -> Answer) (c c' : Core SL Ch M Net)
    (ans : Answer) (up : option Gate.AdmittedUpgrade) : Prop :=
  exists r e, f (core c) = (r, e) /\ c' = set_core e c /\ ans = val r /\ up = None.

(** A call that leaves the engine in place. *)
Definition performs (cmd : Cmd) (c c' : Core SL Ch M Net) (ans : Answer) (up : option Gate.AdmittedUpgrade) : Prop :=
  match cmd with
  | CListen bind la port => core c' = core c /\ authorizer c' = authorizer c /\ up = None /\
      match listening c, bind (wrap 16 port), la with
      | true, _, _ => ans = Failed (EngineFailed EAlreadyListening) /\ listening c' = true
      | false, inr err, _ | false, inl _, inr err => ans = Failed (EngineFailed (EIo err)) /\ listening c' = false
      | false, inl _, inl actual => ans = Code actual /\ listening c' = true
      end
  | CSend hi lo data bin => engine_call (Engine.send (id_of hi lo) data bin) (fun r => Code (status_code r)) c c' ans up
  | CSendText hi lo data => engine_call (Engine.send (id_of hi lo) data false) (fun r => Code (status_code r)) c c' ans up
  | CSendNode node hi lo data bin =>
      engine_call (Engine.send_node {| nc_node := wrap 16 node; nc_local := id_of hi lo |} data bin) (fun r => Code (status_code r)) c c' ans up
  | CCloseConnection hi lo code reason => engine_call (Engine.close_connection (id_of hi lo) (wrap 16 code) reason) Flag c c' ans up
  | CJoin hi lo room => engine_call (Engine.join (id_of hi lo) room) (fun r => Code (membership_code r)) c c' ans up
  | CLeave hi lo room => engine_call (Engine.leave (id_of hi lo) room) (fun r => Code (membership_code r)) c c' ans up
  | CRoom room data bin ex rex =>
      engine_call (Engine.broadcast_room room data bin (except_ids ex) (except_ids_remote rex)) (fun r => Fanout (js_fanout r)) c c' ans up
  | CTextRoom room data ex rex =>
      engine_call (Engine.broadcast_room room data false (except_ids ex) (except_ids_remote rex)) (fun r => Fanout (js_fanout r)) c c' ans up
  | CAll data bin ex rex => engine_call (Engine.broadcast_all data bin (except_ids ex) (except_ids_remote rex)) (fun r => Fanout (js_fanout r)) c c' ans up
  | CTextAll data ex rex => engine_call (Engine.broadcast_all data false (except_ids ex) (except_ids_remote rex)) (fun r => Fanout (js_fanout r)) c c' ans up
  | CUser user data bin ex rex =>
      engine_call (Engine.broadcast_user user data bin (except_ids ex) (except_ids_remote rex)) (fun r => Fanout (js_fanout r)) c c' ans up
  | CTextUser user data ex rex =>
      engine_call (Engine.broadcast_user user data false (except_ids ex) (except_ids_remote rex)) (fun r => Fanout (js_fanout r)) c c' ans up
  | CResolve hi lo accept uid has code => core c' = core c /\ ans = Done /\ up = None /\
      authorizer c' = Authorizer.resolve (id_of hi lo) (if accept then OutAccept (if has then Some uid else None) else OutReject (wrap 16 code)) <$> authorizer c
  | CDisconnectSocket hi lo code => engine_call (Engine.admin_disconnect_socket (id_of hi lo) (wrap 16 code)) (fun n => Count (f64_of n)) c c' ans up
  | CDisconnectUser user code => engine_call (Engine.admin_disconnect_user user (wrap 16 code)) (fun n => Count (f64_of n)) c c' ans up
  | CCloseRoom room => engine_call (Engine.admin_close_room room) (fun n => Count (f64_of n)) c c' ans up
  | CAttach addr url headers dup nb running registered fds =>
      match parse_ip addr, dup, nb with
      | None, _, _ => ans = Failed (BadRemoteAddr addr) /\ c' = c /\ up = None
      | Some peer, Some _, true =>
          exists o e, Engine.attach net_contains running registered peer (pair_headers headers) url (core c) = (o, up, e) /\ c' = set_core e c /\
            ans = Attached match o with
                           | Accepted => {| at_accepted := true; at_status := f0 |}
                           | Rejected st => {| at_accepted := false; at_status := f64_of st |}
                           end
      | _, _, _ => ans = Attached {| at_accepted := false; at_status := f64_of 500 |} /\ c' = c /\ up = None
      end
  | CClose _ | CShutdown => False
  end.

(** What is left to a call once the engine is gone. *)
Definition gone : Bind := {| engine := None; drain := false |}.
Definition answer_gone (cmd : Cmd) : Answer :=
  match cmd with
  | CDisconnectSocket _ _ _ | CDisconnectUser _ _ | CCloseRoom _ => Count f0
  | CClose _ | CShutdown => Done
  | _ => Failed EngineDown
  end.

(** The contract of a call: [close] hands the engine to its task and [shutdown]
    asks every connection to close, and either way the binding has no engine any
    more; every other call performs its operation. *)
Definition call_spec (cmd : Cmd) b (ans : Answer) (up : option Gate.AdmittedUpgrade) b' : Prop :=
  match engine b with
  | None => ans = answer_gone cmd /\ up = None /\ b' = b
  | Some c =>
      match cmd with
      | CClose timeout_ms => ans = Done /\ up = None /\ b' = gone /\ ct_engine (close timeout_ms b).1 = Some c
      | CShutdown => ans = Done /\ up = None /\ b' = gone /\ (shutdown b).1 = Some (Engine.shutdown (core c))
      | _ => exists c', b' = {| engine := Some c'; drain := drain b |} /\ performs cmd c c' ans up
      end
  end.

Lemma halves_id hi lo : u32_ok hi -> u32_ok lo -> halves_to_u64 hi lo = id_of hi lo.
Proof. unfold halves_to_u64, u32_ok, id_of. intros Hh Hl. rewrite Z.shiftl_mul_pow2, lor_disjoint_add by lia. done. Qed.
Lemma id_of_ok hi lo : u32_ok hi -> u32_ok lo -> u64_ok (id_of hi lo).
Proof. unfold id_of, u32_ok, u64_ok. lia. Qed.

Lemma command_spec {R S} (conv : R -> S) (val : S -> Answer) f b c ans up b' : engine b = Some c ->
  answer val (command conv f b) = (ans, up, b') ->
  exists c', b' = {| engine := Some c'; drain := drain b |} /\ engine_call f (fun r => val (conv r)) c c' ans up.
Proof.
  intros Hc E. unfold answer, command, with_engine in E. rewrite Hc in E. destruct (f (core c)) as [x e] eqn:Ef. injection E as <- <- <-.
  exists (set_core e c). split; [done|]. by exists x, e.
Qed.

Lemma admin_spec f b c ans up b' : engine b = Some c -> counted (admin f b) = (ans, up, b') ->
  exists c', b' = {| engine := Some c'; drain := drain b |} /\ engine_call f (fun n => Count (f64_of n)) c c' ans up.
Proof.
  intros Hc E. unfold counted, admin in E. rewrite Hc in E. destruct (f (core c)) as [x e] eqn:Ef. injection E as <- <- <-.
  exists (set_core e c). split; [done|]. by exists x, e.
Qed.

Lemma bind_eta b c : engine b = Some c -> b = {| engine := Some c; drain := drain b |}.
Proof. destruct b. cbn. by intros ->. Qed.

Lemma attach_call_spec addr url headers dup nb running registered fds b c ans up b' : engine b = Some c ->
  run_cmd (CAttach addr url headers dup nb running registered fds) b = (ans, up, b') ->
  exists c', b' = {| engine := Some c'; drain := drain b |} /\ performs (CAttach addr url headers dup nb running registered fds) c c' ans up.
Proof.
  intros Hc E. pose proof (bind_eta _ _ Hc) as Hb. cbn [run_cmd] in E. unfold attach in E. rewrite Hc in E. cbn [performs].
  destruct (parse_ip addr) as [peer|]; [|injection E as <- <- <-; by exists c]. destruct dup as [fd|]; [|injection E as <- <- <-; by exists c].
  cbn [FdHandoffGuard.into_std_stream FdHandoffGuard.new] in E. destruct nb; [|injection E as <- <- <-; by exists c]. cbn [negb] in E.
  destruct (Engine.attach net_contains running registered peer (pair_headers headers) url (core c)) as [[o up'] e] eqn:Ea.
  assert (Hup : (s ← (if running && registered then Some (fd, up') else None); s.2) = up').
  { unfold Engine.attach in Ea. destruct running; [|by injection Ea as _ <- _]. destruct registered; [done|by injection Ea as _ <- _]. }
  cbn [FdHandoffGuard.fd] in E. injection E as <- <- <-. exists (set_core e c). split; [done|]. exists o, e. rewrite Hup. split_and!; [done|done|]. by destruct o.
Qed.

Lemma run_cmd_spec cmd b ans up b' : (engine b = None -> b = gone) -> cmd_ok cmd -> run_cmd cmd b = (ans, up, b') -> call_spec cmd b ans up b'.
Proof.
  intros Hg Hok E. unfold call_spec. destruct (engine b) as [c|] eqn:Hc.
  2: { rewrite (Hg eq_refl) in *. destruct cmd; cbn in E; by injection E as <- <- <-. }
  destruct cmd; cbn [cmd_ok] in Hok; try (pose proof (halves_id _ _ (proj1 Hok) (proj2 Hok)) as Hid);
    try (cbn [run_cmd performs] in *; unfold send, send_text, send_node, close_connection, join, leave, disconnect_socket, conn_id in E; rewrite ?Hid in E;
         first [eapply command_spec; [done|exact E] | eapply admin_spec; [done|exact E]]).
  - cbn [run_cmd performs] in *. unfold listen in E. rewrite Hc in E. destruct (Listener.listen _ _ _) as [[r sp] l] eqn:El. injection E as <- <- <-.
    eexists. split; [done|]. cbn [core authorizer listening]. unfold Listener.listen in El.
    split_and!; [done|done|done|]. destruct (listening c), (bind (wrap 16 port)), local_addr; by injection El as <- <- <-.
  - cbn [run_cmd performs] in *. unfold resolve_authorize, with_engine in E. rewrite Hc, Hid in E. injection E as <- <- <-. eexists. split; [done|]. done.
  - by eapply attach_call_spec.
  - injection E as <- <- <-. by rewrite <-Hc.
  - cbn in E. injection E as <- <- <-. cbn. by rewrite Hc.
Qed.

(** ** Each call is a sequence of engine steps *)

Lemma around_plain cmd c b s e : engine b = Some c -> match cmd with CJoin _ _ _ | CLeave _ _ _ | CCloseRoom _ => False | _ => True end ->
  set_eng e (around cmd None b s) = set_eng e s.
Proof. intros Hc Hk. unfold around. rewrite Hc. destruct cmd; try done; unfold set_upgrades; cbn; rewrite app_nil_r; by destruct s. Qed.

Lemma performs_steps cmd c c' ans up bs : cmd_ok cmd -> engine (bound bs) = Some c -> performs cmd c c' ans up ->
  rtc (eng_step net_contains) (sys_of c bs) (set_eng (core c') (around cmd up (bound bs) (b_sys bs))).
Proof.
  intros Hok Hc Hp.
  assert (Hone : forall e, (match cmd with CJoin _ _ _ | CLeave _ _ _ | CCloseRoom _ => False | _ => True end) -> up = None -> traffic (core c) e ->
    rtc (eng_step net_contains) (sys_of c bs) (set_eng e (around cmd up (bound bs) (b_sys bs)))).
  { intros e Hk -> Ht. rewrite (around_plain cmd c) by done. apply rtc_once. exact (ETraffic _ (sys_of c bs) e Ht). }
  assert (Hidle : (match cmd with CJoin _ _ _ | CLeave _ _ _ | CCloseRoom _ => False | _ => True end) -> up = None -> core c' = core c ->
    rtc (eng_step net_contains) (sys_of c bs) (set_eng (core c') (around cmd up (bound bs) (b_sys bs)))).
  { intros Hk -> ->. rewrite (around_plain cmd c) by done. apply rtc_refl. }
  destruct cmd; cbn [performs cmd_ok] in *; try (by destruct Hp as (? & ? & ? & ?); apply Hidle);
    try (destruct Hp as (r & e & Ef & -> & _ & Hu); cbn [core set_core]; apply Hone; [done|done|]; change e with (r, e).2; rewrite <-Ef; constructor); try done.
  - destruct Hp as (r & e & Ef & -> & _ & ->). cbn [core set_core]. unfold around. rewrite Hc. unfold conn_id. destruct Hok as [Hh Hl]. rewrite halves_id by done.
    pose proof (join_steps net_contains (sys_of c bs) (id_of hi lo) room (id_of_ok _ _ Hh Hl)) as Hs. cbn [sys_of eng set_eng] in Hs. rewrite Ef in *. cbn [fst snd] in Hs.
    unfold set_upgrades. cbn. rewrite app_nil_r. exact Hs.
  - destruct Hp as (r & e & Ef & -> & _ & ->). cbn [core set_core]. unfold around. rewrite Hc. unfold conn_id. destruct Hok as [Hh Hl]. rewrite halves_id by done.
    pose proof (leave_steps net_contains (sys_of c bs) (id_of hi lo) room (id_of_ok _ _ Hh Hl)) as Hs. cbn [sys_of eng set_eng] in Hs. rewrite Ef in *. cbn [fst snd] in Hs.
    unfold set_upgrades. cbn. rewrite app_nil_r. exact Hs.
  - destruct Hp as (r & e & Ef & -> & _ & ->). cbn [core set_core]. unfold around. rewrite Hc. unfold set_upgrades. cbn. rewrite app_nil_r.
    apply rtc_once. pose proof (ECloseRoom net_contains (sys_of c bs) room) as Hs. cbn [sys_of eng set_eng] in Hs. by rewrite Ef in Hs.
  - destruct (parse_ip remote_addr) as [peer|]; [|by apply Hidle; destruct Hp as (_ & -> & ?)].
    destruct dup as [fd|]; [|by apply Hidle; destruct Hp as (_ & -> & ?)]. destruct nonblocking; [|by apply Hidle; destruct Hp as (_ & -> & ?)].
    destruct Hp as (o & e & Ea & -> & _). cbn [core set_core]. unfold around. rewrite Hc. apply rtc_once.
    exact (EAttach _ (sys_of c bs) _ _ _ _ _ o up e Ea).
Qed.

(** C9. The binding refines the engine.  From any accepted JS configuration and
    over any interleaving of calls from JS with the engine's own steps: as long as
    the engine is there, its state is reached by the engine's own steps from its
    start, with a configuration whose fields are in range, so what is proved of
    the engine holds of it.  Each call performs its own operation of the engine
    on the connection its two halves name, and answers with that operation's
    result; [close] hands the engine to its task and [shutdown] asks every
    connection to close, and after either the binding has no engine: it never
    comes back, every command fails with the shut-down error, the admin verbs
    answer 0, [close] and [shutdown] do nothing, and no call changes anything. *)
Theorem binding_refines_engine js has_authorize mesh b0 c0 bs :
  js_ok js -> BeamEngine.start parse_net js has_authorize mesh None None None = inl b0 ->
  engine b0 = Some c0 -> rtc bstep {| bound := b0; b_sys := sys_start (core c0) |} bs ->
  exists cfg, to_config parse_net js = inl cfg /\ config_ok cfg /\ Engine.start parse_net cfg mesh = inl (core c0) /\
    match engine (bound bs) with
    | Some c => rtc (eng_step net_contains) (sys_start (core c0)) (sys_of c bs)
    | None => bound bs = gone
    end /\
    (forall cmd ans up b', cmd_ok cmd -> run_cmd cmd (bound bs) = (ans, up, b') -> call_spec cmd (bound bs) ans up b').
Proof.
  intros Hjs Hst Hc0 Hr. unfold start in Hst. destruct (to_config parse_net js) as [cfg|] eqn:Ec; [|done].
  destruct (Engine.start parse_net cfg mesh) as [e0|] eqn:Ee; [|done]. injection Hst as <-. injection Hc0 as <-. cbn [core] in *.
  assert (Hi : match engine (bound bs) with
    | Some c => rtc (eng_step net_contains) (sys_start e0) (sys_of c bs) | None => bound bs = gone end).
  { revert Hr. apply (rtc_ind_r (fun bs => match engine (bound bs) with
      | Some c => rtc (eng_step net_contains) (sys_start e0) (sys_of c bs) | None => bound bs = gone end)); [apply rtc_refl|].
    intros bs1 bs2 _ Hstep IH. destruct Hstep as [cmd ans up b' Hok Hrun|c s' Hc Hs].
    - apply run_cmd_spec in Hrun; [|intros Hn; by rewrite Hn in IH|done]. unfold call_spec in Hrun. cbn [bound].
      destruct (engine (bound bs1)) as [c|] eqn:Hc; [|destruct Hrun as (_ & _ & ->); by rewrite Hc].
      destruct cmd; try (by destruct Hrun as (_ & _ & -> & _)); destruct Hrun as (c' & -> & Hp); cbn [engine]; (etrans; [exact IH|]);
        by eapply performs_steps.
    - rewrite Hc in IH. cbn [bound engine]. eapply rtc_r; [exact IH|]. by destruct s'. }
  exists cfg. split_and!; [done|by eapply to_config_ok|done|done|]. intros cmd ans up b'. apply run_cmd_spec. intros Hn. by rewrite Hn in Hi.
Qed.
End BindingRun.

Section BindingWitness.
Import BeamEngine.
Abbreviation DemoBind := (BeamEngine.t VecSlab.t ListChan.t (MeshNode.t bool) (Z * Z)).

Definition demo_bind : DemoBind :=
  match start demo_parse demo_js true (Some demo_node) None None None with inl b => b | inr _ => gone end.
(** A socket is attached, then the binding is shut down. *)
Definition demo_attach_cmd : Cmd := CAttach (str "10.0.0.9") (str "/") [str "Sec-WebSocket-Key"; str "k"] (Some 9) true true true ∅.
Definition demo_attached := run_cmd demo_contains demo_attach_cmd demo_bind.

Definition demo_core : option (Core VecSlab.t ListChan.t (MeshNode.t bool) (Z * Z)) := engine demo_bind.
Definition demo_bsys (b : DemoBind) (s : Sys) : BSys := {| bound := b; b_sys := s |}.

Lemma binding_refines_engine_witness :
  length (option_list demo_attached.1.2) = 1%nat /\
  call_spec demo_contains (CJoin 0 1 (str "r")) (run_cmd demo_contains CShutdown demo_attached.2).2 (Failed EngineDown) None
    (gone (SL := VecSlab.t) (Ch := ListChan.t) (M := MeshNode.t bool) (Net := Z * Z)).
Proof.
  split; [vm_compute; reflexivity|]. destruct demo_core as [c0|] eqn:Ec; [|vm_compute in Ec; discriminate Ec].
  set (s1 := around demo_attach_cmd demo_attached.1.2 demo_bind (sys_start (core c0))).
  destruct (binding_refines_engine demo_parse demo_contains demo_js true (Some demo_node) demo_bind c0
    (demo_bsys (run_cmd demo_contains CShutdown demo_attached.2).2 (around CShutdown None demo_attached.2 s1))) as (cfg & _ & _ & _ & _ & Hcall).
  - intros jc [= <-]. vm_compute. reflexivity.
  - unfold demo_bind. destruct (start demo_parse demo_js true (Some demo_node) None None None) as [b|] eqn:E; [done|vm_compute in E; discriminate E].
  - exact Ec.
  - eapply rtc_l; [apply (BCall _ (demo_bsys demo_bind (sys_start (core c0))) demo_attach_cmd demo_attached.1.1 demo_attached.1.2 demo_attached.2); [done|]|].
    { change (demo_attached = (demo_attached.1.1, demo_attached.1.2, demo_attached.2)). by destruct demo_attached as [[] ]. }
    eapply rtc_l; [|apply rtc_refl]. apply (BCall _ (demo_bsys demo_attached.2 s1) CShutdown Done None); done.
  - apply (Hcall (CJoin 0 1 (str "r"))); [by split; split|reflexivity].
Defined.
End BindingWitness.

(** ** The attached descriptor *)

Section FdFacts.
Context {SL : Type -> Type} {slab_ops : Slab SL} {Ch : Type -> Type} {mpsc_ops : Mpsc Ch}.
Context {M : Type} `{Mesh M} {Net : Type} (net_contains : Net -> IpAddr -> bool).
Import BeamEngine.

(** A guard closes its descriptor exactly when it was not handed over. *)
Lemma guard_closes_once fd fds : fd ∈ fds ->
  FdHandoffGuard.drop (FdHandoffGuard.new fd) fds = fds ∖ {[fd]} /\
  (let '(stream, g) := FdHandoffGuard.into_std_stream (FdHandoffGuard.new fd) in stream = fd /\ FdHandoffGuard.drop g fds = fds).
Proof. by intros _. Qed.

(** [attach] leaks no descriptor: the duplicate is open afterwards exactly when it
    was handed to a task of the engine, and an accepted upgrade always was. *)
Lemma attach_fds addr url headers fd nb running registered fds (b : BeamEngine.t SL Ch M Net) r stream fds' b' :
  fd ∉ fds -> attach net_contains addr url headers (Some fd) nb running registered fds b = (r, stream, fds', b') ->
  fds' = match stream with Some (fd', _) => {[fd']} ∪ fds | None => fds end /\
  (stream = None -> forall res, r = inl res -> at_accepted res = false).
Proof.
  intros Hfd E. unfold attach in E. destruct (engine b) as [c|]; [|by simplify_eq]. destruct (parse_ip addr) as [peer|]; [|by simplify_eq].
  cbn [FdHandoffGuard.into_std_stream FdHandoffGuard.new FdHandoffGuard.fd] in E. unfold FdHandoffGuard.drop in E. cbn [FdHandoffGuard.armed] in E.
  assert (Hback : ({[fd]} ∪ fds) ∖ {[fd]} = fds) by set_solver.
  destruct nb; cbn [negb] in E; [|simplify_eq; split; [done|]; intros _ res [= <-]; done].
  destruct (Engine.attach net_contains running registered peer (pair_headers headers) url (core c)) as [[o up] e] eqn:Ea. simplify_eq.
  destruct (running && registered) eqn:Eb; [done|]. split; [exact Hback|]. intros _ res [= <-].
  unfold Engine.attach in Ea. destruct running; [|by injection Ea as <- _ _]. destruct registered; [done|by injection Ea as <- _ _].
Qed.

(** When the descriptor cannot be duplicated the status is 500 although nothing
    was written to the socket. *)
Lemma attach_500_writes_nothing addr url headers running registered fds (b : BeamEngine.t SL Ch M Net) c peer :
  engine b = Some c -> parse_ip addr = Some peer ->
  attach net_contains addr url headers None true running registered fds b = (inl {| at_accepted := false; at_status := f64_of 500 |}, None, fds, b).
Proof. intros Hc Hp. unfold attach. by rewrite Hc, Hp. Qed.

(** Ids cross as two halves and come back. *)
Lemma id_halves_roundtrip id : u64_ok id -> halves_to_u64 (id_hi id) (id_lo id) = id.
Proof.
  intros Hid. unfold id_hi. rewrite (wrap_small 32 (Z.shiftr id 32)); [by apply halves_roundtrip|].
  unfold u64_ok in Hid. rewrite Z.shiftr_div_pow2 by lia. split; [apply Z.div_pos; lia|]. apply Z.div_lt_upper_bound; lia.
Qed.
End FdFacts.
